(** * MicroCraft (full variant): a shallow embedding of the simulation core

    The development follows the Python sources under [full/]:
    [core/entities.py], [core/world.py], [core/systems.py],
    [core/selection.py] and the click handling of [main.py].

    Number model.  Python [int]s are [Z].  Python [float]s are modelled as
    exact rationals [Q]: additions, products and comparisons are those of the
    rationals, so rounding is outside the model, and a decimal literal of the
    code is the decimal it denotes.  The model and the code can therefore
    differ where two floats are compared whose exact values are equal or
    differ by less than the rounding error; the concrete runs that turn on
    such a comparison use inputs that binary floating point represents
    exactly.  The transcendental helpers
    the code calls ([math.sqrt], [math.atan2] with [math.degrees]) and the
    pseudo-random generator are parameters of the definitions that use them.

    Object model.  Entities are mutable Python objects held in the dictionary
    [World.entities]; here the dictionary is an insertion-ordered list keyed by
    the entity id, and "mutating an entity" is replacing the entry with that
    id.  References between objects (a worker's [gather_target]) are ids into
    the corresponding table of the world, so that aliasing is kept.

    Exceptions ([KeyError], [ValueError], [IndexError]) are the [None] of an
    [option] result. *)

From Stdlib Require Import ZArith QArith Qround Lqa Lia String List Bool.
From stdpp Require Import base option list gmap strings.

Open Scope Z_scope.

(** ** Python numerics *)

(** [int(x)] on a float truncates toward zero. *)
Definition py_int (q : Q) : Z := Z.quot (Qnum q) (Zpos (Qden q)).

(** [math.floor(x)]. *)
Definition py_floor (q : Q) : Z := Qfloor q.

(** [float(n)] for an integer [n]. *)
Definition py_float (n : Z) : Q := inject_Z n.

Definition Qltb (a b : Q) : bool := negb (Qle_bool b a).
Definition Qleb (a b : Q) : bool := Qle_bool a b.
Definition Qeqb (a b : Q) : bool := Qeq_bool a b.

Definition Qminimum (a b : Q) : Q := if Qleb a b then a else b.
Definition Qmaximum (a b : Q) : Q := if Qleb b a then a else b.

(** [range(lo, hi)]. *)
Definition py_range (lo hi : Z) : list Z :=
  List.map (fun i => lo + Z.of_nat i) (seq 0 (Z.to_nat (hi - lo))).

(** A position [(x, y)] of floats, and a tile [(x, y)] of ints. *)
Abbreviation Pos := (Q * Q)%type.
Abbreviation Tile := (Z * Z)%type.

Definition tile_pos (t : Tile) : Pos := (inject_Z (fst t), inject_Z (snd t)).

(** Squared Euclidean distance [dx * dx + dy * dy]. *)
Definition dist_sq (ax ay bx by_ : Q) : Q :=
  let dx := (ax - bx)%Q in
  let dy := (ay - by_)%Q in
  (dx * dx + dy * dy)%Q.

(** ** entities.py *)

(** One entry of [UNIT_STATS] (data/units.json). *)
Record UnitStat := {
  us_hp : Z;
  us_speed : Q;
  us_vision : Z;
  us_cost : Z;
  us_build_time : Q;
  us_carry_capacity : Z;
  us_damage : Z;
  us_range : Q;
  us_cooldown : Q
}.

(** One entry of [BUILDING_STATS] (data/buildings.json). *)
Record BuildingStat := {
  bs_hp : Z;
  bs_vision : Z;
  bs_cost : Z;
  bs_build_time : Q
}.

(** [Worker.state]. *)
Inductive WorkerState :=
  | idle
  | moving_to_mineral
  | gathering
  | returning
  | building.

(** Fields added by [Unit.__init__]. *)
Record UnitData := {
  speed : Q;
  u_vision : Z;
  destination : option Pos;
  path : list Pos;
  target : option Z;
  angle : Q
}.

(** Fields added by [Worker.__init__]. *)
Record WorkerData := {
  carrying : Z;
  carry_capacity : Z;
  gather_target : option Z;          (* id of a MineralPatch *)
  build_target : option (string * Q * Q);
  build_progress : Q;
  state : WorkerState;
  w_waiting_for_minerals : bool
}.

(** Fields added by [Soldier.__init__]. *)
Record SoldierData := {
  damage : Z;
  attack_range : Q;
  attack_cooldown : Q;
  cooldown_remaining : Q
}.

(** Fields added by [Building.__init__], and [build_time] of Base/Barracks. *)
Record BuildingData := {
  b_vision : Z;
  production_queue : list string;
  production_progress : Q;
  rally_point : option Pos;
  b_waiting_for_minerals : bool;
  build_time : Q
}.

(** The class of the object: Worker and Soldier are Units, Base and Barracks
    are Buildings. *)
Inductive Body :=
  | IsWorker (u : UnitData) (w : WorkerData)
  | IsSoldier (u : UnitData) (s : SoldierData)
  | IsBase (b : BuildingData)
  | IsBarracks (b : BuildingData).

(** [class Entity]. *)
Record Entity := {
  id : Z;
  team : Z;
  x : Q;
  y : Q;
  hp : Z;
  max_hp : Z;
  alive : bool;
  body : Body
}.

Definition pos (e : Entity) : Pos := (x e, y e).

(** [entity.kind]: the class name. *)
Definition kind (e : Entity) : string :=
  match body e with
  | IsWorker _ _ => "Worker"
  | IsSoldier _ _ => "Soldier"
  | IsBase _ => "Base"
  | IsBarracks _ => "Barracks"
  end.

(** [isinstance(e, Unit)], which is also [hasattr(e, 'speed')]. *)
Definition unit_data (e : Entity) : option UnitData :=
  match body e with
  | IsWorker u _ | IsSoldier u _ => Some u
  | _ => None
  end.

Definition is_unit (e : Entity) : bool :=
  match unit_data e with Some _ => true | None => false end.

Definition worker_data (e : Entity) : option WorkerData :=
  match body e with IsWorker _ w => Some w | _ => None end.

Definition is_worker (e : Entity) : bool :=
  match body e with IsWorker _ _ => true | _ => false end.

Definition soldier_data (e : Entity) : option SoldierData :=
  match body e with IsSoldier _ s => Some s | _ => None end.

Definition is_soldier (e : Entity) : bool :=
  match body e with IsSoldier _ _ => true | _ => false end.

(** [isinstance(e, Building)]. *)
Definition building_data (e : Entity) : option BuildingData :=
  match body e with
  | IsBase b | IsBarracks b => Some b
  | _ => None
  end.

Definition is_building (e : Entity) : bool :=
  match building_data e with Some _ => true | None => false end.

Definition is_base (e : Entity) : bool :=
  match body e with IsBase _ => true | _ => false end.

(** [entity.vision] (every class defines it, so the default of
    [getattr(entity, 'vision', 5)] is never used). *)
Definition vision (e : Entity) : Z :=
  match body e with
  | IsWorker u _ | IsSoldier u _ => u_vision u
  | IsBase b | IsBarracks b => b_vision b
  end.

(** *** Field assignment *)

Definition set_body (bd : Body) (e : Entity) : Entity :=
  {| id := id e; team := team e; x := x e; y := y e; hp := hp e;
     max_hp := max_hp e; alive := alive e; body := bd |}.

Definition set_xy (nx ny : Q) (e : Entity) : Entity :=
  {| id := id e; team := team e; x := nx; y := ny; hp := hp e;
     max_hp := max_hp e; alive := alive e; body := body e |}.

Definition map_unit (f : UnitData -> UnitData) (e : Entity) : Entity :=
  match body e with
  | IsWorker u w => set_body (IsWorker (f u) w) e
  | IsSoldier u s => set_body (IsSoldier (f u) s) e
  | _ => e
  end.

Definition map_worker (f : WorkerData -> WorkerData) (e : Entity) : Entity :=
  match body e with
  | IsWorker u w => set_body (IsWorker u (f w)) e
  | _ => e
  end.

Definition map_soldier (f : SoldierData -> SoldierData) (e : Entity) : Entity :=
  match body e with
  | IsSoldier u s => set_body (IsSoldier u (f s)) e
  | _ => e
  end.

Definition map_building (f : BuildingData -> BuildingData) (e : Entity) : Entity :=
  match body e with
  | IsBase b => set_body (IsBase (f b)) e
  | IsBarracks b => set_body (IsBarracks (f b)) e
  | _ => e
  end.

Definition u_set_destination (d : option Pos) (u : UnitData) : UnitData :=
  {| speed := speed u; u_vision := u_vision u; destination := d;
     path := path u; target := target u; angle := angle u |}.

Definition u_set_path (p : list Pos) (u : UnitData) : UnitData :=
  {| speed := speed u; u_vision := u_vision u; destination := destination u;
     path := p; target := target u; angle := angle u |}.

Definition u_set_target (t : option Z) (u : UnitData) : UnitData :=
  {| speed := speed u; u_vision := u_vision u; destination := destination u;
     path := path u; target := t; angle := angle u |}.

Definition u_set_angle (a : Q) (u : UnitData) : UnitData :=
  {| speed := speed u; u_vision := u_vision u; destination := destination u;
     path := path u; target := target u; angle := a |}.

Definition w_set_carrying (c : Z) (w : WorkerData) : WorkerData :=
  {| carrying := c; carry_capacity := carry_capacity w;
     gather_target := gather_target w; build_target := build_target w;
     build_progress := build_progress w; state := state w;
     w_waiting_for_minerals := w_waiting_for_minerals w |}.

Definition w_set_gather_target (g : option Z) (w : WorkerData) : WorkerData :=
  {| carrying := carrying w; carry_capacity := carry_capacity w;
     gather_target := g; build_target := build_target w;
     build_progress := build_progress w; state := state w;
     w_waiting_for_minerals := w_waiting_for_minerals w |}.

Definition w_set_build_target (b : option (string * Q * Q)) (w : WorkerData)
  : WorkerData :=
  {| carrying := carrying w; carry_capacity := carry_capacity w;
     gather_target := gather_target w; build_target := b;
     build_progress := build_progress w; state := state w;
     w_waiting_for_minerals := w_waiting_for_minerals w |}.

Definition w_set_state (s : WorkerState) (w : WorkerData) : WorkerData :=
  {| carrying := carrying w; carry_capacity := carry_capacity w;
     gather_target := gather_target w; build_target := build_target w;
     build_progress := build_progress w; state := s;
     w_waiting_for_minerals := w_waiting_for_minerals w |}.

Definition w_set_waiting (b : bool) (w : WorkerData) : WorkerData :=
  {| carrying := carrying w; carry_capacity := carry_capacity w;
     gather_target := gather_target w; build_target := build_target w;
     build_progress := build_progress w; state := state w;
     w_waiting_for_minerals := b |}.

Definition s_set_cooldown_remaining (c : Q) (s : SoldierData) : SoldierData :=
  {| damage := damage s; attack_range := attack_range s;
     attack_cooldown := attack_cooldown s; cooldown_remaining := c |}.

Definition b_set_queue (q : list string) (b : BuildingData) : BuildingData :=
  {| b_vision := b_vision b; production_queue := q;
     production_progress := production_progress b;
     rally_point := rally_point b;
     b_waiting_for_minerals := b_waiting_for_minerals b;
     build_time := build_time b |}.

Definition b_set_progress (p : Q) (b : BuildingData) : BuildingData :=
  {| b_vision := b_vision b; production_queue := production_queue b;
     production_progress := p;
     rally_point := rally_point b;
     b_waiting_for_minerals := b_waiting_for_minerals b;
     build_time := build_time b |}.

Definition b_set_waiting (w : bool) (b : BuildingData) : BuildingData :=
  {| b_vision := b_vision b; production_queue := production_queue b;
     production_progress := production_progress b;
     rally_point := rally_point b;
     b_waiting_for_minerals := w;
     build_time := build_time b |}.

(** [Entity.take_damage]. *)
Definition take_damage (amount : Z) (e : Entity) : Entity :=
  let hp1 := hp e - amount in
  if hp1 <=? 0 then
    {| id := id e; team := team e; x := x e; y := y e; hp := 0;
       max_hp := max_hp e; alive := false; body := body e |}
  else
    {| id := id e; team := team e; x := x e; y := y e; hp := hp1;
       max_hp := max_hp e; alive := alive e; body := body e |}.

(** *** class Building *)

Module Building.

Definition MAX_QUEUE_SIZE : nat := 5.

(** [current_production]: the head of the queue, or [None]. *)
Definition current_production (b : BuildingData) : option string :=
  head (production_queue b).

(** [queue_production]: returns the building after the call and the
    boolean the method returns. *)
Definition queue_production (unit_type : string) (b : BuildingData)
  : BuildingData * bool :=
  if (length (production_queue b) <? MAX_QUEUE_SIZE)%nat then
    (b_set_queue (production_queue b ++ [unit_type]) b, true)
  else (b, false).

(** [complete_production]: pops the head and resets the progress. *)
Definition complete_production (b : BuildingData)
  : BuildingData * option string :=
  match production_queue b with
  | unit_type :: rest =>
      (b_set_progress 0 (b_set_queue rest b), Some unit_type)
  | [] => (b, None)
  end.

End Building.

(** [Base.start_production] and [Barracks.start_production], on an entity. *)
Definition start_production (e : Entity) : option (Entity * bool) :=
  match body e with
  | IsBase b =>
      let '(b', ok) := Building.queue_production "Worker" b in
      Some (set_body (IsBase b') e, ok)
  | IsBarracks b =>
      let '(b', ok) := Building.queue_production "Soldier" b in
      Some (set_body (IsBarracks b') e, ok)
  | _ => None
  end.

(** The constructors, and the factory [create_entity]. *)
Section Constructors.

Variable UNIT_STATS : gmap string UnitStat.
Variable BUILDING_STATS : gmap string BuildingStat.

Definition new_unit_data (st : UnitStat) : UnitData :=
  {| speed := us_speed st; u_vision := us_vision st; destination := None;
     path := []; target := None; angle := 0 |}.

Definition new_entity (entity_id team_ : Z) (p : Pos) (hp_ : Z) (bd : Body)
  : Entity :=
  {| id := entity_id; team := team_; x := fst p; y := snd p; hp := hp_;
     max_hp := hp_; alive := true; body := bd |}.

Definition new_Worker (entity_id team_ : Z) (p : Pos) : option Entity :=
  st ← UNIT_STATS !! "Worker";
  Some (new_entity entity_id team_ p (us_hp st)
          (IsWorker (new_unit_data st)
             {| carrying := 0; carry_capacity := us_carry_capacity st;
                gather_target := None; build_target := None;
                build_progress := 0; state := idle;
                w_waiting_for_minerals := false |})).

Definition new_Soldier (entity_id team_ : Z) (p : Pos) : option Entity :=
  st ← UNIT_STATS !! "Soldier";
  Some (new_entity entity_id team_ p (us_hp st)
          (IsSoldier (new_unit_data st)
             {| damage := us_damage st; attack_range := us_range st;
                attack_cooldown := us_cooldown st;
                cooldown_remaining := 0 |})).

Definition new_building_data (st : BuildingStat) (bt : Q) : BuildingData :=
  {| b_vision := bs_vision st; production_queue := [];
     production_progress := 0; rally_point := None;
     b_waiting_for_minerals := false; build_time := bt |}.

Definition new_Base (entity_id team_ : Z) (p : Pos) : option Entity :=
  st ← BUILDING_STATS !! "Base";
  ws ← UNIT_STATS !! "Worker";
  Some (new_entity entity_id team_ p (bs_hp st)
          (IsBase (new_building_data st (us_build_time ws)))).

Definition new_Barracks (entity_id team_ : Z) (p : Pos) : option Entity :=
  st ← BUILDING_STATS !! "Barracks";
  ss ← UNIT_STATS !! "Soldier";
  Some (new_entity entity_id team_ p (bs_hp st)
          (IsBarracks (new_building_data st (us_build_time ss)))).

Definition create_entity (kind_ : string) (entity_id team_ : Z) (p : Pos)
  : option Entity :=
  if decide (kind_ = "Worker") then new_Worker entity_id team_ p
  else if decide (kind_ = "Soldier") then new_Soldier entity_id team_ p
  else if decide (kind_ = "Base") then new_Base entity_id team_ p
  else if decide (kind_ = "Barracks") then new_Barracks entity_id team_ p
  else None.

End Constructors.

(** ** events.py *)

(** The event dataclasses published by the modelled code. *)
Inductive Event :=
  | SpawnEvent (kind_ : string) (entity_id team_ : Z) (pos_ : Pos)
  | DeathEvent (entity_id : Z) (kind_ : string) (team_ : Z) (pos_ : Pos)
      (killer_id : Z)
  | ResourceCollectedEvent (worker_id team_ amount team_total : Z)
  | GatheringStartedEvent (worker_id team_ : Z)
  | ProductionStartedEvent (building_id : Z) (unit_type : string) (team_ : Z)
      (queue_position : nat)
  | ProductionCompletedEvent (building_id : Z) (unit_type : string)
      (unit_id team_ : Z) (pos_ : Pos)
  | BuildingPlacedEvent (building_id : Z) (building_type : string) (team_ : Z)
      (pos_ : Pos) (builder_id : Z)
  | CommandEvent (entity_id team_ : Z)
  | AttackEvent (attacker_id target_id damage_ target_hp_remaining : Z)
  | MineDepletedEvent (worker_id team_ : Z) (mine_pos : Pos)
  | BaseUnderAttackEvent (base_id team_ attacker_id : Z)
  | BuildingConstructionStartEvent (worker_id team_ : Z)
      (building_type : string) (pos_ : Pos)
  | WorkerWaitingForMineralsEvent (worker_id team_ : Z)
      (building_type : string) (cost : Z)
  | UnitReadyEvent (unit_id : Z) (unit_type : string) (team_ : Z)
      (name : string) (rank : option string).

(** The global [event_bus].  Handlers are external subscribers (renderer,
    audio, logger) that do not write to the world; the model keeps what was
    published, in order. *)
Definition EventBus : Type := list Event.

Definition publish (ev : Event) (bus : EventBus) : EventBus := bus ++ [ev].

(** ** world.py *)

(** [class MineralPatch]. *)
Record MineralPatch := {
  m_id : Z;
  m_x : Q;
  m_y : Q;
  minerals : Z
}.

Definition m_pos (m : MineralPatch) : Pos := (m_x m, m_y m).

Definition depleted (m : MineralPatch) : bool := minerals m <=? 0.

Definition m_set_minerals (n : Z) (m : MineralPatch) : MineralPatch :=
  {| m_id := m_id m; m_x := m_x m; m_y := m_y m; minerals := n |}.

(** Insertion-ordered dictionaries keyed by an integer id. *)
Section Dict.

Context {A : Type} (key : A -> Z).

(** [d.get(k)]. *)
Fixpoint dict_get (k : Z) (d : list A) : option A :=
  match d with
  | [] => None
  | a :: d' => if key a =? k then Some a else dict_get k d'
  end.

(** [d[key(a)] = a]: replaces the entry in place or appends a new one. *)
Fixpoint dict_set (a : A) (d : list A) : list A :=
  match d with
  | [] => [a]
  | b :: d' => if key b =? key a then a :: d' else b :: dict_set a d'
  end.

End Dict.

(** Visibility states of a fog cell. *)
Inductive FogState := HIDDEN | EXPLORED | VISIBLE.

Definition FogState_eqb (a b : FogState) : bool :=
  match a, b with
  | HIDDEN, HIDDEN | EXPLORED, EXPLORED | VISIBLE, VISIBLE => true
  | _, _ => false
  end.

(** Two-dimensional Python lists indexed [g[y][x]] with non-negative
    indices. *)
Section Grid.

Context {A : Type}.

Definition grid_get (g : list (list A)) (gx gy : Z) : option A :=
  if (0 <=? gx) && (0 <=? gy) then
    row ← g !! Z.to_nat gy; row !! Z.to_nat gx
  else None.

Definition grid_set (g : list (list A)) (gx gy : Z) (v : A)
  : list (list A) :=
  match g !! Z.to_nat gy with
  | Some row => <[Z.to_nat gy := <[Z.to_nat gx := v]> row]> g
  | None => g
  end.

End Grid.

(** [class FogOfWar]. *)
Module FogOfWar.

Record t := {
  width : Z;
  height : Z;
  grid : list (list FogState)
}.

(** [__init__]. *)
Definition init (w h : Z) : t :=
  {| width := w; height := h;
     grid := replicate (Z.to_nat h) (replicate (Z.to_nat w) HIDDEN) |}.

(** First loop of [update_visibility]: demote VISIBLE to EXPLORED. *)
Definition demote_cell (g : list (list FogState)) (cx cy : Z)
  : list (list FogState) :=
  match grid_get g cx cy with
  | Some VISIBLE => grid_set g cx cy EXPLORED
  | _ => g
  end.

Definition demote_all (w h : Z) (g : list (list FogState))
  : list (list FogState) :=
  fold_left
    (fun g cy => fold_left (fun g cx => demote_cell g cx cy) (py_range 0 w) g)
    (py_range 0 h) g.

(** Body of the innermost loop of [update_visibility] for the offset
    [(dx, dy)] around [(cx, cy)]; [nv] is [newly_visible]. *)
Definition reveal_cell (w h : Z) (vis cx cy dx dy : Z)
    (acc : list (list FogState) * gset Tile)
  : list (list FogState) * gset Tile :=
  let '(g, nv) := acc in
  if dx * dx + dy * dy <=? vis * vis then
    let nx := cx + dx in
    let ny := cy + dy in
    if (0 <=? nx) && (nx <? w) && (0 <=? ny) && (ny <? h) then
      match grid_get g nx ny with
      | Some VISIBLE => (g, nv)
      | Some HIDDEN => (grid_set g nx ny VISIBLE, {[ (nx, ny) ]} ∪ nv)
      | Some EXPLORED => (grid_set g nx ny VISIBLE, nv)
      | None => (g, nv)
      end
    else (g, nv)
  else (g, nv).

(** Body of the loop over entities. *)
Definition reveal_entity (w h : Z)
    (acc : list (list FogState) * gset Tile) (e : Entity)
  : list (list FogState) * gset Tile :=
  if negb (alive e) then acc
  else
    let vis := vision e in
    let cx := py_int (x e) in
    let cy := py_int (y e) in
    fold_left
      (fun acc dy =>
         fold_left (fun acc dx => reveal_cell w h vis cx cy dx dy acc)
           (py_range (- vis) (vis + 1)) acc)
      (py_range (- vis) (vis + 1)) acc.

(** [update_visibility]: the fog after the call and the returned set of
    newly revealed tiles. *)
Definition update_visibility (f : t) (ents : list Entity) : t * gset Tile :=
  let g0 := demote_all (width f) (height f) (grid f) in
  let '(g1, nv) :=
    fold_left (reveal_entity (width f) (height f)) ents (g0, ∅) in
  ({| width := width f; height := height f; grid := g1 |}, nv).

(** [is_visible] and [is_explored] (integer arguments). *)
Definition is_visible (f : t) (cx cy : Z) : bool :=
  if (0 <=? cx) && (cx <? width f) && (0 <=? cy) && (cy <? height f) then
    match grid_get (grid f) cx cy with
    | Some s => FogState_eqb s VISIBLE
    | None => false
    end
  else false.

Definition is_explored (f : t) (cx cy : Z) : bool :=
  if (0 <=? cx) && (cx <? width f) && (0 <=? cy) && (cy <? height f) then
    match grid_get (grid f) cx cy with
    | Some s => negb (FogState_eqb s HIDDEN)
    | None => false
    end
  else false.

(** The grid has [height] rows of [width] cells, as [__init__] builds it;
    then no index of [update_visibility] is out of range. *)
Definition wf (f : t) : Prop :=
  0 <= width f /\ 0 <= height f /\
  length (grid f) = Z.to_nat (height f) /\
  Forall (fun row => length row = Z.to_nat (width f)) (grid f).

End FogOfWar.

(** [class GameMap]. *)
Module GameMap.

Record t := {
  width : Z;
  height : Z;
  tiles : list (list Z);            (* 0 = grass, 1 = rock *)
  mineral_positions : list Pos
}.

(** [is_walkable] (integer arguments) as Python evaluates it: [None] stands
    for the IndexError that [self.tiles[int(y)][int(x)]] raises when the
    index passes the bounds test but the row or the cell is missing, as on
    a map whose rows are shorter than [width]. *)
Definition is_walkable_raising (gm : t) (tx ty : Z) : option bool :=
  if (0 <=? tx) && (tx <? width gm) && (0 <=? ty) && (ty <? height gm) then
    v ← grid_get (tiles gm) tx ty; Some (v =? 0)
  else Some false.

(** [is_walkable] on a rectangular map ([wf] below), where no lookup raises:
    the value of [is_walkable_raising] there (lemma
    [is_walkable_raising_wf]).  On a ragged map it answers false where the
    code raises, so every statement that a function reading the map returns
    a result is made for a [wf] map. *)
Definition is_walkable (gm : t) (tx ty : Z) : bool :=
  if (0 <=? tx) && (tx <? width gm) && (0 <=? ty) && (ty <? height gm) then
    match grid_get (tiles gm) tx ty with
    | Some v => v =? 0
    | None => false
    end
  else false.

(** [is_buildable]: every tile of the [size] x [size] square is
    walkable. *)
Definition is_buildable (gm : t) (tx ty : Z) (size : Z) : bool :=
  forallb
    (fun dy =>
       forallb (fun dx => is_walkable gm (tx + dx) (ty + dy))
         (py_range 0 size))
    (py_range 0 size).

(** The tile grid is rectangular with the recorded dimensions, as
    [World.load_map] builds it from a rectangular CSV. *)
Definition wf (gm : t) : Prop :=
  length (tiles gm) = Z.to_nat (height gm) /\
  Forall (fun row => length row = Z.to_nat (width gm)) (tiles gm).

End GameMap.

(** [class World]. *)
Module World.

Record t := {
  entities : list Entity;            (* dict id -> Entity *)
  minerals : list MineralPatch;      (* dict id -> MineralPatch *)
  next_id : Z;
  game_map : option GameMap.t;
  team_minerals : gmap Z Z;
  fog : gmap Z FogOfWar.t;
  game_over : bool;
  game_over_time : option Q;
  winner : option Z;
  game_time : Q
}.

(** [World()]. *)
Definition init : t :=
  {| entities := []; minerals := []; next_id := 1; game_map := None;
     team_minerals := <[1 := 100]> (<[2 := 100]> ∅); fog := ∅;
     game_over := false; game_over_time := None; winner := None;
     game_time := 0 |}.

Definition set_entities (es : list Entity) (w : t) : t :=
  {| entities := es; minerals := minerals w; next_id := next_id w;
     game_map := game_map w; team_minerals := team_minerals w;
     fog := fog w; game_over := game_over w;
     game_over_time := game_over_time w; winner := winner w;
     game_time := game_time w |}.

Definition set_minerals (ms : list MineralPatch) (w : t) : t :=
  {| entities := entities w; minerals := ms; next_id := next_id w;
     game_map := game_map w; team_minerals := team_minerals w;
     fog := fog w; game_over := game_over w;
     game_over_time := game_over_time w; winner := winner w;
     game_time := game_time w |}.

Definition set_next_id (n : Z) (w : t) : t :=
  {| entities := entities w; minerals := minerals w; next_id := n;
     game_map := game_map w; team_minerals := team_minerals w;
     fog := fog w; game_over := game_over w;
     game_over_time := game_over_time w; winner := winner w;
     game_time := game_time w |}.

Definition set_team_minerals (tm : gmap Z Z) (w : t) : t :=
  {| entities := entities w; minerals := minerals w; next_id := next_id w;
     game_map := game_map w; team_minerals := tm;
     fog := fog w; game_over := game_over w;
     game_over_time := game_over_time w; winner := winner w;
     game_time := game_time w |}.

Definition set_fog (fg : gmap Z FogOfWar.t) (w : t) : t :=
  {| entities := entities w; minerals := minerals w; next_id := next_id w;
     game_map := game_map w; team_minerals := team_minerals w;
     fog := fg; game_over := game_over w;
     game_over_time := game_over_time w; winner := winner w;
     game_time := game_time w |}.

Definition set_game_time (gt : Q) (w : t) : t :=
  {| entities := entities w; minerals := minerals w; next_id := next_id w;
     game_map := game_map w; team_minerals := team_minerals w;
     fog := fog w; game_over := game_over w;
     game_over_time := game_over_time w; winner := winner w;
     game_time := gt |}.

(** Mutating the entity object [e]: its entry is replaced. *)
Definition put_entity (e : Entity) (w : t) : t :=
  set_entities (dict_set id e (entities w)) w.

Definition put_mineral (m : MineralPatch) (w : t) : t :=
  set_minerals (dict_set m_id m (minerals w)) w.

(** [get_entity]. *)
Definition get_entity (w : t) (entity_id : Z) : option Entity :=
  dict_get id entity_id (entities w).

Definition get_mineral (w : t) (mineral_id : Z) : option MineralPatch :=
  dict_get m_id mineral_id (minerals w).

(** [get_minerals], [add_minerals], [spend_minerals]. *)
Definition get_minerals (w : t) (team_ : Z) : Z :=
  default 0 (team_minerals w !! team_).

Definition add_minerals (team_ amount : Z) (w : t) : t :=
  set_team_minerals
    (<[team_ := default 0 (team_minerals w !! team_) + amount]>
       (team_minerals w)) w.

Definition spend_minerals (team_ amount : Z) (w : t) : option (t * bool) :=
  if amount <=? default 0 (team_minerals w !! team_) then
    cur ← team_minerals w !! team_;
    Some (set_team_minerals (<[team_ := cur - amount]> (team_minerals w)) w,
          true)
  else Some (w, false).

(** [get_base]: the first living Base of the team, in table order. *)
Definition get_base (w : t) (team_ : Z) : option Entity :=
  List.find (fun e => is_base e && (team e =? team_) && alive e)
    (entities w).

(** [get_entities_by_team]. *)
Definition get_entities_by_team (w : t) (team_ : Z) : list Entity :=
  List.filter (fun e => (team e =? team_) && alive e) (entities w).

(** [get_units] and [get_buildings] with the optional team filter. *)
Definition get_units (w : t) (team_ : option Z) : list Entity :=
  let units := List.filter (fun e => is_unit e && alive e) (entities w) in
  match team_ with
  | Some tm => List.filter (fun u => team u =? tm) units
  | None => units
  end.

Definition get_buildings (w : t) (team_ : option Z) : list Entity :=
  let bs := List.filter (fun e => is_building e && alive e) (entities w) in
  match team_ with
  | Some tm => List.filter (fun b => team b =? tm) bs
  | None => bs
  end.

(** [get_nearest_mineral]: the first patch of least squared distance among
    the non-depleted ones. *)
Definition get_nearest_mineral (w : t) (px py : Q) : option MineralPatch :=
  fst <$>
    fold_left
      (fun (acc : option (MineralPatch * Q)) m =>
         if depleted m then acc
         else
           let dist := dist_sq (m_x m) (m_y m) px py in
           match acc with
           | None => Some (m, dist)
           | Some (_, nearest_dist) =>
               if Qltb dist nearest_dist then Some (m, dist) else acc
           end)
      (minerals w) None.

(** [get_entity_at]: the first living entity, in table order, within
    [radius] of the position. *)
Definition get_entity_at (w : t) (px py : Q) (radius : Q) : option Entity :=
  List.find
    (fun e => alive e && Qleb (dist_sq (x e) (y e) px py) (radius * radius))
    (entities w).

(** The default value of the [radius] parameter. *)
Definition default_radius : Q := 0.5.

(** [get_enemies_in_range]. *)
Definition get_enemies_in_range (w : t) (e : Entity) (range_ : Q)
  : list Entity :=
  List.filter
    (fun other =>
       negb (negb (alive other) || (team other =? team e)) &&
       Qleb (dist_sq (x other) (y other) (x e) (y e)) (range_ * range_))
    (entities w).

(** [update_fog_of_war]; [self.fog[team]] raises KeyError when the team
    has no fog grid. *)
Definition update_fog_team (team_ : Z) (w : t) : option t :=
  f ← fog w !! team_;
  let team_entities := get_entities_by_team w team_ in
  Some (set_fog
          (<[team_ := fst (FogOfWar.update_visibility f team_entities)]>
             (fog w)) w).

Definition update_fog_of_war (w : t) : option t :=
  w1 ← update_fog_team 1 w; update_fog_team 2 w1.

(** [is_visible_to_team]. *)
Definition is_visible_to_team (w : t) (px py : Q) (team_ : Z) : bool :=
  match fog w !! team_ with
  | Some f => FogOfWar.is_visible f (py_int px) (py_int py)
  | None => true
  end.

(** [check_victory]. *)
Definition check_victory (w : t) : t :=
  let lost (tm : Z) :=
    match get_base w tm with
    | Some b => negb (alive b)
    | None => true
    end in
  let finish (win : Z) :=
    {| entities := entities w; minerals := minerals w;
       next_id := next_id w; game_map := game_map w;
       team_minerals := team_minerals w; fog := fog w;
       game_over := true;
       game_over_time :=
         (if game_over w then game_over_time w else Some (game_time w));
       winner := Some win; game_time := game_time w |} in
  if lost 1 then finish 2
  else if lost 2 then finish 1
  else w.

Section Spawn.

Variable UNIT_STATS : gmap string UnitStat.
Variable BUILDING_STATS : gmap string BuildingStat.

(** [spawn_entity]: the world and the bus after the call, and the new
    entity. *)
Definition spawn_entity (kind_ : string) (team_ : Z) (p : Pos)
    (w : t) (bus : EventBus) : option (t * EventBus * Entity) :=
  entity ← create_entity UNIT_STATS BUILDING_STATS kind_ (next_id w)
             team_ p;
  let w1 := put_entity entity w in
  let w2 := set_next_id (next_id w + 1) w1 in
  Some (w2, publish (SpawnEvent kind_ (id entity) team_ p) bus, entity).

End Spawn.

End World.

(** ** systems.py *)

(** [class PathFinder]: A* with 8-directional movement. *)
Module PathFinder.

(** [DIRECTIONS].  The cost 1.414 of a diagonal step is the decimal, where
    the code holds the nearest binary64 number.  With floating-point sums
    the code can pop two entries of the heap whose exact f-scores are equal
    in another order than this model and so return another of the paths of
    least cost; the theorems about [find_path] state what all of them
    share. *)
Definition DIRECTIONS : list (Tile * Q) :=
  [ ((-1, -1), 1.414%Q);
    ((0, -1), 1%Q);
    ((1, -1), 1.414%Q);
    ((-1, 0), 1%Q);
    ((1, 0), 1%Q);
    ((-1, 1), 1.414%Q);
    ((0, 1), 1%Q);
    ((1, 1), 1.414%Q) ].

Record t := { game_map : option GameMap.t }.

(** [_heuristic]: diagonal distance.  The factor 0.414 is the decimal; see
    [DIRECTIONS] for what that leaves out. *)
Definition _heuristic (a b : Tile) : Q :=
  let dx := Z.abs (fst a - fst b) in
  let dy := Z.abs (snd a - snd b) in
  (inject_Z (Z.max dx dy) + 0.414 * inject_Z (Z.min dx dy))%Q.

(** The list [path] that the loop of [_reconstruct_path] builds: [current]
    followed by its chain of predecessors.  The loop runs as long as
    [current in came_from]; it is cut off after [fuel] iterations. *)
Fixpoint predecessors (fuel : nat) (came_from : gmap Tile Tile)
    (current : Tile) : option (list Tile) :=
  match came_from !! current with
  | None => Some [current]
  | Some prev =>
      match fuel with
      | O => None
      | S fuel' => cons current <$> predecessors fuel' came_from prev
      end
  end.

(** [_reconstruct_path]: reversed, without its first element. *)
Definition _reconstruct_path (fuel : nat) (came_from : gmap Tile Tile)
    (current : Tile) : option (list Tile) :=
  p ← predecessors fuel came_from current;
  Some (tail (rev p)).

(** The tiles [_find_nearest_walkable] tests, in the order of its three
    nested loops. *)
Definition ring (p : Tile) (radius : Z) : list Tile :=
  flat_map
    (fun dx =>
       flat_map
         (fun dy =>
            if (Z.abs dx =? radius) || (Z.abs dy =? radius)
            then [(fst p + dx, snd p + dy)] else [])
         (py_range (- radius) (radius + 1)))
    (py_range (- radius) (radius + 1)).

Definition rings (p : Tile) : list Tile :=
  flat_map (ring p) (py_range 1 10).

(** [_find_nearest_walkable]: the first walkable tile in that order. *)
Definition _find_nearest_walkable (gm : GameMap.t) (p : Tile)
  : option Tile :=
  List.find (fun n => GameMap.is_walkable gm (fst n) (snd n)) (rings p).

(** Entries of [open_set]: [(f_score, counter, node)], compared as Python
    compares tuples. *)
Definition HeapItem : Type := Q * Z * Tile.

Definition tile_ltb (a b : Tile) : bool :=
  (fst a <? fst b) || ((fst a =? fst b) && (snd a <? snd b)).

Definition item_ltb (a b : HeapItem) : bool :=
  let '(fa, ca, na) := a in
  let '(fb, cb, nb) := b in
  if negb (Qeqb fa fb) then Qltb fa fb
  else if negb (ca =? cb) then ca <? cb
  else tile_ltb na nb.

(** [heapq] keeps a binary heap; what the algorithm observes is that
    [heappop] removes and returns the least entry.  The heap is modelled
    by the list of its entries. *)
Definition heappush (h : list HeapItem) (it : HeapItem) : list HeapItem :=
  h ++ [it].

Fixpoint heappop (h : list HeapItem)
  : option (HeapItem * list HeapItem) :=
  match h with
  | [] => None
  | a :: h' =>
      match heappop h' with
      | None => Some (a, [])
      | Some (m, r) =>
          if item_ltb m a then Some (m, a :: r) else Some (a, h')
      end
  end.

(** The local variables of the A* loop. *)
Record Search := {
  open_set : list HeapItem;
  came_from : gmap Tile Tile;
  g_score : gmap Tile Q;
  counter : Z
}.

(** Body of [for (dx, dy), cost in self.DIRECTIONS]. *)
Definition relax (gm : GameMap.t) (goal current : Tile) (st : Search)
    (d : Tile * Q) : option Search :=
  let '((dx, dy), cost) := d in
  let neighbor := (fst current + dx, snd current + dy) in
  if negb (GameMap.is_walkable gm (fst neighbor) (snd neighbor)) then
    Some st
  else
    gcur ← g_score st !! current;
    let tentative_g := (gcur + cost)%Q in
    let better :=
      match g_score st !! neighbor with
      | None => true
      | Some g => Qltb tentative_g g
      end in
    if better then
      let f_score := (tentative_g + _heuristic neighbor goal)%Q in
      Some {| open_set :=
                heappush (open_set st) (f_score, counter st + 1, neighbor);
              came_from := <[neighbor := current]> (came_from st);
              g_score := <[neighbor := tentative_g]> (g_score st);
              counter := counter st + 1 |}
    else Some st.

Fixpoint relax_all (gm : GameMap.t) (goal current : Tile) (st : Search)
    (ds : list (Tile * Q)) : option Search :=
  match ds with
  | [] => Some st
  | d :: ds' =>
      st' ← relax gm goal current st d;
      relax_all gm goal current st' ds'
  end.

(** [while open_set: ...], cut off after [fuel] iterations. *)
Fixpoint search (fuel : nat) (gm : GameMap.t) (goal : Tile) (st : Search)
  : option (list Tile) :=
  match fuel with
  | O => None
  | S fuel' =>
      match heappop (open_set st) with
      | None => Some []
      | Some ((_, _, current), rest) =>
          let st1 :=
            {| open_set := rest; came_from := came_from st;
               g_score := g_score st; counter := counter st |} in
          if decide (current = goal) then
            _reconstruct_path fuel (came_from st1) current
          else
            st2 ← relax_all gm goal current st1 DIRECTIONS;
            search fuel' gm goal st2
      end
  end.

(** [find_path].  [None] is only returned when the fuel runs out (or on a
    KeyError in [g_score]). *)
Definition find_path (fuel : nat) (pf : t) (start goal : Pos)
  : option (list Pos) :=
  match game_map pf with
  | None => Some [goal]
  | Some gm =>
      let start := (py_int (fst start), py_int (snd start)) in
      let goal := (py_int (fst goal), py_int (snd goal)) in
      if decide (start = goal) then Some []
      else
        let goal' :=
          if GameMap.is_walkable gm (fst goal) (snd goal) then Some goal
          else _find_nearest_walkable gm goal in
        match goal' with
        | None => Some []
        | Some goal =>
            List.map tile_pos <$>
              search fuel gm goal
                {| open_set := [(0%Q, 0, start)]; came_from := ∅;
                   g_score := {[ start := 0%Q ]}; counter := 0 |}
        end
  end.

End PathFinder.

(** [for entity in list(self.world.entities.values())]: the loop visits the
    objects that were in the table when it started, in table order; each
    visit reads the current state of the object.  The systems never remove
    an entry, so the lookup of a visited id always succeeds. *)
Section Loops.

Context {S : Type}.

Fixpoint for_each_id (body : Z -> S -> option S) (ids : list Z) (s : S)
  : option S :=
  match ids with
  | [] => Some s
  | i :: ids' => s' ← body i s; for_each_id body ids' s'
  end.

End Loops.

Definition entity_ids (w : World.t) : list Z := List.map id (World.entities w).

(** [class MovementSystem]. *)
Module MovementSystem.

Definition STUCK_THRESHOLD : Q := 16.0.
Definition STUCK_MOVE_DISTANCE : Q := 0.3.

Record t := {
  pathfinder : option PathFinder.t;
  _stuck_timers : gmap Z (Q * Q * Q)
}.

(** [MovementSystem(world)]. *)
Definition init : t := {| pathfinder := None; _stuck_timers := ∅ |}.

Definition set_timers (tm : gmap Z (Q * Q * Q)) (ms : t) : t :=
  {| pathfinder := pathfinder ms; _stuck_timers := tm |}.

(** [_is_walkable]. *)
Definition _is_walkable (w : World.t) (px py : Q) : bool :=
  match World.game_map w with
  | None => true
  | Some gm => GameMap.is_walkable gm (py_int px) (py_int py)
  end.

(** The occupancy test of [_unstick_unit] for the tile [(nx, ny)]. *)
Definition occupied (w : World.t) (entity : Entity) (nx ny : Z) : bool :=
  existsb
    (fun other =>
       negb (id other =? id entity) && alive other &&
       Qltb (dist_sq (x other) (y other) (inject_Z nx) (inject_Z ny)) 1.0)
    (World.entities w).

(** [_unstick_unit]: the entity after the call. *)
Definition _unstick_unit (w : World.t) (entity : Entity) : Entity :=
  match World.game_map w with
  | None => entity
  | Some gm =>
      let current_tile := (py_int (x entity), py_int (y entity)) in
      match
        List.find
          (fun n =>
             GameMap.is_walkable gm (fst n) (snd n) &&
             negb (occupied w entity (fst n) (snd n)))
          (flat_map (PathFinder.ring current_tile) (py_range 1 5))
      with
      | Some (nx, ny) =>
          map_unit (u_set_path [])
            (set_xy (py_float nx + 0.5) (py_float ny + 0.5) entity)
      | None => entity
      end
  end.

Section Update.

(** [math.sqrt], and [math.degrees(math.atan2(a, b))]. *)
Variable sqrt : Q -> Q.
Variable atan2_degrees : Q -> Q -> Q.

(** [_update_stuck_detection]: the timers and the entity after the
    call. *)
Definition _update_stuck_detection (w : World.t) (dt : Q)
    (timers : gmap Z (Q * Q * Q)) (entity : Entity) (u : UnitData)
  : gmap Z (Q * Q * Q) * Entity :=
  match destination u, path u with
  | None, [] => (delete (id entity) timers, entity)
  | _, _ =>
      match timers !! id entity with
      | None => (<[id entity := (0.0%Q, x entity, y entity)]> timers, entity)
      | Some (timer, last_x, last_y) =>
          let dx := (x entity - last_x)%Q in
          let dy := (y entity - last_y)%Q in
          let dist_moved := sqrt (dx * dx + dy * dy)%Q in
          if Qltb STUCK_MOVE_DISTANCE dist_moved then
            (<[id entity := (0.0%Q, x entity, y entity)]> timers, entity)
          else
            let timer := (timer + dt)%Q in
            let timers := <[id entity := (timer, last_x, last_y)]> timers in
            if Qleb STUCK_THRESHOLD timer then
              (delete (id entity) timers, _unstick_unit w entity)
            else (timers, entity)
      end
  end.

(** The rest of the loop body of [update], for a living unit, after the
    stuck detection. *)
Definition move_unit (fuel : nat) (ms : t) (w : World.t) (dt : Q)
    (entity : Entity) (u : UnitData) : option Entity :=
  match path u with
  | next_waypoint :: rest =>
      let dx := (fst next_waypoint - x entity)%Q in
      let dy := (snd next_waypoint - y entity)%Q in
      let dist := sqrt (dx * dx + dy * dy)%Q in
      if Qltb dist 0.5 then Some (map_unit (u_set_path rest) entity)
      else if Qltb 0 dist then
        let entity := map_unit (u_set_angle (atan2_degrees (- dy) dx)) entity in
        let move_dist := (speed u * dt)%Q in
        let new_x := (x entity + (dx / dist) * Qminimum move_dist dist)%Q in
        let new_y := (y entity + (dy / dist) * Qminimum move_dist dist)%Q in
        if _is_walkable w new_x new_y then Some (set_xy new_x new_y entity)
        else
          let entity := map_unit (u_set_path []) entity in
          match destination u, pathfinder ms with
          | Some dest, Some pf =>
              p ← PathFinder.find_path fuel pf (x entity, y entity) dest;
              Some (map_unit (u_set_path p) entity)
          | _, _ => Some entity
          end
      else Some entity
  | [] =>
      match destination u with
      | Some dest =>
          let dx := (fst dest - x entity)%Q in
          let dy := (snd dest - y entity)%Q in
          let dist := sqrt (dx * dx + dy * dy)%Q in
          if Qltb dist 0.5 then
            Some (map_unit (u_set_destination None) entity)
          else
            let entity :=
              map_unit (u_set_angle (atan2_degrees (- dy) dx)) entity in
            match pathfinder ms with
            | Some pf =>
                p ← PathFinder.find_path fuel pf (x entity, y entity) dest;
                let entity := map_unit (u_set_path p) entity in
                match p with
                | [] => Some (map_unit (u_set_destination None) entity)
                | _ => Some entity
                end
            | None => Some entity
            end
      | None => Some entity
      end
  end.

(** The loop body of [update] for the entity with id [eid]. *)
Definition update_entity (fuel : nat) (dt : Q) (eid : Z)
    (s : t * World.t) : option (t * World.t) :=
  let '(ms, w) := s in
  match World.get_entity w eid with
  | None => Some s
  | Some entity =>
      match unit_data entity, alive entity with
      | Some u, true =>
          let '(timers, entity1) :=
            _update_stuck_detection w dt (_stuck_timers ms) entity u in
          let ms1 := set_timers timers ms in
          u1 ← unit_data entity1;
          entity2 ← move_unit fuel ms1 w dt entity1 u1;
          Some (ms1, World.put_entity entity2 w)
      | _, _ =>
          Some (set_timers (delete (id entity) (_stuck_timers ms)) ms, w)
      end
  end.

(** [update]. *)
Definition update (fuel : nat) (dt : Q) (ms : t) (w : World.t)
  : option (t * World.t) :=
  let ms :=
    match pathfinder ms, World.game_map w with
    | None, Some gm =>
        {| pathfinder := Some {| PathFinder.game_map := Some gm |};
           _stuck_timers := _stuck_timers ms |}
    | _, _ => ms
    end in
  for_each_id (update_entity fuel dt) (entity_ids w) (ms, w).

End Update.

End MovementSystem.

(** Mutating the object with id [eid] in place. *)
Definition modify_entity (eid : Z) (f : Entity -> Entity) (w : World.t)
  : World.t :=
  match World.get_entity w eid with
  | Some e => World.put_entity (f e) w
  | None => w
  end.

(** Truth value of an optional entity id, as in [if entity.target:]
    ([None] and [0] are false). *)
Definition truthy_id (t : option Z) : option Z :=
  match t with
  | Some i => if i =? 0 then None else Some i
  | None => None
  end.

(** [class CombatSystem]. *)
Module CombatSystem.

Record t := { _base_attack_cooldown : gmap Z Q }.

Definition init : t := {| _base_attack_cooldown := ∅ |}.

(** [min(enemies, key=...)]: the first enemy of least squared distance. *)
Definition nearest (entity : Entity) (enemies : list Entity)
  : option Entity :=
  let key e := dist_sq (x e) (y e) (x entity) (y entity) in
  fold_left
    (fun (best : option Entity) e =>
       match best with
       | None => Some e
       | Some b => if Qltb (key e) (key b) then Some e else best
       end)
    enemies None.

(** The loop state: the system, the world, the bus and
    [dead_entities] as pairs (target id, killer id). *)
Definition LoopState : Type := t * World.t * EventBus * list (Z * Z).

(** The base alert of lines 335-347, for the target [target] hit by the
    soldier [attacker_id]. *)
Definition base_alert (w : World.t) (target : Entity) (attacker_id : Z)
    (cs : t) (bus : EventBus) : t * EventBus :=
  if is_base target then
    let base_id := id target in
    let last_alert := default 0%Q (_base_attack_cooldown cs !! base_id) in
    let current_time := World.game_time w in
    if Qleb 10.0 (current_time - last_alert) then
      ({| _base_attack_cooldown :=
            <[base_id := current_time]> (_base_attack_cooldown cs) |},
       publish (BaseUnderAttackEvent (id target) (team target) attacker_id)
         bus)
    else (cs, bus)
  else (cs, bus).

Section Update.

Variable sqrt : Q -> Q.

(** "Process target" for the soldier [eid] whose target id [tid] is
    truthy. *)
Definition process_target (eid tid : Z) (s : LoopState) : LoopState :=
  let '(cs, w, bus, dead) := s in
  match World.get_entity w eid, World.get_entity w tid with
  | Some entity, Some target =>
      if negb (alive target) then
        (cs, modify_entity eid (map_unit (u_set_target None)) w, bus, dead)
      else
        match soldier_data entity with
        | None => s
        | Some sd =>
            let dx := (x target - x entity)%Q in
            let dy := (y target - y entity)%Q in
            let dist := sqrt (dx * dx + dy * dy)%Q in
            if Qleb dist (attack_range sd) then
              let w1 :=
                modify_entity eid
                  (fun e =>
                     map_unit (u_set_path [])
                       (map_unit (u_set_destination None) e)) w in
              if Qleb (cooldown_remaining sd) 0 then
                let w2 := modify_entity tid (take_damage (damage sd)) w1 in
                let w3 :=
                  modify_entity eid
                    (map_soldier
                       (s_set_cooldown_remaining (attack_cooldown sd)))
                    w2 in
                match World.get_entity w3 tid with
                | None => (cs, w3, bus, dead)
                | Some target' =>
                    let bus1 :=
                      publish
                        (AttackEvent eid (id target') (damage sd)
                           (hp target')) bus in
                    let '(cs1, bus2) := base_alert w3 target' eid cs bus1 in
                    let dead1 :=
                      if negb (alive target') then dead ++ [(tid, eid)]
                      else dead in
                    (cs1, w3, bus2, dead1)
                end
              else (cs, w1, bus, dead)
            else
              (cs,
               modify_entity eid
                 (map_unit
                    (u_set_destination (Some (x target, y target)))) w,
               bus, dead)
        end
  | Some _, None =>
      (cs, modify_entity eid (map_unit (u_set_target None)) w, bus, dead)
  | None, _ => s
  end.

(** The loop body of [update] for the entity with id [eid]. *)
Definition update_entity (dt : Q) (eid : Z) (s : LoopState)
  : option LoopState :=
  let '(cs, w, bus, dead) := s in
  match World.get_entity w eid with
  | None => Some s
  | Some entity =>
      match soldier_data entity, unit_data entity, alive entity with
      | Some sd, Some u, true =>
          (* Reduce cooldown *)
          let sd1 :=
            if Qltb 0 (cooldown_remaining sd) then
              s_set_cooldown_remaining (cooldown_remaining sd - dt)%Q sd
            else sd in
          (* Find target if none *)
          let u1 :=
            match target u with
            | None =>
                let enemies :=
                  World.get_enemies_in_range w entity
                    (attack_range sd * 2)%Q in
                match nearest entity enemies with
                | Some en => u_set_target (Some (id en)) u
                | None => u
                end
            | Some _ => u
            end in
          let w1 := World.put_entity (set_body (IsSoldier u1 sd1) entity) w in
          (* Process target *)
          match truthy_id (target u1) with
          | Some tid => Some (process_target eid tid (cs, w1, bus, dead))
          | None => Some (cs, w1, bus, dead)
          end
      | _, _, _ => Some s
      end
  end.

(** "Process deaths". *)
Definition publish_deaths (w : World.t) (dead : list (Z * Z))
    (bus : EventBus) : EventBus :=
  fold_left
    (fun bus (d : Z * Z) =>
       let '(tid, killer_id) := d in
       match World.get_entity w tid with
       | Some target =>
           publish
             (DeathEvent (id target) (kind target) (team target)
                (pos target) killer_id) bus
       | None => bus
       end)
    dead bus.

(** [update]: the system, the world and the bus after the call. *)
Definition update (dt : Q) (cs : t) (w : World.t) (bus : EventBus)
  : t * World.t * EventBus :=
  match for_each_id (update_entity dt) (entity_ids w) (cs, w, bus, []) with
  | Some (cs', w', bus', dead) => (cs', w', publish_deaths w' dead bus')
  | None => (cs, w, bus)
  end.

End Update.

End CombatSystem.

(** [class ResourceSystem]. *)
Module ResourceSystem.

Definition GATHER_TIME : Q := 2.0.
Definition GATHER_AMOUNT : Z := 8.

Record t := { _gather_timers : gmap Z Q }.

Definition init : t := {| _gather_timers := ∅ |}.

Definition LoopState : Type := t * World.t * EventBus.

(** The worker's [gather_target] object.  The outer [option] is [None]
    for a reference to a patch that is not in [World.minerals], which the
    code cannot produce. *)
Definition target_patch (w : World.t) (wd : WorkerData)
  : option (option MineralPatch) :=
  match gather_target wd with
  | None => Some None
  | Some mid => Some <$> World.get_mineral w mid
  end.

(** Branch taken in the states moving_to_mineral ([clear_dest = true]) and
    gathering when the target is missing or depleted. *)
Definition lost_target (clear_dest : bool) (worker : Entity)
    (patch : option MineralPatch) (s : LoopState) : LoopState :=
  let '(rs, w, bus) := s in
  match patch with
  | Some p =>
      let mine_pos := m_pos p in
      let worker1 := map_worker (w_set_gather_target None) worker in
      let worker2 :=
        if clear_dest then map_unit (u_set_destination None) worker1
        else worker1 in
      let worker3 := map_worker (w_set_state idle) worker2 in
      (rs, World.put_entity worker3 w,
       publish (MineDepletedEvent (id worker) (team worker) mine_pos) bus)
  | None =>
      (rs, World.put_entity (map_worker (w_set_state idle) worker) w, bus)
  end.

(** [_process_worker]. *)
Definition _process_worker (dt : Q) (worker : Entity) (wd : WorkerData)
    (s : LoopState) : option LoopState :=
  let '(rs, w, bus) := s in
  match World.get_base w (team worker) with
  | None => Some s
  | Some base =>
      patch ← target_patch w wd;
      match state wd with
      | idle =>
          match patch with
          | Some p =>
              Some (rs,
                    World.put_entity
                      (map_unit (u_set_destination (Some (m_pos p)))
                         (map_worker (w_set_state moving_to_mineral) worker))
                      w, bus)
          | None =>
              if 0 <? carrying wd then
                Some (rs,
                      World.put_entity
                        (map_unit (u_set_destination (Some (pos base)))
                           (map_worker (w_set_state returning) worker))
                        w, bus)
              else Some s
          end
      | moving_to_mineral =>
          match patch with
          | Some p =>
              if depleted p then Some (lost_target true worker patch s)
              else
                let dx := (m_x p - x worker)%Q in
                let dy := (m_y p - y worker)%Q in
                if Qltb (dx * dx + dy * dy) 1.5 then
                  Some ({| _gather_timers :=
                             <[id worker := 0.0%Q]> (_gather_timers rs) |},
                        World.put_entity
                          (map_unit (u_set_destination None)
                             (map_worker (w_set_state gathering) worker))
                          w,
                        publish
                          (GatheringStartedEvent (id worker) (team worker))
                          bus)
                else Some s
          | None => Some (lost_target true worker None s)
          end
      | gathering =>
          match patch with
          | Some p =>
              if depleted p then Some (lost_target false worker patch s)
              else
                let timer :=
                  (default 0 (_gather_timers rs !! id worker) + dt)%Q in
                let rs1 :=
                  {| _gather_timers :=
                       <[id worker := timer]> (_gather_timers rs) |} in
                if Qleb GATHER_TIME timer then
                  let amount := Z.min GATHER_AMOUNT (minerals p) in
                  let w1 :=
                    World.put_mineral
                      (m_set_minerals (minerals p - amount) p) w in
                  Some (rs1,
                        World.put_entity
                          (map_unit (u_set_destination (Some (pos base)))
                             (map_worker (w_set_state returning)
                                (map_worker (w_set_carrying amount) worker)))
                          w1, bus)
                else Some (rs1, w, bus)
          | None => Some (lost_target false worker None s)
          end
      | returning =>
          let dx := (x base - x worker)%Q in
          let dy := (y base - y worker)%Q in
          if Qltb (dx * dx + dy * dy) 2.0 then
            (* Deliver minerals *)
            cur ← World.team_minerals w !! team worker;
            let total := cur + carrying wd in
            let w1 :=
              World.set_team_minerals
                (<[team worker := total]> (World.team_minerals w)) w in
            let bus1 :=
              publish
                (ResourceCollectedEvent (id worker) (team worker)
                   (carrying wd) total) bus in
            let worker1 := map_worker (w_set_carrying 0) worker in
            match patch with
            | Some p =>
                if negb (depleted p) then
                  Some (rs,
                        World.put_entity
                          (map_unit (u_set_destination (Some (m_pos p)))
                             (map_worker (w_set_state moving_to_mineral)
                                worker1))
                          w1, bus1)
                else
                  Some (rs,
                        World.put_entity
                          (map_worker (w_set_state idle)
                             (map_worker (w_set_gather_target None) worker1))
                          w1,
                        publish
                          (MineDepletedEvent (id worker) (team worker)
                             (m_pos p)) bus1)
            | None =>
                Some (rs,
                      World.put_entity
                        (map_worker (w_set_state idle) worker1) w1, bus1)
            end
          else Some s
      | building => Some s
      end
  end.

(** The loop body of [update] for the entity with id [eid]. *)
Definition update_entity (dt : Q) (eid : Z) (s : LoopState)
  : option LoopState :=
  let '(rs, w, bus) := s in
  match World.get_entity w eid with
  | None => Some s
  | Some entity =>
      match worker_data entity, alive entity with
      | Some wd, true => _process_worker dt entity wd s
      | _, _ => Some s
      end
  end.

(** [update]. *)
Definition update (dt : Q) (rs : t) (w : World.t) (bus : EventBus)
  : option LoopState :=
  for_each_id (update_entity dt) (entity_ids w) (rs, w, bus).

End ResourceSystem.

(** The pseudo-random generator [random]: a stream of outcomes and the
    number of draws made so far. *)
Module Random.

Record t := {
  unit_interval : nat -> Q;      (* the values of random.random() *)
  index : nat -> nat;            (* the raw draws behind random.choice *)
  draws : nat
}.

Definition next (r : t) : t :=
  {| unit_interval := unit_interval r; index := index r;
     draws := S (draws r) |}.

(** [random.uniform(a, b)] is [a + (b - a) * random()]. *)
Definition uniform (a b : Q) (r : t) : Q * t :=
  ((a + (b - a) * unit_interval r (draws r))%Q, next r).

(** [random.choice(seq)]; IndexError on an empty sequence. *)
Definition choice {A : Type} (l : list A) (r : t) : option (A * t) :=
  a ← nth_error l (index r (draws r) mod length l)%nat;
  Some (a, next r).

End Random.

(** effects.py: the name tables used by the production system. *)
Definition WORKER_NAMES : list string :=
  [ "Max"; "Tom"; "Ben"; "Sam"; "Joe"; "Dan"; "Jim"; "Bob"; "Tim"; "Leo";
    "Jack"; "Mike"; "Nick"; "Paul"; "Rick"; "Zack"; "Finn"; "Cole"; "Luke";
    "Ryan"; "Emma"; "Anna"; "Lisa"; "Sara"; "Kate"; "Jane"; "Amy"; "Meg";
    "Eve"; "Lily" ].

Definition SOLDIER_RANKS : list string :=
  [ "Gefreiter"; "Obergefreiter"; "Hauptgefreiter"; "Stabsgefreiter";
    "Unteroffizier"; "Stabsunteroffizier"; "Feldwebel"; "Oberfeldwebel" ].

(** The per-id countdown dictionaries of the production and building
    systems: every value is decreased by [dt] and entries that reach zero are
    deleted. *)
Definition tick_cooldowns (dt : Q) (d : gmap Z Q) : gmap Z Q :=
  omap (fun v => let v' := (v - dt)%Q in if Qleb v' 0 then None else Some v') d.

(** [class ProductionSystem]. *)
Module ProductionSystem.

Record t := { _waiting_for_minerals : gmap Z Q }.

Definition init : t := {| _waiting_for_minerals := ∅ |}.

Record LoopState := {
  world : World.t;
  bus : EventBus;
  rng : Random.t
}.

Section Update.

Variable UNIT_STATS : gmap string UnitStat.
Variable BUILDING_STATS : gmap string BuildingStat.

(** Lines 532-583: the item at the head of the queue is complete. *)
Definition complete (entity : Entity) (b : BuildingData) (s : LoopState)
  : option LoopState :=
  let '(b1, completed) := Building.complete_production b in
  completed_type ← completed;
  let entity1 := map_building (fun _ => b1) entity in
  let w1 := World.put_entity entity1 (world s) in
  (* Spawn unit near building *)
  let '(r, rng1) := Random.uniform (-1) 1 (rng s) in
  let spawn_x := (x entity + r)%Q in
  let spawn_y := (y entity + 2)%Q in
  '(w2, bus1, new_unit) ←
    World.spawn_entity UNIT_STATS BUILDING_STATS completed_type
      (team entity) (spawn_x, spawn_y) w1 (bus s);
  let bus2 :=
    publish
      (ProductionCompletedEvent (id entity) completed_type (id new_unit)
         (team entity) (pos new_unit)) bus1 in
  (* Fire UnitReadyEvent with name/rank *)
  '(unit_name, rng2) ← Random.choice WORKER_NAMES rng1;
  '(bus3, rng3) ←
    (if decide (completed_type = "Worker") then
       Some (publish
               (UnitReadyEvent (id new_unit) "Worker" (team entity)
                  unit_name None) bus2, rng2)
     else if decide (completed_type = "Soldier") then
       '(unit_rank, rng3) ← Random.choice SOLDIER_RANKS rng2;
       Some (publish
               (UnitReadyEvent (id new_unit) "Soldier" (team entity)
                  unit_name (Some unit_rank)) bus2, rng3)
     else Some (bus2, rng2));
  (* Set rally point if exists *)
  let w3 :=
    match rally_point b1 with
    | Some rp =>
        modify_entity (id new_unit)
          (map_unit (u_set_destination (Some rp))) w2
    | None => w2
    end in
  (* Auto-assign workers to gather minerals *)
  let w4 :=
    if is_worker new_unit then
      match World.get_nearest_mineral w3 (x new_unit) (y new_unit) with
      | Some mineral =>
          modify_entity (id new_unit)
            (fun e =>
               map_unit (u_set_destination (Some (m_pos mineral)))
                 (map_worker (w_set_state moving_to_mineral)
                    (map_worker (w_set_gather_target (Some (m_id mineral)))
                       e))) w3
      | None => w3
      end
    else w3 in
  Some {| world := w4; bus := bus3; rng := rng3 |}.

(** "Progress production" and what follows (lines 529-583), for the
    building [entity] whose data is [b]. *)
Definition progress (dt : Q) (entity : Entity) (b : BuildingData)
    (s : LoopState) : option LoopState :=
  if Qeqb (build_time b) 0 then None      (* ZeroDivisionError *)
  else
    let b1 :=
      b_set_progress (production_progress b + dt / build_time b)%Q b in
    if Qleb 1.0 (production_progress b1) then complete entity b1 s
    else
      Some {| world := World.put_entity (map_building (fun _ => b1) entity)
                         (world s);
              bus := bus s; rng := rng s |}.

(** The loop body of [update] for a living building. *)
Definition update_building (dt : Q) (entity : Entity) (b : BuildingData)
    (s : LoopState) : option LoopState :=
  match Building.current_production b with
  | None =>
      Some {| world :=
                World.put_entity
                  (map_building (b_set_waiting false) entity) (world s);
              bus := bus s; rng := rng s |}
  | Some unit_type =>
      stat ← UNIT_STATS !! unit_type;
      let cost := us_cost stat in
      (* Check if we can afford (only check when starting) *)
      if Qeqb (production_progress b) 0 then
        total ← World.team_minerals (world s) !! team entity;
        if total <? cost then
          Some {| world :=
                    World.put_entity
                      (map_building (b_set_waiting true) entity) (world s);
                  bus := bus s; rng := rng s |}
        else
          let b1 := b_set_waiting false b in
          let w1 :=
            World.set_team_minerals
              (<[team entity := total - cost]>
                 (World.team_minerals (world s))) (world s) in
          let bus1 :=
            publish
              (ProductionStartedEvent (id entity) unit_type (team entity)
                 (length (production_queue b))) (bus s) in
          progress dt entity b1 {| world := w1; bus := bus1; rng := rng s |}
      else
        progress dt entity (b_set_waiting false b) s
  end.

(** The loop body of [update] for the entity with id [eid]. *)
Definition update_entity (dt : Q) (eid : Z) (s : LoopState)
  : option LoopState :=
  match World.get_entity (world s) eid with
  | None => Some s
  | Some entity =>
      match building_data entity, alive entity with
      | Some b, true => update_building dt entity b s
      | _, _ => Some s
      end
  end.

(** [update]. *)
Definition update (dt : Q) (ps : t) (s : LoopState)
  : option (t * LoopState) :=
  let ps1 :=
    {| _waiting_for_minerals :=
         tick_cooldowns dt (_waiting_for_minerals ps) |} in
  s' ← for_each_id (update_entity dt) (entity_ids (world s)) s;
  Some (ps1, s').

End Update.

End ProductionSystem.

(** [class BuildingPlacementSystem]. *)
Module BuildingPlacementSystem.

Record t := {
  _build_timers : gmap Z Q;
  _mineral_warning_cooldown : gmap Z Q
}.

Definition init : t :=
  {| _build_timers := ∅; _mineral_warning_cooldown := ∅ |}.

Definition LoopState : Type := t * World.t * EventBus.

(** "Check for existing entities at build site". *)
Definition occupied (w : World.t) (entity : Entity) (bx by_ : Q) : bool :=
  existsb
    (fun other =>
       alive other && negb (id other =? id entity) &&
       Qltb (dist_sq (x other) (y other) bx by_) 2.0)
    (World.entities w).

Section Update.

Variable UNIT_STATS : gmap string UnitStat.
Variable BUILDING_STATS : gmap string BuildingStat.
Variable sqrt : Q -> Q.

Definition cancel (entity : Entity) : Entity :=
  map_worker (w_set_waiting false)
    (map_worker (w_set_build_target None) entity).

(** Lines 643-704: the worker stands at the build site. *)
Definition construct (dt : Q) (entity : Entity) (building_type : string)
    (bx by_ : Q) (s : LoopState) : option LoopState :=
  let '(bp, w, bus) := s in
  (* Check cost *)
  stat ← BUILDING_STATS !! building_type;
  let cost := bs_cost stat in
  total ← World.team_minerals w !! team entity;
  if total <? cost then
    let w1 := World.put_entity (map_worker (w_set_waiting true) entity) w in
    if (team entity =? 1) &&
       negb (bool_decide (is_Some (_mineral_warning_cooldown bp !! id entity)))
    then
      Some ({| _build_timers := _build_timers bp;
               _mineral_warning_cooldown :=
                 <[id entity := 10.0%Q]> (_mineral_warning_cooldown bp) |},
            w1,
            publish
              (WorkerWaitingForMineralsEvent (id entity) (team entity)
                 building_type cost) bus)
    else Some (bp, w1, bus)
  else
    let entity1 := map_worker (w_set_waiting false) entity in
    (* Fire construction start event (only once when timer starts) *)
    let bus1 :=
      match _build_timers bp !! id entity with
      | None =>
          publish
            (BuildingConstructionStartEvent (id entity) (team entity)
               building_type (bx, by_)) bus
      | Some _ => bus
      end in
    if occupied w entity bx by_ then
      (* Something is in the way - cancel build *)
      Some ({| _build_timers := <[id entity := 0%Q]> (_build_timers bp);
               _mineral_warning_cooldown := _mineral_warning_cooldown bp |},
            World.put_entity (map_worker (w_set_build_target None) entity1)
              w, bus1)
    else
      (* Progress building *)
      let timer := (default 0 (_build_timers bp !! id entity) + dt)%Q in
      let bp1 :=
        {| _build_timers := <[id entity := timer]> (_build_timers bp);
           _mineral_warning_cooldown := _mineral_warning_cooldown bp |} in
      let build_time_ := bs_build_time stat in
      if Qleb build_time_ timer then
        (* Deduct cost *)
        total' ← World.team_minerals w !! team entity;
        let w1 :=
          World.set_team_minerals
            (<[team entity := total' - cost]> (World.team_minerals w))
            (World.put_entity entity1 w) in
        (* Create building *)
        '(w2, bus2, new_building) ←
          World.spawn_entity UNIT_STATS BUILDING_STATS building_type
            (team entity) (bx, by_) w1 bus1;
        let bus3 :=
          publish
            (BuildingPlacedEvent (id new_building) building_type
               (team entity) (pos new_building) (id entity)) bus2 in
        Some ({| _build_timers := <[id entity := 0%Q]> (_build_timers bp1);
                 _mineral_warning_cooldown :=
                   _mineral_warning_cooldown bp1 |},
              modify_entity (id entity)
                (map_worker (w_set_build_target None)) w2,
              bus3)
      else Some (bp1, World.put_entity entity1 w, bus1).

(** The loop body of [update] for a living worker. *)
Definition update_worker (dt : Q) (entity : Entity) (wd : WorkerData)
    (s : LoopState) : option LoopState :=
  let '(bp, w, bus) := s in
  match build_target wd with
  | None =>
      Some (bp, World.put_entity (map_worker (w_set_waiting false) entity) w,
            bus)
  | Some (building_type, bx, by_) =>
      (* Validate build position is on the map and buildable *)
      match World.game_map w with
      | None => Some (bp, World.put_entity (cancel entity) w, bus)
      | Some gm =>
          let bx_int := py_int bx in
          let by_int := py_int by_ in
          if negb ((0 <=? bx_int) && (bx_int <? GameMap.width gm) &&
                   (0 <=? by_int) && (by_int <? GameMap.height gm)) then
            Some (bp, World.put_entity (cancel entity) w, bus)
          else if negb (GameMap.is_buildable gm bx_int by_int 2) then
            Some (bp, World.put_entity (cancel entity) w, bus)
          else
            (* Move to build site *)
            let dx := (bx - x entity)%Q in
            let dy := (by_ - y entity)%Q in
            let dist := sqrt (dx * dx + dy * dy)%Q in
            if Qltb 2.0 dist then
              Some (bp,
                    World.put_entity
                      (map_worker (w_set_waiting false)
                         (map_unit (u_set_destination (Some (bx, by_)))
                            entity)) w, bus)
            else
              construct dt (map_unit (u_set_destination None) entity)
                building_type bx by_ s
      end
  end.

(** The loop body of [update] for the entity with id [eid]. *)
Definition update_entity (dt : Q) (eid : Z) (s : LoopState)
  : option LoopState :=
  let '(bp, w, bus) := s in
  match World.get_entity w eid with
  | None => Some s
  | Some entity =>
      match worker_data entity, alive entity with
      | Some wd, true => update_worker dt entity wd s
      | _, _ => Some s
      end
  end.

(** [update]. *)
Definition update (dt : Q) (bp : t) (w : World.t) (bus : EventBus)
  : option LoopState :=
  let bp1 :=
    {| _build_timers := _build_timers bp;
       _mineral_warning_cooldown :=
         tick_cooldowns dt (_mineral_warning_cooldown bp) |} in
  for_each_id (update_entity dt) (entity_ids w) (bp1, w, bus).

End Update.

End BuildingPlacementSystem.

(** ** selection.py *)

(** [class SelectionManager]. *)
Module SelectionManager.

Definition DRAG_THRESHOLD : Q := 0.5.

Record t := {
  selected_ids : gset Z;
  drag_start : option Pos;
  drag_current : option Pos;
  _is_dragging : bool
}.

Definition init : t :=
  {| selected_ids := ∅; drag_start := None; drag_current := None;
     _is_dragging := false |}.

(** [start_drag]. *)
Definition start_drag (wx wy : Q) (sm : t) : t :=
  {| selected_ids := selected_ids sm; drag_start := Some (wx, wy);
     drag_current := Some (wx, wy); _is_dragging := false |}.

(** "Clear drag state" (also [cancel_drag]). *)
Definition cancel_drag (sm : t) : t :=
  {| selected_ids := selected_ids sm; drag_start := None;
     drag_current := None; _is_dragging := false |}.

(** The test of [end_drag] on one entity. *)
Definition in_rect (team_ : Z) (min_x max_x min_y max_y : Q) (entity : Entity)
  : bool :=
  alive entity && (team entity =? team_) && is_unit entity &&
  (Qleb min_x (x entity) && Qleb (x entity) max_x &&
   Qleb min_y (y entity) && Qleb (y entity) max_y).

(** [end_drag]: the manager after the call and the returned set. *)
Definition end_drag (w : World.t) (team_ : Z) (sm : t) : t * gset Z :=
  match _is_dragging sm, drag_start sm, drag_current sm with
  | true, Some (x1, y1), Some (x2, y2) =>
      let min_x := Qminimum x1 x2 in
      let max_x := Qmaximum x1 x2 in
      let min_y := Qminimum y1 y2 in
      let max_y := Qmaximum y1 y2 in
      let selected :=
        fold_left
          (fun (selected : gset Z) entity =>
             if in_rect team_ min_x max_x min_y max_y entity
             then {[ id entity ]} ∪ selected else selected)
          (World.entities w) ∅ in
      (cancel_drag sm, selected)
  | _, _, _ => (cancel_drag sm, ∅)
  end.

(** [select_single], [add_to_selection], [clear], [has_selection]. *)
Definition select_single (entity_id : Z) (sm : t) : t :=
  {| selected_ids := {[ entity_id ]}; drag_start := drag_start sm;
     drag_current := drag_current sm; _is_dragging := _is_dragging sm |}.

Definition add_to_selection (entity_id : Z) (sm : t) : t :=
  {| selected_ids := {[ entity_id ]} ∪ selected_ids sm;
     drag_start := drag_start sm; drag_current := drag_current sm;
     _is_dragging := _is_dragging sm |}.

Definition clear (sm : t) : t :=
  {| selected_ids := ∅; drag_start := drag_start sm;
     drag_current := drag_current sm; _is_dragging := _is_dragging sm |}.

Definition has_selection (sm : t) : bool :=
  negb (bool_decide (selected_ids sm = ∅)).

Section Drag.

Variable sqrt : Q -> Q.

(** [update_drag]. *)
Definition update_drag (wx wy : Q) (sm : t) : t :=
  match drag_start sm with
  | None => sm
  | Some (sx, sy) =>
      let dx := (wx - sx)%Q in
      let dy := (wy - sy)%Q in
      {| selected_ids := selected_ids sm; drag_start := drag_start sm;
         drag_current := Some (wx, wy);
         _is_dragging :=
           if Qltb DRAG_THRESHOLD (sqrt (dx * dx + dy * dy)%Q) then true
           else _is_dragging sm |}
  end.

(** A whole drag gesture: press at [p0], move through [moves], release. *)
Definition drag_gesture (w : World.t) (team_ : Z) (p0 : Pos)
    (moves : list Pos) (sm : t) : t * gset Z :=
  end_drag w team_
    (fold_left (fun sm p => update_drag (fst p) (snd p) sm) moves
       (start_drag (fst p0) (snd p0) sm)).

End Drag.

End SelectionManager.

(** [range(hi, lo, -1)]. *)
Definition py_range_down (hi lo : Z) : list Z := rev (py_range (lo + 1) (hi + 1)).

Section GroupDestinations.

Variable sqrt : Q -> Q.

(** [_generate_spiral_offsets]. *)
Definition spiral_ring (radius : Z) : list Tile :=
  List.map (fun ox => (ox, - radius)) (py_range (- radius) (radius + 1)) ++
  List.map (fun oy => (radius, oy)) (py_range (- radius + 1) (radius + 1)) ++
  List.map (fun ox => (ox, radius)) (py_range_down (radius - 1) (- radius - 1)) ++
  List.map (fun oy => (- radius, oy)) (py_range_down (radius - 1) (- radius)).

Definition _generate_spiral_offsets (count : nat) : list Tile :=
  take count
    ((0, 0) ::
     flat_map spiral_ring
       (py_range 1 (py_int (sqrt (inject_Z (Z.of_nat count))) + 3))).

(** The inner loop of [calculate_group_destinations] for one unit: the
    first offset whose tile is free and walkable. *)
Definition free_tile (game_map : option GameMap.t) (target_pos : Pos)
    (occupied_tiles : gset Tile) (offsets : list Tile) : option Tile :=
  List.find
    (fun tl =>
       negb (bool_decide (tl ∈ occupied_tiles)) &&
       match game_map with
       | Some gm => GameMap.is_walkable gm (fst tl) (snd tl)
       | None => true
       end)
    (List.map
       (fun o => (py_int (fst target_pos + inject_Z (fst o))%Q,
                  py_int (snd target_pos + inject_Z (snd o))%Q))
       offsets).

(** [calculate_group_destinations]. *)
Definition calculate_group_destinations (units : list Entity)
    (target_pos : Pos) (game_map : option GameMap.t) (r : Random.t)
  : gmap Z Pos * Random.t :=
  match units with
  | [] => (∅, r)
  | _ =>
      let spiral_offsets :=
        _generate_spiral_offsets (length units + 10) in
      let '(destinations, _, r') :=
        fold_left
          (fun (acc : gmap Z Pos * gset Tile * Random.t) unit_ =>
             let '(destinations, occupied_tiles, r) := acc in
             match free_tile game_map target_pos occupied_tiles
                     spiral_offsets with
             | Some (tile_x, tile_y) =>
                 let '(offset_x, r1) := Random.uniform (-0.3) 0.3 r in
                 let '(offset_y, r2) := Random.uniform (-0.3) 0.3 r1 in
                 (<[id unit_ :=
                      ((inject_Z tile_x + 0.5 + offset_x)%Q,
                       (inject_Z tile_y + 0.5 + offset_y)%Q)]> destinations,
                  {[ (tile_x, tile_y) ]} ∪ occupied_tiles, r2)
             | None =>
                 (<[id unit_ := target_pos]> destinations, occupied_tiles, r)
             end)
          units (∅, ∅, r) in
      (destinations, r')
  end.

End GroupDestinations.

(** ** main.py: the click handling of [class Game] *)
Module Game.

(** The fields of [Game] that [handle_click] reads or writes, together
    with the global bus and generator. *)
Record t := {
  world : World.t;
  selection : SelectionManager.t;
  build_mode : bool;
  build_type : option string;
  bus : EventBus;
  rng : Random.t
}.

Definition set_world (w : World.t) (g : t) : t :=
  {| world := w; selection := selection g; build_mode := build_mode g;
     build_type := build_type g; bus := bus g; rng := rng g |}.

Definition set_bus (b : EventBus) (g : t) : t :=
  {| world := world g; selection := selection g; build_mode := build_mode g;
     build_type := build_type g; bus := b; rng := rng g |}.

(** Truth value of [self.build_type] ([None] and the empty string are
    false). *)
Definition truthy_string (s : option string) : option string :=
  match s with
  | Some str => if decide (str = "") then None else Some str
  | None => None
  end.

(** The order in which Python iterates over a set of ints is fixed by the
    implementation, not by the language; it is a parameter. *)
Section Click.

Variable sqrt : Q -> Q.
Variable set_iter : gset Z -> list Z.

(** Lines 189-209: the non-depleted patch nearest to the click, within
    1.5 tiles (strictly). *)
Definition best_mineral (w : World.t) (wx wy : Q) : option MineralPatch :=
  fst
    (fold_left
       (fun (acc : option MineralPatch * Q) mineral =>
          let '(best, best_dist_sq) := acc in
          if negb (depleted mineral) then
            let d := dist_sq (m_x mineral) (m_y mineral) wx wy in
            if Qltb d best_dist_sq then (Some mineral, d) else acc
          else acc)
       (World.minerals w) (None, 2.25%Q)).

(** The command given to one unit by a terrain click. *)
Definition order_move (dest : Pos) (unit_ : Entity) : Entity :=
  let u1 :=
    map_unit
      (fun u => u_set_target None (u_set_path [] (u_set_destination (Some dest) u)))
      unit_ in
  if is_worker u1 then
    map_worker (fun wd => w_set_state idle (w_set_gather_target None wd)) u1
  else u1.

(** Lines 222-248: "Click on terrain: group movement". *)
Definition move_selection (wx wy : Q) (selected_units : list Entity)
    (first : Entity) (g : t) : t :=
  match selected_units with
  | [unit_] =>
      set_bus (publish (CommandEvent (id unit_) 1) (bus g))
        (set_world
           (modify_entity (id unit_) (order_move (wx, wy)) (world g)) g)
  | _ =>
      let '(destinations, rng') :=
        calculate_group_destinations sqrt selected_units (wx, wy)
          (World.game_map (world g)) (rng g) in
      let w' :=
        fold_left
          (fun w unit_ =>
             match destinations !! id unit_ with
             | Some dest =>
                 if alive unit_ then
                   modify_entity (id unit_) (order_move dest) w
                 else w
             | None => w
             end)
          selected_units (world g) in
      {| world := w'; selection := selection g;
         build_mode := build_mode g; build_type := build_type g;
         bus := publish (CommandEvent (id first) 1) (bus g);
         rng := rng' |}
  end.

(** Lines 211-220: "Click on enemy: attack (all selected units)". *)
Definition attack_selection (clicked : Entity)
    (selected_units : list Entity) (first : Entity) (g : t) : t :=
  let w' :=
    fold_left
      (fun w unit_ =>
         modify_entity (id unit_)
           (fun e =>
              map_unit (u_set_destination (Some (x clicked, y clicked)))
                (if is_soldier e then
                   map_unit (u_set_target (Some (id clicked))) e
                 else e)) w)
      selected_units (world g) in
  set_bus (publish (CommandEvent (id first) 1) (bus g)) (set_world w' g).

(** Lines 175-248: a click that is a command to the selection. *)
Definition command (wx wy : Q) (clicked_entity : option Entity) (g : t)
  : t :=
  (* No selection: nothing to do *)
  if negb (SelectionManager.has_selection (selection g)) then g
  else
    (* Get all selected units (filter out dead and non-units) *)
    let selected_units :=
      omap
        (fun eid =>
           match World.get_entity (world g) eid with
           | Some entity =>
               if alive entity && is_unit entity then Some entity else None
           | None => None
           end)
        (set_iter (SelectionManager.selected_ids (selection g))) in
    match selected_units with
    | [] => g
    | first :: _ =>
        (* Check for mineral click (only if single worker selected) *)
        let mineral_click :=
          match selected_units with
          | [worker] =>
              if is_worker worker then best_mineral (world g) wx wy
              else None
          | _ => None
          end in
        match mineral_click with
        | Some best =>
            set_bus (publish (CommandEvent (id first) 1) (bus g))
              (set_world
                 (modify_entity (id first)
                    (fun e =>
                       map_unit (u_set_target None)
                         (map_unit (u_set_destination (Some (m_pos best)))
                            (map_worker (w_set_state moving_to_mineral)
                               (map_worker
                                  (w_set_gather_target (Some (m_id best)))
                                  e))))
                    (world g)) g)
        | None =>
            match clicked_entity with
            | Some clicked =>
                if negb (team clicked =? 1) then
                  attack_selection clicked selected_units first g
                else move_selection wx wy selected_units first g
            | None => move_selection wx wy selected_units first g
            end
        end
    end.

(** [handle_click]. *)
Definition handle_click (wx wy : Q) (g : t) : t :=
  let clicked_entity :=
    World.get_entity_at (world g) wx wy World.default_radius in
  (* Get first selected entity for build mode / single unit commands *)
  let first_selected :=
    match set_iter (SelectionManager.selected_ids (selection g)) with
    | first_id :: _ => World.get_entity (world g) first_id
    | [] => None
    end in
  (* Build mode: place building *)
  match build_mode g, truthy_string (build_type g), first_selected with
  | true, Some bt, Some fs =>
      if is_worker fs then
        {| world :=
             modify_entity (id fs)
               (map_worker (w_set_build_target (Some (bt, wx, wy))))
               (world g);
           selection := selection g; build_mode := false;
           build_type := None;
           bus := publish (CommandEvent (id fs) 1) (bus g);
           rng := rng g |}
      else g
  | _, _, _ =>
      (* Click on own entity: select it *)
      match clicked_entity with
      | Some clicked =>
          if team clicked =? 1 then
            {| world := world g;
               selection :=
                 SelectionManager.select_single (id clicked) (selection g);
               build_mode := build_mode g; build_type := build_type g;
               bus := bus g; rng := rng g |}
          else command wx wy clicked_entity g
      | None => command wx wy None g
      end
  end.

End Click.

End Game.


(** * Verification *)

(** ** Comparisons on rationals *)

Lemma Qltb_lt (a b : Q) : Qltb a b = true <-> (a < b)%Q.
Proof.
  unfold Qltb. rewrite negb_true_iff, <- not_true_iff_false, Qle_bool_iff.
  split; [apply Qnot_le_lt | apply Qlt_not_le].
Qed.

Lemma Qltb_ge (a b : Q) : Qltb a b = false <-> (b <= a)%Q.
Proof.
  unfold Qltb. rewrite negb_false_iff. apply Qle_bool_iff.
Qed.

Lemma Qleb_le (a b : Q) : Qleb a b = true <-> (a <= b)%Q.
Proof. apply Qle_bool_iff. Qed.

Lemma Qleb_gt (a b : Q) : Qleb a b = false <-> (b < a)%Q.
Proof.
  unfold Qleb. rewrite <- not_true_iff_false, Qle_bool_iff.
  split; [apply Qnot_le_lt | apply Qlt_not_le].
Qed.

(** ** Production queue (entities.py) *)

(** The operations that write [production_queue]. *)
Inductive QueueOp :=
  | OpQueue (unit_type : string)
  | OpComplete.

Definition apply_queue_op (b : BuildingData) (op : QueueOp) : BuildingData :=
  match op with
  | OpQueue unit_type => fst (Building.queue_production unit_type b)
  | OpComplete => fst (Building.complete_production b)
  end.

Lemma queue_production_length (unit_type : string) (b : BuildingData) :
  (length (production_queue b) <= 5)%nat ->
  (length (production_queue (fst (Building.queue_production unit_type b))) <= 5)%nat.
Proof.
  intros Hlen. unfold Building.queue_production, Building.MAX_QUEUE_SIZE.
  destruct (Nat.ltb_spec (length (production_queue b)) 5) as [Hlt | Hge]; simpl.
  - rewrite length_app. simpl. lia.
  - exact Hlen.
Qed.

Lemma complete_production_length (b : BuildingData) :
  (length (production_queue b) <= 5)%nat ->
  (length (production_queue (fst (Building.complete_production b))) <= 5)%nat.
Proof.
  intros Hlen. unfold Building.complete_production.
  destruct (production_queue b) as [| u rest] eqn:Hq; simpl.
  - rewrite Hq. simpl. lia.
  - simpl in Hlen. lia.
Qed.

Lemma apply_queue_op_length (b : BuildingData) (op : QueueOp) :
  (length (production_queue b) <= 5)%nat ->
  (length (production_queue (apply_queue_op b op)) <= 5)%nat.
Proof.
  destruct op; simpl;
    [apply queue_production_length | apply complete_production_length].
Qed.

(** C7. A building whose queue holds 5 items refuses a further item:
    [queue_production] returns [False] and leaves the building as it was;
    and starting from a queue of at most 5 items (a new building has none),
    the queue holds at most 5 items after any sequence of
    [queue_production] and [complete_production] calls. *)
Theorem production_queue_at_most_five
    (b : BuildingData) (unit_type : string) (ops : list QueueOp) :
  (length (production_queue b) <= 5)%nat ->
  (length (production_queue b) = 5%nat ->
   Building.queue_production unit_type b = (b, false)) /\
  (length (production_queue (fold_left apply_queue_op ops b)) <= 5)%nat.
Proof.
  intros Hlen. split.
  - intros H5. unfold Building.queue_production, Building.MAX_QUEUE_SIZE.
    rewrite H5. reflexivity.
  - revert b Hlen. induction ops as [| op ops IH]; intros b Hlen; simpl.
    + exact Hlen.
    + apply IH, apply_queue_op_length, Hlen.
Qed.

Definition full_queue_building : BuildingData :=
  {| b_vision := 8;
     production_queue := ["Worker"; "Worker"; "Worker"; "Worker"; "Worker"];
     production_progress := 0; rally_point := None;
     b_waiting_for_minerals := false; build_time := 8 |}.

Lemma production_queue_at_most_five_witness :
  (Building.queue_production "Worker" full_queue_building
   = (full_queue_building, false)) /\
  (length (production_queue
     (fold_left apply_queue_op [OpQueue "Worker"; OpComplete; OpQueue "Worker"]
        full_queue_building)) <= 5)%nat.
Proof.
  pose proof (production_queue_at_most_five full_queue_building "Worker"
                [OpQueue "Worker"; OpComplete; OpQueue "Worker"]) as H.
  destruct H as [H1 H2].
  - simpl. lia.
  - split; [apply H1; reflexivity | exact H2].
Defined.

(** ** Fog of war (world.py) *)

Section FogMemory.

Implicit Types g : list (list FogState).

(** Every cell of [g] is still a cell in [g'], and no cell went back to
    HIDDEN. *)
Definition fog_kept g g' : Prop :=
  forall cx cy s,
    grid_get g cx cy = Some s ->
    exists s', grid_get g' cx cy = Some s' /\ (s <> HIDDEN -> s' <> HIDDEN).

Lemma fog_kept_refl g : fog_kept g g.
Proof. intros cx cy s H. exists s. split; [exact H | auto]. Qed.

Lemma fog_kept_trans g1 g2 g3 :
  fog_kept g1 g2 -> fog_kept g2 g3 -> fog_kept g1 g3.
Proof.
  intros H12 H23 cx cy s H.
  destruct (H12 _ _ _ H) as (s2 & H2 & Hs2).
  destruct (H23 _ _ _ H2) as (s3 & H3 & Hs3).
  exists s3. split; [exact H3 | auto].
Qed.

(** Reading a cell after a write: the written value or the old one. *)
Lemma grid_get_set g (wx wy : Z) (v : FogState) (cx cy : Z) (s : FogState) :
  grid_get g cx cy = Some s ->
  grid_get (grid_set g wx wy v) cx cy = Some v \/
  grid_get (grid_set g wx wy v) cx cy = Some s.
Proof.
  unfold grid_get, grid_set. intros H.
  destruct ((0 <=? cx) && (0 <=? cy)); [| discriminate].
  destruct (g !! Z.to_nat wy) as [row |] eqn:Hrow; [| right; exact H].
  destruct (g !! Z.to_nat cy) as [crow |] eqn:Hcrow; simpl in H; [| discriminate].
  destruct (decide (Z.to_nat wy = Z.to_nat cy)) as [Heq | Hne].
  - rewrite Heq in *. rewrite list_lookup_insert_eq
      by (apply lookup_lt_Some in Hcrow; exact Hcrow).
    simpl. assert (row = crow) by congruence. subst crow.
    destruct (decide (Z.to_nat wx = Z.to_nat cx)) as [Hxe | Hxn].
    + left. rewrite Hxe. apply list_lookup_insert_eq.
      apply lookup_lt_Some in H. exact H.
    + right. rewrite list_lookup_insert_ne by exact Hxn. exact H.
  - right. rewrite list_lookup_insert_ne by exact Hne.
    rewrite Hcrow. exact H.
Qed.

Lemma fog_kept_set g (wx wy : Z) (v : FogState) :
  v <> HIDDEN -> fog_kept g (grid_set g wx wy v).
Proof.
  intros Hv cx cy s H.
  destruct (grid_get_set g wx wy v cx cy s H) as [Hw | Hold].
  - exists v. split; [exact Hw | auto].
  - exists s. split; [exact Hold | auto].
Qed.

Lemma fog_kept_demote_cell g cx cy : fog_kept g (FogOfWar.demote_cell g cx cy).
Proof.
  unfold FogOfWar.demote_cell.
  destruct (grid_get g cx cy) as [[ | | ] |];
    try apply fog_kept_refl.
  apply fog_kept_set. discriminate.
Qed.

(** A loop whose every step keeps the fog keeps the fog. *)
Lemma fog_kept_fold {A : Type} (step : list (list FogState) -> A -> list (list FogState))
    (l : list A) g :
  (forall g a, fog_kept g (step g a)) -> fog_kept g (fold_left step l g).
Proof.
  intros Hstep. revert g. induction l as [| a l IH]; intros g; simpl.
  - apply fog_kept_refl.
  - eapply fog_kept_trans; [apply Hstep | apply IH].
Qed.

Lemma fog_kept_demote_all w h g : fog_kept g (FogOfWar.demote_all w h g).
Proof.
  unfold FogOfWar.demote_all. apply fog_kept_fold. intros g' cy.
  apply fog_kept_fold. intros g'' cx. apply fog_kept_demote_cell.
Qed.

Lemma fog_kept_fold_pair {A : Type}
    (step : list (list FogState) * gset Tile -> A ->
            list (list FogState) * gset Tile)
    (l : list A) (acc : list (list FogState) * gset Tile) :
  (forall acc a, fog_kept (fst acc) (fst (step acc a))) ->
  fog_kept (fst acc) (fst (fold_left step l acc)).
Proof.
  intros Hstep. revert acc. induction l as [| a l IH]; intros acc; simpl.
  - apply fog_kept_refl.
  - eapply fog_kept_trans; [apply Hstep | apply IH].
Qed.

Lemma fog_kept_reveal_cell w h vis cx cy dx dy acc :
  fog_kept (fst acc) (fst (FogOfWar.reveal_cell w h vis cx cy dx dy acc)).
Proof.
  unfold FogOfWar.reveal_cell. destruct acc as [g nv]. simpl.
  destruct (dx * dx + dy * dy <=? vis * vis); [| apply fog_kept_refl].
  destruct ((0 <=? cx + dx) && (cx + dx <? w) && (0 <=? cy + dy) && (cy + dy <? h));
    [| apply fog_kept_refl].
  destruct (grid_get g (cx + dx) (cy + dy)) as [[ | | ] |]; simpl;
    try apply fog_kept_refl; apply fog_kept_set; discriminate.
Qed.

Lemma fog_kept_reveal_entity w h acc e :
  fog_kept (fst acc) (fst (FogOfWar.reveal_entity w h acc e)).
Proof.
  unfold FogOfWar.reveal_entity.
  destruct (negb (alive e)); [apply fog_kept_refl |].
  apply fog_kept_fold_pair. intros acc1 dy.
  apply fog_kept_fold_pair. intros acc2 dx.
  apply fog_kept_reveal_cell.
Qed.

Lemma fog_kept_update_visibility (f : FogOfWar.t) (ents : list Entity) :
  fog_kept (FogOfWar.grid f)
    (FogOfWar.grid (fst (FogOfWar.update_visibility f ents))).
Proof.
  unfold FogOfWar.update_visibility.
  pose proof (fog_kept_fold_pair
                (FogOfWar.reveal_entity (FogOfWar.width f) (FogOfWar.height f))
                ents
                (FogOfWar.demote_all (FogOfWar.width f) (FogOfWar.height f)
                   (FogOfWar.grid f), ∅)
                (fog_kept_reveal_entity _ _)) as Hrev.
  destruct (fold_left _ ents _) as [g1 nv]. simpl in *.
  eapply fog_kept_trans; [apply fog_kept_demote_all | exact Hrev].
Qed.

(** The fog of a team over a sequence of fog updates, each with the list of
    entities that the world passes to it at that tick. *)
Definition fog_updates (f : FogOfWar.t) (ticks : list (list Entity))
  : FogOfWar.t :=
  fold_left (fun f ents => fst (FogOfWar.update_visibility f ents)) ticks f.

Lemma fog_kept_updates (ticks : list (list Entity)) (f : FogOfWar.t) :
  fog_kept (FogOfWar.grid f) (FogOfWar.grid (fog_updates f ticks)).
Proof.
  revert f. induction ticks as [| ents ticks IH]; intros f; simpl.
  - apply fog_kept_refl.
  - eapply fog_kept_trans; [apply fog_kept_update_visibility | apply IH].
Qed.

End FogMemory.

(** C6. A fog cell that is VISIBLE or EXPLORED is never HIDDEN again: after
    any number of [update_visibility] calls, with any entities, the cell is
    EXPLORED or VISIBLE. *)
Theorem fog_never_hidden_again
    (f : FogOfWar.t) (ticks : list (list Entity)) (cx cy : Z) (s : FogState) :
  grid_get (FogOfWar.grid f) cx cy = Some s ->
  s <> HIDDEN ->
  grid_get (FogOfWar.grid (fog_updates f ticks)) cx cy = Some EXPLORED \/
  grid_get (FogOfWar.grid (fog_updates f ticks)) cx cy = Some VISIBLE.
Proof.
  intros Hget Hs.
  destruct (fog_kept_updates ticks f cx cy s Hget) as (s' & Hget' & Hs').
  specialize (Hs' Hs). rewrite Hget'.
  destruct s'; [congruence | left | right]; reflexivity.
Qed.

(** Modelled from the spec: data/units.json and data/buildings.json are not
    among the sources.  The values are those of the spec's scenarios (a Worker
    costs 50 and takes 8 s; a Soldier has damage 10, range 2, cooldown 1 s)
    and the costs the AI controller tests against (Soldier 75, Barracks 150);
    the remaining entries only serve the examples below. *)
Definition example_unit_stats : gmap string UnitStat :=
  <["Worker" :=
      {| us_hp := 40; us_speed := 2.5; us_vision := 6; us_cost := 50;
         us_build_time := 8; us_carry_capacity := 8; us_damage := 0;
         us_range := 0; us_cooldown := 0 |}]>
  (<["Soldier" :=
      {| us_hp := 80; us_speed := 3; us_vision := 5; us_cost := 75;
         us_build_time := 12; us_carry_capacity := 0; us_damage := 10;
         us_range := 2; us_cooldown := 1 |}]> ∅).

Definition example_building_stats : gmap string BuildingStat :=
  <["Base" :=
      {| bs_hp := 1000; bs_vision := 8; bs_cost := 400; bs_build_time := 60 |}]>
  (<["Barracks" :=
      {| bs_hp := 600; bs_vision := 6; bs_cost := 150; bs_build_time := 20 |}]> ∅).

(** A soldier of team 1 with id 1 at the given position. *)
Definition scout_at (px py : Q) : list Entity :=
  match new_Soldier example_unit_stats 1 1 (px, py) with
  | Some e => [e]
  | None => []
  end.

(** The spec's "fog memory" scenario on a 12 x 12 grid: the scout stands at
    (2, 2) and then moves to (9, 9). *)
Definition fog_after_first_look : FogOfWar.t :=
  fst (FogOfWar.update_visibility (FogOfWar.init 12 12) (scout_at 2 2)).

Lemma fog_never_hidden_again_witness :
  grid_get
    (FogOfWar.grid (fog_updates fog_after_first_look [scout_at 9 9])) 2 2
    = Some EXPLORED \/
  grid_get
    (FogOfWar.grid (fog_updates fog_after_first_look [scout_at 9 9])) 2 2
    = Some VISIBLE.
Proof.
  apply (fog_never_hidden_again fog_after_first_look [scout_at 9 9] 2 2 VISIBLE).
  - vm_compute. reflexivity.
  - discriminate.
Defined.

Example fog_memory_scenario :
  grid_get (FogOfWar.grid fog_after_first_look) 2 2 = Some VISIBLE /\
  grid_get
    (FogOfWar.grid (fog_updates fog_after_first_look [scout_at 9 9])) 2 2
    = Some EXPLORED /\
  grid_get
    (FogOfWar.grid (fog_updates fog_after_first_look [scout_at 9 9])) 9 9
    = Some VISIBLE.
Proof. vm_compute. repeat split; reflexivity. Qed.

(** ** Drag selection (selection.py) *)

Section DragSelection.

Variable sqrt : Q -> Q.

(** The position of [e] lies in the axis-aligned rectangle spanned by [p0]
    and [p1]. *)
Definition in_rectangle (p0 p1 : Pos) (e : Entity) : Prop :=
  ((fst p0 <= x e <= fst p1)%Q \/ (fst p1 <= x e <= fst p0)%Q) /\
  ((snd p0 <= y e <= snd p1)%Q \/ (snd p1 <= y e <= snd p0)%Q).

Lemma Qminimum_le_iff (a b c : Q) :
  Qleb (Qminimum a b) c = true <-> (a <= c \/ b <= c)%Q.
Proof.
  unfold Qminimum. destruct (Qleb a b) eqn:Hab; rewrite Qleb_le.
  - apply Qleb_le in Hab. split; [auto | intros [H | H]; lra].
  - apply Qleb_gt in Hab. split; [auto | intros [H | H]; lra].
Qed.

Lemma Qmaximum_ge_iff (a b c : Q) :
  Qleb c (Qmaximum a b) = true <-> (c <= a \/ c <= b)%Q.
Proof.
  unfold Qmaximum. destruct (Qleb b a) eqn:Hab; rewrite Qleb_le.
  - apply Qleb_le in Hab. split; [auto | intros [H | H]; lra].
  - apply Qleb_gt in Hab. split; [auto | intros [H | H]; lra].
Qed.

Lemma Qminimum_ge (a b c : Q) :
  Qleb (Qminimum a b) c = true -> Qleb c (Qmaximum a b) = true ->
  ((a <= c <= b) \/ (b <= c <= a))%Q.
Proof.
  unfold Qminimum, Qmaximum.
  destruct (Qleb a b) eqn:Hab; destruct (Qleb b a) eqn:Hba;
    rewrite !Qleb_le; intros H1 H2;
    try apply Qleb_le in Hab; try apply Qleb_le in Hba;
    try apply Qleb_gt in Hab; try apply Qleb_gt in Hba; lra.
Qed.

(** What [end_drag] tests on an entity. *)
Lemma in_rect_spec (team_ : Z) (p0 p1 : Pos) (e : Entity) :
  SelectionManager.in_rect team_
    (Qminimum (fst p0) (fst p1)) (Qmaximum (fst p0) (fst p1))
    (Qminimum (snd p0) (snd p1)) (Qmaximum (snd p0) (snd p1)) e = true ->
  alive e = true /\ team e = team_ /\ is_unit e = true /\
  is_building e = false /\ in_rectangle p0 p1 e.
Proof.
  unfold SelectionManager.in_rect. rewrite !andb_true_iff.
  intros [[[Ha Ht] Hu] [[[Hx1 Hx2] Hy1] Hy2]].
  apply Z.eqb_eq in Ht.
  repeat split; try assumption.
  - unfold is_unit, is_building, unit_data, building_data in *.
    destruct (body e); simpl in *; congruence.
  - apply Qminimum_ge; assumption.
  - apply Qminimum_ge; assumption.
Qed.

(** Membership in the set that the loop of [end_drag] builds. *)
Lemma selected_fold (test : Entity -> bool) (es : list Entity) (acc : gset Z)
    (i : Z) :
  i ∈ fold_left
        (fun (selected : gset Z) entity =>
           if test entity then {[ id entity ]} ∪ selected else selected)
        es acc ->
  i ∈ acc \/ exists e, e ∈ es /\ id e = i /\ test e = true.
Proof.
  revert acc. induction es as [| e es IH]; intros acc; simpl.
  - auto.
  - intros H. apply IH in H. destruct H as [H | (e' & Hin & Hid & Ht)].
    + destruct (test e) eqn:Ht.
      * apply elem_of_union in H. destruct H as [H | H]; [| auto].
        apply elem_of_singleton in H. right. exists e.
        split; [apply list_elem_of_here | auto].
      * auto.
    + right. exists e'. split; [apply list_elem_of_further; exact Hin | auto].
Qed.

(** The drag state, which is all that [end_drag] reads of the manager. *)
Definition drag_state (sm : SelectionManager.t)
  : option Pos * option Pos * bool :=
  (SelectionManager.drag_start sm, SelectionManager.drag_current sm,
   SelectionManager._is_dragging sm).

Lemma update_drag_state (p : Pos) (sm1 sm2 : SelectionManager.t) :
  drag_state sm1 = drag_state sm2 ->
  drag_state (SelectionManager.update_drag sqrt (fst p) (snd p) sm1) =
  drag_state (SelectionManager.update_drag sqrt (fst p) (snd p) sm2).
Proof.
  unfold drag_state, SelectionManager.update_drag. intros H.
  injection H as Hs Hc Hd. rewrite Hs.
  destruct (SelectionManager.drag_start sm2) as [[sx sy] |] eqn:Hs2; simpl.
  - rewrite Hd. reflexivity.
  - rewrite Hs, Hs2, Hc, Hd. reflexivity.
Qed.

Lemma moves_drag_state (moves : list Pos) (sm1 sm2 : SelectionManager.t) :
  drag_state sm1 = drag_state sm2 ->
  drag_state
    (fold_left (fun sm p => SelectionManager.update_drag sqrt (fst p) (snd p) sm)
       moves sm1) =
  drag_state
    (fold_left (fun sm p => SelectionManager.update_drag sqrt (fst p) (snd p) sm)
       moves sm2).
Proof.
  revert sm1 sm2. induction moves as [| p moves IH]; intros sm1 sm2 H; simpl.
  - exact H.
  - apply IH, update_drag_state, H.
Qed.

Lemma end_drag_state (w : World.t) (team_ : Z) (sm1 sm2 : SelectionManager.t) :
  drag_state sm1 = drag_state sm2 ->
  snd (SelectionManager.end_drag w team_ sm1) =
  snd (SelectionManager.end_drag w team_ sm2).
Proof.
  unfold drag_state, SelectionManager.end_drag. intros H.
  injection H as Hs Hc Hd. rewrite Hs, Hc, Hd.
  destruct (SelectionManager._is_dragging sm2);
    destruct (SelectionManager.drag_start sm2) as [[x1 y1] |];
    destruct (SelectionManager.drag_current sm2) as [[x2 y2] |];
    reflexivity.
Qed.

Lemma last_nonempty_default {A : Type} (l : list A) (a d d' : A) :
  List.last (a :: l) d = List.last (a :: l) d'.
Proof.
  revert a. induction l as [| b l IH]; intros a; [reflexivity |].
  change (List.last (b :: l) d = List.last (b :: l) d'). apply IH.
Qed.

(** During a gesture the start point stays and the current point is the last
    one the pointer moved to. *)
Lemma moves_drag_points (moves : list Pos) (p0 pc : Pos)
    (sm : SelectionManager.t) :
  SelectionManager.drag_start sm = Some p0 ->
  SelectionManager.drag_current sm = Some pc ->
  let sm' :=
    fold_left (fun sm p => SelectionManager.update_drag sqrt (fst p) (snd p) sm)
      moves sm in
  SelectionManager.drag_start sm' = Some p0 /\
  SelectionManager.drag_current sm' = Some (List.last moves pc) /\
  (SelectionManager._is_dragging sm' = true ->
   SelectionManager._is_dragging sm = true \/ moves <> []).
Proof.
  revert pc sm. induction moves as [| p moves IH]; intros pc sm Hs Hc; simpl.
  - auto.
  - specialize (IH p (SelectionManager.update_drag sqrt (fst p) (snd p) sm)).
    assert (Hs' : SelectionManager.drag_start
                    (SelectionManager.update_drag sqrt (fst p) (snd p) sm)
                  = Some p0).
    { unfold SelectionManager.update_drag. rewrite Hs. destruct p0.
      reflexivity. }
    assert (Hc' : SelectionManager.drag_current
                    (SelectionManager.update_drag sqrt (fst p) (snd p) sm)
                  = Some p).
    { unfold SelectionManager.update_drag. rewrite Hs. destruct p0, p.
      reflexivity. }
    destruct (IH Hs' Hc') as (H1 & H2 & H3).
    split; [exact H1 |]. split.
    + rewrite H2. f_equal. destruct moves as [| p1 moves]; [reflexivity |].
      apply last_nonempty_default.
    + intros _. right. discriminate.
Qed.

(** C10. Drag selection is idempotent, and selects only living own-team
    units inside the rectangle.  For a fixed world and team, the same
    gesture (press at [p0], pointer moves [moves], release) returns the same
    set whatever the state the manager was left in, in particular when it is
    made a second time; and every returned id is the id of a living entity
    of the team that is a unit, not a building, and whose position lies in
    the rectangle spanned by the press point and the release point. *)
Theorem drag_selection_idempotent
    (w : World.t) (team_ : Z) (p0 : Pos) (moves : list Pos)
    (sm sm2 : SelectionManager.t) :
  let first := SelectionManager.drag_gesture sqrt w team_ p0 moves sm in
  let again := SelectionManager.drag_gesture sqrt w team_ p0 moves (fst first) in
  snd again = snd first /\
  snd (SelectionManager.drag_gesture sqrt w team_ p0 moves sm2) = snd first /\
  forall i : Z,
    i ∈ snd first ->
    exists (e : Entity) (p1 : Pos),
      e ∈ World.entities w /\ id e = i /\ alive e = true /\ team e = team_ /\
      is_unit e = true /\ is_building e = false /\
      List.last moves p0 = p1 /\ moves <> [] /\ in_rectangle p0 p1 e.
Proof.
  assert (Hindep : forall sm1 sm2,
    snd (SelectionManager.drag_gesture sqrt w team_ p0 moves sm1) =
    snd (SelectionManager.drag_gesture sqrt w team_ p0 moves sm2)).
  { intros sm1 sm1'. unfold SelectionManager.drag_gesture.
    apply end_drag_state, moves_drag_state. reflexivity. }
  cbv zeta. split; [apply Hindep |]. split; [apply Hindep |].
  intros i Hi. unfold SelectionManager.drag_gesture in Hi.
  pose proof (moves_drag_points moves p0 p0
                (SelectionManager.start_drag (fst p0) (snd p0) sm)) as Hpts.
  cbv zeta in Hpts.
  destruct Hpts as (Hs & Hc & Hd); [destruct p0; reflexivity .. |].
  unfold SelectionManager.end_drag in Hi.
  destruct (SelectionManager._is_dragging _) eqn:Hdrag.
  2:{ simpl in Hi. apply not_elem_of_empty in Hi. contradiction. }
  rewrite Hs, Hc in Hi. destruct p0 as [x1 y1].
  destruct (List.last moves (x1, y1)) as [x2 y2] eqn:Hlast.
  simpl in Hi. apply selected_fold in Hi.
  destruct Hi as [Hi | (e & Hin & Hid & Ht)].
  { apply not_elem_of_empty in Hi. contradiction. }
  apply (in_rect_spec team_ (x1, y1) (x2, y2)) in Ht.
  destruct Ht as (Ha & Htm & Hu & Hb & Hr).
  exists e, (x2, y2). repeat split; try assumption; try apply Hr.
  destruct (Hd eq_refl) as [Hfalse | Hne]; [discriminate | exact Hne].
Qed.

End DragSelection.

(** ** Click selection (main.py, world.py) *)

(** [List.find] returns the first element that passes the test. *)
Lemma find_first {A : Type} (test : A -> bool) (l : list A) (a : A) :
  List.find test l = Some a <->
  exists l1 l2,
    l = l1 ++ a :: l2 /\ test a = true /\ forall b, In b l1 -> test b = false.
Proof.
  split.
  - revert a. induction l as [| b l IH]; intros a; simpl; [discriminate |].
    destruct (test b) eqn:Hb.
    + intros [= ->]. exists [], l. repeat split; [exact Hb | intros ? []].
    + intros H. destruct (IH _ H) as (l1 & l2 & -> & Ha & Hl1).
      exists (b :: l1), l2. repeat split; [exact Ha |].
      intros c [<- | Hc]; [exact Hb | apply Hl1, Hc].
  - intros (l1 & l2 & -> & Ha & Hl1).
    induction l1 as [| b l1 IH]; simpl.
    + rewrite Ha. reflexivity.
    + rewrite (Hl1 b) by (left; reflexivity).
      apply IH. intros c Hc. apply Hl1. right. exact Hc.
Qed.

(** A living entity stands within [radius] of [(px, py)]. *)
Definition stands_within (radius : Q) (px py : Q) (e : Entity) : Prop :=
  alive e = true /\ (dist_sq (x e) (y e) px py <= radius * radius)%Q.

Lemma stands_within_test (radius px py : Q) (e : Entity) :
  alive e && Qleb (dist_sq (x e) (y e) px py) (radius * radius) = true <->
  stands_within radius px py e.
Proof.
  unfold stands_within. rewrite andb_true_iff, Qleb_le. reflexivity.
Qed.

(** [get_entity_at] returns the first living entity of the table that
    stands within the radius. *)
Lemma get_entity_at_spec (w : World.t) (px py radius : Q) (e : Entity) :
  World.get_entity_at w px py radius = Some e <->
  exists before after,
    World.entities w = before ++ e :: after /\
    stands_within radius px py e /\
    forall e', In e' before -> ~ stands_within radius px py e'.
Proof.
  unfold World.get_entity_at. rewrite find_first.
  split; intros (l1 & l2 & Hl & He & Hl1); exists l1, l2;
    (split; [exact Hl |]); split.
  - apply stands_within_test, He.
  - intros e' Hin Hs. apply stands_within_test in Hs.
    rewrite (Hl1 e' Hin) in Hs. discriminate.
  - apply stands_within_test, He.
  - intros e' Hin. apply not_true_is_false. intros Hs.
    apply (Hl1 e' Hin). apply stands_within_test, Hs.
Qed.

Section ClickSelection.

Variable sqrt : Q -> Q.
Variable set_iter : gset Z -> list Z.

(** A click that is a command leaves the selection as it is. *)
Lemma command_keeps_selection (wx wy : Q) (clicked : option Entity)
    (g : Game.t) :
  Game.selection (Game.command sqrt set_iter wx wy clicked g) = Game.selection g.
Proof.
  unfold Game.command, Game.attack_selection, Game.move_selection.
  repeat case_match; reflexivity.
Qed.

(** C9 (as the code has it). On a click outside build mode the selection is
    replaced by a single entity exactly when [get_entity_at] with its default
    radius 0.5 finds an entity of team 1: that is the first living entity of
    the table whose position lies within 0.5 tiles of the click.  In every
    other case the selection is left as it was. *)
Theorem click_selects_within_half_tile (wx wy : Q) (g : Game.t) :
  Game.build_mode g = false ->
  let g' := Game.handle_click sqrt set_iter wx wy g in
  (forall e,
     World.get_entity_at (Game.world g) wx wy 0.5 = Some e ->
     team e = 1 ->
     SelectionManager.selected_ids (Game.selection g') = {[ id e ]}) /\
  ((forall e,
      World.get_entity_at (Game.world g) wx wy 0.5 = Some e -> team e <> 1) ->
   Game.selection g' = Game.selection g) /\
  (forall e,
     World.get_entity_at (Game.world g) wx wy 0.5 = Some e <->
     exists before after,
       World.entities (Game.world g) = before ++ e :: after /\
       stands_within 0.5 wx wy e /\
       forall e', In e' before -> ~ stands_within 0.5 wx wy e').
Proof.
  intros Hbm. cbv zeta. unfold Game.handle_click, World.default_radius.
  rewrite Hbm. split; [| split].
  - intros e He Ht. rewrite He. apply Z.eqb_eq in Ht. rewrite Ht. reflexivity.
  - intros Hne.
    destruct (World.get_entity_at (Game.world g) wx wy 0.5) as [e |] eqn:He.
    + destruct (Z.eqb_spec (team e) 1) as [Ht | Ht].
      * exfalso. exact (Hne e eq_refl Ht).
      * apply command_keeps_selection.
    + apply command_keeps_selection.
  - intros e. apply get_entity_at_spec.
Qed.

End ClickSelection.

(** ** Example data for the concrete runs below *)

(** A square root rounded down to six decimals, standing for [math.sqrt] in
    the concrete runs. *)
Definition example_sqrt (q : Q) : Q :=
  Qmake (Z.sqrt (Qnum q * 1000000000000 / Zpos (Qden q))) 1000000.

(** [math.degrees(math.atan2(a, b))] is only stored in [angle]; the concrete
    runs use a constant. *)
Definition example_atan2_degrees (a b : Q) : Q := 0%Q.

(** A generator whose every draw is the middle of its range. *)
Definition example_rng : Random.t :=
  {| Random.unit_interval := fun _ => 0.5%Q; Random.index := fun n => n;
     Random.draws := 0 |}.

Definition example_worker_stat : UnitStat :=
  {| us_hp := 40; us_speed := 2.5; us_vision := 6; us_cost := 50;
     us_build_time := 8; us_carry_capacity := 8; us_damage := 0;
     us_range := 0; us_cooldown := 0 |}.

(** A worker as [Worker(eid, tm, p)] builds it, then put in state [st] with
    gather target [gt]. *)
Definition example_worker_data (st : WorkerState) (gt : option Z)
  : WorkerData :=
  {| carrying := 0;
     carry_capacity := us_carry_capacity example_worker_stat;
     gather_target := gt; build_target := None; build_progress := 0;
     state := st; w_waiting_for_minerals := false |}.

Definition example_worker (eid tm : Z) (p : Pos) (st : WorkerState)
    (gt : option Z) : Entity :=
  new_entity eid tm p (us_hp example_worker_stat)
    (IsWorker (new_unit_data example_worker_stat) (example_worker_data st gt)).

(** A base as [Base(eid, tm, p)] builds it, with the given queue. *)
Definition example_base (eid tm : Z) (p : Pos) (queue : list string) : Entity :=
  new_entity eid tm p 1000
    (IsBase
       {| b_vision := 8; production_queue := queue; production_progress := 0;
          rally_point := None; b_waiting_for_minerals := false;
          build_time := us_build_time example_worker_stat |}).

(** A world without a map that holds the given entities and patches. *)
Definition example_world (es : list Entity) (ms : list MineralPatch)
    (gm : option GameMap.t) (stock : Z) : World.t :=
  {| World.entities := es; World.minerals := ms; World.next_id := 100;
     World.game_map := gm;
     World.team_minerals := <[1 := stock]> (<[2 := stock]> ∅);
     World.fog := ∅; World.game_over := false; World.game_over_time := None;
     World.winner := None; World.game_time := 0 |}.

(** One worker of the player at the origin; nothing is selected. *)
Definition click_game : Game.t :=
  {| Game.world := example_world [example_worker 1 1 (0, 0)%Q idle None] [] None 50;
     Game.selection := SelectionManager.init;
     Game.build_mode := false; Game.build_type := None;
     Game.bus := []; Game.rng := example_rng |}.

(** C9, counterexample. The player's worker stands 1 tile from the click,
    hence within 1.5 tiles, and the click selects nothing. *)
Lemma click_within_one_and_a_half_tiles_counterexample :
  exists e : Entity,
    World.entities (Game.world click_game) = [e] /\
    alive e = true /\ team e = 1 /\
    (dist_sq (x e) (y e) 1 0 <= 1.5 * 1.5)%Q /\
    SelectionManager.selected_ids
      (Game.selection
         (Game.handle_click example_sqrt elements 1 0 click_game)) = ∅.
Proof.
  exists (example_worker 1 1 (0, 0)%Q idle None).
  repeat split; try reflexivity.
  vm_compute. discriminate.
Qed.

Lemma click_selects_within_half_tile_witness :
  SelectionManager.selected_ids
    (Game.selection
       (Game.handle_click example_sqrt elements 0.3 0 click_game)) = {[ 1 ]}.
Proof.
  assert (Hbm : Game.build_mode click_game = false) by reflexivity.
  apply (proj1 (click_selects_within_half_tile example_sqrt elements 0.3 0
                  click_game Hbm)
           (example_worker 1 1 (0, 0)%Q idle None)).
  - reflexivity.
  - reflexivity.
Defined.

(** ** Worker state machine: moving_to_mineral (systems.py) *)

(** The outcome of [_process_worker] when the worker starts to gather: state
    gathering, destination cleared, gather timer at 0, one GatheringStarted
    event. *)
Definition starts_gathering (worker : Entity) (s : ResourceSystem.LoopState)
  : ResourceSystem.LoopState :=
  let '(rs, w, bus) := s in
  ({| ResourceSystem._gather_timers :=
        <[id worker := 0.0%Q]> (ResourceSystem._gather_timers rs) |},
   World.put_entity
     (map_unit (u_set_destination None)
        (map_worker (w_set_state gathering) worker)) w,
   bus ++ [GatheringStartedEvent (id worker) (team worker)]).

(** C5 (as the code has it). Let a worker be in state moving_to_mineral with
    a gather target that is not depleted.  If its team has no living base,
    [_process_worker] changes nothing.  Otherwise the call either makes the
    worker start gathering (state gathering, gather timer set to 0,
    GatheringStarted published), and then the worker is within 1.5 tiles of
    the patch; or it changes nothing, and then the squared distance to the
    patch is at least 1.5. *)
Theorem moving_worker_starts_gathering
    (dt : Q) (worker : Entity) (wd : WorkerData) (p : MineralPatch)
    (s : ResourceSystem.LoopState) :
  state wd = moving_to_mineral ->
  gather_target wd = Some (m_id p) ->
  World.get_mineral (snd (fst s)) (m_id p) = Some p ->
  depleted p = false ->
  let d2 := dist_sq (m_x p) (m_y p) (x worker) (y worker) in
  (World.get_base (snd (fst s)) (team worker) = None ->
   ResourceSystem._process_worker dt worker wd s = Some s) /\
  (forall base,
     World.get_base (snd (fst s)) (team worker) = Some base ->
     (ResourceSystem._process_worker dt worker wd s
        = Some (starts_gathering worker s) /\
      (d2 <= 1.5 * 1.5)%Q) \/
     (ResourceSystem._process_worker dt worker wd s = Some s /\
      (1.5 <= d2)%Q)).
Proof.
  intros Hst Hgt Hm Hdep. cbv zeta.
  destruct s as [[rs w] bus]. simpl in Hm.
  unfold ResourceSystem._process_worker, ResourceSystem.target_patch.
  rewrite Hgt, Hm, Hst. simpl. rewrite Hdep. split.
  - intros Hb. rewrite Hb. reflexivity.
  - intros base Hb. rewrite Hb. simpl.
    fold (dist_sq (m_x p) (m_y p) (x worker) (y worker)).
    destruct (Qltb (dist_sq (m_x p) (m_y p) (x worker) (y worker)) 1.5)
      eqn:Hlt.
    + left. split; [reflexivity |]. apply Qltb_lt in Hlt. lra.
    + right. split; [reflexivity |]. apply Qltb_ge in Hlt. exact Hlt.
Qed.

Definition example_patch : MineralPatch :=
  {| m_id := 10; m_x := 0; m_y := 0; minerals := 1500 |}.

(** A base of team 1 at (5, 5), the patch at the origin, and a worker of
    team 1 walking to the patch from the position [p]. *)
Definition mining_world (p : Pos) : World.t :=
  example_world
    [example_base 1 1 (5, 5)%Q [];
     example_worker 2 1 p moving_to_mineral (Some 10)]
    [example_patch] None 50.

(** The same without the base. *)
Definition mining_world_no_base (p : Pos) : World.t :=
  example_world [example_worker 2 1 p moving_to_mineral (Some 10)]
    [example_patch] None 50.

(** The state of the worker [eid] and the published events after a call of
    [ResourceSystem.update]. *)
Definition worker_state_after (r : option ResourceSystem.LoopState) (eid : Z)
  : option (WorkerState * EventBus) :=
  '(rs, w, bus) ← r;
  e ← World.get_entity w eid;
  wd ← worker_data e;
  Some (state wd, bus).

(** C5, counterexample. (1) A worker whose team has no living base stands on
    the patch and does not start gathering.  (2) With a living base, a worker
    1.3 tiles from the patch, hence within 1.5 tiles, does not start
    gathering either: the code compares the squared distance 1.69 with
    1.5. *)
Lemma gathering_within_one_and_a_half_tiles_counterexample :
  worker_state_after
    (ResourceSystem.update (1 # 30) ResourceSystem.init
       (mining_world_no_base (0, 0)%Q) []) 2
  = Some (moving_to_mineral, []) /\
  (dist_sq (m_x example_patch) (m_y example_patch) 1.3 0 <= 1.5 * 1.5)%Q /\
  worker_state_after
    (ResourceSystem.update (1 # 30) ResourceSystem.init
       (mining_world (1.3, 0)%Q) []) 2
  = Some (moving_to_mineral, []).
Proof.
  split; [vm_compute; reflexivity |].
  split; [vm_compute; discriminate |].
  vm_compute. reflexivity.
Qed.

Example gathering_starts_next_to_the_patch :
  worker_state_after
    (ResourceSystem.update (1 # 30) ResourceSystem.init
       (mining_world (1, 0)%Q) []) 2
  = Some (gathering, [GatheringStartedEvent 2 1]).
Proof. vm_compute. reflexivity. Qed.

Lemma moving_worker_starts_gathering_witness :
  let worker := example_worker 2 1 (1, 0)%Q moving_to_mineral (Some 10) in
  let wd := example_worker_data moving_to_mineral (Some 10) in
  let s := (ResourceSystem.init, mining_world (1, 0)%Q, @nil Event) in
  ResourceSystem._process_worker (1 # 30) worker wd s
  = Some (starts_gathering worker s).
Proof.
  intros worker wd s.
  assert (Hbase : World.get_base (snd (fst s)) (team worker)
                  = Some (example_base 1 1 (5, 5)%Q [])) by reflexivity.
  destruct (proj2 (moving_worker_starts_gathering (1 # 30) worker wd
                     example_patch s eq_refl eq_refl eq_refl eq_refl)
              _ Hbase) as [[H _] | [_ Hge]].
  - exact H.
  - exfalso. revert Hge. vm_compute. intros Hge. apply Hge. reflexivity.
Defined.

(** ** The entity table *)

Section DictFacts.

Context {A : Type} (key : A -> Z).

Lemma dict_get_set_eq (a : A) (d : list A) :
  dict_get key (key a) (dict_set key a d) = Some a.
Proof.
  induction d as [| b d IH]; simpl.
  - rewrite Z.eqb_refl. reflexivity.
  - destruct (Z.eqb_spec (key b) (key a)) as [Heq | Hne]; simpl.
    + rewrite Z.eqb_refl. reflexivity.
    + destruct (Z.eqb_spec (key b) (key a)); [contradiction | exact IH].
Qed.

Lemma dict_get_set_ne (k : Z) (a : A) (d : list A) :
  k <> key a -> dict_get key k (dict_set key a d) = dict_get key k d.
Proof.
  intros Hk. induction d as [| b d IH]; simpl.
  - destruct (Z.eqb_spec (key a) k); [congruence | reflexivity].
  - destruct (Z.eqb_spec (key b) (key a)) as [Heq | Hne]; simpl.
    + destruct (Z.eqb_spec (key a) k); [congruence |].
      destruct (Z.eqb_spec (key b) k); [congruence | reflexivity].
    + destruct (Z.eqb_spec (key b) k); [reflexivity | exact IH].
Qed.

Lemma dict_get_Some (k : Z) (a : A) (d : list A) :
  dict_get key k d = Some a -> In a d /\ key a = k.
Proof.
  induction d as [| b d IH]; simpl; [discriminate |].
  destruct (Z.eqb_spec (key b) k) as [Heq | Hne].
  - intros [= ->]. auto.
  - intros H. destruct (IH H). auto.
Qed.

Lemma dict_set_In (a b : A) (d : list A) :
  In b (dict_set key a d) -> b = a \/ In b d.
Proof.
  induction d as [| c d IH]; simpl.
  - intros [<- | []]. auto.
  - destruct (key c =? key a); simpl.
    + intros [<- | H]; auto.
    + intros [<- | H]; [auto |]. destruct (IH H); auto.
Qed.

Lemma dict_get_In (a : A) (d : list A) :
  In a d -> exists b, dict_get key (key a) d = Some b.
Proof.
  induction d as [| c d IH]; simpl; [intros [] |].
  intros [-> | H].
  - rewrite Z.eqb_refl. eauto.
  - destruct (key c =? key a); [eauto | apply IH, H].
Qed.

End DictFacts.

Lemma get_put_entity_eq (e : Entity) (w : World.t) :
  World.get_entity (World.put_entity e w) (id e) = Some e.
Proof. apply dict_get_set_eq. Qed.

Lemma get_put_entity_ne (eid : Z) (e : Entity) (w : World.t) :
  eid <> id e ->
  World.get_entity (World.put_entity e w) eid = World.get_entity w eid.
Proof. apply dict_get_set_ne. Qed.

Lemma id_map_building (f : BuildingData -> BuildingData) (e : Entity) :
  id (map_building f e) = id e.
Proof. unfold map_building. destruct (body e); reflexivity. Qed.

Lemma id_map_unit (f : UnitData -> UnitData) (e : Entity) :
  id (map_unit f e) = id e.
Proof. unfold map_unit. destruct (body e); reflexivity. Qed.

Lemma id_map_worker (f : WorkerData -> WorkerData) (e : Entity) :
  id (map_worker f e) = id e.
Proof. unfold map_worker. destruct (body e); reflexivity. Qed.

Lemma id_map_soldier (f : SoldierData -> SoldierData) (e : Entity) :
  id (map_soldier f e) = id e.
Proof. unfold map_soldier. destruct (body e); reflexivity. Qed.

(** ** Production without funds (systems.py) *)

Section ProductionWaits.

Variable UNIT_STATS : gmap string UnitStat.
Variable BUILDING_STATS : gmap string BuildingStat.

(** When the production loop visits a living building whose progress is 0
    and whose queue head costs more than the team's mineral total, it sets
    [waiting_for_minerals] to true and does nothing else: the resulting state
    is the visited state with that one flag written.  So the mineral totals,
    the building's progress and queue, every other entity, the generator and
    the bus (hence no ProductionStarted event) are as before. *)
Lemma production_visit_waits
    (dt : Q) (entity : Entity) (b : BuildingData)
    (s : ProductionSystem.LoopState)
    (unit_type : string) (stat : UnitStat) (total : Z) :
  World.get_entity (ProductionSystem.world s) (id entity) = Some entity ->
  alive entity = true ->
  building_data entity = Some b ->
  (production_progress b == 0)%Q ->
  Building.current_production b = Some unit_type ->
  UNIT_STATS !! unit_type = Some stat ->
  World.team_minerals (ProductionSystem.world s) !! team entity = Some total ->
  total < us_cost stat ->
  exists s' entity' b',
    ProductionSystem.update_entity UNIT_STATS BUILDING_STATS dt (id entity) s
      = Some s' /\
    World.get_entity (ProductionSystem.world s') (id entity) = Some entity' /\
    building_data entity' = Some b' /\
    b_waiting_for_minerals b' = true /\
    production_progress b' = production_progress b /\
    production_queue b' = production_queue b /\
    entity' = map_building (b_set_waiting true) entity /\
    (forall eid, eid <> id entity ->
       World.get_entity (ProductionSystem.world s') eid =
       World.get_entity (ProductionSystem.world s) eid) /\
    World.team_minerals (ProductionSystem.world s') =
      World.team_minerals (ProductionSystem.world s) /\
    World.minerals (ProductionSystem.world s') =
      World.minerals (ProductionSystem.world s) /\
    World.next_id (ProductionSystem.world s') =
      World.next_id (ProductionSystem.world s) /\
    ProductionSystem.bus s' = ProductionSystem.bus s /\
    ProductionSystem.rng s' = ProductionSystem.rng s.
Proof.
  intros Hget Halive Hb Hprog Hhead Hstat Htotal Hcost.
  exists {| ProductionSystem.world :=
              World.put_entity (map_building (b_set_waiting true) entity)
                (ProductionSystem.world s);
            ProductionSystem.bus := ProductionSystem.bus s;
            ProductionSystem.rng := ProductionSystem.rng s |},
    (map_building (b_set_waiting true) entity), (b_set_waiting true b).
  split.
  - unfold ProductionSystem.update_entity. rewrite Hget, Hb, Halive.
    unfold ProductionSystem.update_building. rewrite Hhead. simpl.
    rewrite Hstat. simpl.
    assert (Hz : Qeqb (production_progress b) 0 = true)
      by (apply Qeq_bool_iff; exact Hprog).
    rewrite Hz, Htotal. simpl.
    destruct (Z.ltb_spec total (us_cost stat)); [reflexivity | lia].
  - simpl. split.
    + rewrite <- (id_map_building (b_set_waiting true) entity) at 1.
      apply get_put_entity_eq.
    + split.
      { unfold building_data, map_building in *.
        destruct (body entity); simpl in *; congruence. }
      repeat split.
      intros eid Hne. apply get_put_entity_ne.
      rewrite id_map_building. exact Hne.
Qed.

End ProductionWaits.

(** ** Mineral totals (systems.py) *)

(** A loop over entity ids keeps every reflexive and transitive relation
    that each visit keeps. *)
Lemma for_each_id_preorder {S : Type} (R : S -> S -> Prop)
    (body : Z -> S -> option S) (ids : list Z) (s s' : S) :
  (forall s, R s s) ->
  (forall s1 s2 s3, R s1 s2 -> R s2 s3 -> R s1 s3) ->
  (forall i s s', body i s = Some s' -> R s s') ->
  for_each_id body ids s = Some s' -> R s s'.
Proof.
  intros Hrefl Htrans Hbody. revert s.
  induction ids as [| i ids IH]; intros s; simpl.
  - intros [= ->]. apply Hrefl.
  - destruct (body i s) as [s1 |] eqn:Hs1; simpl; [| discriminate].
    intros H. eapply Htrans; [apply (Hbody _ _ _ Hs1) | apply IH, H].
Qed.

Definition minerals_nonneg (tm : gmap Z Z) : Prop :=
  forall team_ total, tm !! team_ = Some total -> 0 <= total.

Section MineralTotals.

Variable UNIT_STATS : gmap string UnitStat.
Variable BUILDING_STATS : gmap string BuildingStat.
Variable sqrt : Q -> Q.

(** The three ways in which the systems write a team's mineral total: the
    deduction of the cost of a unit or of a building, when the total covers
    it, and the delivery of a non-negative amount. *)
Inductive minerals_step (tm tm' : gmap Z Z) : Prop :=
  | step_produce (team_ total : Z) (unit_type : string) (stat : UnitStat) :
      UNIT_STATS !! unit_type = Some stat ->
      tm !! team_ = Some total -> us_cost stat <= total ->
      tm' = <[team_ := total - us_cost stat]> tm -> minerals_step tm tm'
  | step_build (team_ total : Z) (building_type : string)
      (stat : BuildingStat) :
      BUILDING_STATS !! building_type = Some stat ->
      tm !! team_ = Some total -> bs_cost stat <= total ->
      tm' = <[team_ := total - bs_cost stat]> tm -> minerals_step tm tm'
  | step_deliver (team_ total amount : Z) :
      tm !! team_ = Some total -> 0 <= amount ->
      tm' = <[team_ := total + amount]> tm -> minerals_step tm tm'.

Lemma minerals_step_nonneg (tm tm' : gmap Z Z) :
  minerals_step tm tm' -> minerals_nonneg tm -> minerals_nonneg tm'.
Proof.
  intros Hstep Hnn t v.
  destruct Hstep as [tm_ total ut stat _ Hl Hc -> | tm_ total bt stat _ Hl Hc ->
                    | tm_ total amount Hl Ha ->];
    (destruct (decide (tm_ = t)) as [-> | Hne];
     [rewrite lookup_insert_eq; intros [= <-]
     | rewrite lookup_insert_ne by exact Hne; apply Hnn]).
  - lia.
  - lia.
  - specialize (Hnn _ _ Hl). lia.
Qed.

Lemma minerals_steps_nonneg (tm tm' : gmap Z Z) :
  rtc minerals_step tm tm' -> minerals_nonneg tm -> minerals_nonneg tm'.
Proof.
  induction 1 as [| tm1 tm2 tm3 Hstep _ IH]; [auto |].
  intros Hnn. apply IH. eapply minerals_step_nonneg; eassumption.
Qed.

Lemma team_minerals_modify (eid : Z) (f : Entity -> Entity) (w : World.t) :
  World.team_minerals (modify_entity eid f w) = World.team_minerals w.
Proof. unfold modify_entity. destruct (World.get_entity w eid); reflexivity. Qed.

Lemma team_minerals_spawn (kind_ : string) (team_ : Z) (p : Pos)
    (w w' : World.t) (bus bus' : EventBus) (e : Entity) :
  World.spawn_entity UNIT_STATS BUILDING_STATS kind_ team_ p w bus
    = Some (w', bus', e) ->
  World.team_minerals w' = World.team_minerals w.
Proof.
  unfold World.spawn_entity.
  destruct (create_entity _ _ _ _ _ _); simpl; [| discriminate].
  intros [= <- _ _]. reflexivity.
Qed.

Lemma team_minerals_complete (entity : Entity) (b : BuildingData)
    (s s' : ProductionSystem.LoopState) :
  ProductionSystem.complete UNIT_STATS BUILDING_STATS entity b s = Some s' ->
  World.team_minerals (ProductionSystem.world s') =
  World.team_minerals (ProductionSystem.world s).
Proof.
  unfold ProductionSystem.complete.
  destruct (Building.complete_production b) as [b1 [completed_type |]];
    simpl; [| discriminate].
  destruct (World.spawn_entity _ _ _ _ _ _ _) as [[[w2 bus1] new_unit] |]
    eqn:Hspawn; simpl; [| discriminate].
  apply team_minerals_spawn in Hspawn. simpl in Hspawn.
  destruct (Random.choice WORKER_NAMES _) as [[unit_name rng2] |];
    simpl; [| discriminate].
  match goal with
  | |- mbind _ ?o = _ -> _ => destruct o as [[bus3 rng3] |]
  end; simpl; [| discriminate].
  intros [= <-]. simpl.
  destruct (is_worker new_unit);
    [destruct (World.get_nearest_mineral _ _ _) |];
    destruct (rally_point b1);
    rewrite ?team_minerals_modify; exact Hspawn.
Qed.

Lemma team_minerals_progress (dt : Q) (entity : Entity) (b : BuildingData)
    (s s' : ProductionSystem.LoopState) :
  ProductionSystem.progress UNIT_STATS BUILDING_STATS dt entity b s = Some s' ->
  World.team_minerals (ProductionSystem.world s') =
  World.team_minerals (ProductionSystem.world s).
Proof.
  unfold ProductionSystem.progress.
  destruct (Qeqb (build_time b) 0); [discriminate |].
  destruct (Qleb 1.0 _).
  - apply team_minerals_complete.
  - intros [= <-]. reflexivity.
Qed.

(** A visit of the production loop leaves the totals or deducts a cost
    that the total covers. *)
Lemma production_visit_minerals (dt : Q) (eid : Z)
    (s s' : ProductionSystem.LoopState) :
  ProductionSystem.update_entity UNIT_STATS BUILDING_STATS dt eid s = Some s' ->
  rtc minerals_step
    (World.team_minerals (ProductionSystem.world s))
    (World.team_minerals (ProductionSystem.world s')).
Proof.
  unfold ProductionSystem.update_entity.
  destruct (World.get_entity _ eid) as [entity |]; [| intros [= <-]; constructor].
  destruct (building_data entity) as [b |]; [| intros [= <-]; constructor].
  destruct (alive entity); [| intros [= <-]; constructor].
  unfold ProductionSystem.update_building.
  destruct (Building.current_production b) as [unit_type |];
    [| intros [= <-]; constructor].
  destruct (UNIT_STATS !! unit_type) as [stat |] eqn:Hstat; simpl;
    [| discriminate].
  destruct (Qeqb (production_progress b) 0).
  - destruct (World.team_minerals _ !! team entity) as [total |] eqn:Htotal;
      simpl; [| discriminate].
    destruct (Z.ltb_spec total (us_cost stat)) as [Hlt | Hge].
    + intros [= <-]. constructor.
    + intros H. apply team_minerals_progress in H. simpl in H. rewrite H.
      apply rtc_once.
      eapply step_produce; [eassumption | exact Htotal | exact Hge | reflexivity].
  - intros H. apply team_minerals_progress in H. rewrite H. constructor.
Qed.

Lemma production_update_minerals (dt : Q) (ps ps' : ProductionSystem.t)
    (s s' : ProductionSystem.LoopState) :
  ProductionSystem.update UNIT_STATS BUILDING_STATS dt ps s = Some (ps', s') ->
  rtc minerals_step
    (World.team_minerals (ProductionSystem.world s))
    (World.team_minerals (ProductionSystem.world s')).
Proof.
  unfold ProductionSystem.update.
  destruct (for_each_id _ _ s) as [s1 |] eqn:Hloop; simpl; [| discriminate].
  intros [= _ <-].
  revert Hloop.
  apply (for_each_id_preorder
           (fun s s' =>
              rtc minerals_step
                (World.team_minerals (ProductionSystem.world s))
                (World.team_minerals (ProductionSystem.world s')))).
  - intros s0. constructor.
  - intros s1' s2 s3 H1 H2. etransitivity; eassumption.
  - intros i s0 s0'. apply production_visit_minerals.
Qed.

(** A visit of the building-placement loop leaves the totals or deducts a
    cost that the total covers. *)
Lemma building_visit_minerals (dt : Q) (eid : Z)
    (s s' : BuildingPlacementSystem.LoopState) :
  BuildingPlacementSystem.update_entity UNIT_STATS BUILDING_STATS sqrt dt eid s
    = Some s' ->
  rtc minerals_step
    (World.team_minerals (snd (fst s))) (World.team_minerals (snd (fst s'))).
Proof.
  destruct s as [[bp w] bus].
  unfold BuildingPlacementSystem.update_entity.
  destruct (World.get_entity w eid) as [entity |]; [| intros [= <-]; constructor].
  destruct (worker_data entity) as [wd |]; [| intros [= <-]; constructor].
  destruct (alive entity); [| intros [= <-]; constructor].
  unfold BuildingPlacementSystem.update_worker.
  destruct (build_target wd) as [[[building_type bx] by_] |];
    [| intros [= <-]; constructor].
  destruct (World.game_map w) as [gm |]; [| intros [= <-]; constructor].
  destruct (negb _); [intros [= <-]; constructor |].
  destruct (negb _); [intros [= <-]; constructor |].
  destruct (Qltb 2.0 _); [intros [= <-]; constructor |].
  unfold BuildingPlacementSystem.construct.
  destruct (BUILDING_STATS !! building_type) as [stat |] eqn:Hstat; simpl;
    [| discriminate].
  destruct (World.team_minerals w !! _) as [total |] eqn:Htotal; simpl;
    [| discriminate].
  rewrite id_map_unit.
  destruct (Z.ltb_spec total (bs_cost stat)) as [Hlt | Hge].
  { destruct (_ && _); intros [= <-]; constructor. }
  destruct (BuildingPlacementSystem.occupied _ _ _ _);
    [intros [= <-]; constructor |].
  destruct (Qleb _ _); [| intros [= <-]; constructor].
  destruct (World.spawn_entity _ _ _ _ _ _ _) as [[[w2 bus2] nb] |] eqn:Hspawn;
    simpl; [| discriminate].
  apply team_minerals_spawn in Hspawn. simpl in Hspawn.
  intros [= <-]. simpl. rewrite team_minerals_modify, Hspawn.
  apply rtc_once.
  eapply step_build; [eassumption | exact Htotal | exact Hge | reflexivity].
Qed.

(** No worker carries a negative amount. *)
Definition carrying_nonneg (w : World.t) : Prop :=
  forall e wd,
    In e (World.entities w) -> worker_data e = Some wd -> 0 <= carrying wd.

Lemma carrying_nonneg_put (e : Entity) (w : World.t) :
  carrying_nonneg w ->
  (forall wd, worker_data e = Some wd -> 0 <= carrying wd) ->
  carrying_nonneg (World.put_entity e w).
Proof.
  intros Hw He e' wd Hin Hwd. simpl in Hin.
  apply dict_set_In in Hin. destruct Hin as [-> | Hin].
  - apply He, Hwd.
  - eapply Hw; eassumption.
Qed.

(** What a visit of the resource loop keeps. *)
Definition resource_kept (s s' : ResourceSystem.LoopState) : Prop :=
  carrying_nonneg (snd (fst s)) ->
  carrying_nonneg (snd (fst s')) /\
  rtc minerals_step
    (World.team_minerals (snd (fst s))) (World.team_minerals (snd (fst s'))).

Lemma resource_kept_refl (s : ResourceSystem.LoopState) : resource_kept s s.
Proof. intros H. split; [exact H | constructor]. Qed.

Lemma resource_kept_trans (s1 s2 s3 : ResourceSystem.LoopState) :
  resource_kept s1 s2 -> resource_kept s2 s3 -> resource_kept s1 s3.
Proof.
  intros H12 H23 H1. destruct (H12 H1) as [H2 Hr12].
  destruct (H23 H2) as [H3 Hr23]. split; [exact H3 | etransitivity; eassumption].
Qed.

Lemma resource_visit_kept (dt : Q) (eid : Z)
    (s s' : ResourceSystem.LoopState) :
  ResourceSystem.update_entity dt eid s = Some s' -> resource_kept s s'.
Proof.
  destruct s as [[rs w] bus].
  unfold ResourceSystem.update_entity.
  destruct (World.get_entity w eid) as [worker |] eqn:Hget;
    [| intros [= <-]; apply resource_kept_refl].
  destruct (worker_data worker) as [wd |] eqn:Hwd;
    [| intros [= <-]; apply resource_kept_refl].
  destruct (alive worker); [| intros [= <-]; apply resource_kept_refl].
  apply dict_get_Some in Hget. destruct Hget as [Hin _].
  intros Hrun Hcarry. simpl in Hcarry |- *.
  assert (Hc : 0 <= carrying wd) by (eapply Hcarry; eassumption).
  revert Hrun. unfold ResourceSystem._process_worker.
  destruct (World.get_base w (team worker)) as [base |];
    [| intros [= <-]; split; [exact Hcarry | constructor]].
  destruct (ResourceSystem.target_patch w wd) as [patch |]; simpl;
    [| discriminate].
  unfold worker_data in Hwd.
  destruct worker as [wid wteam wx wy whp wmax walive wbody].
  simpl in Hwd. destruct wbody as [u wd0 | | |]; try discriminate.
  injection Hwd as ->.
  assert (Hput : forall u' wd',
             0 <= carrying wd' ->
             carrying_nonneg
               (World.put_entity
                  {| id := wid; team := wteam; x := wx; y := wy; hp := whp;
                     max_hp := wmax; alive := walive;
                     body := IsWorker u' wd' |} w)).
  { intros u' wd' H. apply carrying_nonneg_put; [exact Hcarry |].
    intros wd'' [= <-]. exact H. }
  destruct (state wd).
  - (* idle *)
    destruct patch as [p |].
    + intros [= <-]. split; [apply Hput; exact Hc | constructor].
    + destruct (0 <? carrying wd); intros [= <-];
        (split; [first [apply Hput; exact Hc | exact Hcarry] | constructor]).
  - (* moving_to_mineral *)
    destruct patch as [p |].
    + destruct (depleted p).
      * intros [= <-]. split; [apply Hput; exact Hc | constructor].
      * destruct (Qltb _ _); intros [= <-];
          (split; [first [apply Hput; exact Hc | exact Hcarry] | constructor]).
    + intros [= <-]. split; [apply Hput; exact Hc | constructor].
  - (* gathering *)
    destruct patch as [p |].
    + destruct (depleted p) eqn:Hdep.
      * intros [= <-]. split; [apply Hput; exact Hc | constructor].
      * destruct (Qleb _ _); intros [= <-]; (split; [| constructor]).
        -- unfold map_worker, map_unit, set_body. simpl.
           intros e' wd' Hin' Hwd'. simpl in Hin'.
           apply dict_set_In in Hin'. destruct Hin' as [-> | Hin'].
           ++ injection Hwd' as <-. simpl.
              unfold depleted in Hdep. apply Z.leb_gt in Hdep.
              unfold ResourceSystem.GATHER_AMOUNT. lia.
           ++ eapply Hcarry; eassumption.
        -- exact Hcarry.
    + intros [= <-]. split; [apply Hput; exact Hc | constructor].
  - (* returning *)
    destruct (Qltb _ 2.0).
    + simpl.
      destruct (World.team_minerals w !! wteam) as [cur |] eqn:Hcur; simpl;
        [| discriminate].
      assert (Hstep : rtc minerals_step (World.team_minerals w)
                        (<[wteam := cur + carrying wd]> (World.team_minerals w))).
      { apply rtc_once.
        eapply step_deliver; [exact Hcur | exact Hc | reflexivity]. }
      assert (Hput' : forall u' wd' w1,
                 World.entities w1 = World.entities w ->
                 0 <= carrying wd' ->
                 carrying_nonneg
                   (World.put_entity
                      {| id := wid; team := wteam; x := wx; y := wy;
                         hp := whp; max_hp := wmax; alive := walive;
                         body := IsWorker u' wd' |} w1)).
      { intros u' wd' w1 Hw1 H. apply carrying_nonneg_put.
        - intros e' wd'' Hin'. rewrite Hw1 in Hin'. apply Hcarry, Hin'.
        - intros wd'' [= <-]. exact H. }
      destruct patch as [p |]; [destruct (negb (depleted p)) |];
        intros [= <-]; (split; [apply Hput'; [reflexivity | simpl; lia]
                               | exact Hstep]).
    + intros [= <-]. split; [exact Hcarry | constructor].
  - (* building *)
    intros [= <-]. split; [exact Hcarry | constructor].
Qed.

Lemma building_update_minerals (dt : Q) (bp : BuildingPlacementSystem.t)
    (w : World.t) (bus : EventBus) (s' : BuildingPlacementSystem.LoopState) :
  BuildingPlacementSystem.update UNIT_STATS BUILDING_STATS sqrt dt bp w bus
    = Some s' ->
  rtc minerals_step (World.team_minerals w) (World.team_minerals (snd (fst s'))).
Proof.
  unfold BuildingPlacementSystem.update.
  apply (for_each_id_preorder
           (fun s s' : BuildingPlacementSystem.LoopState =>
              rtc minerals_step (World.team_minerals (snd (fst s)))
                (World.team_minerals (snd (fst s'))))).
  - intros s0. constructor.
  - intros s1 s2 s3 H1 H2. etransitivity; eassumption.
  - intros i s0 s0'. apply building_visit_minerals.
Qed.

Lemma resource_update_kept (dt : Q) (rs : ResourceSystem.t) (w : World.t)
    (bus : EventBus) (s' : ResourceSystem.LoopState) :
  ResourceSystem.update dt rs w bus = Some s' -> resource_kept (rs, w, bus) s'.
Proof.
  unfold ResourceSystem.update.
  apply (for_each_id_preorder resource_kept).
  - apply resource_kept_refl.
  - apply resource_kept_trans.
  - apply resource_visit_kept.
Qed.

(** C2. Starting from non-negative totals (and workers that carry
    non-negative amounts), every write that the production, building
    placement and resource systems make to a team's mineral total is one of
    [minerals_step]: the deduction of the cost of the queued unit or of the
    building, made only when the total is at least that cost, or the
    delivery of what a worker carries.  Hence all totals are non-negative
    after each of these updates. *)
Theorem mineral_totals_never_negative (dt : Q) (w : World.t) :
  minerals_nonneg (World.team_minerals w) ->
  carrying_nonneg w ->
  (forall ps bus rng ps' s',
     ProductionSystem.update UNIT_STATS BUILDING_STATS dt ps
       {| ProductionSystem.world := w; ProductionSystem.bus := bus;
          ProductionSystem.rng := rng |} = Some (ps', s') ->
     rtc minerals_step (World.team_minerals w)
       (World.team_minerals (ProductionSystem.world s')) /\
     minerals_nonneg (World.team_minerals (ProductionSystem.world s'))) /\
  (forall bp bus bp' w' bus',
     BuildingPlacementSystem.update UNIT_STATS BUILDING_STATS sqrt dt bp w bus
       = Some (bp', w', bus') ->
     rtc minerals_step (World.team_minerals w) (World.team_minerals w') /\
     minerals_nonneg (World.team_minerals w')) /\
  (forall rs bus rs' w' bus',
     ResourceSystem.update dt rs w bus = Some (rs', w', bus') ->
     rtc minerals_step (World.team_minerals w) (World.team_minerals w') /\
     minerals_nonneg (World.team_minerals w') /\
     carrying_nonneg w') /\
  (forall tm tm',
     minerals_step tm tm' -> minerals_nonneg tm -> minerals_nonneg tm').
Proof.
  intros Hnn Hcarry. split; [| split; [| split]].
  - intros ps bus rng ps' s' H. apply production_update_minerals in H.
    simpl in H. split; [exact H | eapply minerals_steps_nonneg; eassumption].
  - intros bp bus bp' w' bus' H. apply building_update_minerals in H.
    simpl in H. split; [exact H | eapply minerals_steps_nonneg; eassumption].
  - intros rs bus rs' w' bus' H. apply resource_update_kept in H.
    destruct (H Hcarry) as [Hc' Hsteps]. simpl in *.
    split; [exact Hsteps |].
    split; [eapply minerals_steps_nonneg; eassumption | exact Hc'].
  - intros tm tm'. apply minerals_step_nonneg.
Qed.

End MineralTotals.

Lemma example_world_minerals_nonneg (es : list Entity)
    (ms : list MineralPatch) (gm : option GameMap.t) (stock : Z) :
  0 <= stock ->
  minerals_nonneg (World.team_minerals (example_world es ms gm stock)).
Proof.
  intros Hs t v. simpl.
  destruct (decide (t = 1)) as [-> | H1];
    [rewrite lookup_insert_eq; intros [= <-]; exact Hs |].
  rewrite lookup_insert_ne by congruence.
  destruct (decide (t = 2)) as [-> | H2];
    [rewrite lookup_insert_eq; intros [= <-]; exact Hs |].
  rewrite lookup_insert_ne by congruence. rewrite lookup_empty. discriminate.
Qed.

(** A base of team 1 with a Worker queued and exactly the 50 minerals it
    costs. *)
Definition funded_state : ProductionSystem.LoopState :=
  {| ProductionSystem.world :=
       example_world [example_base 1 1 (5, 5)%Q ["Worker"]] [] None 50;
     ProductionSystem.bus := [];
     ProductionSystem.rng := example_rng |}.

Lemma mineral_totals_never_negative_witness :
  match
    ProductionSystem.update example_unit_stats example_building_stats (1 # 30)
      ProductionSystem.init funded_state
  with
  | Some (_, s') =>
      minerals_nonneg (World.team_minerals (ProductionSystem.world s')) /\
      World.team_minerals (ProductionSystem.world s') !! 1 = Some 0
  | None => False
  end.
Proof.
  assert (Hnn : minerals_nonneg
                  (World.team_minerals (ProductionSystem.world funded_state))).
  { apply example_world_minerals_nonneg. lia. }
  assert (Hcarry : carrying_nonneg (ProductionSystem.world funded_state)).
  { intros e wd [<- | []]. simpl. discriminate. }
  destruct (mineral_totals_never_negative example_unit_stats
              example_building_stats example_sqrt (1 # 30)
              (ProductionSystem.world funded_state) Hnn Hcarry)
    as [Hprod _].
  specialize (Hprod ProductionSystem.init [] example_rng).
  change {| ProductionSystem.world := ProductionSystem.world funded_state;
            ProductionSystem.bus := [];
            ProductionSystem.rng := example_rng |}
    with funded_state in Hprod.
  destruct (ProductionSystem.update example_unit_stats example_building_stats
              (1 # 30) ProductionSystem.init funded_state)
    as [[ps' s'] |] eqn:Hrun.
  - split; [apply (Hprod ps' s' eq_refl) |].
    vm_compute in Hrun. injection Hrun as _ <-. reflexivity.
  - vm_compute in Hrun. discriminate.
Defined.

(** ** Base-under-attack alerts (systems.py) *)

(** The bases for which a bus holds a BaseUnderAttackEvent, in order. *)
Definition alerts_of (bus : EventBus) : list Z :=
  omap
    (fun ev =>
       match ev with
       | BaseUnderAttackEvent base_id _ _ => Some base_id
       | _ => None
       end)
    bus.

(** A log of alerts: the game time of each alert and its base.  In a
    separated log, two alerts for the same base are at least 10 seconds of
    game time apart, the later one later in the log. *)
Fixpoint separated (log : list (Q * Z)) : Prop :=
  match log with
  | [] => True
  | (t1, b) :: rest =>
      (forall t2, In (t2, b) rest -> (t1 + 10 <= t2)%Q) /\ separated rest
  end.

(** Every logged alert is no later than the time recorded for its base in
    [_base_attack_cooldown]. *)
Definition recorded (cd : gmap Z Q) (log : list (Q * Z)) : Prop :=
  forall t b, In (t, b) log -> exists last, cd !! b = Some last /\ (t <= last)%Q.

Lemma separated_snoc (log : list (Q * Z)) (t : Q) (b : Z) :
  separated log ->
  (forall t1, In (t1, b) log -> (t1 + 10 <= t)%Q) ->
  separated (log ++ [(t, b)]).
Proof.
  induction log as [| [t0 b0] log IH]; simpl; intros Hsep Hnew.
  - split; [intros t2 [] | exact I].
  - destruct Hsep as [Hhead Hsep]. split.
    + intros t2 Hin. apply in_app_or in Hin. destruct Hin as [Hin | Hin].
      * apply Hhead, Hin.
      * destruct Hin as [[= <- <-] | []]. apply Hnew. left. reflexivity.
    + apply IH; [exact Hsep |]. intros t1 Hin. apply Hnew. right. exact Hin.
Qed.

Lemma separated_tail (l1 l2 : list (Q * Z)) :
  separated (l1 ++ l2) -> separated l2.
Proof.
  induction l1 as [| [t b] l1 IH]; simpl; [auto |].
  intros [_ H]. apply IH, H.
Qed.

Lemma separated_apart (l1 l2 l3 : list (Q * Z)) (t1 t2 : Q) (b : Z) :
  separated (l1 ++ (t1, b) :: l2 ++ (t2, b) :: l3) -> (t1 + 10 <= t2)%Q.
Proof.
  intros H. apply separated_tail in H. simpl in H. destruct H as [H _].
  apply H. apply in_or_app. right. left. reflexivity.
Qed.

Lemma alerts_of_publish (ev : Event) (bus : EventBus) :
  alerts_of (publish ev bus) = alerts_of bus ++ alerts_of [ev].
Proof. unfold alerts_of, publish. apply omap_app. Qed.

Lemma game_time_modify (eid : Z) (f : Entity -> Entity) (w : World.t) :
  World.game_time (modify_entity eid f w) = World.game_time w.
Proof. unfold modify_entity. destruct (World.get_entity w eid); reflexivity. Qed.

(** What one step of the combat loop does to the alert machinery at game
    time [t]: nothing, or one alert for a base whose recorded time is at
    least 10 seconds back, which is then recorded. *)
Definition alert_step (t : Q) (cs : CombatSystem.t) (bus : EventBus)
    (cs' : CombatSystem.t) (bus' : EventBus) : Prop :=
  (cs' = cs /\ alerts_of bus' = alerts_of bus) \/
  (exists b,
     (10 <= t - default 0%Q (CombatSystem._base_attack_cooldown cs !! b))%Q /\
     CombatSystem._base_attack_cooldown cs' =
       <[b := t]> (CombatSystem._base_attack_cooldown cs) /\
     alerts_of bus' = alerts_of bus ++ [b]).

Lemma base_alert_step (w : World.t) (target : Entity) (attacker_id : Z)
    (cs cs' : CombatSystem.t) (bus bus' : EventBus) :
  CombatSystem.base_alert w target attacker_id cs bus = (cs', bus') ->
  alert_step (World.game_time w) cs bus cs' bus'.
Proof.
  unfold CombatSystem.base_alert.
  destruct (is_base target); [| intros [= <- <-]; left; auto].
  destruct (Qleb 10.0 _) eqn:Hle; [| intros [= <- <-]; left; auto].
  intros [= <- <-]. right. exists (id target). split; [| split].
  - apply Qleb_le in Hle. lra.
  - reflexivity.
  - rewrite alerts_of_publish. reflexivity.
Qed.

Section BaseAlerts.

Variable sqrt : Q -> Q.

Lemma process_target_step (eid tid : Z) (cs cs' : CombatSystem.t)
    (w w' : World.t) (bus bus' : EventBus) (dead dead' : list (Z * Z)) :
  CombatSystem.process_target sqrt eid tid (cs, w, bus, dead)
    = (cs', w', bus', dead') ->
  World.game_time w' = World.game_time w /\
  alert_step (World.game_time w) cs bus cs' bus'.
Proof.
  unfold CombatSystem.process_target.
  destruct (World.get_entity w eid) as [entity |];
    [| intros [= <- <- <- <-]; split; [reflexivity | left; auto]].
  destruct (World.get_entity w tid) as [target |];
    [| intros [= <- <- <- <-]; split;
       [apply game_time_modify | left; auto]].
  destruct (negb (alive target));
    [intros [= <- <- <- <-]; split; [apply game_time_modify | left; auto] |].
  destruct (soldier_data entity) as [sd |];
    [| intros [= <- <- <- <-]; split; [reflexivity | left; auto]].
  destruct (Qleb (sqrt _) (attack_range sd));
    [| intros [= <- <- <- <-]; split; [apply game_time_modify | left; auto]].
  destruct (Qleb (cooldown_remaining sd) 0);
    [| intros [= <- <- <- <-]; split; [apply game_time_modify | left; auto]].
  match goal with
  | |- context [World.get_entity ?w3 tid] =>
      assert (Hgt : World.game_time w3 = World.game_time w)
        by (rewrite !game_time_modify; reflexivity);
      destruct (World.get_entity w3 tid) as [target' |]
  end;
    [| intros [= <- <- <- <-]; split; [exact Hgt | left; auto]].
  destruct (CombatSystem.base_alert _ target' eid cs _) as [cs1 bus2] eqn:Ha.
  intros [= <- <- <- <-]. split; [exact Hgt |].
  apply base_alert_step in Ha. rewrite Hgt in Ha.
  destruct Ha as [[-> Hb] | (b & Hle & Hcd & Hb)].
  - left. split; [reflexivity |]. rewrite Hb, alerts_of_publish. simpl.
    apply app_nil_r.
  - right. exists b. split; [exact Hle |]. split; [exact Hcd |].
    rewrite Hb, alerts_of_publish. simpl. rewrite app_nil_r. reflexivity.
Qed.

Lemma combat_visit_step (dt : Q) (eid : Z) (cs cs' : CombatSystem.t)
    (w w' : World.t) (bus bus' : EventBus) (dead dead' : list (Z * Z)) :
  CombatSystem.update_entity sqrt dt eid (cs, w, bus, dead)
    = Some (cs', w', bus', dead') ->
  World.game_time w' = World.game_time w /\
  alert_step (World.game_time w) cs bus cs' bus'.
Proof.
  unfold CombatSystem.update_entity.
  destruct (World.get_entity w eid) as [entity |];
    [| intros [= <- <- <- <-]; split; [reflexivity | left; auto]].
  destruct (soldier_data entity) as [sd |];
    [| intros [= <- <- <- <-]; split; [reflexivity | left; auto]].
  destruct (unit_data entity) as [u |];
    [| intros [= <- <- <- <-]; split; [reflexivity | left; auto]].
  destruct (alive entity);
    [| intros [= <- <- <- <-]; split; [reflexivity | left; auto]].
  destruct (truthy_id _) as [tid |];
    [| intros [= <- <- <- <-]; split; [reflexivity | left; auto]].
  intros [= H]. apply process_target_step in H. exact H.
Qed.

(** The log [log] extended by the alerts on the bus, all at game time [t],
    is separated and recorded. *)
Definition alert_inv (log : list (Q * Z)) (t : Q) (cs : CombatSystem.t)
    (bus : EventBus) : Prop :=
  separated (log ++ List.map (fun b => (t, b)) (alerts_of bus)) /\
  recorded (CombatSystem._base_attack_cooldown cs)
    (log ++ List.map (fun b => (t, b)) (alerts_of bus)).

Lemma alert_step_inv (log : list (Q * Z)) (t : Q) (cs cs' : CombatSystem.t)
    (bus bus' : EventBus) :
  alert_step t cs bus cs' bus' ->
  alert_inv log t cs bus -> alert_inv log t cs' bus'.
Proof.
  unfold alert_inv.
  intros [[-> ->] | (b & Hle & Hcd & ->)]; [auto |].
  rewrite List.map_app, app_assoc. simpl.
  set (L := log ++ List.map (fun b => (t, b)) (alerts_of bus)).
  intros [Hsep Hrec]. rewrite Hcd.
  assert (Hold : forall t1, In (t1, b) L -> (t1 + 10 <= t)%Q).
  { intros t1 Hin. destruct (Hrec _ _ Hin) as (last & Hlast & Hle1).
    rewrite Hlast in Hle. simpl in Hle. lra. }
  split.
  - apply separated_snoc; assumption.
  - intros t1 b1 Hin. apply in_app_or in Hin. destruct Hin as [Hin | Hin].
    + destruct (decide (b = b1)) as [<- | Hne].
      * exists t. rewrite lookup_insert_eq. split; [reflexivity |].
        specialize (Hold _ Hin). lra.
      * rewrite lookup_insert_ne by exact Hne. apply Hrec, Hin.
    + destruct Hin as [[= <- <-] | []].
      exists t. rewrite lookup_insert_eq. split; [reflexivity | lra].
Qed.

(** What the combat loop keeps, from one loop state to a later one. *)
Definition combat_kept (s s' : CombatSystem.LoopState) : Prop :=
  let '(cs, w, bus, _) := s in
  let '(cs', w', bus', _) := s' in
  World.game_time w' = World.game_time w /\
  forall log,
    alert_inv log (World.game_time w) cs bus ->
    alert_inv log (World.game_time w) cs' bus'.

Lemma combat_loop_kept (dt : Q) (ids : list Z) (s s' : CombatSystem.LoopState) :
  for_each_id (CombatSystem.update_entity sqrt dt) ids s = Some s' ->
  combat_kept s s'.
Proof.
  apply (for_each_id_preorder combat_kept).
  - intros [[[cs w] bus] dead]. simpl. auto.
  - intros [[[cs1 w1] bus1] dead1] [[[cs2 w2] bus2] dead2]
      [[[cs3 w3] bus3] dead3]. simpl.
    intros [Ht12 H12] [Ht23 H23]. split; [congruence |].
    intros log H. rewrite Ht12 in H23. auto.
  - intros i [[[cs1 w1] bus1] dead1] [[[cs2 w2] bus2] dead2] Hvisit.
    apply combat_visit_step in Hvisit. destruct Hvisit as [Ht Hstep].
    simpl. split; [exact Ht |]. intros log. apply alert_step_inv, Hstep.
Qed.

Lemma alerts_of_publish_deaths (w : World.t) (dead : list (Z * Z))
    (bus : EventBus) :
  alerts_of (CombatSystem.publish_deaths w dead bus) = alerts_of bus.
Proof.
  unfold CombatSystem.publish_deaths. revert bus.
  induction dead as [| [tid killer] dead IH]; intros bus; simpl; [reflexivity |].
  rewrite IH. destruct (World.get_entity w tid); [| reflexivity].
  rewrite alerts_of_publish. simpl. apply app_nil_r.
Qed.

Lemma combat_update_kept (dt : Q) (cs cs' : CombatSystem.t) (w w' : World.t)
    (bus bus' : EventBus) (log : list (Q * Z)) :
  CombatSystem.update sqrt dt cs w bus = (cs', w', bus') ->
  alert_inv log (World.game_time w) cs bus ->
  alert_inv log (World.game_time w) cs' bus'.
Proof.
  unfold CombatSystem.update.
  destruct (for_each_id _ _ _) as [[[[cs1 w1] bus1] dead] |] eqn:Hloop.
  - intros [= <- <- <-]. apply combat_loop_kept in Hloop.
    destruct Hloop as [_ H]. intros Hinv. specialize (H log Hinv).
    unfold alert_inv in *. rewrite alerts_of_publish_deaths. exact H.
  - intros [= <- <- <-]. auto.
Qed.

(** The combat system over a game: each call of [update] gets the time step
    and the world as the other systems left it; the alerts it publishes are
    logged with the game time of that world. *)
Fixpoint combat_run (cs : CombatSystem.t) (log : list (Q * Z))
    (calls : list (Q * World.t)) : CombatSystem.t * list (Q * Z) :=
  match calls with
  | [] => (cs, log)
  | (dt, w) :: calls' =>
      let '(cs', _, bus') := CombatSystem.update sqrt dt cs w [] in
      combat_run cs'
        (log ++ List.map (fun b => (World.game_time w, b)) (alerts_of bus'))
        calls'
  end.

Lemma combat_run_kept (calls : list (Q * World.t)) (cs : CombatSystem.t)
    (log : list (Q * Z)) :
  separated log ->
  recorded (CombatSystem._base_attack_cooldown cs) log ->
  separated (snd (combat_run cs log calls)).
Proof.
  revert cs log. induction calls as [| [dt w] calls IH]; intros cs log Hs Hr.
  - exact Hs.
  - simpl.
    destruct (CombatSystem.update sqrt dt cs w []) as [[cs' w'] bus'] eqn:Hup.
    pose proof (combat_update_kept dt cs cs' w w' [] bus' log Hup) as Hk.
    unfold alert_inv in Hk. simpl in Hk. rewrite app_nil_r in Hk.
    destruct (Hk (conj Hs Hr)) as [Hs' Hr'].
    apply IH; assumption.
Qed.

(** C8. Over any game, two BaseUnderAttack events for the same base are at
    least 10 seconds of game time apart, whatever the number of soldiers
    that hit the base: so each base gets at most one alert per 10 seconds. *)
Theorem base_alerts_ten_seconds_apart
    (calls : list (Q * World.t)) (l1 l2 l3 : list (Q * Z)) (t1 t2 : Q) (b : Z) :
  snd (combat_run CombatSystem.init [] calls)
    = l1 ++ (t1, b) :: l2 ++ (t2, b) :: l3 ->
  (t1 + 10 <= t2)%Q.
Proof.
  intros Hlog. apply (separated_apart l1 l2 l3 t1 t2 b). rewrite <- Hlog.
  apply combat_run_kept.
  - exact I.
  - intros t b' [].
Qed.

End BaseAlerts.

Definition example_soldier_stat : UnitStat :=
  {| us_hp := 80; us_speed := 3; us_vision := 5; us_cost := 75;
     us_build_time := 12; us_carry_capacity := 0; us_damage := 10;
     us_range := 2; us_cooldown := 1 |}.

(** A soldier as [Soldier(eid, tm, p)] builds it. *)
Definition example_soldier (eid tm : Z) (p : Pos) : Entity :=
  new_entity eid tm p (us_hp example_soldier_stat)
    (IsSoldier (new_unit_data example_soldier_stat)
       {| damage := us_damage example_soldier_stat;
          attack_range := us_range example_soldier_stat;
          attack_cooldown := us_cooldown example_soldier_stat;
          cooldown_remaining := 0 |}).

(** The base of team 1 with two soldiers of team 2 next to it, at game time
    [t]. *)
Definition siege_world (t : Q) : World.t :=
  World.set_game_time t
    (example_world
       [example_base 1 1 (5, 5)%Q [];
        example_soldier 2 2 (5, 6)%Q;
        example_soldier 3 2 (6, 5)%Q]
       [] None 50).

Definition siege_calls : list (Q * World.t) :=
  [((1 # 30)%Q, siege_world 10); ((1 # 30)%Q, siege_world 15);
   ((1 # 30)%Q, siege_world 25)].

Lemma base_alerts_ten_seconds_apart_witness :
  snd (combat_run example_sqrt CombatSystem.init [] siege_calls)
    = [(10%Q, 1); (25%Q, 1)] /\
  (10 + 10 <= 25)%Q.
Proof.
  assert (Hlog : snd (combat_run example_sqrt CombatSystem.init [] siege_calls)
                 = [] ++ (10%Q, 1) :: [] ++ (25%Q, 1) :: [])
    by (vm_compute; reflexivity).
  split; [exact Hlog |].
  exact (base_alerts_ten_seconds_apart example_sqrt siege_calls [] [] []
           10 25 1 Hlog).
Defined.

(** In one update both soldiers hit the base and a single alert is
    published. *)
Example two_attackers_one_alert :
  let '(_, _, bus) :=
    CombatSystem.update example_sqrt (1 # 30) CombatSystem.init
      (siege_world 10) [] in
  bus = [AttackEvent 2 1 10 990; BaseUnderAttackEvent 1 1 2;
         AttackEvent 3 1 10 980].
Proof. vm_compute. reflexivity. Qed.

(** ** Pathfinder (systems.py) *)

(** Chebyshev distance between tiles: 1 for the eight neighbours. *)
Definition chebyshev (a b : Tile) : Z :=
  Z.max (Z.abs (fst a - fst b)) (Z.abs (snd a - snd b)).

Lemma py_range_In (lo hi i : Z) : In i (py_range lo hi) <-> lo <= i < hi.
Proof.
  unfold py_range. rewrite in_map_iff. split.
  - intros (n & <- & Hn). apply in_seq in Hn. lia.
  - intros H. exists (Z.to_nat (i - lo)). split; [lia |].
    apply in_seq. lia.
Qed.

Lemma ring_In (p t : Tile) (radius : Z) :
  0 <= radius -> In t (PathFinder.ring p radius) -> chebyshev t p = radius.
Proof.
  intros Hr. unfold PathFinder.ring. rewrite in_flat_map.
  intros (dx & Hdx & Hin). rewrite in_flat_map in Hin.
  destruct Hin as (dy & Hdy & Hin).
  apply py_range_In in Hdx. apply py_range_In in Hdy.
  destruct ((Z.abs dx =? radius) || (Z.abs dy =? radius)) eqn:Hring;
    [| destruct Hin].
  destruct Hin as [<- | []]. unfold chebyshev. simpl.
  apply orb_true_iff in Hring. destruct Hring as [H | H]; apply Z.eqb_eq in H; lia.
Qed.

(** The tile that [_find_nearest_walkable] returns is walkable and lies on a
    square ring of radius 1 to 9 around the position. *)
Lemma find_nearest_walkable_spec (gm : GameMap.t) (p t : Tile) :
  PathFinder._find_nearest_walkable gm p = Some t ->
  GameMap.is_walkable gm (fst t) (snd t) = true /\
  1 <= chebyshev t p <= 9.
Proof.
  unfold PathFinder._find_nearest_walkable. intros H.
  apply find_some in H. destruct H as [Hin Hw]. split; [exact Hw |].
  unfold PathFinder.rings in Hin. rewrite in_flat_map in Hin.
  destruct Hin as (radius & Hr & Hin). apply py_range_In in Hr.
  rewrite (ring_In p t radius) by (lia || exact Hin). lia.
Qed.

(** The reconstructed path: every tile on it has a predecessor recorded in
    [came_from], and when it is not empty it ends at [current]. *)
Lemma predecessors_head (fuel : nat) (cf : gmap Tile Tile) (current : Tile)
    (ch : list Tile) :
  PathFinder.predecessors fuel cf current = Some ch ->
  exists ch', ch = current :: ch'.
Proof.
  destruct fuel; simpl; destruct (cf !! current) as [prev |]; try discriminate.
  - intros [= <-]. eauto.
  - destruct (PathFinder.predecessors fuel cf prev); simpl; [| discriminate].
    intros [= <-]. eauto.
  - intros [= <-]. eauto.
Qed.

Lemma reconstruct_path_spec (fuel : nat) (cf : gmap Tile Tile)
    (current : Tile) (p : list Tile) :
  PathFinder._reconstruct_path fuel cf current = Some p ->
  (forall t, In t p -> is_Some (cf !! t)) /\
  (p = [] \/ last p = Some current).
Proof.
  unfold PathFinder._reconstruct_path.
  destruct (PathFinder.predecessors fuel cf current) as [ch |] eqn:Hch;
    simpl; [| discriminate].
  intros [= <-]. revert current ch Hch.
  induction fuel as [| fuel IH]; intros current ch; simpl.
  - destruct (cf !! current); [discriminate |].
    intros [= <-]. simpl. split; [intros t [] | left; reflexivity].
  - destruct (cf !! current) as [prev |] eqn:Hcur.
    + destruct (PathFinder.predecessors fuel cf prev) as [ch' |] eqn:Hch';
        simpl; [| discriminate].
      intros [= <-].
      destruct (predecessors_head _ _ _ _ Hch') as (ch'' & ->).
      destruct (IH _ _ Hch') as [Hkeys _].
      change (rev (current :: prev :: ch''))
        with (rev (prev :: ch'') ++ [current]).
      destruct (rev (prev :: ch'')) as [| a r] eqn:Hrev.
      { apply (f_equal (@length _)) in Hrev. rewrite length_rev in Hrev.
        simpl in Hrev. lia. }
      simpl in Hkeys |- *. split.
      * intros t Hin. apply in_app_or in Hin. destruct Hin as [Hin | Hin].
        -- apply Hkeys, Hin.
        -- destruct Hin as [<- | []]. rewrite Hcur. eauto.
      * right. apply last_snoc.
    + intros [= <-]. simpl. split; [intros t [] | left; reflexivity].
Qed.

(** The invariant of the A* loop that keeps the start tile out of the
    path. *)
Definition search_inv (start : Tile) (st : PathFinder.Search) : Prop :=
  PathFinder.came_from st !! start = None /\
  PathFinder.g_score st !! start = Some 0%Q /\
  forall n g, PathFinder.g_score st !! n = Some g -> (0 <= g)%Q.

Lemma relax_inv (gm : GameMap.t) (goal current start : Tile)
    (st st' : PathFinder.Search) (d : Tile * Q) :
  (0 < snd d)%Q ->
  search_inv start st ->
  PathFinder.relax gm goal current st d = Some st' ->
  search_inv start st'.
Proof.
  destruct d as [[dx dy] cost]. simpl. intros Hcost (Hcf & Hg0 & Hnn).
  unfold PathFinder.relax.
  destruct (negb _); [intros [= <-]; repeat split; assumption |].
  destruct (PathFinder.g_score st !! current) as [gcur |] eqn:Hgcur; simpl;
    [| discriminate].
  specialize (Hnn _ _ Hgcur) as Hgcur0.
  set (neighbor := (fst current + dx, snd current + dy)).
  destruct (decide (neighbor = start)) as [Heq | Hne].
  - rewrite Heq, Hg0.
    destruct (Qltb (gcur + cost) 0) eqn:Hlt.
    + apply Qltb_lt in Hlt. lra.
    + intros [= <-]. repeat split; assumption.
  - destruct (match PathFinder.g_score st !! neighbor with
              | Some g => Qltb (gcur + cost) g
              | None => true
              end);
      intros [= <-]; [| repeat split; assumption].
    unfold search_inv. simpl. split; [| split].
    + rewrite lookup_insert_ne by exact Hne. exact Hcf.
    + rewrite lookup_insert_ne by exact Hne. exact Hg0.
    + intros n g. destruct (decide (neighbor = n)) as [<- | Hn].
      * rewrite lookup_insert_eq. intros [= <-]. lra.
      * rewrite lookup_insert_ne by exact Hn. apply Hnn.
Qed.

Lemma relax_all_inv (gm : GameMap.t) (goal current start : Tile)
    (ds : list (Tile * Q)) (st st' : PathFinder.Search) :
  Forall (fun d => (0 < snd d)%Q) ds ->
  search_inv start st ->
  PathFinder.relax_all gm goal current st ds = Some st' ->
  search_inv start st'.
Proof.
  intros Hds. revert st. induction Hds as [| d ds Hd _ IH]; intros st Hinv; simpl.
  - intros [= <-]. exact Hinv.
  - destruct (PathFinder.relax gm goal current st d) as [st1 |] eqn:Hr;
      simpl; [| discriminate].
    apply IH. eapply relax_inv; eassumption.
Qed.

Lemma DIRECTIONS_positive :
  Forall (fun d : Tile * Q => (0 < snd d)%Q) PathFinder.DIRECTIONS.
Proof. repeat (constructor; [reflexivity |]). constructor. Qed.

Lemma search_spec (fuel : nat) (gm : GameMap.t) (goal start : Tile)
    (st : PathFinder.Search) (p : list Tile) :
  search_inv start st ->
  PathFinder.search fuel gm goal st = Some p ->
  ~ In start p /\ (p = [] \/ last p = Some goal).
Proof.
  revert st. induction fuel as [| fuel IH]; intros st Hinv;
    [discriminate |].
  cbn [PathFinder.search].
  destruct (PathFinder.heappop (PathFinder.open_set st))
    as [[[[f c] current] rest] |]; [| intros [= <-]; auto].
  destruct (decide (current = goal)) as [-> | Hne].
  - cbn [PathFinder.came_from]. intros H. apply reconstruct_path_spec in H.
    destruct H as [Hkeys Hlast]. split; [| exact Hlast].
    intros Hin. destruct (Hkeys _ Hin) as [prev Hprev].
    destruct Hinv as [Hcf _]. congruence.
  - destruct (PathFinder.relax_all _ _ _ _ _) as [st2 |] eqn:Hrel; simpl;
      [| discriminate].
    apply IH. eapply relax_all_inv; [apply DIRECTIONS_positive | | exact Hrel].
    exact Hinv.
Qed.

Lemma tile_pos_inj (a b : Z * Z) : tile_pos a = tile_pos b -> a = b.
Proof.
  destruct a, b. unfold tile_pos, inject_Z. simpl. intros [= -> ->]. reflexivity.
Qed.

Lemma last_map {A B : Type} (f : A -> B) (l : list A) :
  last (List.map f l) = f <$> last l.
Proof.
  induction l as [| a [| b l] IH]; [reflexivity | reflexivity |].
  exact IH.
Qed.

(** What [find_path] returns, whenever it returns: a non-empty path ends at
    the goal tile when that tile is walkable, and otherwise at the walkable
    tile that [_find_nearest_walkable] returns, on a square ring of radius
    1 to 9 around the goal.  The path never contains the start tile, and the
    path from a tile to itself is empty.  Without a game map the result is
    [[goal]]. *)
Lemma find_path_result
    (fuel : nat) (gm : GameMap.t) (start goal : Pos) (p : list Pos) :
  PathFinder.find_path fuel {| PathFinder.game_map := Some gm |} start goal
    = Some p ->
  let s := (py_int (fst start), py_int (snd start)) in
  let g := (py_int (fst goal), py_int (snd goal)) in
  (p <> [] ->
   exists target : Tile,
     last p = Some (tile_pos target) /\
     GameMap.is_walkable gm (fst target) (snd target) = true /\
     ((GameMap.is_walkable gm (fst g) (snd g) = true /\ target = g) \/
      (GameMap.is_walkable gm (fst g) (snd g) = false /\
       PathFinder._find_nearest_walkable gm g = Some target /\
       1 <= chebyshev target g <= 9))) /\
  ~ In (tile_pos s) p /\
  (s = g -> p = []) /\
  PathFinder.find_path fuel {| PathFinder.game_map := None |} start goal
    = Some [goal].
Proof.
  unfold PathFinder.find_path. cbn [PathFinder.game_map].
  set (s := (py_int (fst start), py_int (snd start))).
  set (g := (py_int (fst goal), py_int (snd goal))).
  intros Hrun. cbv zeta.
  destruct (decide (s = g)) as [Hsg | Hsg].
  { injection Hrun as <-.
    split; [intros H; contradiction |]. split; [intros [] |].
    split; reflexivity. }
  assert (Hgoal : forall target,
            GameMap.is_walkable gm (fst target) (snd target) = true ->
            (GameMap.is_walkable gm (fst g) (snd g) = true /\ target = g) \/
            (GameMap.is_walkable gm (fst g) (snd g) = false /\
             PathFinder._find_nearest_walkable gm g = Some target /\
             1 <= chebyshev target g <= 9) ->
            List.map tile_pos <$>
              PathFinder.search fuel gm target
                {| PathFinder.open_set := [(0%Q, 0, s)];
                   PathFinder.came_from := ∅;
                   PathFinder.g_score := {[ s := 0%Q ]};
                   PathFinder.counter := 0 |} = Some p ->
            (p <> [] ->
             exists target : Tile,
               last p = Some (tile_pos target) /\
               GameMap.is_walkable gm (fst target) (snd target) = true /\
               ((GameMap.is_walkable gm (fst g) (snd g) = true /\ target = g) \/
                (GameMap.is_walkable gm (fst g) (snd g) = false /\
                 PathFinder._find_nearest_walkable gm g = Some target /\
                 1 <= chebyshev target g <= 9))) /\
            ~ In (tile_pos s) p).
  { intros target Hw Hcase Hsearch.
    destruct (PathFinder.search fuel gm target _) as [tiles |] eqn:Hs;
      simpl in Hsearch; [| discriminate].
    injection Hsearch as <-.
    apply (search_spec fuel gm target s) in Hs.
    2:{ repeat split.
        - apply lookup_singleton_eq.
        - intros n g0 Hn. cbn [PathFinder.g_score] in Hn.
          apply lookup_singleton_Some in Hn.
          destruct Hn as [_ <-]. lra. }
    destruct Hs as [Hnotin Hlast]. split.
    - intros Hne. exists target. split; [| split; assumption].
      destruct Hlast as [-> | Hlast]; [contradiction |].
      rewrite last_map, Hlast. reflexivity.
    - intros Hin. apply in_map_iff in Hin. destruct Hin as (t & Ht & Hin).
      apply tile_pos_inj in Ht. subst t. contradiction. }
  destruct (GameMap.is_walkable gm (fst g) (snd g)) eqn:Hwalk.
  - destruct (Hgoal g Hwalk (or_introl (conj eq_refl eq_refl)) Hrun)
      as [H1 H2].
    split; [exact H1 |]. split; [exact H2 |].
    split; [intros; contradiction | reflexivity].
  - destruct (PathFinder._find_nearest_walkable gm g) as [target |] eqn:Hnear.
    + destruct (find_nearest_walkable_spec _ _ _ Hnear) as [Hw Hring].
      destruct (Hgoal target Hw
                  (or_intror (conj eq_refl (conj eq_refl Hring))) Hrun)
        as [H1 H2].
      split; [exact H1 |]. split; [exact H2 |].
      split; [intros; contradiction | reflexivity].
    + injection Hrun as <-.
      split; [intros H; contradiction |]. split; [intros [] |].
      split; [intros; contradiction | reflexivity].
Qed.

(** A 5 x 5 map with a 3 x 3 block of rock in the middle. *)
Definition rock_block_map : GameMap.t :=
  {| GameMap.width := 5; GameMap.height := 5;
     GameMap.tiles :=
       [ [0; 0; 0; 0; 0];
         [0; 1; 1; 1; 0];
         [0; 1; 1; 1; 0];
         [0; 1; 1; 1; 0];
         [0; 0; 0; 0; 0] ];
     GameMap.mineral_positions := [] |}.

Definition rock_block_finder : PathFinder.t :=
  {| PathFinder.game_map := Some rock_block_map |}.

Lemma rock_block_map_wf : GameMap.wf rock_block_map.
Proof. split; [reflexivity | repeat constructor]. Qed.

(** C3, counterexample. (1) The goal (2, 2) is the middle of the rock
    block; the path from (4, 4) is not empty and ends at (0, 0), which is
    neither the goal nor adjacent to it (Chebyshev distance 2).  (2) Without
    a game map the path from a tile to itself is [[goal]], which contains
    the start tile. *)
Lemma path_end_adjacent_counterexample :
  exists p : list Pos,
    PathFinder.find_path 100 rock_block_finder (4, 4)%Q (2, 2)%Q = Some p /\
    p <> [] /\
    GameMap.is_walkable rock_block_map 2 2 = false /\
    last p = Some (tile_pos (0, 0)) /\
    chebyshev (0, 0) (2, 2) = 2 /\
    PathFinder.find_path 100 {| PathFinder.game_map := None |} (3, 3)%Q (3, 3)%Q
      = Some [(3, 3)%Q].
Proof.
  eexists. split; [vm_compute; reflexivity |].
  repeat split. discriminate.
Qed.


(** ** The A* search returns (systems.py) *)

(** Both step costs, 1.0 and 1.414, are multiples of 1/500, and so is every
    [g_score]: [g * 500] is a whole number, the level of [g]. *)
Definition whole_cost (g : Q) : Prop :=
  (g * 500 == inject_Z (Qfloor (g * 500)))%Q.

Definition cost_level (g : Q) : nat := Z.to_nat (Qfloor (g * 500)).

Lemma cost_level_nonneg (g : Q) : (0 <= g)%Q -> 0 <= Qfloor (g * 500).
Proof.
  intros Hg. change 0 with (Qfloor (inject_Z 0)) at 1.
  apply Qfloor_resp_le. change (inject_Z 0) with 0%Q. lra.
Qed.

Lemma whole_cost_add (g c : Q) (k : Z) :
  whole_cost g -> (0 <= g)%Q -> (c * 500 == inject_Z k)%Q -> 0 <= k ->
  whole_cost (g + c) /\ cost_level (g + c) = (cost_level g + Z.to_nat k)%nat.
Proof.
  unfold whole_cost, cost_level. intros Hg Hg0 Hc Hk.
  assert (Hsum : ((g + c) * 500 == inject_Z (Qfloor (g * 500) + k))%Q).
  { rewrite inject_Z_plus. rewrite <- Hg, <- Hc. ring. }
  rewrite (Qfloor_comp _ _ Hsum), Qfloor_Z. split; [exact Hsum |].
  pose proof (cost_level_nonneg g Hg0).
  lia.
Qed.

Lemma whole_cost_lt (g g' : Q) :
  whole_cost g -> whole_cost g' -> (0 <= g)%Q -> (g < g')%Q ->
  (cost_level g < cost_level g')%nat.
Proof.
  unfold whole_cost, cost_level. intros Hg Hg' Hg0 Hlt.
  pose proof (cost_level_nonneg g Hg0).
  assert (Qfloor (g * 500) < Qfloor (g' * 500)).
  { rewrite Zlt_Qlt. rewrite <- Hg, <- Hg'. lra. }
  lia.
Qed.

Lemma whole_cost_zero : whole_cost 0 /\ cost_level 0 = 0%nat.
Proof. split; reflexivity. Qed.

(** A direction whose cost is a positive multiple of 1/500, at most
    707/500. *)
Definition dir_ok (d : Z * Z * Q) : Prop :=
  exists k, 0 < k <= 707 /\ (snd d * 500 == inject_Z k)%Q.

Lemma DIRECTIONS_ok : Forall dir_ok PathFinder.DIRECTIONS.
Proof.
  repeat (constructor; [first [exists 500; split; [lia | reflexivity]
                              | exists 707; split; [lia | reflexivity]] |]).
  constructor.
Qed.

Lemma sum_with_le {A} (f f' : A -> nat) (l : list A) :
  (forall n, In n l -> (f' n <= f n)%nat) ->
  (sum_list_with f' l <= sum_list_with f l)%nat.
Proof.
  induction l as [| a l IH]; simpl; intros H; [lia |].
  pose proof (H a (or_introl eq_refl)).
  pose proof (IH (fun n Hn => H n (or_intror Hn))). lia.
Qed.

Lemma sum_with_lt {A} (f f' : A -> nat) (l : list A) (x : A) :
  In x l -> (f' x < f x)%nat ->
  (forall n, In n l -> (f' n <= f n)%nat) ->
  (sum_list_with f' l < sum_list_with f l)%nat.
Proof.
  induction l as [| a l IH]; simpl; intros Hx Hlt H; [destruct Hx |].
  pose proof (sum_with_le f f' l (fun n Hn => H n (or_intror Hn))).
  pose proof (H a (or_introl eq_refl)).
  destruct Hx as [-> | Hx]; [lia |].
  pose proof (IH Hx Hlt (fun n Hn => H n (or_intror Hn))). lia.
Qed.

Lemma sum_with_bound {A} (f : A -> nat) (l : list A) (c : nat) :
  (forall n, In n l -> (f n <= c)%nat) ->
  (sum_list_with f l <= length l * c)%nat.
Proof.
  induction l as [| a l IH]; simpl; intros H; [lia |].
  pose proof (H a (or_introl eq_refl)).
  pose proof (IH (fun n Hn => H n (or_intror Hn))). lia.
Qed.

Lemma sum_with_elem {A} (f : A -> nat) (l : list A) (x : A) :
  In x l -> (f x <= sum_list_with f l)%nat.
Proof.
  induction l as [| a l IH]; simpl; intros Hx; [destruct Hx |].
  destruct Hx as [-> | Hx]; [lia |]. pose proof (IH Hx). lia.
Qed.

Lemma heappop_None (h : list PathFinder.HeapItem) :
  PathFinder.heappop h = None -> h = [].
Proof.
  destruct h as [| a h]; [reflexivity |]. simpl.
  destruct (PathFinder.heappop h) as [[m r] |]; [| discriminate].
  destruct (PathFinder.item_ltb m a); discriminate.
Qed.

Lemma heappop_Some (h : list PathFinder.HeapItem) it rest :
  PathFinder.heappop h = Some (it, rest) ->
  length h = S (length rest) /\ In it h /\ forall x, In x rest -> In x h.
Proof.
  revert it rest. induction h as [| a h IH]; intros it rest; simpl;
    [discriminate |].
  destruct (PathFinder.heappop h) as [[m r] |] eqn:Hpop.
  - destruct (IH m r eq_refl) as (Hlen & Hin & Hsub).
    destruct (PathFinder.item_ltb m a); intros [= <- <-]; simpl.
    + split; [lia |]. split; [right; exact Hin |].
      intros x [-> | Hx]; [left; reflexivity | right; apply Hsub, Hx].
    + split; [reflexivity |]. split; [left; reflexivity |].
      intros x Hx; right; exact Hx.
  - apply heappop_None in Hpop. subst h. intros [= <- <-]. simpl.
    split; [reflexivity |]. split; [left; reflexivity |]. intros x [].
Qed.

Section SearchReturns.

Local Open Scope nat_scope.

Variable gm : GameMap.t.
Variable start : Tile.

(** The tiles of the map, and with [start] the search_nodes that can ever receive a
    [g_score]. *)
Definition grid_tiles : list Tile :=
  flat_map
    (fun tx => List.map (fun ty => (tx, ty)) (py_range 0 (GameMap.height gm)))
    (py_range 0 (GameMap.width gm)).

Definition search_nodes : list Tile := start :: grid_tiles.

Lemma walkable_in_grid (n : Tile) :
  GameMap.is_walkable gm (fst n) (snd n) = true -> In n grid_tiles.
Proof.
  unfold GameMap.is_walkable. destruct n as [tx ty]. simpl.
  destruct ((0 <=? tx)%Z && (tx <? GameMap.width gm)%Z && (0 <=? ty)%Z &&
            (ty <? GameMap.height gm)%Z) eqn:Hb; [| discriminate].
  intros _. unfold grid_tiles. apply in_flat_map. exists tx.
  split; [apply py_range_In; lia |].
  apply in_map_iff. exists ty. split; [reflexivity | apply py_range_In; lia].
Qed.

(** No level reaches [level_cap]: a cost is the sum of at most one step of
    at most 707/500 for each other node that has a cost. *)
Definition level_cap : nat := 707 * length search_nodes.

(** The number of nodes in [g_score]. *)
Definition assigned_count (g : gmap Tile Q) : nat :=
  sum_list_with (fun n => match g !! n with Some _ => 1 | None => 0 end)
    search_nodes.

(** What a node can still lose: its level, or [level_cap] as long as it has
    no cost.  Every push on [open_set] lowers the potential of a node, and
    every iteration pops one entry, so the sum of the potentials and of the
    length of [open_set] decreases with each iteration. *)
Definition potential_at (g : gmap Tile Q) (n : Tile) : nat :=
  match g !! n with Some v => cost_level v | None => level_cap end.

Definition potential (g : gmap Tile Q) : nat :=
  sum_list_with (potential_at g) search_nodes.

Definition search_measure (st : PathFinder.Search) : nat :=
  potential (PathFinder.g_score st) + length (PathFinder.open_set st).

(** What the loop of A* keeps: costs are whole and bounded, only nodes have
    one, a predecessor is strictly cheaper, and the nodes in [open_set]
    have a cost (so [g_score[current]] raises no KeyError). *)
Record search_ok (st : PathFinder.Search) : Prop := {
  ok_whole : forall n v, PathFinder.g_score st !! n = Some v ->
    whole_cost v /\ (0 <= v)%Q;
  ok_bound : forall n v, PathFinder.g_score st !! n = Some v ->
    cost_level v + 707 <= 707 * assigned_count (PathFinder.g_score st);
  ok_nodes : forall n v, PathFinder.g_score st !! n = Some v -> In n search_nodes;
  ok_parent : forall n c, PathFinder.came_from st !! n = Some c ->
    exists vc vn, PathFinder.g_score st !! c = Some vc /\
                  PathFinder.g_score st !! n = Some vn /\ (vc < vn)%Q;
  ok_open : forall it, In it (PathFinder.open_set st) ->
    is_Some (PathFinder.g_score st !! snd it)
}.

Lemma assigned_le_nodes (g : gmap Tile Q) : assigned_count g <= length search_nodes.
Proof.
  unfold assigned_count.
  etransitivity; [apply (sum_with_bound _ _ 1) | lia].
  intros n _. destruct (g !! n); lia.
Qed.

Lemma assigned_insert (g : gmap Tile Q) (n : Tile) (v : Q) :
  assigned_count g <= assigned_count (<[n := v]> g).
Proof.
  apply sum_with_le. intros m _.
  destruct (decide (m = n)) as [-> | Hne].
  - rewrite lookup_insert_eq. destruct (g !! n); lia.
  - rewrite lookup_insert_ne by congruence. lia.
Qed.

Lemma assigned_insert_new (g : gmap Tile Q) (n : Tile) (v : Q) :
  In n search_nodes -> g !! n = None -> S (assigned_count g) <= assigned_count (<[n := v]> g).
Proof.
  intros Hin Hnone. apply (sum_with_lt _ _ _ n Hin).
  - rewrite lookup_insert_eq, Hnone. lia.
  - intros m _. destruct (decide (m = n)) as [-> | Hne].
    + rewrite lookup_insert_eq. destruct (g !! n); lia.
    + rewrite lookup_insert_ne by congruence. lia.
Qed.

(** Recording a first or a better cost for [neighbor] keeps the invariant
    and does not raise the measure: the entry pushed on [open_set] is paid
    for by the potential of [neighbor]. *)
Lemma push_ok (st : PathFinder.Search) (current neighbor : Tile)
    (gcur cost f : Q) (k : Z) :
  search_ok st ->
  PathFinder.g_score st !! current = Some gcur ->
  In neighbor search_nodes ->
  (0 < k <= 707)%Z -> (cost * 500 == inject_Z k)%Q ->
  match PathFinder.g_score st !! neighbor with
  | None => True
  | Some g => (gcur + cost < g)%Q
  end ->
  let st' :=
    {| PathFinder.open_set :=
         PathFinder.heappush (PathFinder.open_set st)
           (f, (PathFinder.counter st + 1)%Z, neighbor);
       PathFinder.came_from :=
         <[neighbor := current]> (PathFinder.came_from st);
       PathFinder.g_score :=
         <[neighbor := (gcur + cost)%Q]> (PathFinder.g_score st);
       PathFinder.counter := (PathFinder.counter st + 1)%Z |} in
  search_ok st' /\ search_measure st' <= search_measure st /\
  is_Some (PathFinder.g_score st' !! current).
Proof.
  intros Hok Hcur Hin Hk Hcost Hnew st'.
  destruct (ok_whole st Hok current gcur Hcur) as [Hwcur Hcur0].
  pose proof (ok_bound st Hok current gcur Hcur) as Hbcur.
  assert (Hkpos : (0 < inject_Z k)%Q).
  { change 0%Q with (inject_Z 0). rewrite <- Zlt_Qlt. lia. }
  assert (Hcostpos : (0 < cost)%Q) by lra.
  destruct (whole_cost_add gcur cost k Hwcur Hcur0 Hcost ltac:(lia))
    as [Hwnew Hlnew].
  assert (Hnew0 : (0 <= gcur + cost)%Q) by lra.
  assert (Hne : neighbor <> current).
  { intros ->. rewrite Hcur in Hnew. lra. }
  pose proof (assigned_insert (PathFinder.g_score st) neighbor (gcur + cost)%Q)
    as Hmono.
  pose proof (assigned_le_nodes
                (<[neighbor := (gcur + cost)%Q]> (PathFinder.g_score st)))
    as Hcapped.
  assert (Hlevel : cost_level (gcur + cost) + 707 <=
                   707 * assigned_count (<[neighbor := (gcur + cost)%Q]>
                                     (PathFinder.g_score st)) /\
                   cost_level (gcur + cost) <
                   potential_at (PathFinder.g_score st) neighbor).
  { unfold potential_at.
    destruct (PathFinder.g_score st !! neighbor) as [g |] eqn:Hold.
    - destruct (ok_whole st Hok neighbor g Hold) as [Hwg _].
      pose proof (ok_bound st Hok neighbor g Hold).
      pose proof (whole_cost_lt (gcur + cost) g Hwnew Hwg Hnew0 Hnew). lia.
    - pose proof (assigned_insert_new (PathFinder.g_score st) neighbor
                    (gcur + cost)%Q Hin Hold).
      unfold level_cap. lia. }
  destruct Hlevel as [Hbnew Hdrop].
  split; [| split].
  - constructor; simpl.
    + intros n v. destruct (decide (n = neighbor)) as [-> | Hn].
      * rewrite lookup_insert_eq. intros [= <-]. split; assumption.
      * rewrite lookup_insert_ne by congruence. apply (ok_whole st Hok).
    + intros n v. destruct (decide (n = neighbor)) as [-> | Hn].
      * rewrite lookup_insert_eq. intros [= <-]. exact Hbnew.
      * rewrite lookup_insert_ne by congruence. intros Hv.
        pose proof (ok_bound st Hok n v Hv). lia.
    + intros n v. destruct (decide (n = neighbor)) as [-> | Hn].
      * intros _. exact Hin.
      * rewrite lookup_insert_ne by congruence. apply (ok_nodes st Hok).
    + intros n c. destruct (decide (n = neighbor)) as [-> | Hn].
      * rewrite lookup_insert_eq. intros [= <-].
        exists gcur, (gcur + cost)%Q.
        rewrite lookup_insert_ne by congruence. rewrite lookup_insert_eq.
        repeat split; [exact Hcur | lra].
      * rewrite lookup_insert_ne by congruence. intros Hc.
        destruct (ok_parent st Hok n c Hc) as (vc & vn & Hvc & Hvn & Hlt).
        destruct (decide (c = neighbor)) as [-> | Hcn].
        -- rewrite Hvc in Hnew. exists (gcur + cost)%Q, vn.
           rewrite lookup_insert_eq. rewrite lookup_insert_ne by congruence.
           repeat split; [exact Hvn | lra].
        -- exists vc, vn. rewrite !lookup_insert_ne by congruence.
           repeat split; assumption.
    + intros it Hit. unfold PathFinder.heappush in Hit.
      apply in_app_or in Hit. destruct Hit as [Hit | [<- | []]].
      * destruct (decide (snd it = neighbor)) as [-> | Hn].
        -- rewrite lookup_insert_eq. eauto.
        -- rewrite lookup_insert_ne by congruence. apply (ok_open st Hok), Hit.
      * simpl. rewrite lookup_insert_eq. eauto.
  - unfold search_measure. simpl. unfold PathFinder.heappush.
    rewrite length_app. simpl.
    assert (potential (<[neighbor := (gcur + cost)%Q]> (PathFinder.g_score st))
            < potential (PathFinder.g_score st)); [| lia].
    apply (sum_with_lt _ _ _ neighbor Hin).
    + unfold potential_at at 1. rewrite lookup_insert_eq. exact Hdrop.
    + intros n _. destruct (decide (n = neighbor)) as [-> | Hn].
      * unfold potential_at at 1. rewrite lookup_insert_eq. lia.
      * unfold potential_at. rewrite lookup_insert_ne by congruence. lia.
  - simpl. rewrite lookup_insert_ne by congruence. eauto.
Qed.

Variable goal : Tile.

Lemma relax_returns (current : Tile) (st : PathFinder.Search)
    (d : Tile * Q) :
  search_ok st -> is_Some (PathFinder.g_score st !! current) -> dir_ok d ->
  exists st', PathFinder.relax gm goal current st d = Some st' /\
    search_ok st' /\ search_measure st' <= search_measure st /\
    is_Some (PathFinder.g_score st' !! current).
Proof.
  intros Hok [gcur Hcur] (k & Hk & Hcost).
  destruct d as [[dx dy] cost]. simpl in Hcost. unfold PathFinder.relax.
  set (neighbor := ((fst current + dx)%Z, (snd current + dy)%Z)).
  destruct (GameMap.is_walkable gm (fst neighbor) (snd neighbor)) eqn:Hwalk;
    simpl; [| exists st; eauto].
  rewrite Hcur. simpl.
  assert (Hin : In neighbor search_nodes).
  { right. apply walkable_in_grid, Hwalk. }
  destruct (PathFinder.g_score st !! neighbor) as [g |] eqn:Hold.
  - destruct (Qltb (gcur + cost) g) eqn:Hlt; [| exists st; eauto].
    eexists. split; [reflexivity |].
    apply (push_ok st current neighbor gcur cost _ k); try assumption.
    rewrite Hold. apply Qltb_lt, Hlt.
  - eexists. split; [reflexivity |].
    apply (push_ok st current neighbor gcur cost _ k); try assumption.
    rewrite Hold. exact I.
Qed.

Lemma relax_all_returns (current : Tile) (ds : list (Tile * Q)) :
  Forall dir_ok ds ->
  forall st, search_ok st -> is_Some (PathFinder.g_score st !! current) ->
  exists st', PathFinder.relax_all gm goal current st ds = Some st' /\
    search_ok st' /\ search_measure st' <= search_measure st.
Proof.
  induction 1 as [| d ds Hd _ IH]; intros st Hok Hcur; simpl.
  - exists st. eauto.
  - destruct (relax_returns current st d Hok Hcur Hd)
      as (st1 & -> & Hok1 & Hm1 & Hcur1). simpl.
    destruct (IH st1 Hok1 Hcur1) as (st2 & -> & Hok2 & Hm2).
    exists st2. split; [reflexivity |]. split; [assumption | lia].
Qed.

(** The chain of predecessors is strictly decreasing in cost, so it is
    not longer than the level of the cost it starts from. *)
Lemma predecessors_returns (st : PathFinder.Search) :
  search_ok st ->
  forall fuel current v,
    PathFinder.g_score st !! current = Some v -> cost_level v <= fuel ->
    is_Some (PathFinder.predecessors fuel (PathFinder.came_from st) current).
Proof.
  intros Hok. induction fuel as [| fuel IH]; intros current v Hv Hfuel; simpl;
    destruct (PathFinder.came_from st !! current) as [prev |] eqn:Hprev;
    eauto.
  - destruct (ok_parent st Hok current prev Hprev)
      as (vc & vn & Hvc & Hvn & Hlt).
    rewrite Hv in Hvn. injection Hvn as <-.
    destruct (ok_whole st Hok _ _ Hvc) as [Hwc Hc0].
    destruct (ok_whole st Hok _ _ Hv) as [Hwv _].
    pose proof (whole_cost_lt vc v Hwc Hwv Hc0 Hlt). lia.
  - destruct (ok_parent st Hok current prev Hprev)
      as (vc & vn & Hvc & Hvn & Hlt).
    rewrite Hv in Hvn. injection Hvn as <-.
    destruct (ok_whole st Hok _ _ Hvc) as [Hwc Hc0].
    destruct (ok_whole st Hok _ _ Hv) as [Hwv _].
    pose proof (whole_cost_lt vc v Hwc Hwv Hc0 Hlt).
    destruct (IH prev vc Hvc ltac:(lia)) as [ch ->]. simpl. eauto.
Qed.

(** The loop of A* returns once the fuel exceeds the measure. *)
Lemma search_returns (fuel : nat) :
  forall st, search_ok st -> search_measure st < fuel ->
  is_Some (PathFinder.search fuel gm goal st).
Proof.
  induction fuel as [| fuel IH]; intros st Hok Hfuel; [lia |].
  cbn [PathFinder.search].
  destruct (PathFinder.heappop (PathFinder.open_set st))
    as [[[[f c] current] rest] |] eqn:Hpop; [| eauto].
  apply heappop_Some in Hpop. destruct Hpop as (Hlen & Hin & Hsub).
  destruct (ok_open st Hok _ Hin) as [v Hv]. simpl in Hv.
  set (st1 := {| PathFinder.open_set := rest;
                 PathFinder.came_from := PathFinder.came_from st;
                 PathFinder.g_score := PathFinder.g_score st;
                 PathFinder.counter := PathFinder.counter st |}).
  assert (Hok1 : search_ok st1).
  { destruct Hok as [H1 H2 H3 H4 H5]. constructor; simpl; try assumption.
    intros it Hit. apply H5, Hsub, Hit. }
  assert (Hm1 : S (search_measure st1) = search_measure st).
  { unfold search_measure. simpl. lia. }
  destruct (decide (current = goal)) as [Heq | Hneq].
  - unfold PathFinder._reconstruct_path.
    pose proof (sum_with_elem (potential_at (PathFinder.g_score st))
                  search_nodes current (ok_nodes st Hok _ _ Hv)) as Hle.
    unfold potential_at at 1 in Hle. rewrite Hv in Hle.
    fold (potential (PathFinder.g_score st)) in Hle.
    destruct (predecessors_returns st1 Hok1 (S fuel) current v Hv) as [ch Hch].
    { unfold search_measure in Hfuel. lia. }
    fold st1. rewrite Hch. simpl. eauto.
  - destruct (relax_all_returns current PathFinder.DIRECTIONS DIRECTIONS_ok
                st1 Hok1 (ex_intro _ v Hv)) as (st2 & -> & Hok2 & Hm2).
    simpl. apply IH; [exact Hok2 | lia].
Qed.

(** The local variables when the loop is entered. *)
Definition initial_search : PathFinder.Search :=
  {| PathFinder.open_set := [(0%Q, 0%Z, start)];
     PathFinder.came_from := ∅;
     PathFinder.g_score := {[ start := 0%Q ]};
     PathFinder.counter := 0%Z |}.

Lemma initial_search_ok : search_ok initial_search.
Proof.
  constructor; simpl.
  - intros n v Hv. apply lookup_singleton_Some in Hv. destruct Hv as [_ <-].
    split; [apply whole_cost_zero | apply Qle_refl].
  - intros n v Hv. apply lookup_singleton_Some in Hv. destruct Hv as [_ <-].
    assert (1 <= assigned_count {[ start := 0%Q ]}); [| change (cost_level 0) with 0; lia].
    unfold assigned_count, search_nodes. simpl. rewrite lookup_singleton_eq. lia.
  - intros n v Hv. apply lookup_singleton_Some in Hv. destruct Hv as [<- _].
    left. reflexivity.
  - intros n c Hc. rewrite lookup_empty in Hc. discriminate.
  - intros it [<- | []]. simpl. rewrite lookup_singleton_eq. eauto.
Qed.

Lemma initial_search_measure :
  search_measure initial_search <= S (length search_nodes * level_cap).
Proof.
  unfold search_measure, initial_search.
  cbn [PathFinder.g_score PathFinder.open_set length].
  assert (potential {[ start := 0%Q ]} <= length search_nodes * level_cap); [| lia].
  apply sum_with_bound. intros n _. unfold potential_at.
  destruct ({[ start := 0%Q ]} !! n) as [v |] eqn:Hv; [| lia].
  apply lookup_singleton_Some in Hv. destruct Hv as [_ <-].
  change (cost_level 0) with 0. lia.
Qed.

End SearchReturns.

(** Iterations that are enough for A* on the map [gm]: more than
    [n * (707 * n)], for [n] the number of tiles of the map plus one. *)
Definition astar_fuel (gm : GameMap.t) : nat :=
  let n := S (length (grid_tiles gm)) in S (S (n * (707 * n))).

(** With that many iterations [find_path] returns a list. *)
Lemma find_path_returns (fuel : nat) (gm : GameMap.t) (start goal : Pos) :
  (astar_fuel gm <= fuel)%nat ->
  is_Some (PathFinder.find_path fuel {| PathFinder.game_map := Some gm |}
             start goal).
Proof.
  intros Hfuel. unfold PathFinder.find_path. cbn [PathFinder.game_map].
  set (s := (py_int (fst start), py_int (snd start))).
  set (g := (py_int (fst goal), py_int (snd goal))).
  cbv zeta. destruct (decide (s = g)); [eauto |].
  destruct (if GameMap.is_walkable gm (fst g) (snd g) then Some g
            else PathFinder._find_nearest_walkable gm g) as [target |];
    [| eauto].
  destruct (search_returns gm s target fuel (initial_search s)) as [p Hp].
  - apply initial_search_ok.
  - pose proof (initial_search_measure gm s) as Hm.
    unfold astar_fuel in Hfuel. unfold level_cap, search_nodes in Hm.
    cbn [length] in Hm. cbv zeta in Hfuel. lia.
  - unfold initial_search in Hp. rewrite Hp. simpl. eauto.
Qed.

(** C3 (as the code has it). With a rectangular game map (one that is
    [GameMap.wf], so that no tile lookup raises) and enough iterations,
    [find_path] returns a list.  When the list is not empty it ends at the
    goal tile if that tile is walkable, and otherwise at the walkable tile
    that [_find_nearest_walkable] returns, which lies on a square ring of
    radius 1 to 9 around the goal (so it need not be adjacent).  The path
    never contains the start tile, and the path from a tile to itself is
    empty.  Without a game map the result is [[goal]], of length 1. *)
Theorem find_path_ends_at_goal
    (fuel : nat) (gm : GameMap.t) (start goal : Pos) :
  GameMap.wf gm ->
  (astar_fuel gm <= fuel)%nat ->
  let s := (py_int (fst start), py_int (snd start)) in
  let g := (py_int (fst goal), py_int (snd goal)) in
  exists p : list Pos,
    PathFinder.find_path fuel {| PathFinder.game_map := Some gm |} start goal
      = Some p /\
    (p <> [] ->
     exists target : Tile,
       last p = Some (tile_pos target) /\
       GameMap.is_walkable gm (fst target) (snd target) = true /\
       ((GameMap.is_walkable gm (fst g) (snd g) = true /\ target = g) \/
        (GameMap.is_walkable gm (fst g) (snd g) = false /\
         PathFinder._find_nearest_walkable gm g = Some target /\
         1 <= chebyshev target g <= 9))) /\
    ~ In (tile_pos s) p /\
    (s = g -> p = []) /\
    PathFinder.find_path fuel {| PathFinder.game_map := None |} start goal
      = Some [goal].
Proof.
  intros _ Hfuel s g.
  destruct (find_path_returns fuel gm start goal Hfuel) as [p Hp].
  exists p. split; [exact Hp |].
  exact (find_path_result fuel gm start goal p Hp).
Qed.

Lemma find_path_ends_at_goal_witness :
  GameMap.wf rock_block_map /\
  (astar_fuel rock_block_map <= astar_fuel rock_block_map)%nat /\
  exists p : list Pos,
    PathFinder.find_path (astar_fuel rock_block_map) rock_block_finder
      (4, 4)%Q (0, 2)%Q = Some p /\
    last p = Some (tile_pos (0, 2)) /\
    ~ In (tile_pos (4, 4)) p.
Proof.
  split; [exact rock_block_map_wf |]. split; [apply le_n |].
  destruct (find_path_ends_at_goal (astar_fuel rock_block_map) rock_block_map
              (4, 4)%Q (0, 2)%Q rock_block_map_wf (le_n _))
    as (p & Hrun & Hlast & Hstart & _).
  exists p. split; [exact Hrun |]. split; [| exact Hstart].
  destruct Hlast as (target & Hl & _ & [[_ ->] | [Hw _]]).
  - vm_compute in Hrun. injection Hrun as <-. discriminate.
  - exact Hl.
  - vm_compute in Hw. discriminate.
Defined.

(** ** Units stay on walkable tiles (systems.py) *)

(** The tile [(int(e.x), int(e.y))] of an entity is walkable. *)
Definition on_walkable (gm : GameMap.t) (e : Entity) : Prop :=
  GameMap.is_walkable gm (py_int (x e)) (py_int (y e)) = true.

(** [e'] is [e] after a step of the movement system: the same object, as
    alive as before, at the same place or on a walkable tile. *)
Definition moved (gm : GameMap.t) (e e' : Entity) : Prop :=
  id e' = id e /\ alive e' = alive e /\
  ((x e' = x e /\ y e' = y e) \/ on_walkable gm e').

Lemma moved_refl (gm : GameMap.t) (e : Entity) : moved gm e e.
Proof. repeat split. left. auto. Qed.

Lemma moved_trans (gm : GameMap.t) (e1 e2 e3 : Entity) :
  moved gm e1 e2 -> moved gm e2 e3 -> moved gm e1 e3.
Proof.
  intros (Hi12 & Ha12 & Hp12) (Hi23 & Ha23 & Hp23).
  split; [congruence |]. split; [congruence |].
  destruct Hp23 as [[Hx Hy] | Hw]; [| right; exact Hw].
  destruct Hp12 as [[Hx' Hy'] | Hw]; [left; split; congruence |].
  right. unfold on_walkable in *. rewrite Hx, Hy. exact Hw.
Qed.

Lemma moved_map_unit (gm : GameMap.t) (f : UnitData -> UnitData) (e : Entity) :
  moved gm e (map_unit f e).
Proof.
  unfold moved, map_unit. destruct (body e); simpl; repeat split; left; auto.
Qed.

Lemma is_walkable_nonneg (gm : GameMap.t) (tx ty : Z) :
  GameMap.is_walkable gm tx ty = true -> 0 <= tx /\ 0 <= ty.
Proof.
  unfold GameMap.is_walkable.
  destruct (0 <=? tx) eqn:Hx; [| discriminate].
  destruct (tx <? GameMap.width gm); [| discriminate].
  destruct (0 <=? ty) eqn:Hy; [| discriminate].
  intros _. split; apply Z.leb_le; assumption.
Qed.

(** The centre of a tile with non-negative coordinate lies on that tile. *)
Lemma py_int_centre (n : Z) : 0 <= n -> py_int (py_float n + 0.5) = n.
Proof.
  intros Hn. unfold py_int, py_float, inject_Z, Qplus. simpl.
  rewrite Z.quot_div_nonneg by lia.
  symmetry. apply (Z.div_unique _ _ _ 5); lia.
Qed.

Lemma unstick_moved (w : World.t) (gm : GameMap.t) (e : Entity) :
  World.game_map w = Some gm ->
  moved gm e (MovementSystem._unstick_unit w e).
Proof.
  intros Hgm. unfold MovementSystem._unstick_unit. rewrite Hgm.
  destruct (List.find _ _) as [[nx ny] |] eqn:Hfind; [| apply moved_refl].
  apply find_some in Hfind. destruct Hfind as [_ Hok]. simpl in Hok.
  apply andb_true_iff in Hok. destruct Hok as [Hw _].
  eapply moved_trans; [| apply moved_map_unit].
  split; [reflexivity |]. split; [reflexivity |]. right.
  unfold on_walkable. simpl.
  destruct (is_walkable_nonneg _ _ _ Hw) as [Hx Hy].
  rewrite !py_int_centre by assumption. exact Hw.
Qed.

Section MovementKeepsWalkable.

Variable sqrt : Q -> Q.
Variable atan2_degrees : Q -> Q -> Q.

Lemma stuck_detection_moved (w : World.t) (gm : GameMap.t) (dt : Q)
    (timers : gmap Z (Q * Q * Q)) (e : Entity) (u : UnitData) :
  World.game_map w = Some gm ->
  moved gm e (snd (MovementSystem._update_stuck_detection sqrt w dt timers e u)).
Proof.
  intros Hgm. unfold MovementSystem._update_stuck_detection.
  destruct (destination u), (path u);
    try (destruct (timers !! id e) as [[[timer lx] ly] |];
         [destruct (Qltb _ _); [apply moved_refl |];
          destruct (Qleb _ _); [apply unstick_moved, Hgm | apply moved_refl]
         | apply moved_refl]).
  apply moved_refl.
Qed.

Lemma move_unit_moved (fuel : nat) (ms : MovementSystem.t) (w : World.t)
    (gm : GameMap.t) (dt : Q) (e e' : Entity) (u : UnitData) :
  World.game_map w = Some gm ->
  MovementSystem.move_unit sqrt atan2_degrees fuel ms w dt e u = Some e' ->
  moved gm e e'.
Proof.
  intros Hgm. unfold MovementSystem.move_unit.
  destruct (path u) as [| next_waypoint rest].
  - destruct (destination u) as [dest |]; [| intros [= <-]; apply moved_refl].
    destruct (Qltb _ 0.5); [intros [= <-]; apply moved_map_unit |].
    destruct (MovementSystem.pathfinder ms) as [pf |];
      [| intros [= <-]; apply moved_map_unit].
    destruct (PathFinder.find_path _ _ _ _) as [p |]; simpl; [| discriminate].
    destruct p; intros [= <-];
      repeat (eapply moved_trans; [| apply moved_map_unit]);
      apply moved_refl.
  - destruct (Qltb _ 0.5); [intros [= <-]; apply moved_map_unit |].
    destruct (Qltb 0 _); [| intros [= <-]; apply moved_refl].
    destruct (MovementSystem._is_walkable w _ _) eqn:Hwalk.
    + intros [= <-]. unfold MovementSystem._is_walkable in Hwalk.
      rewrite Hgm in Hwalk.
      split; [apply id_map_unit |]. split.
      * simpl. unfold map_unit. destruct (body e); reflexivity.
      * right. exact Hwalk.
    + destruct (destination u) as [dest |];
        [destruct (MovementSystem.pathfinder ms) as [pf |] |].
      * destruct (PathFinder.find_path _ _ _ _) as [p |]; simpl;
          [| discriminate].
        intros [= <-].
        repeat (eapply moved_trans; [| apply moved_map_unit]).
        apply moved_refl.
      * intros [= <-].
        eapply moved_trans; [| apply moved_map_unit]. apply moved_map_unit.
      * intros [= <-].
        eapply moved_trans; [| apply moved_map_unit]. apply moved_map_unit.
Qed.

(** The world has the map [gm] and every living entity stands on a
    walkable tile of it. *)
Definition walkable_inv (gm : GameMap.t) (w : World.t) : Prop :=
  World.game_map w = Some gm /\
  forall e, In e (World.entities w) -> alive e = true -> on_walkable gm e.

Lemma movement_visit_keeps (gm : GameMap.t) (fuel : nat) (dt : Q) (eid : Z)
    (s s' : MovementSystem.t * World.t) :
  MovementSystem.update_entity sqrt atan2_degrees fuel dt eid s = Some s' ->
  walkable_inv gm (snd s) -> walkable_inv gm (snd s').
Proof.
  destruct s as [ms w]. unfold MovementSystem.update_entity.
  destruct (World.get_entity w eid) as [entity |] eqn:Hget;
    [| intros [= <-]; auto].
  destruct (unit_data entity) as [u |]; [| intros [= <-]; auto].
  destruct (alive entity) eqn:Halive; [| intros [= <-]; auto].
  destruct (MovementSystem._update_stuck_detection sqrt w dt
              (MovementSystem._stuck_timers ms) entity u)
    as [timers entity1] eqn:Hstuck.
  destruct (unit_data entity1) as [u1 |]; simpl; [| discriminate].
  destruct (MovementSystem.move_unit _ _ _ _ _ _ entity1 u1)
    as [entity2 |] eqn:Hmove; simpl; [| discriminate].
  intros [= <-]. simpl. intros [Hgm Hinv].
  split; [exact Hgm |].
  assert (Hmoved : moved gm entity entity2).
  { eapply moved_trans.
    - pose proof (stuck_detection_moved w gm dt
                    (MovementSystem._stuck_timers ms) entity u Hgm) as H.
      rewrite Hstuck in H. exact H.
    - eapply move_unit_moved; eassumption. }
  apply dict_get_Some in Hget. destruct Hget as [Hin _].
  intros e He Ha. simpl in He. apply dict_set_In in He.
  destruct He as [-> | He]; [| apply Hinv; assumption].
  destruct Hmoved as (_ & Halive2 & [[Hx Hy] | Hw]); [| exact Hw].
  unfold on_walkable. rewrite Hx, Hy. apply Hinv; assumption.
Qed.

(** Whenever [MovementSystem.update] returns, it has kept every living
    entity on a walkable tile. *)
Lemma movement_update_keeps
    (gm : GameMap.t) (fuel : nat) (dt : Q) (ms ms' : MovementSystem.t)
    (w w' : World.t) :
  MovementSystem.update sqrt atan2_degrees fuel dt ms w = Some (ms', w') ->
  World.game_map w = Some gm ->
  (forall e, In e (World.entities w) -> alive e = true -> on_walkable gm e) ->
  World.game_map w' = Some gm /\
  forall e, In e (World.entities w') -> alive e = true -> on_walkable gm e.
Proof.
  unfold MovementSystem.update. intros Hrun Hgm Hinv.
  revert Hrun.
  match goal with
  | |- for_each_id ?body ?ids ?s0 = _ -> _ =>
      intros Hrun;
      apply (for_each_id_preorder
               (fun s s' : MovementSystem.t * World.t =>
                  walkable_inv gm (snd s) -> walkable_inv gm (snd s'))
               body ids s0 (ms', w'))
  end.
  - auto.
  - auto.
  - intros i s s'. apply movement_visit_keeps.
  - exact Hrun.
  - split; assumption.
Qed.

(** The map, when there is one, is rectangular ([GameMap.wf]), so that no
    tile lookup raises. *)
Definition map_wf (game_map : option GameMap.t) : Prop :=
  match game_map with
  | Some gm => GameMap.wf gm
  | None => True
  end.

(** The map of the pathfinder that the movement system holds, if it holds
    one, is rectangular. *)
Definition finder_wf (pf : option PathFinder.t) : Prop :=
  match pf with
  | Some pf => map_wf (PathFinder.game_map pf)
  | None => True
  end.

(** The iterations that the pathfinder of the movement system needs. *)
Definition finder_fuel (pf : option PathFinder.t) : nat :=
  match pf with
  | Some pf =>
      match PathFinder.game_map pf with
      | Some gm => astar_fuel gm
      | None => 0%nat
      end
  | None => 0%nat
  end.

Lemma finder_returns (fuel : nat) (pf : PathFinder.t) (start goal : Pos) :
  (finder_fuel (Some pf) <= fuel)%nat ->
  is_Some (PathFinder.find_path fuel pf start goal).
Proof.
  destruct pf as [[gm |]]; simpl; intros Hfuel.
  - apply find_path_returns, Hfuel.
  - unfold PathFinder.find_path. simpl. eauto.
Qed.

Lemma unit_data_map_unit (f : UnitData -> UnitData) (e : Entity) :
  is_Some (unit_data e) -> is_Some (unit_data (map_unit f e)).
Proof.
  unfold unit_data, map_unit.
  destruct (body e); simpl; eauto; intros [v Hv]; discriminate.
Qed.

Lemma unstick_unit_data (w : World.t) (e : Entity) :
  is_Some (unit_data e) ->
  is_Some (unit_data (MovementSystem._unstick_unit w e)).
Proof.
  intros He. unfold MovementSystem._unstick_unit.
  destruct (World.game_map w) as [gm |]; [| exact He].
  destruct (List.find _ _) as [[nx ny] |]; [| exact He].
  apply unit_data_map_unit. exact He.
Qed.

(** The stuck detection leaves a unit a unit. *)
Lemma stuck_detection_unit_data (w : World.t) (dt : Q)
    (timers : gmap Z (Q * Q * Q)) (e : Entity) (u : UnitData) :
  is_Some (unit_data e) ->
  is_Some (unit_data
             (snd (MovementSystem._update_stuck_detection sqrt w dt timers
                     e u))).
Proof.
  intros He. unfold MovementSystem._update_stuck_detection.
  destruct (destination u), (path u);
    try (destruct (timers !! id e) as [[[timer lx] ly] |];
         [destruct (Qltb _ _); [exact He |];
          destruct (Qleb _ _); [apply unstick_unit_data, He | exact He]
         | exact He]).
  exact He.
Qed.

Lemma move_unit_returns (fuel : nat) (ms : MovementSystem.t) (w : World.t)
    (dt : Q) (e : Entity) (u : UnitData) :
  (finder_fuel (MovementSystem.pathfinder ms) <= fuel)%nat ->
  is_Some (MovementSystem.move_unit sqrt atan2_degrees fuel ms w dt e u).
Proof.
  intros Hfuel. unfold MovementSystem.move_unit.
  destruct (path u) as [| next_waypoint rest].
  - destruct (destination u) as [dest |]; [| eauto].
    destruct (Qltb _ 0.5); [eauto |].
    destruct (MovementSystem.pathfinder ms) as [pf |]; [| eauto].
    match goal with
    | |- context [PathFinder.find_path fuel pf ?a ?b] =>
        destruct (finder_returns fuel pf a b Hfuel) as [p ->]
    end.
    simpl. destruct p; eauto.
  - destruct (Qltb _ 0.5); [eauto |].
    destruct (Qltb 0 _); [| eauto].
    destruct (MovementSystem._is_walkable w _ _); [eauto |].
    destruct (destination u) as [dest |]; [| eauto].
    destruct (MovementSystem.pathfinder ms) as [pf |]; [| eauto].
    match goal with
    | |- context [PathFinder.find_path fuel pf ?a ?b] =>
        destruct (finder_returns fuel pf a b Hfuel) as [p ->]
    end.
    simpl. eauto.
Qed.

Lemma movement_visit_returns (fuel : nat) (dt : Q) (eid : Z)
    (s : MovementSystem.t * World.t) :
  (finder_fuel (MovementSystem.pathfinder (fst s)) <= fuel)%nat ->
  exists s',
    MovementSystem.update_entity sqrt atan2_degrees fuel dt eid s = Some s' /\
    MovementSystem.pathfinder (fst s') = MovementSystem.pathfinder (fst s).
Proof.
  destruct s as [ms w]. simpl. intros Hfuel.
  unfold MovementSystem.update_entity.
  destruct (World.get_entity w eid) as [entity |]; [| eauto].
  destruct (unit_data entity) as [u |] eqn:Hu; [| eauto].
  destruct (alive entity); [| eauto].
  pose proof (stuck_detection_unit_data w dt (MovementSystem._stuck_timers ms)
                entity u ltac:(rewrite Hu; eauto)) as Hunit.
  destruct (MovementSystem._update_stuck_detection sqrt w dt
              (MovementSystem._stuck_timers ms) entity u)
    as [timers entity1].
  simpl in Hunit. destruct Hunit as [u1 ->]. simpl.
  destruct (move_unit_returns fuel (MovementSystem.set_timers timers ms) w dt
              entity1 u1 Hfuel) as [entity2 ->].
  simpl. eauto.
Qed.

(** A loop over entity ids returns when every visit does. *)
Lemma for_each_id_returns {S : Type} (I : S -> Prop)
    (body : Z -> S -> option S) (ids : list Z) (s : S) :
  (forall i s, I s -> exists s', body i s = Some s' /\ I s') ->
  I s -> is_Some (for_each_id body ids s).
Proof.
  intros Hbody. revert s. induction ids as [| i ids IH]; intros s Hs; simpl.
  - eauto.
  - destruct (Hbody i s Hs) as (s1 & -> & Hs1). simpl. apply IH, Hs1.
Qed.

(** With enough iterations for the pathfinder, [MovementSystem.update]
    returns. *)
Lemma movement_update_returns (fuel : nat) (dt : Q) (ms : MovementSystem.t)
    (w : World.t) :
  (finder_fuel (MovementSystem.pathfinder ms) <= fuel)%nat ->
  (forall gm, World.game_map w = Some gm -> (astar_fuel gm <= fuel)%nat) ->
  is_Some (MovementSystem.update sqrt atan2_degrees fuel dt ms w).
Proof.
  intros Hms Hw. unfold MovementSystem.update.
  apply (for_each_id_returns
           (fun s : MovementSystem.t * World.t =>
              (finder_fuel (MovementSystem.pathfinder (fst s)) <= fuel)%nat)).
  - intros i s Hs.
    destruct (movement_visit_returns fuel dt i s Hs) as (s' & Hrun & Hpf).
    exists s'. split; [exact Hrun |]. rewrite Hpf. exact Hs.
  - simpl. destruct (MovementSystem.pathfinder ms) as [pf |] eqn:Hpf.
    + rewrite Hpf. exact Hms.
    + destruct (World.game_map w) as [gm |]; simpl.
      * apply Hw. reflexivity.
      * rewrite Hpf. exact Hms.
Qed.

(** C1 (as the code has it). On a rectangular map (one that is
    [GameMap.wf], so that no tile lookup raises; likewise the map of the
    pathfinder the system already holds, if any): when every living entity
    stands on a walkable tile, taken as the code takes it,
    [(int(e.x), int(e.y))], then [MovementSystem.update] returns (given the iterations its pathfinder
    needs) and every living entity still stands on a walkable tile: a unit
    is only moved to a position whose tile is walkable, be it a step toward
    a waypoint or the teleport of the stuck detection. *)
Theorem movement_keeps_entities_on_walkable_tiles
    (gm : GameMap.t) (fuel : nat) (dt : Q) (ms : MovementSystem.t)
    (w : World.t) :
  GameMap.wf gm ->
  finder_wf (MovementSystem.pathfinder ms) ->
  (astar_fuel gm <= fuel)%nat ->
  (finder_fuel (MovementSystem.pathfinder ms) <= fuel)%nat ->
  World.game_map w = Some gm ->
  (forall e, In e (World.entities w) -> alive e = true -> on_walkable gm e) ->
  exists ms' w',
    MovementSystem.update sqrt atan2_degrees fuel dt ms w = Some (ms', w') /\
    World.game_map w' = Some gm /\
    forall e, In e (World.entities w') -> alive e = true -> on_walkable gm e.
Proof.
  intros _ _ Hfuel Hms Hgm Hinv.
  destruct (movement_update_returns fuel dt ms w Hms) as [[ms' w'] Hrun].
  { intros gm' Hgm'. rewrite Hgm in Hgm'. injection Hgm' as <-. exact Hfuel. }
  exists ms', w'. split; [exact Hrun |].
  exact (movement_update_keeps gm fuel dt ms ms' w w' Hrun Hgm Hinv).
Qed.

End MovementKeepsWalkable.

(** A 3 x 3 map whose tile (1, 2) is rock. *)
Definition rock_below_map : GameMap.t :=
  {| GameMap.width := 3; GameMap.height := 3;
     GameMap.tiles := [ [0; 0; 0]; [0; 0; 0]; [0; 1; 0] ];
     GameMap.mineral_positions := [] |}.

(** The base of team 1 stands at (1, 0), two tiles above the rock, with a
    Worker queued and the 50 minerals to pay for it. *)
Definition rock_below_state : ProductionSystem.LoopState :=
  {| ProductionSystem.world :=
       example_world [example_base 1 1 (1, 0)%Q ["Worker"]] []
         (Some rock_below_map) 50;
     ProductionSystem.bus := [];
     ProductionSystem.rng := example_rng |}.

(** [n] ticks of the production system. *)
Fixpoint production_ticks (n : nat) (dt : Q) (ps : ProductionSystem.t)
    (s : ProductionSystem.LoopState)
  : option (ProductionSystem.t * ProductionSystem.LoopState) :=
  match n with
  | O => Some (ps, s)
  | S n' =>
      '(ps1, s1) ←
        ProductionSystem.update example_unit_stats example_building_stats dt
          ps s;
      production_ticks n' dt ps1 s1
  end.

(** C1, counterexample. The map is rectangular and every living entity
    stands on a walkable tile; after 256 ticks of 1/32 s (the build time of
    8 s) the production system has spawned a living worker at (1, 2), two
    tiles below the base, and that tile is rock.  The tick length is a power
    of two, so that every progress value k/256 of the run is the same number
    in binary floating point as in exact arithmetic, and the draw 0.5 of the
    generator makes the offset -1 + 2 * 0.5 exactly 0. *)
Lemma spawned_unit_on_rock_counterexample :
  GameMap.wf rock_below_map /\
  (forall e,
     In e (World.entities (ProductionSystem.world rock_below_state)) ->
     alive e = true ->
     GameMap.is_walkable rock_below_map (py_floor (x e)) (py_floor (y e))
       = true) /\
  exists ps' s' e,
    production_ticks 256 (1 # 32) ProductionSystem.init rock_below_state
      = Some (ps', s') /\
    In e (World.entities (ProductionSystem.world s')) /\
    alive e = true /\ is_unit e = true /\
    (py_floor (x e), py_floor (y e)) = (1, 2) /\
    (py_int (x e), py_int (y e)) = (1, 2) /\
    GameMap.is_walkable rock_below_map (py_floor (x e)) (py_floor (y e))
      = false.
Proof.
  split; [split; [reflexivity | repeat constructor] |].
  split.
  - intros e [<- | []] _. reflexivity.
  - destruct (production_ticks 256 (1 # 32) ProductionSystem.init
                rock_below_state) as [[ps' s'] |] eqn:Hrun;
      [| vm_compute in Hrun; discriminate].
    exists ps', s'.
    destruct (World.get_entity (ProductionSystem.world s') 100) as [e |] eqn:He.
    + exists e. split; [reflexivity |].
      split; [apply (dict_get_Some id 100 e _ He) |].
      vm_compute in Hrun. injection Hrun as _ <-.
      vm_compute in He. injection He as <-.
      vm_compute. repeat split; reflexivity.
    + vm_compute in Hrun. injection Hrun as _ <-.
      vm_compute in He. discriminate.
Qed.

(** A worker at the top left corner of the map with the rock block, one
    waypoint ahead. *)
Definition walking_world : World.t :=
  example_world
    [map_unit (u_set_path [(1, 0)%Q])
       (example_worker 2 1 (0, 0)%Q idle None)]
    [] (Some rock_block_map) 50.

Lemma movement_keeps_entities_on_walkable_tiles_witness :
  GameMap.wf rock_block_map /\
  finder_wf (MovementSystem.pathfinder MovementSystem.init) /\
  (astar_fuel rock_block_map <= astar_fuel rock_block_map)%nat /\
  exists ms' w',
    MovementSystem.update example_sqrt example_atan2_degrees
      (astar_fuel rock_block_map) (1 # 30) MovementSystem.init walking_world
      = Some (ms', w') /\
    (forall e, In e (World.entities w') -> alive e = true ->
               on_walkable rock_block_map e) /\
    exists e', World.get_entity w' 2 = Some e' /\ (0 < x e')%Q.
Proof.
  split; [exact rock_block_map_wf |]. split; [exact I |].
  split; [apply le_n |].
  destruct (movement_keeps_entities_on_walkable_tiles example_sqrt
              example_atan2_degrees rock_block_map (astar_fuel rock_block_map)
              (1 # 30) MovementSystem.init walking_world rock_block_map_wf I
              (le_n _) (Nat.le_0_l _) eq_refl)
    as (ms' & w' & Hrun & _ & Hinv).
  { intros e [<- | []] _. reflexivity. }
  exists ms', w'. split; [exact Hrun |]. split; [exact Hinv |].
  vm_compute in Hrun. injection Hrun as _ <-.
  eexists. split; [reflexivity |]. reflexivity.
Defined.

(** ** No index is out of range *)

(** A grid of [h] rows of [w] cells. *)
Definition grid_shape {A : Type} (w h : Z) (g : list (list A)) : Prop :=
  length g = Z.to_nat h /\ Forall (fun row => length row = Z.to_nat w) g.

Lemma grid_shape_get {A : Type} (w h : Z) (g : list (list A)) (cx cy : Z) :
  grid_shape w h g -> 0 <= cx < w -> 0 <= cy < h ->
  is_Some (grid_get g cx cy).
Proof.
  intros [Hlen Hrows] Hx Hy. unfold grid_get.
  destruct (Z.leb_spec 0 cx); [| lia]. destruct (Z.leb_spec 0 cy); [| lia].
  simpl.
  destruct (lookup_lt_is_Some_2 g (Z.to_nat cy)) as [row Hrow]; [lia |].
  rewrite Hrow. simpl. apply lookup_lt_is_Some_2.
  rewrite Forall_forall in Hrows.
  rewrite (Hrows row) by (apply list_elem_of_lookup; eauto).
  lia.
Qed.

Lemma grid_shape_set {A : Type} (w h : Z) (g : list (list A)) (cx cy : Z)
    (v : A) :
  grid_shape w h g -> grid_shape w h (grid_set g cx cy v).
Proof.
  intros [Hlen Hrows]. unfold grid_set.
  destruct (g !! Z.to_nat cy) as [row |] eqn:Hrow; [| split; assumption].
  split.
  - rewrite length_insert. exact Hlen.
  - rewrite Forall_forall in Hrows.
    apply Forall_forall. intros r Hr.
    apply list_elem_of_lookup in Hr. destruct Hr as [i Hi].
    destruct (decide (i = Z.to_nat cy)) as [-> | Hne].
    + rewrite list_lookup_insert_eq in Hi
        by (apply lookup_lt_Some in Hrow; exact Hrow).
      injection Hi as <-. rewrite length_insert.
      apply Hrows, list_elem_of_lookup. eauto.
    + rewrite list_lookup_insert_ne in Hi by congruence.
      apply Hrows, list_elem_of_lookup. eauto.
Qed.

Lemma fold_left_keeps {A B : Type} (P : A -> Prop) (f : A -> B -> A)
    (l : list B) (a : A) :
  (forall a b, P a -> P (f a b)) -> P a -> P (fold_left f l a).
Proof.
  intros Hf. revert a. induction l as [| b l IH]; intros a Ha; simpl; auto.
Qed.

(** A map built by [load_map] from a rectangular CSV answers every
    in-bounds lookup of [is_walkable]. *)
Lemma is_walkable_in_range (gm : GameMap.t) (tx ty : Z) :
  GameMap.wf gm ->
  0 <= tx < GameMap.width gm -> 0 <= ty < GameMap.height gm ->
  is_Some (grid_get (GameMap.tiles gm) tx ty).
Proof.
  intros Hwf. apply (grid_shape_get (GameMap.width gm) (GameMap.height gm)).
  exact Hwf.
Qed.

(** On a rectangular map [is_walkable] never raises, and its value is the
    one the embedding computes with. *)
Lemma is_walkable_raising_wf (gm : GameMap.t) (tx ty : Z) :
  GameMap.wf gm ->
  GameMap.is_walkable_raising gm tx ty = Some (GameMap.is_walkable gm tx ty).
Proof.
  intros Hwf. unfold GameMap.is_walkable_raising, GameMap.is_walkable.
  destruct ((0 <=? tx) && (tx <? GameMap.width gm) && (0 <=? ty)
            && (ty <? GameMap.height gm)) eqn:Hin; [| reflexivity].
  rewrite !andb_true_iff in Hin. destruct Hin as [[[Hx0 Hx1] Hy0] Hy1].
  apply Z.leb_le in Hx0, Hy0. apply Z.ltb_lt in Hx1, Hy1.
  destruct (is_walkable_in_range gm tx ty Hwf) as [v Hv]; [lia | lia |].
  rewrite Hv. reflexivity.
Qed.

(** A ragged map: the second row is shorter than [width], and the lookup
    of the tile (2, 1) raises. *)
Lemma is_walkable_raising_ragged :
  GameMap.is_walkable_raising
    {| GameMap.width := 3; GameMap.height := 2;
       GameMap.tiles := [ [0; 0; 0]; [0; 0] ];
       GameMap.mineral_positions := [] |} 2 1 = None.
Proof. reflexivity. Qed.

Lemma fog_init_wf (w h : Z) : 0 <= w -> 0 <= h -> FogOfWar.wf (FogOfWar.init w h).
Proof.
  intros Hw Hh. unfold FogOfWar.wf, FogOfWar.init. simpl.
  repeat split; try assumption.
  - apply length_replicate.
  - apply Forall_forall. intros row Hrow.
    apply elem_of_replicate in Hrow. destruct Hrow as [-> _].
    apply length_replicate.
Qed.

(** The fog grid keeps the shape [__init__] gave it, so that the guarded
    accesses [self.grid[ny][nx]] of [update_visibility] are always in
    range. *)
Lemma update_visibility_wf (f : FogOfWar.t) (ents : list Entity) :
  FogOfWar.wf f -> FogOfWar.wf (fst (FogOfWar.update_visibility f ents)).
Proof.
  intros (Hw & Hh & Hshape). unfold FogOfWar.update_visibility.
  set (w := FogOfWar.width f) in *. set (h := FogOfWar.height f) in *.
  assert (Hdemote : grid_shape w h (FogOfWar.demote_all w h (FogOfWar.grid f))).
  { unfold FogOfWar.demote_all.
    apply fold_left_keeps; [| exact Hshape]. intros g cy Hg.
    apply fold_left_keeps; [| exact Hg]. intros g' cx Hg'.
    unfold FogOfWar.demote_cell.
    destruct (grid_get g' cx cy) as [[ | | ] |]; try exact Hg'.
    apply grid_shape_set, Hg'. }
  assert (Hreveal :
            grid_shape w h
              (fst (fold_left (FogOfWar.reveal_entity w h) ents
                      (FogOfWar.demote_all w h (FogOfWar.grid f), ∅)))).
  { apply (fold_left_keeps (fun acc => grid_shape w h (fst acc)));
      [| exact Hdemote].
    intros acc e Hacc. unfold FogOfWar.reveal_entity.
    destruct (negb (alive e)); [exact Hacc |].
    apply (fold_left_keeps (fun acc => grid_shape w h (fst acc)));
      [| exact Hacc].
    intros acc1 dy Hacc1.
    apply (fold_left_keeps (fun acc => grid_shape w h (fst acc)));
      [| exact Hacc1].
    intros [g nv] dx Hg. unfold FogOfWar.reveal_cell. simpl in Hg.
    destruct (_ <=? _); [| exact Hg].
    destruct (_ && _); [| exact Hg].
    destruct (grid_get g _ _) as [[ | | ] |]; simpl; try exact Hg;
      apply grid_shape_set, Hg. }
  destruct (fold_left _ ents _) as [g1 nv]. simpl in *.
  repeat split; try assumption; apply Hreveal.
Qed.

(** ** Production without funds, over a whole update *)

(** The ProductionStarted events of the building [eid] on a bus. *)
Definition started_for (eid : Z) (bus : EventBus) : list Event :=
  List.filter
    (fun ev =>
       match ev with
       | ProductionStartedEvent building_id _ _ _ => building_id =? eid
       | _ => false
       end)
    bus.

Lemma started_for_publish (eid : Z) (ev : Event) (bus : EventBus) :
  started_for eid (publish ev bus) = started_for eid bus ++ started_for eid [ev].
Proof. unfold started_for, publish. apply List.filter_app. Qed.

Lemma get_modify_entity_ne (eid k : Z) (f : Entity -> Entity) (w : World.t) :
  eid <> k -> (forall e, id (f e) = id e) ->
  World.get_entity (modify_entity k f w) eid = World.get_entity w eid.
Proof.
  intros Hne Hid. unfold modify_entity.
  destruct (World.get_entity w k) as [e |] eqn:Hget; [| reflexivity].
  apply get_put_entity_ne. rewrite Hid.
  apply dict_get_Some in Hget. destruct Hget as [_ ->]. exact Hne.
Qed.

Lemma next_id_modify (k : Z) (f : Entity -> Entity) (w : World.t) :
  World.next_id (modify_entity k f w) = World.next_id w.
Proof. unfold modify_entity. destruct (World.get_entity w k); reflexivity. Qed.

Lemma map_building_waiting_twice (e : Entity) :
  map_building (b_set_waiting true) (map_building (b_set_waiting true) e)
  = map_building (b_set_waiting true) e.
Proof. destruct e as [? ? ? ? ? ? ? bd]. destruct bd; reflexivity. Qed.

Section ProductionUpdateWaits.

Variable UNIT_STATS : gmap string UnitStat.
Variable BUILDING_STATS : gmap string BuildingStat.

Lemma create_entity_id (kind_ : string) (eid team_ : Z) (p : Pos) (e : Entity) :
  create_entity UNIT_STATS BUILDING_STATS kind_ eid team_ p = Some e ->
  id e = eid.
Proof.
  unfold create_entity, new_Worker, new_Soldier, new_Base, new_Barracks.
  repeat case_decide;
    repeat (match goal with
            | |- context [?m !! ?k] => destruct (m !! k); simpl
            end);
    try discriminate; intros [= <-]; reflexivity.
Qed.

Lemma spawn_entity_frame (kind_ : string) (team_ : Z) (p : Pos)
    (w w' : World.t) (bus bus' : EventBus) (e : Entity) :
  World.spawn_entity UNIT_STATS BUILDING_STATS kind_ team_ p w bus
    = Some (w', bus', e) ->
  id e = World.next_id w /\
  World.next_id w' = World.next_id w + 1 /\
  (forall k, k <> World.next_id w ->
     World.get_entity w' k = World.get_entity w k) /\
  bus' = publish (SpawnEvent kind_ (World.next_id w) team_ p) bus.
Proof.
  unfold World.spawn_entity.
  destruct (create_entity _ _ _ _ _ _) as [entity |] eqn:Hc; simpl;
    [| discriminate].
  apply create_entity_id in Hc. intros [= <- <- <-].
  repeat split; try assumption.
  - intros k Hk. apply get_put_entity_ne. congruence.
  - rewrite Hc. reflexivity.
Qed.

(** What a step of the production loop for another building leaves alone,
    as far as the building [eid0] is concerned. *)
Definition production_frame (eid0 : Z) (s s' : ProductionSystem.LoopState)
  : Prop :=
  World.next_id (ProductionSystem.world s)
    <= World.next_id (ProductionSystem.world s') /\
  (eid0 < World.next_id (ProductionSystem.world s) ->
   World.get_entity (ProductionSystem.world s') eid0 =
   World.get_entity (ProductionSystem.world s) eid0) /\
  started_for eid0 (ProductionSystem.bus s') =
  started_for eid0 (ProductionSystem.bus s).

Lemma complete_frame (eid0 : Z) (entity : Entity) (b : BuildingData)
    (s s' : ProductionSystem.LoopState) :
  id entity <> eid0 ->
  ProductionSystem.complete UNIT_STATS BUILDING_STATS entity b s = Some s' ->
  production_frame eid0
    {| ProductionSystem.world := ProductionSystem.world s;
       ProductionSystem.bus := ProductionSystem.bus s;
       ProductionSystem.rng := ProductionSystem.rng s |} s'.
Proof.
  intros Hne. unfold ProductionSystem.complete.
  destruct (Building.complete_production b) as [b1 [completed_type |]];
    simpl; [| discriminate].
  destruct (World.spawn_entity _ _ _ _ _ _ _) as [[[w2 bus1] new_unit] |]
    eqn:Hspawn; simpl; [| discriminate].
  apply spawn_entity_frame in Hspawn.
  destruct Hspawn as (Hid & Hnext & Hget & Hbus). simpl in Hid, Hnext, Hget.
  destruct (Random.choice WORKER_NAMES _) as [[unit_name rng2] |];
    simpl; [| discriminate].
  assert (Hb1 : started_for eid0 bus1
                = started_for eid0 (ProductionSystem.bus s)).
  { rewrite Hbus, started_for_publish. simpl. apply app_nil_r. }
  match goal with
  | |- mbind _ ?o = _ -> _ => destruct o as [[bus3 rng3] |] eqn:Ho
  end; simpl; [| discriminate].
  assert (Hb3 : started_for eid0 bus3
                = started_for eid0 (ProductionSystem.bus s)).
  { revert Ho. repeat case_decide.
    - intros [= <- _]. rewrite !started_for_publish. simpl.
      rewrite !app_nil_r. exact Hb1.
    - destruct (Random.choice SOLDIER_RANKS rng2) as [[rank rng3'] |]; simpl;
        [| discriminate].
      intros [= <- _]. rewrite !started_for_publish. simpl.
      rewrite !app_nil_r. exact Hb1.
    - intros [= <- _]. rewrite !started_for_publish. simpl.
      rewrite !app_nil_r. exact Hb1. }
  intros [= <-]. unfold production_frame. simpl.
  assert (Hids : forall (g : UnitData -> UnitData) (h : WorkerData -> WorkerData)
                   (h' : WorkerData -> WorkerData) e,
             id (map_unit g (map_worker h (map_worker h' e))) = id e).
  { intros. rewrite id_map_unit, !id_map_worker. reflexivity. }
  split; [| split; [| exact Hb3]].
  - destruct (is_worker new_unit);
      [destruct (World.get_nearest_mineral _ _ _) |];
      destruct (rally_point b1);
      rewrite ?next_id_modify; lia.
  - intros Hlt.
    assert (Hk : eid0 <> id new_unit) by lia.
    assert (Hbase : World.get_entity w2 eid0
                    = World.get_entity (ProductionSystem.world s) eid0).
    { rewrite Hget by lia. apply get_put_entity_ne.
      rewrite id_map_building. congruence. }
    destruct (is_worker new_unit);
      [destruct (World.get_nearest_mineral _ _ _) |];
      destruct (rally_point b1);
      rewrite ?get_modify_entity_ne
        by (try exact Hk; intros; rewrite ?id_map_unit, ?id_map_worker;
            reflexivity);
      exact Hbase.
Qed.

Lemma progress_frame (eid0 : Z) (dt : Q) (entity : Entity) (b : BuildingData)
    (s s' : ProductionSystem.LoopState) :
  id entity <> eid0 ->
  ProductionSystem.progress UNIT_STATS BUILDING_STATS dt entity b s = Some s' ->
  production_frame eid0 s s'.
Proof.
  intros Hne. unfold ProductionSystem.progress.
  destruct (Qeqb (build_time b) 0); [discriminate |].
  destruct (Qleb 1.0 _).
  - intros H. apply (complete_frame eid0) in H; [| exact Hne].
    destruct s. exact H.
  - intros [= <-]. unfold production_frame. simpl.
    split; [lia |]. split; [| reflexivity].
    intros _. apply get_put_entity_ne. rewrite id_map_building. congruence.
Qed.

(** The totals after a step are those before it, except that one team's
    total may be lower. *)
Definition totals_not_raised (tm tm' : gmap Z Z) : Prop :=
  forall team_ total,
    tm !! team_ = Some total ->
    exists total', tm' !! team_ = Some total' /\ total' <= total.

Lemma totals_not_raised_refl (tm : gmap Z Z) : totals_not_raised tm tm.
Proof. intros t v H. exists v. split; [exact H | lia]. Qed.

Lemma production_visit_frame (eid0 i : Z) (dt : Q)
    (s s' : ProductionSystem.LoopState) :
  (forall k st, UNIT_STATS !! k = Some st -> 0 <= us_cost st) ->
  i <> eid0 ->
  ProductionSystem.update_entity UNIT_STATS BUILDING_STATS dt i s = Some s' ->
  production_frame eid0 s s' /\
  totals_not_raised (World.team_minerals (ProductionSystem.world s))
    (World.team_minerals (ProductionSystem.world s')).
Proof.
  intros Hcosts Hne. unfold ProductionSystem.update_entity.
  assert (Hsame : production_frame eid0 s s /\
                  totals_not_raised
                    (World.team_minerals (ProductionSystem.world s))
                    (World.team_minerals (ProductionSystem.world s))).
  { split; [| apply totals_not_raised_refl].
    unfold production_frame. split; [lia |]. split; reflexivity. }
  destruct (World.get_entity _ i) as [entity |] eqn:Hget;
    [| intros [= <-]; exact Hsame].
  apply dict_get_Some in Hget. destruct Hget as [_ Hid].
  destruct (building_data entity) as [b |]; [| intros [= <-]; exact Hsame].
  destruct (alive entity); [| intros [= <-]; exact Hsame].
  assert (Hflag : forall flag,
            production_frame eid0 s
              {| ProductionSystem.world :=
                   World.put_entity (map_building (b_set_waiting flag) entity)
                     (ProductionSystem.world s);
                 ProductionSystem.bus := ProductionSystem.bus s;
                 ProductionSystem.rng := ProductionSystem.rng s |}).
  { intros flag. unfold production_frame. simpl.
    split; [lia |]. split; [| reflexivity].
    intros _. apply get_put_entity_ne. rewrite id_map_building. congruence. }
  unfold ProductionSystem.update_building.
  destruct (Building.current_production b) as [unit_type |];
    [| intros [= <-]; split; [apply Hflag | apply totals_not_raised_refl]].
  destruct (UNIT_STATS !! unit_type) as [stat |] eqn:Hstat; simpl;
    [| discriminate].
  destruct (Qeqb (production_progress b) 0).
  - destruct (World.team_minerals _ !! team entity) as [total |] eqn:Htotal;
      simpl; [| discriminate].
    destruct (Z.ltb_spec total (us_cost stat)) as [Hlt | Hge].
    + intros [= <-]. split; [apply Hflag | apply totals_not_raised_refl].
    + intros H.
      pose proof (team_minerals_progress _ _ _ _ _ _ _ H) as Htm.
      apply (progress_frame eid0) in H; [| congruence].
      unfold production_frame in *. simpl in *.
      destruct H as (Hn & Hg & Hb). split.
      * split; [exact Hn |]. split; [exact Hg |].
        rewrite Hb, started_for_publish. simpl.
        destruct (Z.eqb_spec (id entity) eid0); [congruence |].
        apply app_nil_r.
      * rewrite Htm. intros t v Ht.
        destruct (decide (team entity = t)) as [<- | Hnt].
        -- rewrite lookup_insert_eq. eexists. split; [reflexivity |].
           specialize (Hcosts _ _ Hstat). assert (v = total) by congruence.
           lia.
        -- rewrite lookup_insert_ne by exact Hnt. exists v. split; [exact Ht | lia].
  - intros H.
    pose proof (team_minerals_progress _ _ _ _ _ _ _ H) as Htm.
    apply (progress_frame eid0) in H; [| congruence].
    split; [exact H |]. rewrite Htm. apply totals_not_raised_refl.
Qed.

(** The part of the loop state that concerns the building [entity], which
    cannot afford the head of its queue: the ids are allocated above its
    id, its team's total has not grown, the building is as at the start or
    has its flag set, and no ProductionStarted event was published for
    it. *)
Definition waiting_inv (entity : Entity) (total : Z)
    (s0 s : ProductionSystem.LoopState) : Prop :=
  id entity < World.next_id (ProductionSystem.world s) /\
  (exists total',
     World.team_minerals (ProductionSystem.world s) !! team entity
       = Some total' /\ total' <= total) /\
  (World.get_entity (ProductionSystem.world s) (id entity) = Some entity \/
   World.get_entity (ProductionSystem.world s) (id entity)
     = Some (map_building (b_set_waiting true) entity)) /\
  started_for (id entity) (ProductionSystem.bus s) =
  started_for (id entity) (ProductionSystem.bus s0).

Lemma production_loop_waits (dt : Q) (entity : Entity) (b : BuildingData)
    (unit_type : string) (stat : UnitStat) (total : Z)
    (s0 : ProductionSystem.LoopState) (ids : list Z)
    (s s' : ProductionSystem.LoopState) :
  (forall k st, UNIT_STATS !! k = Some st -> 0 <= us_cost st) ->
  alive entity = true ->
  building_data entity = Some b ->
  (production_progress b == 0)%Q ->
  Building.current_production b = Some unit_type ->
  UNIT_STATS !! unit_type = Some stat ->
  total < us_cost stat ->
  waiting_inv entity total s0 s ->
  for_each_id (ProductionSystem.update_entity UNIT_STATS BUILDING_STATS dt)
    ids s = Some s' ->
  waiting_inv entity total s0 s' /\
  (In (id entity) ids \/
   World.get_entity (ProductionSystem.world s) (id entity)
     = Some (map_building (b_set_waiting true) entity) ->
   World.get_entity (ProductionSystem.world s') (id entity)
     = Some (map_building (b_set_waiting true) entity)).
Proof.
  intros Hcosts Halive Hb Hprog Hhead Hstat Hcost.
  revert s. induction ids as [| i ids IH]; intros s Hinv; simpl.
  - intros [= <-]. split; [exact Hinv |]. intros [[] | H]. exact H.
  - destruct (ProductionSystem.update_entity _ _ dt i s) as [s1 |] eqn:Hvisit;
      simpl; [| discriminate].
    intros Hloop.
    assert (Hstep : waiting_inv entity total s0 s1 /\
                    (i = id entity \/
                     World.get_entity (ProductionSystem.world s) (id entity)
                       = Some (map_building (b_set_waiting true) entity) ->
                     World.get_entity (ProductionSystem.world s1) (id entity)
                       = Some (map_building (b_set_waiting true) entity))).
    { destruct Hinv as (Hnext & (total' & Htot & Hle) & Hent & Hbus).
      destruct (decide (i = id entity)) as [-> | Hne].
      - (* the visit of the building itself *)
        assert (Hvis : forall cur bcur,
                  World.get_entity (ProductionSystem.world s) (id entity)
                    = Some cur ->
                  id cur = id entity -> team cur = team entity ->
                  alive cur = true -> building_data cur = Some bcur ->
                  (production_progress bcur == 0)%Q ->
                  Building.current_production bcur = Some unit_type ->
                  map_building (b_set_waiting true) cur
                    = map_building (b_set_waiting true) entity ->
                  waiting_inv entity total s0 s1 /\
                  World.get_entity (ProductionSystem.world s1) (id entity)
                    = Some (map_building (b_set_waiting true) entity)).
        { intros cur bcur Hget Hidc Hteam Hal Hbc Hpc Hhc Hflag.
          rewrite <- Hidc in Hget, Hvisit. rewrite <- Hteam in Htot.
          destruct (production_visit_waits UNIT_STATS BUILDING_STATS dt
                      cur bcur s unit_type stat total' Hget Hal Hbc Hpc Hhc
                      Hstat Htot ltac:(lia))
            as (s1' & e' & b' & Hrun & Hget' & _ & _ & _ & _ & -> & _ & Htm
                & _ & Hnx & Hbus' & _).
          rewrite Hvisit in Hrun. injection Hrun as <-.
          rewrite Hidc in Hget'. rewrite Hflag in Hget'.
          split; [| exact Hget'].
          unfold waiting_inv. rewrite Hnx, Htm, Hbus'.
          split; [exact Hnext |]. rewrite Hteam in Htot.
          split; [eauto |]. split; [right; exact Hget' | exact Hbus]. }
        cut (waiting_inv entity total s0 s1 /\
             World.get_entity (ProductionSystem.world s1) (id entity)
               = Some (map_building (b_set_waiting true) entity)).
        { intros [H1 H2]. split; [exact H1 | intros _; exact H2]. }
        destruct Hent as [Hent | Hent].
        + apply (Hvis entity b Hent); auto.
        + assert (Hb' : building_data (map_building (b_set_waiting true) entity)
                        = Some (b_set_waiting true b)).
          { unfold building_data, map_building in *.
            destruct (body entity); simpl in *; congruence. }
          apply (Hvis _ (b_set_waiting true b) Hent).
          * apply id_map_building.
          * unfold map_building. destruct (body entity); reflexivity.
          * unfold map_building. destruct (body entity); simpl; exact Halive.
          * exact Hb'.
          * exact Hprog.
          * exact Hhead.
          * apply map_building_waiting_twice.
      - (* the visit of another entity *)
        destruct (production_visit_frame (id entity) i dt s s1 Hcosts Hne Hvisit)
          as [(Hn & Hg & Hb') Htm].
        destruct (Htm _ _ Htot) as (total1 & Htot1 & Hle1).
        specialize (Hg Hnext).
        split.
        + unfold waiting_inv. split; [lia |].
          split; [exists total1; split; [exact Htot1 | lia] |].
          split; [rewrite Hg; exact Hent | congruence].
        + intros [Hi | Hflagged]; [congruence |]. rewrite Hg. exact Hflagged. }
    destruct Hstep as [Hinv1 Hflag1].
    destruct (IH s1 Hinv1 Hloop) as [Hinv' Hflag'].
    split; [exact Hinv' |].
    intros [[Hi | Hin] | Hflagged].
    + apply Hflag'. right. apply Hflag1. left. exact Hi.
    + apply Hflag'. left. exact Hin.
    + apply Hflag'. right. apply Hflag1. right. exact Hflagged.
Qed.

(** C4. Let a living building have production progress 0 and a queue head
    that costs more than its team's mineral total.  Then the visit of the
    production loop to this building sets [waiting_for_minerals] to true and
    changes nothing else: the building afterwards, [entity'], has the flag
    set and every other field (progress, queue, rally point, build time,
    vision, id, team, position, hit points, alive, class) as before, and the
    state after the visit is the state before it with [entity'] stored in
    place of the building, so no total is deducted and nothing is
    published.  And over the whole [ProductionSystem.update] (costs being
    non-negative and the building's id allocated, i.e. below [next_id]):
    the building ends as [entity'], no ProductionStarted event is published
    for it, and its team's total was not raised by the other buildings. *)
Theorem production_waits_for_minerals
    (dt : Q) (ps : ProductionSystem.t) (entity : Entity) (b : BuildingData)
    (s : ProductionSystem.LoopState)
    (unit_type : string) (stat : UnitStat) (total : Z) :
  World.get_entity (ProductionSystem.world s) (id entity) = Some entity ->
  alive entity = true ->
  building_data entity = Some b ->
  (production_progress b == 0)%Q ->
  Building.current_production b = Some unit_type ->
  UNIT_STATS !! unit_type = Some stat ->
  World.team_minerals (ProductionSystem.world s) !! team entity = Some total ->
  total < us_cost stat ->
  exists (entity' : Entity) (b' : BuildingData),
    building_data entity' = Some b' /\
    b_waiting_for_minerals b' = true /\
    production_progress b' = production_progress b /\
    production_queue b' = production_queue b /\
    rally_point b' = rally_point b /\
    build_time b' = build_time b /\
    b_vision b' = b_vision b /\
    id entity' = id entity /\ team entity' = team entity /\
    pos entity' = pos entity /\ hp entity' = hp entity /\
    max_hp entity' = max_hp entity /\ alive entity' = alive entity /\
    kind entity' = kind entity /\
    ProductionSystem.update_entity UNIT_STATS BUILDING_STATS dt (id entity) s
      = Some
          {| ProductionSystem.world :=
               World.put_entity entity' (ProductionSystem.world s);
             ProductionSystem.bus := ProductionSystem.bus s;
             ProductionSystem.rng := ProductionSystem.rng s |} /\
    ((forall k st, UNIT_STATS !! k = Some st -> 0 <= us_cost st) ->
     id entity < World.next_id (ProductionSystem.world s) ->
     forall ps' s',
       ProductionSystem.update UNIT_STATS BUILDING_STATS dt ps s
         = Some (ps', s') ->
       World.get_entity (ProductionSystem.world s') (id entity)
         = Some entity' /\
       started_for (id entity) (ProductionSystem.bus s')
         = started_for (id entity) (ProductionSystem.bus s) /\
       exists total',
         World.team_minerals (ProductionSystem.world s') !! team entity
           = Some total' /\ total' <= total).
Proof.
  intros Hget Halive Hb Hprog Hhead Hstat Htotal Hcost.
  exists (map_building (b_set_waiting true) entity), (b_set_waiting true b).
  assert (Hfields :
            building_data (map_building (b_set_waiting true) entity)
              = Some (b_set_waiting true b) /\
            id (map_building (b_set_waiting true) entity) = id entity /\
            team (map_building (b_set_waiting true) entity) = team entity /\
            pos (map_building (b_set_waiting true) entity) = pos entity /\
            hp (map_building (b_set_waiting true) entity) = hp entity /\
            max_hp (map_building (b_set_waiting true) entity) = max_hp entity /\
            alive (map_building (b_set_waiting true) entity) = alive entity /\
            kind (map_building (b_set_waiting true) entity) = kind entity).
  { unfold building_data, map_building, kind, pos in *.
    destruct (body entity); simpl in *; try discriminate;
      injection Hb as <-; repeat split. }
  destruct Hfields as (Hb' & Hid & Hteam & Hpos & Hhp & Hmax & Hal & Hkind).
  split; [exact Hb' |].
  split; [reflexivity |]. split; [reflexivity |]. split; [reflexivity |].
  split; [reflexivity |]. split; [reflexivity |]. split; [reflexivity |].
  split; [exact Hid |]. split; [exact Hteam |]. split; [exact Hpos |].
  split; [exact Hhp |]. split; [exact Hmax |]. split; [exact Hal |].
  split; [exact Hkind |]. split.
  - destruct (production_visit_waits UNIT_STATS BUILDING_STATS dt entity b s
                unit_type stat total Hget Halive Hb Hprog Hhead Hstat Htotal
                Hcost)
      as (s1 & e' & b1 & Hrun & _).
    rewrite Hrun. f_equal.
    unfold ProductionSystem.update_entity in Hrun.
    rewrite Hget, Hb, Halive in Hrun.
    unfold ProductionSystem.update_building in Hrun.
    rewrite Hhead in Hrun. simpl in Hrun. rewrite Hstat in Hrun.
    simpl in Hrun.
    assert (Hz : Qeqb (production_progress b) 0 = true)
      by (apply Qeq_bool_iff; exact Hprog).
    rewrite Hz, Htotal in Hrun. simpl in Hrun.
    destruct (Z.ltb_spec total (us_cost stat)); [| lia].
    injection Hrun as <-. reflexivity.
  - intros Hcosts Hnext ps' s'. unfold ProductionSystem.update.
    destruct (for_each_id _ _ s) as [s1 |] eqn:Hloop; simpl; [| discriminate].
    intros [= _ <-].
    destruct (production_loop_waits dt entity b unit_type stat total s
                (entity_ids (ProductionSystem.world s)) s s1
                Hcosts Halive Hb Hprog Hhead Hstat Hcost)
      as [(_ & Htot & _ & Hbus) Hflag].
    + unfold waiting_inv. split; [exact Hnext |].
      split; [exists total; split; [exact Htotal | lia] |].
      split; [left; exact Hget | reflexivity].
    + exact Hloop.
    + split; [| split; [exact Hbus | exact Htot]].
      apply Hflag. left. unfold entity_ids.
      apply dict_get_Some in Hget. destruct Hget as [Hin _].
      apply in_map. exact Hin.
Qed.

End ProductionUpdateWaits.

(** A base of team 1 that has a Worker (cost 50) queued while the team owns
    30 minerals. *)
Definition poor_base : Entity := example_base 1 1 (5, 5)%Q ["Worker"].

Definition poor_state : ProductionSystem.LoopState :=
  {| ProductionSystem.world := example_world [poor_base] [] None 30;
     ProductionSystem.bus := [];
     ProductionSystem.rng := example_rng |}.

Lemma example_unit_costs_nonneg (k : string) (st : UnitStat) :
  example_unit_stats !! k = Some st -> 0 <= us_cost st.
Proof.
  unfold example_unit_stats.
  destruct (decide (k = "Worker")) as [-> | Hw];
    [rewrite lookup_insert_eq; intros [= <-]; simpl; lia |].
  rewrite lookup_insert_ne by congruence.
  destruct (decide (k = "Soldier")) as [-> | Hs];
    [rewrite lookup_insert_eq; intros [= <-]; simpl; lia |].
  rewrite lookup_insert_ne by congruence. rewrite lookup_empty. discriminate.
Qed.

Lemma production_waits_for_minerals_witness :
  match
    ProductionSystem.update example_unit_stats example_building_stats (1 # 30)
      ProductionSystem.init poor_state
  with
  | Some (_, s') =>
      exists e' b',
        World.get_entity (ProductionSystem.world s') 1 = Some e' /\
        building_data e' = Some b' /\
        b_waiting_for_minerals b' = true /\
        production_progress b' = 0%Q /\
        production_queue b' = ["Worker"%string] /\
        started_for 1 (ProductionSystem.bus s') = [] /\
        World.team_minerals (ProductionSystem.world s') !! 1 = Some 30
  | None => False
  end.
Proof.
  destruct (ProductionSystem.update example_unit_stats example_building_stats
              (1 # 30) ProductionSystem.init poor_state)
    as [[ps' s'] |] eqn:Hrun; [| vm_compute in Hrun; discriminate].
  destruct (production_waits_for_minerals example_unit_stats
              example_building_stats (1 # 30) ProductionSystem.init poor_base
              {| b_vision := 8; production_queue := ["Worker"%string];
                 production_progress := 0; rally_point := None;
                 b_waiting_for_minerals := false; build_time := 8 |}
              poor_state "Worker" example_worker_stat 30
              eq_refl eq_refl eq_refl ltac:(reflexivity) eq_refl eq_refl
              eq_refl eq_refl)
    as (e' & b' & Hb' & Hflag & Hprog & Hqueue & _ & _ & _ & _ & _ & _ & _ & _
        & _ & _ & _ & Hupdate).
  destruct (Hupdate example_unit_costs_nonneg ltac:(simpl; lia) ps' s' Hrun)
    as (Hget & Hbus & _).
  exists e', b'. split; [exact Hget |]. split; [exact Hb' |].
  split; [exact Hflag |]. split; [exact Hprog |]. split; [exact Hqueue |].
  split; [exact Hbus |].
  vm_compute in Hrun. injection Hrun as _ <-. reflexivity.
Defined.

(** * Further properties *)

(** ** The paths of A* (systems.py) *)

(** Two tiles are neighbours in the eight directions. *)
Definition adjacent (a b : Tile) : Prop := chebyshev a b = 1.

(** The cost that [DIRECTIONS] gives to the step between two neighbours:
    1.0 along an axis, 1.414 along a diagonal. *)
Definition step_cost (a b : Tile) : Q :=
  if (fst a =? fst b) || (snd a =? snd b) then 1%Q else 1.414%Q.

(** [p] is a walk that leaves [a]: every tile of it is walkable and a
    neighbour of the tile before. *)
Fixpoint is_walk (gm : GameMap.t) (a : Tile) (p : list Tile) : Prop :=
  match p with
  | [] => True
  | b :: p' =>
      adjacent a b /\ GameMap.is_walkable gm (fst b) (snd b) = true /\
      is_walk gm b p'
  end.

(** The tile where the walk [p] from [a] ends. *)
Definition walk_end (a : Tile) (p : list Tile) : Tile := List.last p a.

Fixpoint path_cost (a : Tile) (p : list Tile) : Q :=
  match p with
  | [] => 0%Q
  | b :: p' => (step_cost a b + path_cost b p')%Q
  end.

Lemma direction_step (a : Tile) (dx dy : Z) (cost : Q) :
  In ((dx, dy), cost) PathFinder.DIRECTIONS ->
  adjacent a (fst a + dx, snd a + dy) /\
  cost = step_cost a (fst a + dx, snd a + dy).
Proof.
  unfold PathFinder.DIRECTIONS, adjacent, chebyshev, step_cost. simpl.
  intros H.
  repeat (destruct H as [[= <- <- <-] | H];
          [split; [lia |];
           repeat match goal with
                  | |- context [?u =? ?v] =>
                      destruct (Z.eqb_spec u v); try lia
                  end; reflexivity |]).
  destruct H.
Qed.

Lemma step_direction (a b : Tile) :
  adjacent a b ->
  In ((fst b - fst a, snd b - snd a), step_cost a b) PathFinder.DIRECTIONS.
Proof.
  unfold adjacent, chebyshev, step_cost. destruct a as [ax ay], b as [bx by_].
  simpl. intros H.
  assert (Hx : bx - ax = -1 \/ bx - ax = 0 \/ bx - ax = 1) by lia.
  assert (Hy : by_ - ay = -1 \/ by_ - ay = 0 \/ by_ - ay = 1) by lia.
  unfold PathFinder.DIRECTIONS.
  destruct (Z.eqb_spec ax bx), (Z.eqb_spec ay by_); simpl;
    destruct Hx as [Hx | [Hx | Hx]], Hy as [Hy | [Hy | Hy]];
    try lia; rewrite Hx, Hy; simpl;
    repeat (first [left; reflexivity | right]).
Qed.

Lemma step_cost_pos (a b : Tile) : (0 < step_cost a b)%Q.
Proof. unfold step_cost. destruct (_ || _); reflexivity. Qed.

(** ** The heuristic *)

Lemma heuristic_scaled (a b : Tile) :
  (PathFinder._heuristic a b * 1000 ==
   inject_Z (1000 * Z.max (Z.abs (fst a - fst b)) (Z.abs (snd a - snd b)) +
             414 * Z.min (Z.abs (fst a - fst b)) (Z.abs (snd a - snd b))))%Q.
Proof.
  unfold PathFinder._heuristic. cbv zeta.
  rewrite inject_Z_plus, !inject_Z_mult.
  change (inject_Z 1000) with 1000%Q. change (inject_Z 414) with 414%Q.
  lra.
Qed.

Lemma step_cost_scaled (a b : Tile) :
  (step_cost a b * 1000 ==
   inject_Z (if (fst a =? fst b) || (snd a =? snd b) then 1000 else 1414))%Q.
Proof. unfold step_cost. destruct (_ || _); reflexivity. Qed.

Lemma heuristic_self (a : Tile) : (PathFinder._heuristic a a == 0)%Q.
Proof.
  pose proof (heuristic_scaled a a) as H.
  replace (fst a - fst a) with 0 in H by lia.
  replace (snd a - snd a) with 0 in H by lia.
  change (inject_Z _) with 0%Q in H. lra.
Qed.

Lemma heuristic_nonneg (a b : Tile) : (0 <= PathFinder._heuristic a b)%Q.
Proof.
  pose proof (heuristic_scaled a b) as H.
  assert (Hz : 0 <= 1000 * Z.max (Z.abs (fst a - fst b)) (Z.abs (snd a - snd b)) +
                    414 * Z.min (Z.abs (fst a - fst b)) (Z.abs (snd a - snd b)))
    by lia.
  rewrite Zle_Qle in Hz. change (inject_Z 0) with 0%Q in Hz. lra.
Qed.

(** The heuristic is consistent: a step lowers it by at most its cost. *)
Lemma heuristic_step (a b goal : Tile) :
  adjacent a b ->
  (PathFinder._heuristic a goal <=
   step_cost a b + PathFinder._heuristic b goal)%Q.
Proof.
  unfold adjacent, chebyshev. intros Hadj.
  pose proof (heuristic_scaled a goal) as Ha.
  pose proof (heuristic_scaled b goal) as Hb.
  pose proof (step_cost_scaled a b) as Hc.
  assert (Hz :
    1000 * Z.max (Z.abs (fst a - fst goal)) (Z.abs (snd a - snd goal)) +
    414 * Z.min (Z.abs (fst a - fst goal)) (Z.abs (snd a - snd goal)) <=
    (if (fst a =? fst b) || (snd a =? snd b) then 1000 else 1414) +
    (1000 * Z.max (Z.abs (fst b - fst goal)) (Z.abs (snd b - snd goal)) +
     414 * Z.min (Z.abs (fst b - fst goal)) (Z.abs (snd b - snd goal)))).
  { destruct (Z.eqb_spec (fst a) (fst b)), (Z.eqb_spec (snd a) (snd b));
      simpl; lia. }
  rewrite Zle_Qle in Hz.
  match type of Hz with
  | (_ <= inject_Z (?u + ?v))%Q => rewrite (inject_Z_plus u v) in Hz
  end.
  lra.
Qed.

Lemma walk_end_cons (a b : Tile) (p : list Tile) :
  walk_end a (b :: p) = walk_end b p.
Proof.
  unfold walk_end. destruct p as [| c p]; [reflexivity |].
  change (List.last (c :: p) a = List.last (c :: p) b).
  apply last_nonempty_default.
Qed.

(** So it never exceeds the cost of a walk to the goal. *)
Lemma heuristic_admissible (gm : GameMap.t) (goal : Tile) (p : list Tile) :
  forall a, is_walk gm a p -> walk_end a p = goal ->
  (PathFinder._heuristic a goal <= path_cost a p)%Q.
Proof.
  induction p as [| b p IH]; intros a Hwalk Hend.
  - unfold walk_end in Hend. simpl in Hend. subst a.
    rewrite heuristic_self. simpl. lra.
  - destruct Hwalk as (Hadj & _ & Hwalk).
    assert (Hend' : walk_end b p = goal).
    { rewrite <- (walk_end_cons a). exact Hend. }
    pose proof (IH b Hwalk Hend'). pose proof (heuristic_step a b goal Hadj).
    simpl. lra.
Qed.

Lemma is_walk_snoc (gm : GameMap.t) (p : list Tile) (c : Tile) :
  forall a, is_walk gm a (p ++ [c]) <->
            is_walk gm a p /\ adjacent (walk_end a p) c /\
            GameMap.is_walkable gm (fst c) (snd c) = true.
Proof.
  induction p as [| b p IH]; intros a; cbn [app is_walk].
  - unfold walk_end. simpl. tauto.
  - rewrite IH, walk_end_cons. tauto.
Qed.

Lemma path_cost_snoc (p : list Tile) (c : Tile) :
  forall a, (path_cost a (p ++ [c]) ==
             path_cost a p + step_cost (walk_end a p) c)%Q.
Proof.
  induction p as [| b p IH]; intros a; cbn [app path_cost].
  - unfold walk_end. simpl. lra.
  - rewrite IH, walk_end_cons. lra.
Qed.

Lemma walk_end_snoc (a c : Tile) (p : list Tile) : walk_end a (p ++ [c]) = c.
Proof. unfold walk_end. apply last_last. Qed.

(** ** The heap *)

Lemma heappop_In (h : list PathFinder.HeapItem) it rest :
  PathFinder.heappop h = Some (it, rest) ->
  forall x, In x h -> x = it \/ In x rest.
Proof.
  revert it rest. induction h as [| a h IH]; intros it rest; simpl;
    [discriminate |].
  destruct (PathFinder.heappop h) as [[m r] |] eqn:Hpop.
  - destruct (PathFinder.item_ltb m a); intros [= <- <-] x [<- | Hx].
    + right. left. reflexivity.
    + destruct (IH m r eq_refl x Hx) as [-> | Hr]; [left | right; right];
        auto.
    + left. reflexivity.
    + right. exact Hx.
  - intros [= <- <-] x [<- | Hx]; [left; reflexivity |].
    apply heappop_None in Hpop. subst h. destruct Hx.
Qed.

(** [heappop] returns an entry of least [f_score]. *)
Lemma heappop_least (h : list PathFinder.HeapItem) it rest :
  PathFinder.heappop h = Some (it, rest) ->
  forall x, In x h -> (fst (fst it) <= fst (fst x))%Q.
Proof.
  revert it rest. induction h as [| a h IH]; intros it rest; simpl;
    [discriminate |].
  destruct (PathFinder.heappop h) as [[m r] |] eqn:Hpop.
  - specialize (IH m r eq_refl).
    destruct (PathFinder.item_ltb m a) eqn:Hlt; intros [= <- <-] x Hx.
    + assert (Hma : (fst (fst m) <= fst (fst a))%Q).
      { destruct m as [[fm cm] nm], a as [[fa ca] na]. simpl in *.
        destruct (Qeqb fm fa) eqn:Heq; simpl in Hlt.
        - apply Qeq_bool_iff in Heq. lra.
        - apply Qltb_lt in Hlt. lra. }
      destruct Hx as [<- | Hx]; [exact Hma | apply IH, Hx].
    + assert (Ham : (fst (fst a) <= fst (fst m))%Q).
      { destruct m as [[fm cm] nm], a as [[fa ca] na]. simpl in *.
        destruct (Qeqb fm fa) eqn:Heq; simpl in Hlt.
        - apply Qeq_bool_iff in Heq. lra.
        - apply Qltb_ge in Hlt. exact Hlt. }
      destruct Hx as [<- | Hx]; [lra |].
      pose proof (IH x Hx). lra.
  - intros [= <- <-] x [<- | Hx]; [lra |].
    apply heappop_None in Hpop. subst h. destruct Hx.
Qed.

(** ** The invariant of the A* loop *)

Section AStarInvariant.

Variable gm : GameMap.t.
Variables start goal : Tile.

(** The node [n] of cost [v] has an entry in [open_set] that is up to
    date. *)
Definition pending (st : PathFinder.Search) (n : Tile) (v : Q) : Prop :=
  exists f c, In (f, c, n) (PathFinder.open_set st) /\
              (f <= v + PathFinder._heuristic n goal)%Q.

(** Every walkable neighbour of [n] has a cost that the step from [n]
    cannot improve. *)
Definition relaxed (st : PathFinder.Search) (n : Tile) (v : Q) : Prop :=
  forall m, adjacent n m -> GameMap.is_walkable gm (fst m) (snd m) = true ->
  exists vm, PathFinder.g_score st !! m = Some vm /\
             (vm <= v + step_cost n m)%Q.

Definition frontier (skip : option Tile) (st : PathFinder.Search) : Prop :=
  forall n v, PathFinder.g_score st !! n = Some v -> skip <> Some n ->
              pending st n v \/ relaxed st n v.

Record astar_inv (st : PathFinder.Search) : Prop := {
  inv_start :
    PathFinder.g_score st !! start = Some 0%Q /\
    PathFinder.came_from st !! start = None;
  inv_nonneg :
    forall n v, PathFinder.g_score st !! n = Some v -> (0 <= v)%Q;
  inv_parent :
    forall n c, PathFinder.came_from st !! n = Some c ->
    exists vc vn,
      PathFinder.g_score st !! c = Some vc /\
      PathFinder.g_score st !! n = Some vn /\
      adjacent c n /\ GameMap.is_walkable gm (fst n) (snd n) = true /\
      (vc + step_cost c n <= vn)%Q;
  inv_has_parent :
    forall n v, PathFinder.g_score st !! n = Some v -> n <> start ->
                is_Some (PathFinder.came_from st !! n);
  inv_open :
    forall f c n, In (f, c, n) (PathFinder.open_set st) ->
    exists v, PathFinder.g_score st !! n = Some v /\
              (n = goal -> (v <= f)%Q);
  inv_goal :
    forall v, PathFinder.g_score st !! goal = Some v ->
    exists f c, In (f, c, goal) (PathFinder.open_set st)
}.

(** Costs only go down. *)
Definition costs_lowered (st st' : PathFinder.Search) : Prop :=
  forall n v, PathFinder.g_score st !! n = Some v ->
  exists v', PathFinder.g_score st' !! n = Some v' /\ (v' <= v)%Q.

Lemma costs_lowered_refl (st : PathFinder.Search) : costs_lowered st st.
Proof. intros n v Hv. exists v. split; [exact Hv | lra]. Qed.

Lemma costs_lowered_trans (st1 st2 st3 : PathFinder.Search) :
  costs_lowered st1 st2 -> costs_lowered st2 st3 -> costs_lowered st1 st3.
Proof.
  intros H12 H23 n v Hv. destruct (H12 n v Hv) as (v2 & Hv2 & Hle2).
  destruct (H23 n v2 Hv2) as (v3 & Hv3 & Hle3).
  exists v3. split; [exact Hv3 | lra].
Qed.

Lemma push_inv (st : PathFinder.Search) (current neighbor : Tile)
    (gcur : Q) :
  astar_inv st -> frontier (Some current) st ->
  PathFinder.g_score st !! current = Some gcur ->
  adjacent current neighbor ->
  GameMap.is_walkable gm (fst neighbor) (snd neighbor) = true ->
  match PathFinder.g_score st !! neighbor with
  | None => True
  | Some g => (gcur + step_cost current neighbor < g)%Q
  end ->
  let tentative_g := (gcur + step_cost current neighbor)%Q in
  let st' :=
    {| PathFinder.open_set :=
         PathFinder.heappush (PathFinder.open_set st)
           ((tentative_g + PathFinder._heuristic neighbor goal)%Q,
            PathFinder.counter st + 1, neighbor);
       PathFinder.came_from :=
         <[neighbor := current]> (PathFinder.came_from st);
       PathFinder.g_score :=
         <[neighbor := tentative_g]> (PathFinder.g_score st);
       PathFinder.counter := PathFinder.counter st + 1 |} in
  astar_inv st' /\ frontier (Some current) st' /\
  PathFinder.g_score st' !! current = Some gcur /\
  costs_lowered st st' /\
  PathFinder.g_score st' !! neighbor = Some tentative_g.
Proof.
  intros Hinv Hfr Hcur Hadj Hwalk Hnew tentative_g st'.
  pose proof (step_cost_pos current neighbor) as Hpos.
  pose proof (inv_nonneg st Hinv current gcur Hcur) as Hcur0.
  destruct (inv_start st Hinv) as [Hg0 Hcf0].
  assert (Hne : neighbor <> current).
  { intros ->. rewrite Hcur in Hnew. lra. }
  assert (Hns : neighbor <> start).
  { intros ->. rewrite Hg0 in Hnew. lra. }
  assert (Hold : forall v, PathFinder.g_score st !! neighbor = Some v ->
                           (tentative_g <= v)%Q).
  { intros v Hv. rewrite Hv in Hnew. unfold tentative_g. lra. }
  assert (Hlow : costs_lowered st st').
  { intros n v Hv. simpl. destruct (decide (n = neighbor)) as [-> | Hn].
    - exists tentative_g. rewrite lookup_insert_eq. split; [reflexivity |].
      apply Hold, Hv.
    - exists v. rewrite lookup_insert_ne by congruence. split; [exact Hv | lra]. }
  split; [| split; [| split; [| split]]].
  - constructor; simpl.
    + rewrite !lookup_insert_ne by congruence. split; assumption.
    + intros n v. destruct (decide (n = neighbor)) as [-> | Hn].
      * rewrite lookup_insert_eq. intros [= <-]. unfold tentative_g. lra.
      * rewrite lookup_insert_ne by congruence. apply (inv_nonneg st Hinv).
    + intros n c. destruct (decide (n = neighbor)) as [-> | Hn].
      * rewrite lookup_insert_eq. intros [= <-].
        exists gcur, tentative_g.
        rewrite lookup_insert_ne by congruence. rewrite lookup_insert_eq.
        repeat split; try assumption. unfold tentative_g. lra.
      * rewrite lookup_insert_ne by congruence. intros Hc.
        destruct (inv_parent st Hinv n c Hc)
          as (vc & vn & Hvc & Hvn & Ha & Hw & Hle).
        destruct (Hlow c vc Hvc) as (vc' & Hvc' & Hle').
        exists vc', vn. split; [exact Hvc' |].
        rewrite lookup_insert_ne by congruence.
        repeat split; try assumption. lra.
    + intros n v. destruct (decide (n = neighbor)) as [-> | Hn].
      * intros _ _. rewrite lookup_insert_eq. eauto.
      * rewrite !lookup_insert_ne by congruence.
        apply (inv_has_parent st Hinv).
    + intros f c n Hin. unfold PathFinder.heappush in Hin.
      apply in_app_or in Hin. destruct Hin as [Hin | [[= <- <- <-] | []]].
      * destruct (inv_open st Hinv f c n Hin) as (v & Hv & Hle).
        destruct (Hlow n v Hv) as (v' & Hv' & Hle').
        exists v'. split; [exact Hv' |]. intros Hg. specialize (Hle Hg). lra.
      * exists tentative_g. rewrite lookup_insert_eq.
        split; [reflexivity |]. intros ->.
        pose proof (heuristic_self goal). lra.
    + intros v. unfold PathFinder.heappush.
      destruct (decide (goal = neighbor)) as [-> | Hn].
      * intros _. eexists _, _. apply in_or_app. right. left. reflexivity.
      * rewrite lookup_insert_ne by congruence. intros Hv.
        destruct (inv_goal st Hinv v Hv) as (f & c & Hin).
        exists f, c. apply in_or_app. left. exact Hin.
  - intros n v Hv Hskip. simpl in Hv.
    destruct (decide (n = neighbor)) as [-> | Hn].
    + rewrite lookup_insert_eq in Hv. injection Hv as <-.
      left. eexists _, _. split.
      * simpl. unfold PathFinder.heappush. apply in_or_app. right. left.
        reflexivity.
      * lra.
    + rewrite lookup_insert_ne in Hv by congruence.
      destruct (Hfr n v Hv Hskip) as [(f & c & Hin & Hle) | Hrel].
      * left. exists f, c. split; [| exact Hle].
        simpl. unfold PathFinder.heappush. apply in_or_app. left. exact Hin.
      * right. intros m Ham Hwm.
        destruct (Hrel m Ham Hwm) as (vm & Hvm & Hle).
        destruct (Hlow m vm Hvm) as (vm' & Hvm' & Hle').
        exists vm'. split; [exact Hvm' | lra].
  - simpl. rewrite lookup_insert_ne by congruence. exact Hcur.
  - exact Hlow.
  - simpl. rewrite lookup_insert_eq. reflexivity.
Qed.

(** One direction of the loop over [DIRECTIONS]. *)
Lemma relax_step (current : Tile) (gcur : Q) (st st' : PathFinder.Search)
    (d : Tile * Q) :
  In d PathFinder.DIRECTIONS ->
  astar_inv st -> frontier (Some current) st ->
  PathFinder.g_score st !! current = Some gcur ->
  PathFinder.relax gm goal current st d = Some st' ->
  astar_inv st' /\ frontier (Some current) st' /\
  PathFinder.g_score st' !! current = Some gcur /\
  costs_lowered st st' /\
  let neighbor := (fst current + fst (fst d), snd current + snd (fst d)) in
  (GameMap.is_walkable gm (fst neighbor) (snd neighbor) = true ->
   exists vm, PathFinder.g_score st' !! neighbor = Some vm /\
              (vm <= gcur + snd d)%Q).
Proof.
  destruct d as [[dx dy] cost]. intros Hd Hinv Hfr Hcur.
  destruct (direction_step current dx dy cost Hd) as [Hadj ->].
  unfold PathFinder.relax. cbn [fst snd].
  set (neighbor := (fst current + dx, snd current + dy)) in *.
  change (GameMap.is_walkable gm (fst current + dx) (snd current + dy))
    with (GameMap.is_walkable gm (fst neighbor) (snd neighbor)).
  destruct (GameMap.is_walkable gm (fst neighbor) (snd neighbor)) eqn:Hwalk;
    cbn [negb].
  2:{ intros [= <-]. split; [exact Hinv |]. split; [exact Hfr |].
      split; [exact Hcur |]. split; [apply costs_lowered_refl |].
      discriminate. }
  rewrite Hcur. simpl.
  destruct (PathFinder.g_score st !! neighbor) as [g |] eqn:Hold.
  - destruct (Qltb (gcur + step_cost current neighbor) g) eqn:Hlt.
    + intros [= <-].
      destruct (push_inv st current neighbor gcur Hinv Hfr Hcur Hadj Hwalk)
        as (H1 & H2 & H3 & H4 & H5).
      { rewrite Hold. apply Qltb_lt, Hlt. }
      repeat (split; [assumption |]).
      intros _. eexists. split; [exact H5 | lra].
    + intros [= <-]. split; [exact Hinv |]. split; [exact Hfr |].
      split; [exact Hcur |]. split; [apply costs_lowered_refl |].
      intros _. exists g. split; [exact Hold |]. apply Qltb_ge, Hlt.
  - intros [= <-].
    destruct (push_inv st current neighbor gcur Hinv Hfr Hcur Hadj Hwalk)
      as (H1 & H2 & H3 & H4 & H5).
    { rewrite Hold. exact I. }
    repeat (split; [assumption |]).
    intros _. eexists. split; [exact H5 | lra].
Qed.

Lemma relax_all_steps (current : Tile) (gcur : Q) (ds : list (Tile * Q)) :
  (forall d, In d ds -> In d PathFinder.DIRECTIONS) ->
  forall st st',
  astar_inv st -> frontier (Some current) st ->
  PathFinder.g_score st !! current = Some gcur ->
  PathFinder.relax_all gm goal current st ds = Some st' ->
  astar_inv st' /\ frontier (Some current) st' /\
  PathFinder.g_score st' !! current = Some gcur /\
  costs_lowered st st' /\
  forall d, In d ds ->
    let neighbor := (fst current + fst (fst d), snd current + snd (fst d)) in
    GameMap.is_walkable gm (fst neighbor) (snd neighbor) = true ->
    exists vm, PathFinder.g_score st' !! neighbor = Some vm /\
               (vm <= gcur + snd d)%Q.
Proof.
  induction ds as [| d ds IH]; intros Hds st st' Hinv Hfr Hcur; simpl.
  - intros [= <-]. split; [exact Hinv |]. split; [exact Hfr |].
    split; [exact Hcur |]. split; [apply costs_lowered_refl |].
    intros d [].
  - destruct (PathFinder.relax gm goal current st d) as [st1 |] eqn:Hr;
      simpl; [| discriminate].
    intros Hrest.
    destruct (relax_step current gcur st st1 d (Hds d (or_introl eq_refl))
                Hinv Hfr Hcur Hr) as (Hinv1 & Hfr1 & Hcur1 & Hlow1 & Hd).
    destruct (IH (fun d' H => Hds d' (or_intror H)) st1 st' Hinv1 Hfr1 Hcur1
                Hrest) as (Hinv2 & Hfr2 & Hcur2 & Hlow2 & Hds2).
    split; [exact Hinv2 |]. split; [exact Hfr2 |]. split; [exact Hcur2 |].
    split; [eapply costs_lowered_trans; eassumption |].
    intros d' [<- | Hd']; cbv zeta; intros Hwalk.
    + destruct (Hd Hwalk) as (vm & Hvm & Hle).
      destruct (Hlow2 _ _ Hvm) as (vm' & Hvm' & Hle').
      exists vm'. split; [exact Hvm' | lra].
    + apply (Hds2 d' Hd' Hwalk).
Qed.

(** One iteration that does not pop the goal keeps the invariant, and
    leaves every node pending or relaxed. *)
Lemma iteration_inv (st st2 : PathFinder.Search) (f : Q) (c : Z)
    (current : Tile) (rest : list PathFinder.HeapItem) :
  astar_inv st -> frontier None st ->
  PathFinder.heappop (PathFinder.open_set st) = Some ((f, c, current), rest) ->
  current <> goal ->
  PathFinder.relax_all gm goal current
    {| PathFinder.open_set := rest;
       PathFinder.came_from := PathFinder.came_from st;
       PathFinder.g_score := PathFinder.g_score st;
       PathFinder.counter := PathFinder.counter st |}
    PathFinder.DIRECTIONS = Some st2 ->
  astar_inv st2 /\ frontier None st2.
Proof.
  intros Hinv Hfr Hpop Hne Hrel.
  pose proof (heappop_Some _ _ _ Hpop) as (_ & Hin & Hsub).
  pose proof (heappop_In _ _ _ Hpop) as Hsplit.
  destruct (inv_open st Hinv f c current Hin) as (gcur & Hcur & _).
  set (st1 := {| PathFinder.open_set := rest;
                 PathFinder.came_from := PathFinder.came_from st;
                 PathFinder.g_score := PathFinder.g_score st;
                 PathFinder.counter := PathFinder.counter st |}) in *.
  assert (Hinv1 : astar_inv st1).
  { destruct Hinv as [H1 H2 H3 H4 H5 H6]. constructor; simpl;
      try assumption.
    - intros f' c' n Hn. apply (H5 f' c' n), Hsub, Hn.
    - intros v Hv. destruct (H6 v Hv) as (f' & c' & Hg).
      destruct (Hsplit _ Hg) as [Heq | Hr]; [congruence | eauto]. }
  assert (Hfr1 : frontier (Some current) st1).
  { intros n v Hv Hskip.
    destruct (Hfr n v Hv ltac:(discriminate)) as [(f' & c' & Hn & Hle) | Hr].
    - left. exists f', c'. split; [| exact Hle].
      destruct (Hsplit _ Hn) as [Heq | Hr]; [congruence | exact Hr].
    - right. exact Hr. }
  destruct (relax_all_steps current gcur PathFinder.DIRECTIONS
              (fun d H => H) st1 st2 Hinv1 Hfr1 Hcur Hrel)
    as (Hinv2 & Hfr2 & Hcur2 & _ & Hdone).
  split; [exact Hinv2 |].
  intros n v Hv _. destruct (decide (n = current)) as [-> | Hn].
  - right. intros m Ham Hwm. rewrite Hcur2 in Hv. injection Hv as <-.
    pose proof (step_direction current m Ham) as Hd.
    specialize (Hdone _ Hd). cbn [fst snd] in Hdone.
    destruct m as [mx my]. cbn [fst snd] in *.
    replace (fst current + (mx - fst current)) with mx in Hdone by lia.
    replace (snd current + (my - snd current)) with my in Hdone by lia.
    apply Hdone, Hwm.
  - apply Hfr2; [exact Hv | congruence].
Qed.

(** Along a walk to the goal either an entry of [open_set] or the cost of
    the goal is a lower bound of the cost of the walk. *)
Lemma frontier_walk (st : PathFinder.Search) :
  astar_inv st -> frontier None st ->
  forall p a v,
    PathFinder.g_score st !! a = Some v ->
    is_walk gm a p -> walk_end a p = goal ->
    (exists f c n, In (f, c, n) (PathFinder.open_set st) /\
                   (f <= v + path_cost a p)%Q) \/
    (exists vg, PathFinder.g_score st !! goal = Some vg /\
                (vg <= v + path_cost a p)%Q).
Proof.
  intros Hinv Hfr p. induction p as [| b p IH]; intros a v Hv Hwalk Hend.
  - unfold walk_end in Hend. simpl in Hend. subst a.
    destruct (Hfr goal v Hv ltac:(discriminate))
      as [(f & c & Hin & Hle) | _].
    + left. exists f, c, goal. split; [exact Hin |].
      pose proof (heuristic_self goal). simpl. lra.
    + right. exists v. split; [exact Hv | simpl; lra].
  - pose proof (heuristic_admissible gm goal (b :: p) a Hwalk Hend) as Hadm.
    destruct (Hfr a v Hv ltac:(discriminate))
      as [(f & c & Hin & Hle) | Hrel].
    + left. exists f, c, a. split; [exact Hin | lra].
    + destruct Hwalk as (Hadj & Hwb & Hwalk).
      destruct (Hrel b Hadj Hwb) as (vb & Hvb & Hle).
      rewrite walk_end_cons in Hend.
      destruct (IH b vb Hvb Hwalk Hend)
        as [(f & c & n & Hin & Hle') | (vg & Hvg & Hle')].
      * left. exists f, c, n. split; [exact Hin | simpl; lra].
      * right. exists vg. split; [exact Hvg | simpl; lra].
Qed.

(** The chain of predecessors, reversed, is a walk from the start whose
    cost is at most the recorded one. *)
Lemma predecessors_walk (st : PathFinder.Search) :
  astar_inv st ->
  forall fuel current ch v,
    PathFinder.predecessors fuel (PathFinder.came_from st) current = Some ch ->
    PathFinder.g_score st !! current = Some v ->
    exists p, rev ch = start :: p /\ is_walk gm start p /\
              walk_end start p = current /\ (path_cost start p <= v)%Q.
Proof.
  intros Hinv.
  assert (Hroot : forall current v,
            PathFinder.came_from st !! current = None ->
            PathFinder.g_score st !! current = Some v ->
            exists p, rev [current] = start :: p /\ is_walk gm start p /\
                      walk_end start p = current /\
                      (path_cost start p <= v)%Q).
  { intros current v Hnone Hv.
    destruct (decide (current = start)) as [-> | Hne].
    - exists []. repeat split. simpl.
      apply (inv_nonneg st Hinv _ _ Hv).
    - destruct (inv_has_parent st Hinv current v Hv Hne) as [c Hc].
      congruence. }
  induction fuel as [| fuel IH]; intros current ch v; simpl;
    destruct (PathFinder.came_from st !! current) as [prev |] eqn:Hprev;
    try discriminate.
  - intros [= <-]. apply Hroot; assumption.
  - destruct (PathFinder.predecessors fuel (PathFinder.came_from st) prev)
      as [ch' |] eqn:Hch'; simpl; [| discriminate].
    intros [= <-] Hv.
    destruct (inv_parent st Hinv current prev Hprev)
      as (vc & vn & Hvc & Hvn & Hadj & Hw & Hle).
    rewrite Hv in Hvn. injection Hvn as <-.
    destruct (IH prev ch' vc Hch' Hvc) as (p & Hrev & Hwalk & Hend & Hcost).
    exists (p ++ [current]). simpl. rewrite Hrev. split; [reflexivity |].
    split; [| split].
    + apply is_walk_snoc. rewrite Hend. auto.
    + apply walk_end_snoc.
    + rewrite path_cost_snoc, Hend. lra.
  - intros [= <-]. apply Hroot; assumption.
Qed.

(** What the loop returns: a cheapest walk from the start to the goal, or
    the empty list when no walk reaches the goal. *)
Lemma search_shortest (fuel : nat) :
  forall st p,
    astar_inv st -> frontier None st ->
    PathFinder.search fuel gm goal st = Some p ->
    is_walk gm start p /\
    ((p = [] /\
      forall q, is_walk gm start q -> walk_end start q <> goal) \/
     (walk_end start p = goal /\
      forall q, is_walk gm start q -> walk_end start q = goal ->
                (path_cost start p <= path_cost start q)%Q)).
Proof.
  induction fuel as [| fuel IH]; intros st p Hinv Hfr; [discriminate |].
  cbn [PathFinder.search].
  destruct (inv_start st Hinv) as [Hg0 _].
  destruct (PathFinder.heappop (PathFinder.open_set st))
    as [[[[f c] current] rest] |] eqn:Hpop.
  - destruct (decide (current = goal)) as [-> | Hne].
    + cbn [PathFinder.came_from]. unfold PathFinder._reconstruct_path.
      destruct (PathFinder.predecessors (S fuel) (PathFinder.came_from st)
                  goal) as [ch |] eqn:Hch; simpl; [| discriminate].
      intros [= <-].
      pose proof (heappop_Some _ _ _ Hpop) as (_ & Hin & _).
      destruct (inv_open st Hinv f c goal Hin) as (vg & Hvg & Hfg).
      specialize (Hfg eq_refl).
      destruct (predecessors_walk st Hinv _ _ _ _ Hch Hvg)
        as (p & Hrev & Hwalk & Hend & Hcost).
      rewrite Hrev. simpl. split; [exact Hwalk |]. right.
      split; [exact Hend |]. intros q Hq Hqend.
      pose proof (heuristic_self goal) as Hh.
      destruct (frontier_walk st Hinv Hfr q start 0%Q Hg0 Hq Hqend)
        as [(f' & c' & n & Hin' & Hle) | (vg' & Hvg' & Hle)].
      * pose proof (heappop_least _ _ _ Hpop _ Hin') as Hmin. simpl in Hmin.
        lra.
      * rewrite Hvg in Hvg'. injection Hvg' as <-. lra.
    + destruct (PathFinder.relax_all gm goal current _ PathFinder.DIRECTIONS)
        as [st2 |] eqn:Hrel; simpl; [| discriminate].
      destruct (iteration_inv st st2 f c current rest Hinv Hfr Hpop Hne Hrel)
        as [Hinv2 Hfr2].
      apply IH; assumption.
  - intros [= <-]. split; [exact I |]. left. split; [reflexivity |].
    intros q Hq Hqend. apply heappop_None in Hpop.
    destruct (frontier_walk st Hinv Hfr q start 0%Q Hg0 Hq Hqend)
      as [(f' & c' & n & Hin' & _) | (vg' & Hvg' & _)].
    + rewrite Hpop in Hin'. destruct Hin'.
    + destruct (inv_goal st Hinv vg' Hvg') as (f' & c' & Hin').
      rewrite Hpop in Hin'. destruct Hin'.
Qed.

End AStarInvariant.

Lemma initial_astar_inv (gm : GameMap.t) (start goal : Tile) :
  astar_inv gm start goal (initial_search start) /\
  frontier gm goal None (initial_search start).
Proof.
  split.
  - constructor; simpl.
    + split; [apply lookup_singleton_eq | apply lookup_empty].
    + intros n v Hv. apply lookup_singleton_Some in Hv.
      destruct Hv as [_ <-]. lra.
    + intros n c Hc. rewrite lookup_empty in Hc. discriminate.
    + intros n v Hv Hne. apply lookup_singleton_Some in Hv.
      destruct Hv as [<- _]. contradiction.
    + intros f c n [[= <- <- <-] | []]. exists 0%Q.
      split; [apply lookup_singleton_eq | intros _; lra].
    + intros v Hv. apply lookup_singleton_Some in Hv. destruct Hv as [<- _].
      exists 0%Q, 0. left. reflexivity.
  - intros n v Hv _. simpl in Hv. apply lookup_singleton_Some in Hv.
    destruct Hv as [<- <-]. left. exists 0%Q, 0. split; [left; reflexivity |].
    pose proof (heuristic_nonneg start goal). lra.
Qed.

Lemma path_cost_nonneg (p : list Tile) : forall a, (0 <= path_cost a p)%Q.
Proof.
  induction p as [| b p IH]; intros a; simpl; [lra |].
  pose proof (step_cost_pos a b). pose proof (IH b). lra.
Qed.

(** The tile that [find_path] searches for: the goal, or the tile that
    [_find_nearest_walkable] returns when the goal is not walkable. *)
Definition search_target (gm : GameMap.t) (g : Tile) : option Tile :=
  if GameMap.is_walkable gm (fst g) (snd g) then Some g
  else PathFinder._find_nearest_walkable gm g.

Lemma find_path_search (fuel : nat) (gm : GameMap.t) (start goal : Pos)
    (target : Tile) :
  (astar_fuel gm <= fuel)%nat ->
  let s := (py_int (fst start), py_int (snd start)) in
  let g := (py_int (fst goal), py_int (snd goal)) in
  s <> g ->
  search_target gm g = Some target ->
  exists tiles : list Tile,
    PathFinder.find_path fuel {| PathFinder.game_map := Some gm |} start goal
      = Some (List.map tile_pos tiles) /\
    is_walk gm s tiles /\
    ((tiles = [] /\
      forall q, is_walk gm s q -> walk_end s q <> target) \/
     (walk_end s tiles = target /\
      forall q, is_walk gm s q -> walk_end s q = target ->
                (path_cost s tiles <= path_cost s q)%Q)).
Proof.
  intros Hfuel s g Hsg Htarget.
  destruct (find_path_returns fuel gm start goal Hfuel) as [p Hp].
  revert Hp. unfold PathFinder.find_path. cbn [PathFinder.game_map].
  fold s g. cbv zeta.
  destruct (decide (s = g)) as [Heq | _]; [contradiction |].
  unfold search_target in Htarget. rewrite Htarget.
  destruct (PathFinder.search fuel gm target _) as [tiles |] eqn:Hsearch;
    simpl; [| discriminate].
  intros _. exists tiles. split; [reflexivity |].
  destruct (initial_astar_inv gm s target) as [Hinv Hfr].
  apply (search_shortest gm s target fuel _ tiles Hinv Hfr Hsearch).
Qed.

(** On a rectangular map ([GameMap.wf]) the path that [find_path] returns
    is a walk: it leaves the start tile, every waypoint is walkable and a neighbour (in the eight directions) of
    the one before.  When it is not empty it ends at the target, and no
    walk from the start to the target is cheaper, a step costing 1 along an
    axis and 1.414 along a diagonal. *)
Theorem find_path_is_a_cheapest_walk
    (fuel : nat) (gm : GameMap.t) (start goal : Pos) (target : Tile) :
  GameMap.wf gm ->
  (astar_fuel gm <= fuel)%nat ->
  let s := (py_int (fst start), py_int (snd start)) in
  let g := (py_int (fst goal), py_int (snd goal)) in
  s <> g ->
  search_target gm g = Some target ->
  exists tiles : list Tile,
    PathFinder.find_path fuel {| PathFinder.game_map := Some gm |} start goal
      = Some (List.map tile_pos tiles) /\
    is_walk gm s tiles /\
    (tiles <> [] ->
     walk_end s tiles = target /\
     forall q, is_walk gm s q -> walk_end s q = target ->
               (path_cost s tiles <= path_cost s q)%Q).
Proof.
  intros _ Hfuel s g Hsg Htarget.
  destruct (find_path_search fuel gm start goal target Hfuel Hsg Htarget)
    as (tiles & Hrun & Hwalk & Hcases).
  exists tiles. split; [exact Hrun |]. split; [exact Hwalk |].
  intros Hne. destruct Hcases as [[-> _] | Hbest]; [contradiction |].
  exact Hbest.
Qed.

Lemma find_path_is_a_cheapest_walk_witness :
  GameMap.wf rock_block_map /\
  (astar_fuel rock_block_map <= astar_fuel rock_block_map)%nat /\
  (4, 4) <> (0, 2) /\
  search_target rock_block_map (0, 2) = Some (0, 2) /\
  exists tiles : list Tile,
    PathFinder.find_path (astar_fuel rock_block_map) rock_block_finder
      (4, 4)%Q (0, 2)%Q = Some (List.map tile_pos tiles) /\
    is_walk rock_block_map (4, 4) tiles /\
    (tiles <> [] ->
     walk_end (4, 4) tiles = (0, 2) /\
     forall q, is_walk rock_block_map (4, 4) q -> walk_end (4, 4) q = (0, 2) ->
               (path_cost (4, 4)%Z tiles <= path_cost (4, 4)%Z q)%Q).
Proof.
  split; [exact rock_block_map_wf |].
  split; [apply le_n |]. split; [discriminate |]. split; [reflexivity |].
  exact (find_path_is_a_cheapest_walk (astar_fuel rock_block_map)
           rock_block_map (4, 4)%Q (0, 2)%Q (0, 2) rock_block_map_wf (le_n _)
           ltac:(discriminate) eq_refl).
Defined.

(** On a rectangular map ([GameMap.wf]) [find_path] returns the empty
    list exactly when the start tile is the target or no walk over walkable tiles leads from the start to the
    target: a reachable target always gets a path. *)
Theorem find_path_empty_iff_unreachable
    (fuel : nat) (gm : GameMap.t) (start goal : Pos) (target : Tile) :
  GameMap.wf gm ->
  (astar_fuel gm <= fuel)%nat ->
  let s := (py_int (fst start), py_int (snd start)) in
  let g := (py_int (fst goal), py_int (snd goal)) in
  s <> g ->
  search_target gm g = Some target ->
  PathFinder.find_path fuel {| PathFinder.game_map := Some gm |} start goal
    = Some [] <->
  (target = s \/ forall q, is_walk gm s q -> walk_end s q <> target).
Proof.
  intros _ Hfuel s g Hsg Htarget.
  destruct (find_path_search fuel gm start goal target Hfuel Hsg Htarget)
    as (tiles & Hrun & Hwalk & Hcases).
  rewrite Hrun. split.
  - intros [= Hnil]. destruct tiles; [| discriminate].
    destruct Hcases as [[_ Hnone] | [Hend _]].
    + right. exact Hnone.
    + left. symmetry. exact Hend.
  - intros Hwhy. destruct Hcases as [[-> _] | [Hend Hbest]]; [reflexivity |].
    destruct Hwhy as [-> | Hnone].
    + specialize (Hbest [] I eq_refl).
      destruct tiles as [| b tiles]; [reflexivity |].
      cbn [path_cost] in Hbest. pose proof (step_cost_pos s b).
      pose proof (path_cost_nonneg tiles b). exfalso. subst s. lra.
    + destruct (Hnone tiles Hwalk Hend).
Qed.

Lemma find_path_empty_iff_unreachable_witness :
  GameMap.wf rock_block_map /\
  (astar_fuel rock_block_map <= astar_fuel rock_block_map)%nat /\
  (4, 4) <> (0, 2) /\
  search_target rock_block_map (0, 2) = Some (0, 2) /\
  (PathFinder.find_path (astar_fuel rock_block_map) rock_block_finder
     (4, 4)%Q (0, 2)%Q = Some [] <->
   ((0, 2) = (4, 4) \/
    forall q, is_walk rock_block_map (4, 4) q -> walk_end (4, 4) q <> (0, 2))).
Proof.
  split; [exact rock_block_map_wf |].
  split; [apply le_n |]. split; [discriminate |]. split; [reflexivity |].
  exact (find_path_empty_iff_unreachable (astar_fuel rock_block_map)
           rock_block_map (4, 4)%Q (0, 2)%Q (0, 2) rock_block_map_wf (le_n _)
           ltac:(discriminate) eq_refl).
Defined.

(** ** The nearest walkable tile *)

Lemma In_ring (p t : Tile) (radius : Z) :
  0 < radius -> chebyshev t p = radius -> In t (PathFinder.ring p radius).
Proof.
  unfold chebyshev. destruct t as [tx ty]. simpl. intros Hr Hd.
  unfold PathFinder.ring. apply in_flat_map. exists (tx - fst p).
  split; [apply py_range_In; lia |].
  apply in_flat_map. exists (ty - snd p).
  split; [apply py_range_In; lia |].
  destruct ((Z.abs (tx - fst p) =? radius) || (Z.abs (ty - snd p) =? radius))
    eqn:Hb.
  - left. f_equal; lia.
  - apply orb_false_iff in Hb. destruct Hb as [Hx Hy].
    apply Z.eqb_neq in Hx. apply Z.eqb_neq in Hy. lia.
Qed.

Lemma find_app_first {A : Type} (f : A -> bool) (l1 l2 : list A) :
  List.find f (l1 ++ l2) =
  match List.find f l1 with Some x => Some x | None => List.find f l2 end.
Proof.
  induction l1 as [| a l1 IH]; simpl; [reflexivity |].
  destruct (f a); [reflexivity | exact IH].
Qed.

Fixpoint ascending (rs : list Z) : Prop :=
  match rs with
  | [] => True
  | r :: rs' => Forall (Z.lt r) rs' /\ ascending rs'
  end.

(** Searching rings of increasing radius finds a tile on the first ring
    that has one. *)
Lemma find_rings_first (f : Tile -> bool) (p t : Tile) (rs : list Z) :
  ascending rs ->
  List.find f (flat_map (PathFinder.ring p) rs) = Some t ->
  exists r, In r rs /\ In t (PathFinder.ring p r) /\ f t = true /\
            forall r' x, In r' rs -> r' < r -> In x (PathFinder.ring p r') ->
                         f x = false.
Proof.
  induction rs as [| r0 rs IH]; simpl; [discriminate |].
  intros [Hall Hsorted]. specialize (IH Hsorted).
  rewrite find_app_first.
  destruct (List.find f (PathFinder.ring p r0)) as [x0 |] eqn:Hfirst.
  - intros [= ->]. apply find_some in Hfirst. destruct Hfirst as [Hin Hf].
    exists r0. split; [left; reflexivity |]. split; [exact Hin |].
    split; [exact Hf |].
    intros r' x [<- | Hr'] Hlt Hx; [lia |].
    rewrite Forall_forall in Hall.
    specialize (Hall r' (proj2 (list_elem_of_In _ _) Hr')). lia.
  - intros Hrest. destruct (IH Hrest) as (r & Hr & Hin & Hf & Hmin).
    exists r. split; [right; exact Hr |]. split; [exact Hin |].
    split; [exact Hf |].
    intros r' x [<- | Hr'] Hlt Hx.
    + apply (find_none _ _ Hfirst x Hx).
    + apply (Hmin r' x Hr' Hlt Hx).
Qed.

Lemma radii_ascending : ascending (py_range 1 10).
Proof.
  change (py_range 1 10) with [1; 2; 3; 4; 5; 6; 7; 8; 9]. simpl.
  repeat split; repeat (constructor; [lia |]); constructor.
Qed.

(** On a rectangular map ([GameMap.wf]) [_find_nearest_walkable] looks at
    the square rings of radius 1 to 9 around the position (never at the
    position itself): as soon as one of their tiles is walkable it returns
    a walkable tile, and one of the innermost ring that has any. *)
Theorem find_nearest_walkable_is_nearest (gm : GameMap.t) (p t' : Tile) :
  GameMap.wf gm ->
  GameMap.is_walkable gm (fst t') (snd t') = true ->
  1 <= chebyshev t' p <= 9 ->
  exists t,
    PathFinder._find_nearest_walkable gm p = Some t /\
    GameMap.is_walkable gm (fst t) (snd t) = true /\
    1 <= chebyshev t p <= chebyshev t' p.
Proof.
  intros _ Hw' Hd'.
  unfold PathFinder._find_nearest_walkable, PathFinder.rings.
  destruct (List.find _ _) as [t |] eqn:Hfind.
  - exists t. split; [reflexivity |].
    destruct (find_rings_first _ p t _ radii_ascending Hfind)
      as (r & Hr & Hin & Hf & Hmin).
    apply py_range_In in Hr. split; [exact Hf |].
    rewrite (ring_In p t r) by (lia || exact Hin). split; [lia |].
    destruct (Z_le_gt_dec r (chebyshev t' p)) as [Hle | Hgt]; [exact Hle |].
    assert (Hfalse : GameMap.is_walkable gm (fst t') (snd t') = false).
    { apply (Hmin (chebyshev t' p) t').
      - apply py_range_In. lia.
      - lia.
      - apply In_ring; [lia | reflexivity]. }
    congruence.
  - exfalso.
    assert (Hfalse : GameMap.is_walkable gm (fst t') (snd t') = false).
    { apply (find_none _ _ Hfind t'). apply in_flat_map.
      exists (chebyshev t' p). split; [apply py_range_In; lia |].
      apply In_ring; [lia | reflexivity]. }
    congruence.
Qed.

Lemma find_nearest_walkable_is_nearest_witness :
  GameMap.wf rock_block_map /\
  GameMap.is_walkable rock_block_map 4 4 = true /\
  1 <= chebyshev (4, 4) (2, 2) <= 9 /\
  exists t,
    PathFinder._find_nearest_walkable rock_block_map (2, 2) = Some t /\
    GameMap.is_walkable rock_block_map (fst t) (snd t) = true /\
    1 <= chebyshev t (2, 2) <= chebyshev (4, 4) (2, 2).
Proof.
  assert (H1 : GameMap.is_walkable rock_block_map 4 4 = true) by reflexivity.
  assert (H2 : 1 <= chebyshev (4, 4) (2, 2) <= 9) by (vm_compute; split; discriminate).
  split; [exact rock_block_map_wf |].
  split; [exact H1 |]. split; [exact H2 |].
  exact (find_nearest_walkable_is_nearest rock_block_map (2, 2) (4, 4)
           rock_block_map_wf H1 H2).
Defined.

(** ** The mineral account of a team (world.py) *)

Lemma get_minerals_add (w : World.t) (team_ other amount : Z) :
  World.get_minerals (World.add_minerals team_ amount w) other =
  if decide (other = team_) then World.get_minerals w team_ + amount
  else World.get_minerals w other.
Proof.
  unfold World.get_minerals, World.add_minerals. simpl.
  destruct (decide (other = team_)) as [-> | Hne].
  - rewrite lookup_insert_eq. reflexivity.
  - rewrite lookup_insert_ne by congruence. reflexivity.
Qed.

(** [add_minerals] credits one team and [spend_minerals] debits it again:
    after a deposit on a total that is not negative the same amount can be
    spent, which restores every total; an amount above the total is refused
    and changes nothing.  For a team without an entry [get_minerals] answers
    0, but spending an amount of 0 or less raises KeyError. *)
Theorem minerals_deposit_then_spend
    (w : World.t) (team_ other amount more : Z) :
  0 <= World.get_minerals w team_ ->
  other <> team_ ->
  World.get_minerals (World.add_minerals team_ amount w) team_ < more ->
  let w1 := World.add_minerals team_ amount w in
  World.get_minerals w1 team_ = World.get_minerals w team_ + amount /\
  World.get_minerals w1 other = World.get_minerals w other /\
  (exists w2,
     World.spend_minerals team_ amount w1 = Some (w2, true) /\
     World.get_minerals w2 team_ = World.get_minerals w team_ /\
     World.get_minerals w2 other = World.get_minerals w other) /\
  World.spend_minerals team_ more w1 = Some (w1, false) /\
  (World.team_minerals w !! other = None ->
   World.get_minerals w other = 0 /\
   World.spend_minerals other 0 w = None).
Proof.
  intros Hnonneg Hother Hmore w1.
  assert (H1 : World.get_minerals w1 team_ = World.get_minerals w team_ + amount).
  { unfold w1. rewrite get_minerals_add. rewrite decide_True by reflexivity.
    reflexivity. }
  assert (H2 : World.get_minerals w1 other = World.get_minerals w other).
  { unfold w1. rewrite get_minerals_add. rewrite decide_False by exact Hother.
    reflexivity. }
  split; [exact H1 |]. split; [exact H2 |]. split; [| split].
  - unfold World.spend_minerals.
    change (default 0 (World.team_minerals w1 !! team_))
      with (World.get_minerals w1 team_).
    rewrite H1. destruct (Z.leb_spec amount (World.get_minerals w team_ + amount));
      [| lia].
    unfold w1 at 1, World.add_minerals at 1. simpl.
    rewrite lookup_insert_eq. simpl. eexists. split; [reflexivity |].
    unfold World.get_minerals. simpl. rewrite lookup_insert_eq.
    split.
    + simpl. unfold World.get_minerals. lia.
    + rewrite lookup_insert_ne by congruence.
      unfold w1, World.add_minerals. simpl.
      rewrite lookup_insert_ne by congruence. reflexivity.
  - unfold World.spend_minerals.
    change (default 0 (World.team_minerals w1 !! team_))
      with (World.get_minerals w1 team_).
    fold w1 in Hmore.
    destruct (Z.leb_spec more (World.get_minerals w1 team_)); [lia |].
    reflexivity.
  - intros Hnone. unfold World.get_minerals, World.spend_minerals.
    rewrite Hnone. simpl. split; reflexivity.
Qed.

Lemma minerals_deposit_then_spend_witness :
  0 <= World.get_minerals World.init 1 /\
  2 <> 1 /\
  World.get_minerals (World.add_minerals 1 50 World.init) 1 < 200 /\
  World.get_minerals (World.add_minerals 1 50 World.init) 1 = 150 /\
  World.get_minerals (World.add_minerals 1 50 World.init) 2 = 100 /\
  (exists w2,
     World.spend_minerals 1 50 (World.add_minerals 1 50 World.init)
       = Some (w2, true) /\
     World.get_minerals w2 1 = 100 /\ World.get_minerals w2 2 = 100) /\
  World.spend_minerals 1 200 (World.add_minerals 1 50 World.init)
    = Some (World.add_minerals 1 50 World.init, false).
Proof.
  assert (H1 : 0 <= World.get_minerals World.init 1) by (vm_compute; discriminate).
  assert (H2 : 2 <> 1) by discriminate.
  assert (H3 : World.get_minerals (World.add_minerals 1 50 World.init) 1 < 200)
    by reflexivity.
  destruct (minerals_deposit_then_spend World.init 1 2 50 200 H1 H2 H3)
    as (Ha & Hb & Hc & Hd & _).
  split; [exact H1 |]. split; [exact H2 |]. split; [exact H3 |].
  split; [exact Ha |]. split; [exact Hb |]. split; [exact Hc | exact Hd].
Defined.

(** ** Spawning (world.py, entities.py) *)

(** Every entity of the world has an id below [next_id], as it is when all
    entities come from [spawn_entity]. *)
Definition ids_below_next (w : World.t) : Prop :=
  forall e, In e (World.entities w) -> id e < World.next_id w.

Lemma dict_set_fresh {A : Type} (key : A -> Z) (a : A) (d : list A) :
  (forall b, In b d -> key b <> key a) -> dict_set key a d = d ++ [a].
Proof.
  induction d as [| b d IH]; intros Hfresh; simpl; [reflexivity |].
  destruct (Z.eqb_spec (key b) (key a)) as [Heq | _].
  - destruct (Hfresh b (or_introl eq_refl) Heq).
  - rewrite IH; [reflexivity |]. intros c Hc. apply Hfresh. right. exact Hc.
Qed.

Section SpawnFacts.

Variable UNIT_STATS : gmap string UnitStat.
Variable BUILDING_STATS : gmap string BuildingStat.

Lemma create_entity_fields (kind_ : string) (eid team_ : Z) (p : Pos)
    (e : Entity) :
  create_entity UNIT_STATS BUILDING_STATS kind_ eid team_ p = Some e ->
  id e = eid /\ team e = team_ /\ pos e = p /\ alive e = true /\
  hp e = max_hp e /\ kind e = kind_.
Proof.
  unfold create_entity, new_Worker, new_Soldier, new_Base, new_Barracks.
  destruct p as [px py].
  repeat case_decide; subst;
    repeat (match goal with
            | |- context [?m !! ?k] => destruct (m !! k); simpl
            end);
    try discriminate; intros [= <-]; repeat split.
Qed.

(** [spawn_entity] gives the new entity the id [next_id] and appends it to
    the table: it can be looked up under that id, every other entry is
    untouched, ids stay below [next_id], and the SpawnEvent is published.
    The entity is alive, at full health, of the kind, team and position
    asked for. *)
Theorem spawn_entity_registers
    (kind_ : string) (team_ : Z) (p : Pos) (w w' : World.t)
    (bus bus' : EventBus) (e : Entity) :
  ids_below_next w ->
  World.spawn_entity UNIT_STATS BUILDING_STATS kind_ team_ p w bus
    = Some (w', bus', e) ->
  id e = World.next_id w /\
  World.next_id w' = World.next_id w + 1 /\
  World.entities w' = World.entities w ++ [e] /\
  World.get_entity w' (id e) = Some e /\
  (forall i, i <> id e -> World.get_entity w' i = World.get_entity w i) /\
  ids_below_next w' /\
  bus' = bus ++ [SpawnEvent kind_ (id e) team_ p] /\
  kind e = kind_ /\ team e = team_ /\ pos e = p /\
  alive e = true /\ hp e = max_hp e.
Proof.
  intros Hbelow. unfold World.spawn_entity.
  destruct (create_entity _ _ _ _ _ _) as [entity |] eqn:Hc; simpl;
    [| discriminate].
  apply create_entity_fields in Hc.
  destruct Hc as (Hid & Hteam & Hpos & Halive & Hhp & Hkind).
  intros [= <- <- <-].
  assert (Happ : dict_set id entity (World.entities w)
                 = World.entities w ++ [entity]).
  { apply dict_set_fresh. intros b Hb. specialize (Hbelow b Hb). lia. }
  split; [exact Hid |]. split; [reflexivity |].
  split; [exact Happ |].
  split; [apply get_put_entity_eq |].
  split; [intros i Hi; apply get_put_entity_ne; exact Hi |].
  split.
  - intros b Hb. simpl in Hb. rewrite Happ in Hb.
    apply in_app_or in Hb. destruct Hb as [Hb | [<- | []]]; simpl.
    + specialize (Hbelow b Hb). lia.
    + lia.
  - repeat split; assumption.
Qed.

End SpawnFacts.

Lemma spawn_entity_registers_witness :
  ids_below_next World.init /\
  exists w' bus' e,
    World.spawn_entity example_unit_stats example_building_stats "Worker" 1
      (3, 4)%Q World.init [] = Some (w', bus', e) /\
    id e = 1 /\ World.next_id w' = 2 /\ World.entities w' = [e] /\
    World.get_entity w' 1 = Some e /\ kind e = "Worker"%string.
Proof.
  assert (H0 : ids_below_next World.init) by (intros e []).
  split; [exact H0 |].
  destruct (World.spawn_entity example_unit_stats example_building_stats
              "Worker" 1 (3, 4)%Q World.init []) as [[[w' bus'] e] |] eqn:Hrun;
    [| vm_compute in Hrun; discriminate].
  exists w', bus', e. split; [reflexivity |].
  destruct (spawn_entity_registers example_unit_stats example_building_stats
              "Worker" 1 (3, 4)%Q World.init w' [] bus' e H0 Hrun)
    as (Hid & Hnext & Hents & Hget & _ & _ & _ & Hkind & _).
  rewrite Hid in Hget. repeat split; assumption.
Defined.

(** ** The nearest mineral patch (world.py) *)

(** The state of the loop of [get_nearest_mineral] after the patches [l]:
    nothing when all of them are depleted, otherwise a patch that is not
    depleted and at least as near as any. *)
Definition nearest_so_far (px py : Q) (l : list MineralPatch)
    (acc : option (MineralPatch * Q)) : Prop :=
  match acc with
  | None => forall m, In m l -> depleted m = true
  | Some (best, d) =>
      In best l /\ depleted best = false /\
      (d == dist_sq (m_x best) (m_y best) px py)%Q /\
      forall m, In m l -> depleted m = false ->
                (d <= dist_sq (m_x m) (m_y m) px py)%Q
  end.

Lemma nearest_mineral_loop (px py : Q) (l2 l1 : list MineralPatch)
    (acc : option (MineralPatch * Q)) :
  nearest_so_far px py l1 acc ->
  nearest_so_far px py (l1 ++ l2)
    (fold_left
       (fun (acc : option (MineralPatch * Q)) m =>
          if depleted m then acc
          else
            let dist := dist_sq (m_x m) (m_y m) px py in
            match acc with
            | None => Some (m, dist)
            | Some (_, nearest_dist) =>
                if Qltb dist nearest_dist then Some (m, dist) else acc
            end)
       l2 acc).
Proof.
  revert l1 acc. induction l2 as [| m l2 IH]; intros l1 acc Hacc; simpl.
  - rewrite app_nil_r. exact Hacc.
  - replace (l1 ++ m :: l2) with ((l1 ++ [m]) ++ l2)
      by (rewrite <- app_assoc; reflexivity).
    apply IH. destruct (depleted m) eqn:Hdep.
    + destruct acc as [[best d] |]; simpl in *.
      * destruct Hacc as (Hin & Hb & Hd & Hmin).
        split; [apply in_or_app; left; exact Hin |].
        split; [exact Hb |]. split; [exact Hd |].
        intros m' Hm' Hdep'. apply in_app_or in Hm'.
        destruct Hm' as [Hm' | [<- | []]]; [apply Hmin; assumption |].
        congruence.
      * intros m' Hm'. apply in_app_or in Hm'.
        destruct Hm' as [Hm' | [<- | []]]; [apply Hacc, Hm' | exact Hdep].
    + destruct acc as [[best d] |]; simpl in *.
      * destruct Hacc as (Hin & Hb & Hd & Hmin).
        destruct (Qltb (dist_sq (m_x m) (m_y m) px py) d) eqn:Hlt; simpl.
        -- apply Qltb_lt in Hlt.
           split; [apply in_or_app; right; left; reflexivity |].
           split; [exact Hdep |]. split; [reflexivity |].
           intros m' Hm' Hdep'. apply in_app_or in Hm'.
           destruct Hm' as [Hm' | [<- | []]]; [| lra].
           specialize (Hmin m' Hm' Hdep'). lra.
        -- apply Qltb_ge in Hlt.
           split; [apply in_or_app; left; exact Hin |].
           split; [exact Hb |]. split; [exact Hd |].
           intros m' Hm' Hdep'. apply in_app_or in Hm'.
           destruct Hm' as [Hm' | [<- | []]]; [| exact Hlt].
           apply Hmin; assumption.
      * split; [apply in_or_app; right; left; reflexivity |].
        split; [exact Hdep |]. split; [reflexivity |].
        intros m' Hm' Hdep'. apply in_app_or in Hm'.
        destruct Hm' as [Hm' | [<- | []]]; [| lra].
        specialize (Hacc m' Hm'). congruence.
Qed.

(** As soon as one patch of the world is not depleted,
    [get_nearest_mineral] returns a patch of the world that is not depleted
    and at least as near to the position as any other such patch; depleted
    patches are never returned. *)
Theorem get_nearest_mineral_is_nearest
    (w : World.t) (px py : Q) (m' : MineralPatch) :
  In m' (World.minerals w) ->
  depleted m' = false ->
  exists m,
    World.get_nearest_mineral w px py = Some m /\
    In m (World.minerals w) /\ depleted m = false /\
    (dist_sq (m_x m) (m_y m) px py <= dist_sq (m_x m') (m_y m') px py)%Q.
Proof.
  intros Hin Hdep. unfold World.get_nearest_mineral.
  pose proof (nearest_mineral_loop px py (World.minerals w) [] None) as Hloop.
  simpl in Hloop. specialize (Hloop (fun m H => match H with end)).
  destruct (fold_left _ (World.minerals w) None) as [[best d] |]; simpl in *.
  - destruct Hloop as (Hb & Hbd & Hd & Hmin).
    exists best. split; [reflexivity |]. split; [exact Hb |].
    split; [exact Hbd |]. specialize (Hmin m' Hin Hdep). lra.
  - specialize (Hloop m' Hin). congruence.
Qed.

(** Three patches on a line: a full one at the origin, a depleted one at
    (3, 0) and a smaller one at (6, 0). *)
Definition patch_line_world : World.t :=
  example_world []
    [example_patch;
     {| m_id := 11; m_x := 3; m_y := 0; minerals := 0 |};
     {| m_id := 12; m_x := 6; m_y := 0; minerals := 500 |}]
    None 50.

Lemma get_nearest_mineral_is_nearest_witness :
  In example_patch (World.minerals patch_line_world) /\
  depleted example_patch = false /\
  exists m,
    World.get_nearest_mineral patch_line_world 4 0 = Some m /\
    In m (World.minerals patch_line_world) /\ depleted m = false /\
    Qle (dist_sq (m_x m) (m_y m) 4 0)
      (dist_sq (m_x example_patch) (m_y example_patch) 4 0).
Proof.
  assert (H1 : In example_patch (World.minerals patch_line_world))
    by (left; reflexivity).
  assert (H2 : depleted example_patch = false) by reflexivity.
  split; [exact H1 |]. split; [exact H2 |].
  exact (get_nearest_mineral_is_nearest patch_line_world 4 0 example_patch
           H1 H2).
Defined.

(** ** Victory (world.py) *)

Lemma get_base_check_victory (w : World.t) (tm : Z) :
  World.get_base (World.check_victory w) tm = World.get_base w tm.
Proof.
  unfold World.check_victory.
  destruct (World.get_base w 1) as [b1 |] eqn:H1.
  - destruct (negb (alive b1)); [reflexivity |].
    destruct (World.get_base w 2) as [b2 |] eqn:H2; [| reflexivity].
    destruct (negb (alive b2)); reflexivity.
  - reflexivity.
Qed.

Lemma get_base_alive (w : World.t) (tm : Z) (b : Entity) :
  World.get_base w tm = Some b -> alive b = true.
Proof.
  unfold World.get_base. intros H. apply find_some in H.
  destruct H as [_ H]. apply andb_true_iff in H. apply H.
Qed.

(** [check_victory] ends the game when a team has no living base: team 2
    wins when team 1 has none (also when neither has one), team 1 wins when
    only team 2 has none, and with both bases alive nothing changes.  The
    game never goes back to running, [game_over_time] is written only by the
    call that ends the game, the entities are not touched, and a second
    call changes nothing more. *)
Theorem check_victory_verdict (w : World.t) :
  let w' := World.check_victory w in
  (World.get_base w 1 = None ->
   World.game_over w' = true /\ World.winner w' = Some 2) /\
  (World.get_base w 1 <> None -> World.get_base w 2 = None ->
   World.game_over w' = true /\ World.winner w' = Some 1) /\
  (World.get_base w 1 <> None -> World.get_base w 2 <> None -> w' = w) /\
  (World.game_over w = true ->
   World.game_over w' = true /\
   World.game_over_time w' = World.game_over_time w) /\
  (World.game_over w = false -> World.game_over w' = true ->
   World.game_over_time w' = Some (World.game_time w)) /\
  World.entities w' = World.entities w /\
  World.check_victory w' = w'.
Proof.
  intros w'. subst w'.
  assert (Hidem : World.check_victory (World.check_victory w)
                  = World.check_victory w).
  { unfold World.check_victory at 1. rewrite !get_base_check_victory.
    unfold World.check_victory.
    destruct (World.get_base w 1) as [b1 |] eqn:H1.
    - rewrite (get_base_alive w 1 b1 H1). simpl.
      destruct (World.get_base w 2) as [b2 |] eqn:H2.
      + rewrite (get_base_alive w 2 b2 H2). reflexivity.
      + reflexivity.
    - reflexivity. }
  assert (Hrest :
    (World.get_base w 1 = None ->
     World.game_over (World.check_victory w) = true /\
     World.winner (World.check_victory w) = Some 2) /\
    (World.get_base w 1 <> None -> World.get_base w 2 = None ->
     World.game_over (World.check_victory w) = true /\
     World.winner (World.check_victory w) = Some 1) /\
    (World.get_base w 1 <> None -> World.get_base w 2 <> None ->
     World.check_victory w = w) /\
    (World.game_over w = true ->
     World.game_over (World.check_victory w) = true /\
     World.game_over_time (World.check_victory w) = World.game_over_time w) /\
    (World.game_over w = false ->
     World.game_over (World.check_victory w) = true ->
     World.game_over_time (World.check_victory w)
       = Some (World.game_time w)) /\
    World.entities (World.check_victory w) = World.entities w).
  { unfold World.check_victory.
    destruct (World.get_base w 1) as [b1 |] eqn:H1;
      [rewrite (get_base_alive w 1 b1 H1); simpl;
       destruct (World.get_base w 2) as [b2 |] eqn:H2;
       [rewrite (get_base_alive w 2 b2 H2) |] |];
      simpl; repeat split;
      try congruence; try discriminate;
      try (intros H; rewrite H; reflexivity);
      try (intros H _; rewrite H; reflexivity);
      try (match goal with
           | H : World.game_over w = _ |- _ => rewrite H; reflexivity
           end). }
  destruct Hrest as (Ha & Hb & Hc & Hd & He & Hf).
  split; [exact Ha |]. split; [exact Hb |]. split; [exact Hc |].
  split; [exact Hd |]. split; [exact He |]. split; [exact Hf | exact Hidem].
Qed.

(** ** What the fog shows (world.py) *)

Lemma grid_get_set_same {A : Type} (g : list (list A)) (gx gy : Z) (v : A) :
  is_Some (grid_get g gx gy) -> grid_get (grid_set g gx gy v) gx gy = Some v.
Proof.
  unfold grid_get, grid_set. intros [s Hs].
  destruct ((0 <=? gx) && (0 <=? gy)); [| discriminate].
  destruct (g !! Z.to_nat gy) as [row |] eqn:Hrow; simpl in Hs;
    [| discriminate].
  rewrite list_lookup_insert_eq by (apply lookup_lt_Some in Hrow; exact Hrow).
  simpl. apply list_lookup_insert_eq. apply lookup_lt_Some in Hs. exact Hs.
Qed.

Lemma grid_get_set_other {A : Type} (g : list (list A)) (wx wy cx cy : Z)
    (v : A) :
  0 <= wx -> 0 <= wy -> (cx, cy) <> (wx, wy) ->
  grid_get (grid_set g wx wy v) cx cy = grid_get g cx cy.
Proof.
  unfold grid_get, grid_set. intros Hwx Hwy Hne.
  destruct (Z.leb_spec 0 cx); [| reflexivity].
  destruct (Z.leb_spec 0 cy); [| reflexivity]. simpl.
  destruct (g !! Z.to_nat wy) as [row |] eqn:Hrow; [| reflexivity].
  destruct (decide (Z.to_nat wy = Z.to_nat cy)) as [Heq | Hny].
  - rewrite <- Heq.
    rewrite list_lookup_insert_eq by (apply lookup_lt_Some in Hrow; exact Hrow).
    rewrite Hrow. simpl. apply list_lookup_insert_ne.
    intros Hx. apply Hne. f_equal; lia.
  - rewrite list_lookup_insert_ne by exact Hny. reflexivity.
Qed.

Lemma grid_get_nonneg {A : Type} (g : list (list A)) (gx gy : Z) :
  is_Some (grid_get g gx gy) -> 0 <= gx /\ 0 <= gy.
Proof.
  unfold grid_get. destruct (Z.leb_spec 0 gx), (Z.leb_spec 0 gy); simpl;
    intros [s Hs]; try discriminate. auto.
Qed.

(** A fold reaches a property that the step for [b] establishes and that
    every step keeps, given an invariant [Q] of all steps. *)
Lemma fold_left_reaches {A B : Type} (Q P : A -> Prop) (f : A -> B -> A)
    (l : list B) (b : B) :
  (forall a b', In b' l -> Q a -> Q (f a b')) ->
  (forall a, Q a -> P (f a b)) ->
  (forall a b', In b' l -> Q a -> P a -> P (f a b')) ->
  forall a, Q a -> In b l \/ P a -> Q (fold_left f l a) /\ P (fold_left f l a).
Proof.
  induction l as [| c l IH]; intros HQ Hb HP a Ha Hor; simpl.
  - destruct Hor as [[] | Hp]. auto.
  - apply IH.
    + intros a' b' Hb'. apply HQ. right. exact Hb'.
    + exact Hb.
    + intros a' b' Hb'. apply HP. right. exact Hb'.
    + apply HQ; [left; reflexivity | exact Ha].
    + destruct Hor as [[-> | Hin] | Hp].
      * right. apply Hb, Ha.
      * left. exact Hin.
      * right. apply HP; [left; reflexivity | exact Ha | exact Hp].
Qed.

Lemma fold_left_keeps_In {A B : Type} (P : A -> Prop) (f : A -> B -> A)
    (l : list B) :
  (forall a b, In b l -> P a -> P (f a b)) ->
  forall a, P a -> P (fold_left f l a).
Proof.
  induction l as [| b l IH]; intros Hf a Ha; simpl; [exact Ha |].
  apply IH.
  - intros a' b' Hb'. apply Hf. right. exact Hb'.
  - apply Hf; [left; reflexivity | exact Ha].
Qed.

Lemma square_bound (a b v : Z) :
  0 <= v -> a * a + b * b <= v * v -> - v <= a <= v.
Proof.
  intros Hv Hsq. assert (0 <= b * b) by nia.
  split.
  - destruct (Z_le_gt_dec (- v) a); [assumption |]. nia.
  - destruct (Z_le_gt_dec a v); [assumption |]. nia.
Qed.

(** The living entity [e] sees the tile: it lies in the circle of radius
    [vision] around the tile of [e]. *)
Definition sees (e : Entity) (tx ty : Z) : Prop :=
  alive e = true /\ 0 <= vision e /\
  (tx - py_int (x e)) * (tx - py_int (x e)) +
  (ty - py_int (y e)) * (ty - py_int (y e)) <= vision e * vision e.

Section FogShows.

Variables W H : Z.
Variables tx ty : Z.
Hypothesis Htx : 0 <= tx < W.
Hypothesis Hty : 0 <= ty < H.

Lemma demote_cell_shape (g : list (list FogState)) (cx cy : Z) :
  grid_shape W H g -> grid_shape W H (FogOfWar.demote_cell g cx cy).
Proof.
  intros Hs. unfold FogOfWar.demote_cell.
  destruct (grid_get g cx cy) as [[ | | ] |]; try exact Hs.
  apply grid_shape_set, Hs.
Qed.

(** After the first loop the tile is not VISIBLE. *)
Lemma demote_all_clears (g : list (list FogState)) :
  grid_shape W H g ->
  grid_shape W H (FogOfWar.demote_all W H g) /\
  grid_get (FogOfWar.demote_all W H g) tx ty <> Some VISIBLE.
Proof.
  intros Hshape. unfold FogOfWar.demote_all.
  assert (Hkeep : forall g cx cy,
            grid_get g tx ty <> Some VISIBLE ->
            grid_get (FogOfWar.demote_cell g cx cy) tx ty <> Some VISIBLE).
  { intros g' cx cy Hn. unfold FogOfWar.demote_cell.
    destruct (grid_get g' cx cy) as [[ | | ] |] eqn:Hc; try exact Hn.
    destruct (grid_get_nonneg g' cx cy ltac:(rewrite Hc; eauto)) as [Hx Hy].
    destruct (decide ((tx, ty) = (cx, cy))) as [[= -> ->] | Hne].
    - rewrite grid_get_set_same by (rewrite Hc; eauto). discriminate.
    - rewrite grid_get_set_other by assumption. exact Hn. }
  apply (fold_left_reaches (grid_shape W H)
           (fun g => grid_get g tx ty <> Some VISIBLE) _ _ ty).
  - intros g' cy _ Hs. apply fold_left_keeps; [| exact Hs].
    intros g'' cx. apply demote_cell_shape.
  - intros g' Hs.
    apply (fold_left_reaches (grid_shape W H)
             (fun g => grid_get g tx ty <> Some VISIBLE) _ _ tx).
    + intros g'' cx _. apply demote_cell_shape.
    + intros g'' Hs'. unfold FogOfWar.demote_cell.
      destruct (grid_get g'' tx ty) as [[ | | ] |] eqn:Hc;
        try (rewrite Hc; discriminate).
      rewrite grid_get_set_same by (rewrite Hc; eauto). discriminate.
    + intros g'' cx _ _. apply Hkeep.
    + exact Hs.
    + left. apply py_range_In. lia.
  - intros g' cy _ Hs Hn. apply fold_left_keeps; [| exact Hn].
    intros g'' cx. apply Hkeep.
  - exact Hshape.
  - left. apply py_range_In. lia.
Qed.

Lemma reveal_cell_shape (vis cx cy dx dy : Z)
    (acc : list (list FogState) * gset Tile) :
  grid_shape W H (fst acc) ->
  grid_shape W H (fst (FogOfWar.reveal_cell W H vis cx cy dx dy acc)).
Proof.
  destruct acc as [g nv]. simpl. intros Hs. unfold FogOfWar.reveal_cell.
  destruct (dx * dx + dy * dy <=? vis * vis); [| exact Hs].
  destruct ((0 <=? cx + dx) && (cx + dx <? W) && (0 <=? cy + dy) &&
            (cy + dy <? H)); [| exact Hs].
  destruct (grid_get g (cx + dx) (cy + dy)) as [[ | | ] |]; simpl;
    try exact Hs; apply grid_shape_set, Hs.
Qed.

Lemma reveal_entity_shape (acc : list (list FogState) * gset Tile)
    (e : Entity) :
  grid_shape W H (fst acc) ->
  grid_shape W H (fst (FogOfWar.reveal_entity W H acc e)).
Proof.
  intros Hs. unfold FogOfWar.reveal_entity.
  destruct (negb (alive e)); [exact Hs |].
  apply (fold_left_keeps (fun acc => grid_shape W H (fst acc))); [| exact Hs].
  intros acc1 dy Hs1.
  apply (fold_left_keeps (fun acc => grid_shape W H (fst acc))); [| exact Hs1].
  intros acc2 dx. apply reveal_cell_shape.
Qed.

(** A revealed tile stays VISIBLE for the rest of the call. *)
Lemma reveal_cell_keeps_visible (vis cx cy dx dy : Z)
    (acc : list (list FogState) * gset Tile) :
  grid_get (fst acc) tx ty = Some VISIBLE ->
  grid_get (fst (FogOfWar.reveal_cell W H vis cx cy dx dy acc)) tx ty
    = Some VISIBLE.
Proof.
  destruct acc as [g nv]. simpl. intros Hv. unfold FogOfWar.reveal_cell.
  destruct (dx * dx + dy * dy <=? vis * vis); [| exact Hv].
  destruct ((0 <=? cx + dx) && (cx + dx <? W) && (0 <=? cy + dy) &&
            (cy + dy <? H)) eqn:Hb; [| exact Hv].
  assert (0 <= cx + dx /\ 0 <= cy + dy) as [Hx Hy] by lia.
  destruct (grid_get g (cx + dx) (cy + dy)) as [[ | | ] |] eqn:Hc; simpl;
    try exact Hv;
    (destruct (decide ((tx, ty) = (cx + dx, cy + dy))) as [[= -> ->] | Hne];
     [apply grid_get_set_same; rewrite Hc; eauto
     | rewrite grid_get_set_other by assumption; exact Hv]).
Qed.

Lemma reveal_entity_keeps_visible (acc : list (list FogState) * gset Tile)
    (e : Entity) :
  grid_get (fst acc) tx ty = Some VISIBLE ->
  grid_get (fst (FogOfWar.reveal_entity W H acc e)) tx ty = Some VISIBLE.
Proof.
  intros Hv. unfold FogOfWar.reveal_entity.
  destruct (negb (alive e)); [exact Hv |].
  apply (fold_left_keeps
           (fun acc => grid_get (fst acc) tx ty = Some VISIBLE)); [| exact Hv].
  intros acc1 dy Hv1.
  apply (fold_left_keeps
           (fun acc => grid_get (fst acc) tx ty = Some VISIBLE)); [| exact Hv1].
  intros acc2 dx. apply reveal_cell_keeps_visible.
Qed.

(** An entity that sees the tile reveals it. *)
Lemma reveal_entity_reveals (acc : list (list FogState) * gset Tile)
    (e : Entity) :
  sees e tx ty ->
  grid_shape W H (fst acc) ->
  grid_get (fst (FogOfWar.reveal_entity W H acc e)) tx ty = Some VISIBLE.
Proof.
  intros (Halive & Hvis & Hin) Hshape. unfold FogOfWar.reveal_entity.
  rewrite Halive. simpl.
  set (cx := py_int (x e)) in *. set (cy := py_int (y e)) in *.
  set (vis := vision e) in *.
  assert (Hdx : - vis <= tx - cx <= vis)
    by (apply (square_bound _ (ty - cy)); [exact Hvis | exact Hin]).
  assert (Hdy : - vis <= ty - cy <= vis)
    by (apply (square_bound _ (tx - cx)); [exact Hvis | lia]).
  apply (fold_left_reaches (fun acc => grid_shape W H (fst acc))
           (fun acc => grid_get (fst acc) tx ty = Some VISIBLE) _ _ (ty - cy)).
  - intros acc1 dy _ Hs1.
    apply (fold_left_keeps (fun acc => grid_shape W H (fst acc)));
      [| exact Hs1].
    intros acc2 dx. apply reveal_cell_shape.
  - intros acc1 Hs1.
    apply (fold_left_reaches (fun acc => grid_shape W H (fst acc))
             (fun acc => grid_get (fst acc) tx ty = Some VISIBLE) _ _
             (tx - cx)).
    + intros acc2 dx _. apply reveal_cell_shape.
    + intros [g nv] Hs2. simpl in Hs2. unfold FogOfWar.reveal_cell.
      destruct (Z.leb_spec ((tx - cx) * (tx - cx) + (ty - cy) * (ty - cy))
                  (vis * vis)); [| lia].
      replace (cx + (tx - cx)) with tx by lia.
      replace (cy + (ty - cy)) with ty by lia.
      destruct (Z.leb_spec 0 tx); [| lia]. destruct (Z.ltb_spec tx W); [| lia].
      destruct (Z.leb_spec 0 ty); [| lia]. destruct (Z.ltb_spec ty H); [| lia].
      simpl.
      destruct (grid_shape_get W H g tx ty Hs2 Htx Hty) as [s Hs].
      rewrite Hs. destruct s; simpl;
        try (apply grid_get_set_same; rewrite Hs; eauto). exact Hs.
    + intros acc2 dx _ _. apply reveal_cell_keeps_visible.
    + exact Hs1.
    + left. apply py_range_In. lia.
  - intros acc1 dy _ _ Hv.
    apply (fold_left_keeps
             (fun acc => grid_get (fst acc) tx ty = Some VISIBLE));
      [| exact Hv].
    intros acc2 dx. apply reveal_cell_keeps_visible.
  - exact Hshape.
  - left. apply py_range_In. lia.
Qed.

(** A tile that becomes VISIBLE is seen by the entity at work. *)
Lemma reveal_entity_sound (ents : list Entity)
    (acc : list (list FogState) * gset Tile) (e : Entity) :
  In e ents ->
  (grid_get (fst acc) tx ty = Some VISIBLE -> exists e', In e' ents /\ sees e' tx ty) ->
  grid_get (fst (FogOfWar.reveal_entity W H acc e)) tx ty = Some VISIBLE ->
  exists e', In e' ents /\ sees e' tx ty.
Proof.
  intros He. unfold FogOfWar.reveal_entity.
  destruct (alive e) eqn:Halive; simpl; [| auto].
  set (cx := py_int (x e)). set (cy := py_int (y e)). set (vis := vision e).
  apply (fold_left_keeps_In
           (fun acc => grid_get (fst acc) tx ty = Some VISIBLE ->
                       exists e', In e' ents /\ sees e' tx ty)).
  intros acc1 dy Hdy.
  apply (fold_left_keeps_In
           (fun acc => grid_get (fst acc) tx ty = Some VISIBLE ->
                       exists e', In e' ents /\ sees e' tx ty)).
  intros [g nv] dx Hdx Hold. simpl in Hold. unfold FogOfWar.reveal_cell.
  apply py_range_In in Hdy. apply py_range_In in Hdx.
  destruct (Z.leb_spec (dx * dx + dy * dy) (vis * vis)); [| exact Hold].
  destruct ((0 <=? cx + dx) && (cx + dx <? W) && (0 <=? cy + dy) &&
            (cy + dy <? H)) eqn:Hb; [| exact Hold].
  assert (0 <= cx + dx /\ 0 <= cy + dy) as [Hx Hy] by lia.
  destruct (grid_get g (cx + dx) (cy + dy)) as [[ | | ] |] eqn:Hc; simpl;
    try exact Hold;
    (destruct (decide ((tx, ty) = (cx + dx, cy + dy))) as [[= Hex Hey] | Hne];
     [intros _; exists e; split; [exact He |];
      split; [exact Halive |]; split; [fold vis; lia |];
      fold cx cy vis; replace (tx - cx) with dx by lia;
      replace (ty - cy) with dy by lia; lia
     | rewrite grid_get_set_other by assumption; exact Hold]).
Qed.

End FogShows.

(** After [update_visibility] a tile of the grid is VISIBLE exactly when a
    living entity of the list sees it, that is when the tile lies within the
    circle of radius [vision] around the tile of the entity; what was
    VISIBLE before and is seen by nobody now is not VISIBLE any more. *)
Theorem visible_exactly_when_seen
    (f : FogOfWar.t) (ents : list Entity) (tx ty : Z) :
  FogOfWar.wf f ->
  0 <= tx < FogOfWar.width f ->
  0 <= ty < FogOfWar.height f ->
  FogOfWar.is_visible (fst (FogOfWar.update_visibility f ents)) tx ty = true
  <-> exists e, In e ents /\ sees e tx ty.
Proof.
  intros (_ & _ & Hlen & Hrows) Htx Hty.
  set (W := FogOfWar.width f) in *. set (H := FogOfWar.height f) in *.
  assert (Hshape : grid_shape W H (FogOfWar.grid f)) by (split; assumption).
  destruct (demote_all_clears W H tx ty Htx Hty _ Hshape) as [Hs0 Hclear].
  unfold FogOfWar.update_visibility. fold W H.
  set (g0 := FogOfWar.demote_all W H (FogOfWar.grid f)) in *.
  destruct (fold_left (FogOfWar.reveal_entity W H) ents (g0, ∅))
    as [g1 nv] eqn:Hfold.
  unfold FogOfWar.is_visible. simpl. fold W H.
  destruct (Z.leb_spec 0 tx); [| lia]. destruct (Z.ltb_spec tx W); [| lia].
  destruct (Z.leb_spec 0 ty); [| lia]. destruct (Z.ltb_spec ty H); [| lia].
  simpl. split.
  - intros Hvis.
    assert (Hg1 : grid_get g1 tx ty = Some VISIBLE).
    { destruct (grid_get g1 tx ty) as [[ | | ] |]; try discriminate.
      reflexivity. }
    pose proof (fold_left_keeps_In
                  (fun acc => grid_get (fst acc) tx ty = Some VISIBLE ->
                              exists e, In e ents /\ sees e tx ty)
                  (FogOfWar.reveal_entity W H) ents
                  (fun acc e He => reveal_entity_sound W H tx ty ents acc e He)
                  (g0, ∅) (fun Hv => False_ind _ (Hclear Hv))) as Hsound.
    rewrite Hfold in Hsound. apply Hsound. exact Hg1.
  - intros (e & He & Hsees).
    pose proof (fold_left_reaches (fun acc => grid_shape W H (fst acc))
                  (fun acc => grid_get (fst acc) tx ty = Some VISIBLE)
                  (FogOfWar.reveal_entity W H) ents e
                  (fun acc e' _ => reveal_entity_shape W H acc e')
                  (fun acc => reveal_entity_reveals W H tx ty Htx Hty acc e Hsees)
                  (fun acc e' _ _ => reveal_entity_keeps_visible W H tx ty Htx Hty acc e')
                  (g0, ∅) Hs0 (or_introl He)) as Hreach.
    rewrite Hfold in Hreach. destruct Hreach as [_ Hv]. simpl in Hv.
    rewrite Hv. reflexivity.
Qed.

Lemma visible_exactly_when_seen_witness :
  FogOfWar.wf (FogOfWar.init 12 12) /\
  0 <= 3 < FogOfWar.width (FogOfWar.init 12 12) /\
  0 <= 3 < FogOfWar.height (FogOfWar.init 12 12) /\
  (FogOfWar.is_visible
     (fst (FogOfWar.update_visibility (FogOfWar.init 12 12) (scout_at 2 2)))
     3 3 = true
   <-> exists e, In e (scout_at 2 2) /\ sees e 3 3).
Proof.
  assert (H0 : FogOfWar.wf (FogOfWar.init 12 12))
    by (apply fog_init_wf; lia).
  assert (H1 : 0 <= 3 < FogOfWar.width (FogOfWar.init 12 12))
    by (simpl; lia).
  assert (H2 : 0 <= 3 < FogOfWar.height (FogOfWar.init 12 12))
    by (simpl; lia).
  split; [exact H0 |]. split; [exact H1 |]. split; [exact H2 |].
  exact (visible_exactly_when_seen (FogOfWar.init 12 12) (scout_at 2 2) 3 3
           H0 H1 H2).
Defined.

(** ** The newly revealed tiles *)

(** [g'] is [g] after some cells went from VISIBLE to EXPLORED. *)
Definition demoted (g g' : list (list FogState)) : Prop :=
  forall cx cy s',
    grid_get g' cx cy = Some s' ->
    grid_get g cx cy = Some s' \/
    (s' = EXPLORED /\ grid_get g cx cy = Some VISIBLE).

Lemma demoted_refl (g : list (list FogState)) : demoted g g.
Proof. intros cx cy s' Hs. left. exact Hs. Qed.

Lemma demoted_trans (g1 g2 g3 : list (list FogState)) :
  demoted g1 g2 -> demoted g2 g3 -> demoted g1 g3.
Proof.
  intros H12 H23 cx cy s' Hs.
  destruct (H23 cx cy s' Hs) as [H2 | [-> H2]].
  - apply H12, H2.
  - destruct (H12 cx cy VISIBLE H2) as [H1 | [Hd _]]; [| discriminate].
    right. split; [reflexivity | exact H1].
Qed.

Lemma demote_cell_demoted (g : list (list FogState)) (wx wy : Z) :
  demoted g (FogOfWar.demote_cell g wx wy).
Proof.
  unfold FogOfWar.demote_cell.
  destruct (grid_get g wx wy) as [[ | | ] |] eqn:Hw; try apply demoted_refl.
  destruct (grid_get_nonneg g wx wy ltac:(rewrite Hw; eauto)) as [Hx Hy].
  intros cx cy s' Hs.
  destruct (decide ((cx, cy) = (wx, wy))) as [[= -> ->] | Hne].
  - rewrite grid_get_set_same in Hs by (rewrite Hw; eauto).
    injection Hs as <-. right. split; [reflexivity | exact Hw].
  - rewrite grid_get_set_other in Hs by assumption. left. exact Hs.
Qed.

Lemma demote_all_demoted (w h : Z) (g : list (list FogState)) :
  demoted g (FogOfWar.demote_all w h g).
Proof.
  unfold FogOfWar.demote_all.
  apply (fold_left_keeps (fun g' => demoted g g')); [| apply demoted_refl].
  intros g1 cy H1.
  apply (fold_left_keeps (fun g' => demoted g g')); [| exact H1].
  intros g2 cx H2. eapply demoted_trans; [exact H2 |].
  apply demote_cell_demoted.
Qed.

(** What the second loop keeps, for the grid [orig] at the start of the
    call: a cell that is still HIDDEN was HIDDEN, a cell that is EXPLORED
    was not, and [newly_visible] holds the cells that were HIDDEN and are
    VISIBLE. *)
Definition first_seen (orig : list (list FogState))
    (acc : list (list FogState) * gset Tile) : Prop :=
  forall cx cy,
    (grid_get (fst acc) cx cy = Some HIDDEN ->
     grid_get orig cx cy = Some HIDDEN) /\
    (grid_get (fst acc) cx cy = Some EXPLORED ->
     grid_get orig cx cy <> Some HIDDEN) /\
    ((cx, cy) ∈ snd acc <->
     grid_get orig cx cy = Some HIDDEN /\
     grid_get (fst acc) cx cy = Some VISIBLE).

Lemma reveal_cell_first_seen (orig : list (list FogState))
    (w h vis cx cy dx dy : Z) (acc : list (list FogState) * gset Tile) :
  first_seen orig acc ->
  first_seen orig (FogOfWar.reveal_cell w h vis cx cy dx dy acc).
Proof.
  destruct acc as [g nv]. intros Hinv. unfold FogOfWar.reveal_cell.
  destruct (dx * dx + dy * dy <=? vis * vis); [| exact Hinv].
  destruct ((0 <=? cx + dx) && (cx + dx <? w) && (0 <=? cy + dy) &&
            (cy + dy <? h)) eqn:Hb; [| exact Hinv].
  assert (0 <= cx + dx /\ 0 <= cy + dy) as [Hx Hy] by lia.
  set (nx := cx + dx) in *. set (ny := cy + dy) in *.
  destruct (grid_get g nx ny) as [[ | | ] |] eqn:Hc; try exact Hinv.
  - intros tx ty. simpl. destruct (Hinv tx ty) as (H1 & H2 & H3).
    simpl in H1, H2, H3.
    destruct (decide ((tx, ty) = (nx, ny))) as [[= -> ->] | Hne].
    + rewrite grid_get_set_same by (rewrite Hc; eauto).
      split; [discriminate |]. split; [discriminate |].
      split; [intros _; auto |].
      intros _. apply elem_of_union. left. apply elem_of_singleton.
      reflexivity.
    + rewrite grid_get_set_other by assumption.
      split; [exact H1 |]. split; [exact H2 |].
      rewrite <- H3. rewrite elem_of_union, elem_of_singleton. tauto.
  - intros tx ty. simpl. destruct (Hinv tx ty) as (H1 & H2 & H3).
    simpl in H1, H2, H3.
    destruct (decide ((tx, ty) = (nx, ny))) as [[= -> ->] | Hne].
    + rewrite grid_get_set_same by (rewrite Hc; eauto).
      split; [discriminate |]. split; [discriminate |].
      split.
      * intros Hin. apply H3 in Hin. destruct Hin as [_ Hv]. congruence.
      * intros [Ho _]. destruct (H2 Hc Ho).
    + rewrite grid_get_set_other by assumption. auto.
Qed.

Lemma reveal_entity_first_seen (orig : list (list FogState)) (w h : Z)
    (acc : list (list FogState) * gset Tile) (e : Entity) :
  first_seen orig acc ->
  first_seen orig (FogOfWar.reveal_entity w h acc e).
Proof.
  intros Hinv. unfold FogOfWar.reveal_entity.
  destruct (negb (alive e)); [exact Hinv |].
  apply (fold_left_keeps (first_seen orig)); [| exact Hinv].
  intros acc1 dy H1.
  apply (fold_left_keeps (first_seen orig)); [| exact H1].
  intros acc2 dx. apply reveal_cell_first_seen.
Qed.

(** The set that [update_visibility] returns holds exactly the tiles that
    were HIDDEN before the call and are VISIBLE after it; a tile that was
    only EXPLORED is not reported again. *)
Theorem newly_visible_are_first_seen
    (f : FogOfWar.t) (ents : list Entity) (tx ty : Z) :
  FogOfWar.wf f ->
  (tx, ty) ∈ snd (FogOfWar.update_visibility f ents) <->
  grid_get (FogOfWar.grid f) tx ty = Some HIDDEN /\
  grid_get (FogOfWar.grid (fst (FogOfWar.update_visibility f ents))) tx ty
    = Some VISIBLE.
Proof.
  intros _. unfold FogOfWar.update_visibility.
  set (g0 := FogOfWar.demote_all (FogOfWar.width f) (FogOfWar.height f)
               (FogOfWar.grid f)).
  assert (Hinit : first_seen (FogOfWar.grid f) (g0, ∅)).
  { pose proof (demote_all_demoted (FogOfWar.width f) (FogOfWar.height f)
                  (FogOfWar.grid f)) as Hd. fold g0 in Hd.
    intros cx cy. simpl. split; [| split].
    - intros Hh. destruct (Hd cx cy HIDDEN Hh) as [Ho | [Hx _]];
        [exact Ho | discriminate].
    - intros He Ho. destruct (Hd cx cy EXPLORED He) as [Ho' | [_ Ho']];
        congruence.
    - split; [intros Hin; apply elem_of_empty in Hin; destruct Hin |].
      intros [Ho Hv].
      destruct (Hd cx cy VISIBLE Hv) as [Ho' | [Hx _]];
        [congruence | discriminate]. }
  pose proof (fold_left_keeps (first_seen (FogOfWar.grid f))
                (FogOfWar.reveal_entity (FogOfWar.width f) (FogOfWar.height f))
                ents (g0, ∅)
                (fun acc e => reveal_entity_first_seen _ _ _ acc e) Hinit)
    as Hend.
  destruct (fold_left _ ents (g0, ∅)) as [g1 nv]. simpl.
  destruct (Hend tx ty) as (_ & _ & H3). exact H3.
Qed.

Lemma newly_visible_are_first_seen_witness :
  FogOfWar.wf (FogOfWar.init 12 12) /\
  ((3, 3) ∈ snd (FogOfWar.update_visibility (FogOfWar.init 12 12)
                   (scout_at 2 2)) <->
   grid_get (FogOfWar.grid (FogOfWar.init 12 12)) 3 3 = Some HIDDEN /\
   grid_get
     (FogOfWar.grid
        (fst (FogOfWar.update_visibility (FogOfWar.init 12 12)
                (scout_at 2 2)))) 3 3
     = Some VISIBLE).
Proof.
  assert (H0 : FogOfWar.wf (FogOfWar.init 12 12))
    by (apply fog_init_wf; lia).
  split; [exact H0 |].
  exact (newly_visible_are_first_seen (FogOfWar.init 12 12) (scout_at 2 2)
           3 3 H0).
Defined.

(** ** The resource system creates no minerals (systems.py) *)

Definition sum_of {A : Type} (f : A -> Z) (l : list A) : Z :=
  fold_right (fun a acc => f a + acc) 0 l.

(** What an entity carries: [carrying] for a worker, nothing otherwise. *)
Definition carried (e : Entity) : Z :=
  match worker_data e with
  | Some wd => carrying wd
  | None => 0
  end.

(** The sum of the team totals. *)
Definition banked (tm : gmap Z Z) : Z :=
  map_fold (fun _ v acc => v + acc) 0 tm.

(** All the minerals of a world: in the patches, on the workers and in the
    team totals. *)
Definition mineral_stock (w : World.t) : Z :=
  sum_of minerals (World.minerals w) + sum_of carried (World.entities w) +
  banked (World.team_minerals w).

Lemma sum_of_dict_set {A : Type} (key : A -> Z) (f : A -> Z) (a old : A)
    (d : list A) :
  dict_get key (key a) d = Some old ->
  sum_of f (dict_set key a d) = sum_of f d - f old + f a.
Proof.
  induction d as [| b d IH]; simpl; [discriminate |].
  destruct (key b =? key a).
  - intros [= ->]. simpl. lia.
  - intros Hold. simpl. rewrite (IH Hold). lia.
Qed.

Lemma banked_insert (tm : gmap Z Z) (k v v' : Z) :
  tm !! k = Some v -> banked (<[k := v']> tm) = banked tm - v + v'.
Proof.
  intros Hk. unfold banked.
  rewrite <- (insert_delete_id tm k v Hk) at 2.
  rewrite <- (insert_delete_eq tm k v').
  rewrite !map_fold_insert_L;
    [lia | intros; lia | apply lookup_delete_eq
    | intros; lia | apply lookup_delete_eq].
Qed.

(** The worker [worker] of the table is replaced by [worker']. *)
Lemma stock_put_entity (w : World.t) (worker worker' : Entity) :
  World.get_entity w (id worker') = Some worker ->
  mineral_stock (World.put_entity worker' w) =
  mineral_stock w - carried worker + carried worker'.
Proof.
  intros Hget. unfold mineral_stock. simpl.
  rewrite (sum_of_dict_set id carried worker' worker) by exact Hget. lia.
Qed.

Lemma stock_put_mineral (w : World.t) (p p' : MineralPatch) :
  World.get_mineral w (m_id p') = Some p ->
  mineral_stock (World.put_mineral p' w) =
  mineral_stock w - minerals p + minerals p'.
Proof.
  intros Hget. unfold mineral_stock. simpl.
  rewrite (sum_of_dict_set m_id minerals p' p) by exact Hget. lia.
Qed.

Lemma stock_set_team_minerals (w : World.t) (k v v' : Z) :
  World.team_minerals w !! k = Some v ->
  mineral_stock (World.set_team_minerals (<[k := v']> (World.team_minerals w)) w)
  = mineral_stock w - v + v'.
Proof.
  intros Hk. unfold mineral_stock. simpl. rewrite (banked_insert _ _ _ _ Hk).
  lia.
Qed.

(** One visit of the loop of [ResourceSystem.update] does not raise the
    stock, when no worker carries a negative amount. *)
Lemma resource_visit_stock (dt : Q) (eid : Z)
    (s s' : ResourceSystem.LoopState) :
  ResourceSystem.update_entity dt eid s = Some s' ->
  carrying_nonneg (snd (fst s)) ->
  mineral_stock (snd (fst s')) <= mineral_stock (snd (fst s)).
Proof.
  destruct s as [[rs w] bus]. unfold ResourceSystem.update_entity.
  destruct (World.get_entity w eid) as [worker |] eqn:Hget;
    [| intros [= <-]; simpl; lia].
  destruct (worker_data worker) as [wd |] eqn:Hwd;
    [| intros [= <-]; simpl; lia].
  destruct (alive worker); [| intros [= <-]; simpl; lia].
  pose proof (dict_get_Some _ _ _ _ Hget) as [Hin Hid].
  intros Hrun Hcarry. simpl in Hcarry |- *.
  assert (Hc : 0 <= carrying wd) by (eapply Hcarry; eassumption).
  assert (Hrec : forall (e' : Entity) (w1 : World.t) (wd' : WorkerData),
             id e' = eid ->
             World.entities w1 = World.entities w ->
             worker_data e' = Some wd' ->
             mineral_stock (World.put_entity e' w1)
             = mineral_stock w1 - carrying wd + carrying wd').
  { intros e' w1 wd' He' Hw1 Hwd'.
    rewrite (stock_put_entity w1 worker).
    - unfold carried. rewrite Hwd, Hwd'. reflexivity.
    - unfold World.get_entity. rewrite Hw1, He'. exact Hget. }
  revert Hrun. unfold ResourceSystem._process_worker.
  destruct (World.get_base w (team worker)) as [base |];
    [| intros [= <-]; simpl; lia].
  unfold ResourceSystem.target_patch.
  unfold worker_data in Hwd.
  destruct worker as [wid wteam wx wy whp wmax walive wbody].
  simpl in Hwd, Hid. subst wid.
  destruct wbody as [u wd0 | | |]; try discriminate.
  injection Hwd as ->.
  destruct (gather_target wd) as [mid |] eqn:Hgt; simpl.
  - destruct (World.get_mineral w mid) as [p |] eqn:Hp; simpl;
      [| discriminate].
    pose proof (dict_get_Some _ _ _ _ Hp) as [_ Hmid].
    destruct (state wd).
    + intros [= <-]. unfold map_worker, map_unit, set_body. simpl.
      erewrite Hrec by reflexivity. simpl. lia.
    + destruct (depleted p).
      * intros [= <-]. unfold map_worker, map_unit, set_body. simpl.
        erewrite Hrec by reflexivity. simpl. lia.
      * destruct (Qltb _ _); intros [= <-]; simpl; [| lia].
        unfold map_worker, map_unit, set_body. simpl.
        erewrite Hrec by reflexivity. simpl. lia.
    + destruct (depleted p) eqn:Hdep.
      * intros [= <-]. unfold map_worker, map_unit, set_body. simpl.
        erewrite Hrec by reflexivity. simpl. lia.
      * destruct (Qleb _ _); intros [= <-]; simpl; [| lia].
        unfold map_worker, map_unit, set_body. simpl.
        erewrite Hrec by reflexivity. simpl.
        rewrite (stock_put_mineral w p) by (simpl; rewrite Hmid; exact Hp).
        simpl. lia.
    + destruct (Qltb _ 2.0); [| intros [= <-]; simpl; lia].
      simpl.
      destruct (World.team_minerals w !! wteam) as [cur |] eqn:Hcur;
        simpl; [| discriminate].
      destruct (negb (depleted p)); intros [= <-];
        unfold map_worker, map_unit, set_body; simpl;
        erewrite Hrec by reflexivity; simpl;
        rewrite (stock_set_team_minerals w _ cur) by exact Hcur; lia.
    + intros [= <-]. simpl. lia.
  - destruct (state wd).
    + destruct (0 <? carrying wd); intros [= <-]; simpl; [| lia].
      unfold map_worker, map_unit, set_body. simpl.
      erewrite Hrec by reflexivity. simpl. lia.
    + intros [= <-]. unfold map_worker, map_unit, set_body. simpl.
      erewrite Hrec by reflexivity. simpl. lia.
    + intros [= <-]. unfold map_worker, map_unit, set_body. simpl.
      erewrite Hrec by reflexivity. simpl. lia.
    + destruct (Qltb _ 2.0); [| intros [= <-]; simpl; lia].
      simpl.
      destruct (World.team_minerals w !! wteam) as [cur |] eqn:Hcur;
        simpl; [| discriminate].
      intros [= <-]. unfold map_worker, map_unit, set_body. simpl.
      erewrite Hrec by reflexivity. simpl.
      rewrite (stock_set_team_minerals w _ cur) by exact Hcur. lia.
    + intros [= <-]. simpl. lia.
Qed.

(** [ResourceSystem.update] creates no minerals: when no worker carries a
    negative amount, the minerals in the patches, on the workers and in the
    team totals together do not increase, and afterwards still no worker
    carries a negative amount.  (What a gathering worker already carried is
    overwritten by the new load, so the stock can shrink.) *)
Theorem resource_system_creates_no_minerals
    (dt : Q) (rs rs' : ResourceSystem.t) (w w' : World.t)
    (bus bus' : EventBus) :
  carrying_nonneg w ->
  ResourceSystem.update dt rs w bus = Some (rs', w', bus') ->
  mineral_stock w' <= mineral_stock w /\ carrying_nonneg w'.
Proof.
  intros Hcarry Hrun. unfold ResourceSystem.update in Hrun.
  pose proof (for_each_id_preorder
                (fun s s' : ResourceSystem.LoopState =>
                   carrying_nonneg (snd (fst s)) ->
                   carrying_nonneg (snd (fst s')) /\
                   mineral_stock (snd (fst s')) <= mineral_stock (snd (fst s)))
                (ResourceSystem.update_entity dt) (entity_ids w)
                (rs, w, bus) (rs', w', bus')) as Hloop.
  simpl in Hloop. destruct Hloop as [Hc' Hle]; try assumption.
  - intros s Hs. split; [exact Hs | lia].
  - intros s1 s2 s3 H12 H23 H1. destruct (H12 H1) as [H2 Hle12].
    destruct (H23 H2) as [H3 Hle23]. split; [exact H3 | lia].
  - intros i s s' Hvisit Hs. split.
    + apply (resource_visit_kept ∅ ∅ dt i s s' Hvisit Hs).
    + apply (resource_visit_stock dt i s s' Hvisit Hs).
  - split; assumption.
Qed.

Lemma resource_system_creates_no_minerals_witness :
  carrying_nonneg (mining_world (1, 0)%Q) /\
  exists rs' w' bus',
    ResourceSystem.update (1 # 30) ResourceSystem.init
      (mining_world (1, 0)%Q) [] = Some (rs', w', bus') /\
    mineral_stock w' <= mineral_stock (mining_world (1, 0)%Q) /\
    carrying_nonneg w'.
Proof.
  assert (H0 : carrying_nonneg (mining_world (1, 0)%Q)).
  { intros e wd [<- | [<- | []]] Hwd; simpl in Hwd; [discriminate |].
    injection Hwd as <-. simpl. lia. }
  split; [exact H0 |].
  destruct (ResourceSystem.update (1 # 30) ResourceSystem.init
              (mining_world (1, 0)%Q) []) as [[[rs' w'] bus'] |] eqn:Hrun;
    [| vm_compute in Hrun; discriminate].
  exists rs', w', bus'. split; [reflexivity |].
  exact (resource_system_creates_no_minerals (1 # 30) ResourceSystem.init rs'
           (mining_world (1, 0)%Q) w' [] bus' H0 Hrun).
Defined.

(** ** Patches are never overdrawn *)

(** The patch [p'] is the patch [p] with, if [p] was not in debt, a content
    between zero and that of [p]. *)
Definition patch_shrunk (p p' : MineralPatch) : Prop :=
  m_id p' = m_id p /\ m_pos p' = m_pos p /\
  (0 <= minerals p -> 0 <= minerals p' <= minerals p).

Definition patches_shrunk (w w' : World.t) : Prop :=
  Forall2 patch_shrunk (World.minerals w) (World.minerals w').

Lemma patch_shrunk_refl (p : MineralPatch) : patch_shrunk p p.
Proof. repeat split; lia. Qed.

Lemma patches_shrunk_refl (w : World.t) : patches_shrunk w w.
Proof.
  unfold patches_shrunk. induction (World.minerals w); constructor;
    [apply patch_shrunk_refl | assumption].
Qed.

Lemma patches_shrunk_trans (w1 w2 w3 : World.t) :
  patches_shrunk w1 w2 -> patches_shrunk w2 w3 -> patches_shrunk w1 w3.
Proof.
  unfold patches_shrunk. generalize (World.minerals w1) (World.minerals w2)
    (World.minerals w3).
  intros l1 l2 l3 H12. revert l3.
  induction H12 as [| p1 p2 l1 l2 Hp H12 IH]; intros l3 H23;
    inversion H23 as [| p2' p3 l2' l3' Hp' H23' ]; subst; constructor.
  - destruct Hp as (Hi & Hq & Hm), Hp' as (Hi' & Hq' & Hm').
    split; [congruence |]. split; [congruence |].
    intros H0. specialize (Hm H0). specialize (Hm' ltac:(lia)). lia.
  - apply IH. assumption.
Qed.

Lemma dict_set_shrunk (p p' : MineralPatch) (d : list MineralPatch) :
  dict_get m_id (m_id p') d = Some p -> patch_shrunk p p' ->
  Forall2 patch_shrunk d (dict_set m_id p' d).
Proof.
  intros Hget Hp. induction d as [| q d IH]; simpl in *; [discriminate |].
  destruct (m_id q =? m_id p').
  - injection Hget as ->. constructor; [exact Hp |].
    clear. induction d; constructor; [apply patch_shrunk_refl | assumption].
  - constructor; [apply patch_shrunk_refl | apply IH, Hget].
Qed.

Lemma resource_visit_patches (dt : Q) (eid : Z)
    (s s' : ResourceSystem.LoopState) :
  ResourceSystem.update_entity dt eid s = Some s' ->
  patches_shrunk (snd (fst s)) (snd (fst s')).
Proof.
  destruct s as [[rs w] bus]. unfold ResourceSystem.update_entity.
  destruct (World.get_entity w eid) as [worker |];
    [| intros [= <-]; apply patches_shrunk_refl].
  destruct (worker_data worker) as [wd |];
    [| intros [= <-]; apply patches_shrunk_refl].
  destruct (alive worker); [| intros [= <-]; apply patches_shrunk_refl].
  unfold ResourceSystem._process_worker.
  destruct (World.get_base w (team worker)) as [base |];
    [| intros [= <-]; apply patches_shrunk_refl].
  unfold ResourceSystem.target_patch.
  assert (Hput : forall e w1,
             World.minerals w1 = World.minerals w ->
             patches_shrunk w (World.put_entity e w1)).
  { intros e w1 Hw1. unfold patches_shrunk. simpl. rewrite Hw1.
    apply (patches_shrunk_refl w). }
  destruct (gather_target wd) as [mid |]; simpl.
  - destruct (World.get_mineral w mid) as [p |] eqn:Hp; simpl;
      [| discriminate].
    pose proof (dict_get_Some _ _ _ _ Hp) as [_ Hmid].
    destruct (state wd).
    + intros [= <-]. apply Hput. reflexivity.
    + destruct (depleted p).
      * intros [= <-]. apply Hput. reflexivity.
      * destruct (Qltb _ _); intros [= <-];
          [apply Hput; reflexivity | apply patches_shrunk_refl].
    + destruct (depleted p) eqn:Hdep.
      * intros [= <-]. apply Hput. reflexivity.
      * destruct (Qleb _ _); intros [= <-]; [| apply patches_shrunk_refl].
        unfold patches_shrunk. simpl.
        apply (dict_set_shrunk p).
        -- simpl. rewrite Hmid. exact Hp.
        -- unfold patch_shrunk, m_pos. simpl.
           unfold depleted in Hdep. apply Z.leb_gt in Hdep.
           unfold ResourceSystem.GATHER_AMOUNT. repeat split; lia.
    + destruct (Qltb _ 2.0); [| intros [= <-]; apply patches_shrunk_refl].
      simpl. destruct (World.team_minerals w !! team worker); simpl;
        [| discriminate].
      destruct (negb (depleted p)); intros [= <-]; apply Hput; reflexivity.
    + intros [= <-]. apply patches_shrunk_refl.
  - destruct (state wd).
    + destruct (0 <? carrying wd); intros [= <-];
        [apply Hput; reflexivity | apply patches_shrunk_refl].
    + intros [= <-]. apply Hput. reflexivity.
    + intros [= <-]. apply Hput. reflexivity.
    + destruct (Qltb _ 2.0); [| intros [= <-]; apply patches_shrunk_refl].
      simpl. destruct (World.team_minerals w !! team worker); simpl;
        [| discriminate].
      intros [= <-]. apply Hput. reflexivity.
    + intros [= <-]. apply patches_shrunk_refl.
Qed.

(** [ResourceSystem.update] keeps the table of mineral patches in place:
    the table after the call lists, entry by entry and in the same order,
    the patches of the table before it, each with its id and its position,
    and a patch whose content was not negative has afterwards a content
    between zero and what it was: no patch is mined below zero, none is
    refilled, none is added or removed. *)
Theorem patches_are_never_overdrawn
    (dt : Q) (rs rs' : ResourceSystem.t) (w w' : World.t)
    (bus bus' : EventBus) :
  ResourceSystem.update dt rs w bus = Some (rs', w', bus') ->
  Forall2
    (fun p p' : MineralPatch =>
       m_id p' = m_id p /\ m_pos p' = m_pos p /\
       (0 <= minerals p -> 0 <= minerals p' <= minerals p))
    (World.minerals w) (World.minerals w').
Proof.
  intros Hrun. unfold ResourceSystem.update in Hrun.
  pose proof (for_each_id_preorder
                (fun s s' : ResourceSystem.LoopState =>
                   patches_shrunk (snd (fst s)) (snd (fst s')))
                (ResourceSystem.update_entity dt) (entity_ids w)
                (rs, w, bus) (rs', w', bus')
                (fun s => patches_shrunk_refl _)
                (fun s1 s2 s3 => patches_shrunk_trans _ _ _)
                (resource_visit_patches dt) Hrun) as Hall.
  simpl in Hall. exact Hall.
Qed.

(** The mining world with the worker next to the patch and gathering. *)
Definition gathering_world : World.t :=
  example_world
    [example_base 1 1 (5, 5)%Q [];
     example_worker 2 1 (1, 0)%Q gathering (Some 10)]
    [example_patch] None 50.

Lemma patches_are_never_overdrawn_witness :
  exists rs' w' bus',
    ResourceSystem.update 2 ResourceSystem.init gathering_world []
      = Some (rs', w', bus') /\
    World.minerals gathering_world = [example_patch] /\
    World.minerals w' = [m_set_minerals 1492 example_patch] /\
    Forall2
      (fun p p' : MineralPatch =>
         m_id p' = m_id p /\ m_pos p' = m_pos p /\
         (0 <= minerals p -> 0 <= minerals p' <= minerals p))
      (World.minerals gathering_world) (World.minerals w').
Proof.
  destruct (ResourceSystem.update 2 ResourceSystem.init gathering_world [])
    as [[[rs' w'] bus'] |] eqn:Hrun; [| vm_compute in Hrun; discriminate].
  exists rs', w', bus'. split; [reflexivity |]. split; [reflexivity |].
  split.
  - vm_compute in Hrun. injection Hrun as _ <- _. reflexivity.
  - exact (patches_are_never_overdrawn 2 ResourceSystem.init rs'
             gathering_world w' [] bus' Hrun).
Defined.

(** ** Combat only wounds (systems.py) *)

(** The damage of a soldier; [None] for the other classes. *)
Definition strength (e : Entity) : option Z := damage <$> soldier_data e.

(** [e'] is [e] with other unit or soldier fields: nothing that a wound
    touches has changed. *)
Definition unhurt (e e' : Entity) : Prop :=
  id e' = id e /\ team e' = team e /\ pos e' = pos e /\
  max_hp e' = max_hp e /\ kind e' = kind e /\ strength e' = strength e /\
  hp e' = hp e /\ alive e' = alive e.

(** [e'] is [e] after some strikes: the same object at the same place; a
    dead one is left alone; one that died has no hit points left; and, when
    [nonneg] holds (no soldier has a negative damage), the hit points have
    not gone up, nor below zero. *)
Definition wounded (nonneg : Prop) (e e' : Entity) : Prop :=
  id e' = id e /\ team e' = team e /\ pos e' = pos e /\
  max_hp e' = max_hp e /\ kind e' = kind e /\ strength e' = strength e /\
  (alive e = false -> alive e' = false /\ hp e' = hp e) /\
  (alive e = true -> alive e' = false -> hp e' = 0) /\
  (nonneg -> 0 <= hp e -> 0 <= hp e' <= hp e).

Definition damage_nonneg (w : World.t) : Prop :=
  forall e sd,
    In e (World.entities w) -> soldier_data e = Some sd -> 0 <= damage sd.

(** The entity [i] was alive in [w] and is dead in [w']. *)
Definition killed (w w' : World.t) (i : Z) : Prop :=
  exists e e',
    World.get_entity w i = Some e /\ World.get_entity w' i = Some e' /\
    alive e = true /\ alive e' = false.

(** The ids of the DeathEvents on the bus, in order. *)
Definition death_ids (bus : EventBus) : list Z :=
  omap (fun ev => match ev with
                  | DeathEvent i _ _ _ _ => Some i
                  | _ => None
                  end) bus.

Lemma unhurt_refl (e : Entity) : unhurt e e.
Proof. unfold unhurt. tauto. Qed.

Lemma unhurt_trans (e1 e2 e3 : Entity) :
  unhurt e1 e2 -> unhurt e2 e3 -> unhurt e1 e3.
Proof.
  unfold unhurt. intros (?&?&?&?&?&?&?&?) (?&?&?&?&?&?&?&?).
  repeat split; congruence.
Qed.

Lemma wounded_refl (P : Prop) (e : Entity) : wounded P e e.
Proof. unfold wounded. repeat split; auto; try lia; congruence. Qed.

Lemma unhurt_wounded (P : Prop) (e e' : Entity) :
  unhurt e e' -> wounded P e e'.
Proof.
  unfold unhurt, wounded. intros (?&?&?&?&?&?&Hhp&Hal).
  repeat split; auto; try lia; congruence.
Qed.

Lemma wounded_trans (P Q : Prop) (e1 e2 e3 : Entity) :
  (P -> Q) -> wounded P e1 e2 -> wounded Q e2 e3 -> wounded P e1 e3.
Proof.
  unfold wounded.
  intros HPQ (?&?&?&?&?&?&Hd&Hk&Hb) (?&?&?&?&?&?&Hd'&Hk'&Hb').
  split; [congruence |]. split; [congruence |]. split; [congruence |].
  split; [congruence |]. split; [congruence |]. split; [congruence |].
  split; [| split].
  - intros Ha1. destruct (Hd Ha1) as [Ha2 Hh2]. destruct (Hd' Ha2) as [Ha3 Hh3].
    split; [exact Ha3 | congruence].
  - intros Ha1 Ha3. destruct (alive e2) eqn:Ha2.
    + apply Hk'; [reflexivity | exact Ha3].
    + destruct (Hd' eq_refl) as [_ Hh3]. rewrite Hh3. apply Hk; auto.
  - intros HP Hh1. specialize (Hb HP Hh1). specialize (Hb' (HPQ HP)). lia.
Qed.

Lemma take_damage_wounded (P : Prop) (d : Z) (e : Entity) :
  alive e = true -> (P -> 0 <= d) -> wounded P e (take_damage d e).
Proof.
  intros Hal Hd. unfold wounded, take_damage.
  destruct (hp e - d <=? 0) eqn:Hle; simpl;
    (split; [reflexivity |]); (split; [reflexivity |]);
    (split; [reflexivity |]); (split; [reflexivity |]);
    (split; [reflexivity |]); (split; [reflexivity |]);
    (split; [congruence |]); (split; [try congruence; auto |]).
  - intros HP H0. specialize (Hd HP). lia.
  - intros HP H0. specialize (Hd HP). apply Z.leb_gt in Hle. lia.
Qed.

(** *** Tables related entry by entry *)

Section Related.

Variable R : Entity -> Entity -> Prop.
Hypothesis R_refl : forall e, R e e.
Hypothesis R_id : forall e e', R e e' -> id e' = id e.

Lemma Forall2_refl_list (l : list Entity) : Forall2 R l l.
Proof. induction l; constructor; auto. Qed.

Lemma dict_set_related (e e' : Entity) (d : list Entity) :
  dict_get id (id e') d = Some e -> R e e' ->
  Forall2 R d (dict_set id e' d).
Proof.
  intros Hget He. induction d as [| b d IH]; simpl in *; [discriminate |].
  destruct (id b =? id e').
  - injection Hget as ->. constructor; [exact He | apply Forall2_refl_list].
  - constructor; [apply R_refl | apply IH, Hget].
Qed.

Lemma put_entity_related (e e' : Entity) (w : World.t) :
  World.get_entity w (id e') = Some e -> R e e' ->
  Forall2 R (World.entities w) (World.entities (World.put_entity e' w)).
Proof. intros Hget He. simpl. apply (dict_set_related e); assumption. Qed.

Lemma modify_entity_related (i : Z) (f : Entity -> Entity) (w : World.t) :
  (forall e, World.get_entity w i = Some e -> R e (f e)) ->
  Forall2 R (World.entities w) (World.entities (modify_entity i f w)).
Proof.
  intros Hf. unfold modify_entity.
  destruct (World.get_entity w i) as [e |] eqn:He;
    [| apply Forall2_refl_list].
  apply (put_entity_related e); [| apply Hf; reflexivity].
  rewrite (R_id _ _ (Hf e eq_refl)).
  destruct (dict_get_Some _ _ _ _ He) as [_ ->]. exact He.
Qed.

Lemma related_get (l l' : list Entity) (i : Z) (e : Entity) :
  Forall2 R l l' -> dict_get id i l = Some e ->
  exists e', dict_get id i l' = Some e' /\ R e e'.
Proof.
  induction 1 as [| a a' l l' Ha Hl IH]; simpl; [discriminate |].
  rewrite (R_id _ _ Ha). destruct (id a =? i).
  - intros [= ->]. eauto.
  - exact IH.
Qed.

Lemma related_get_back (l l' : list Entity) (i : Z) (e' : Entity) :
  Forall2 R l l' -> dict_get id i l' = Some e' ->
  exists e, dict_get id i l = Some e /\ R e e'.
Proof.
  induction 1 as [| a a' l l' Ha Hl IH]; simpl; [discriminate |].
  rewrite (R_id _ _ Ha). destruct (id a =? i).
  - intros [= ->]. eauto.
  - exact IH.
Qed.

End Related.

Lemma unhurt_id (e e' : Entity) : unhurt e e' -> id e' = id e.
Proof. intros H. apply H. Qed.

Lemma wounded_id (P : Prop) (e e' : Entity) : wounded P e e' -> id e' = id e.
Proof. intros H. apply H. Qed.

Lemma unhurt_map_unit (f : UnitData -> UnitData) (e : Entity) :
  unhurt e (map_unit f e).
Proof.
  unfold unhurt, map_unit, kind, strength, soldier_data, pos.
  destruct (body e) eqn:Hb; simpl; rewrite ?Hb; tauto.
Qed.

Lemma unhurt_cooldown (c : Q) (e : Entity) :
  unhurt e (map_soldier (s_set_cooldown_remaining c) e).
Proof.
  unfold unhurt, map_soldier, kind, strength, soldier_data, pos.
  destruct (body e) eqn:Hb; simpl; rewrite ?Hb; tauto.
Qed.

Lemma unhurt_set_soldier (u : UnitData) (sd sd' : SoldierData) (e : Entity) :
  soldier_data e = Some sd -> damage sd' = damage sd ->
  unhurt e (set_body (IsSoldier u sd') e).
Proof.
  unfold unhurt, kind, strength, soldier_data, pos.
  destruct (body e) eqn:Hb; simpl; try discriminate.
  intros [= ->] ->. tauto.
Qed.

Lemma id_take_damage (d : Z) (e : Entity) : id (take_damage d e) = id e.
Proof. unfold take_damage. destruct (_ <=? 0); reflexivity. Qed.

Lemma get_modify_entity_eq (i : Z) (f : Entity -> Entity) (w : World.t)
    (e : Entity) :
  World.get_entity w i = Some e -> id (f e) = id e ->
  World.get_entity (modify_entity i f w) i = Some (f e).
Proof.
  intros He Hid. unfold modify_entity. rewrite He.
  destruct (dict_get_Some _ _ _ _ He) as [_ Hi].
  rewrite <- Hi, <- Hid. apply get_put_entity_eq.
Qed.

Definition unhurt_all (w w' : World.t) : Prop :=
  Forall2 unhurt (World.entities w) (World.entities w').

Lemma unhurt_all_refl (w : World.t) : unhurt_all w w.
Proof. apply Forall2_refl_list, unhurt_refl. Qed.

Lemma Forall2_compose (R1 R2 R3 : Entity -> Entity -> Prop)
    (l1 l2 l3 : list Entity) :
  (forall a b c, R1 a b -> R2 b c -> R3 a c) ->
  Forall2 R1 l1 l2 -> Forall2 R2 l2 l3 -> Forall2 R3 l1 l3.
Proof.
  intros Hc H12. revert l3.
  induction H12 as [| a b l1 l2 Hab H12 IH]; intros l3 H23;
    inversion H23; subst; constructor; eauto.
Qed.

Lemma unhurt_all_trans (w1 w2 w3 : World.t) :
  unhurt_all w1 w2 -> unhurt_all w2 w3 -> unhurt_all w1 w3.
Proof. apply Forall2_compose, unhurt_trans. Qed.

Lemma unhurt_all_modify (i : Z) (f : Entity -> Entity) (w : World.t) :
  (forall e, unhurt e (f e)) -> unhurt_all w (modify_entity i f w).
Proof.
  intros Hf. apply modify_entity_related;
    [apply unhurt_refl | apply unhurt_id | auto].
Qed.

Lemma damage_nonneg_kept (R : Entity -> Entity -> Prop) (w w' : World.t) :
  (forall e e', R e e' -> strength e' = strength e) ->
  Forall2 R (World.entities w) (World.entities w') ->
  damage_nonneg w -> damage_nonneg w'.
Proof.
  intros HR Hall Hw e' sd' Hin Hsd'.
  apply list_elem_of_In in Hin.
  destruct (list_elem_of_lookup_1 _ _ Hin) as [n Hn].
  destruct (Forall2_lookup_r _ _ _ _ _ Hall Hn) as (e & He & Hee).
  specialize (HR _ _ Hee). unfold strength in HR. rewrite Hsd' in HR.
  destruct (soldier_data e) as [sd |] eqn:Hsd; [| discriminate].
  injection HR as HR. rewrite HR. apply (Hw e sd); [| exact Hsd].
  apply list_elem_of_In. apply (list_elem_of_lookup_2 _ _ _ He).
Qed.

Lemma death_ids_publish (ev : Event) (bus : EventBus) :
  death_ids (publish ev bus) = death_ids bus ++ death_ids [ev].
Proof. unfold death_ids, publish. apply omap_app. Qed.

Section CombatWounds.

Variable sqrt : Q -> Q.

(** What one visit of the combat loop does: no harm at all, or one strike at
    a living target [tid] with the damage [d] of a soldier. *)
Definition strike_or_not (eid : Z) (w w' : World.t)
    (dead dead' : list (Z * Z)) : Prop :=
  (unhurt_all w w' /\ dead' = dead) \/
  (exists w1 tid t d,
     unhurt_all w w1 /\ World.get_entity w1 tid = Some t /\
     alive t = true /\ (damage_nonneg w -> 0 <= d) /\
     unhurt_all (modify_entity tid (take_damage d) w1) w' /\
     dead' = if alive (take_damage d t) then dead else dead ++ [(tid, eid)]).

Lemma base_alert_deaths (w : World.t) (target : Entity) (a : Z)
    (cs cs' : CombatSystem.t) (bus bus' : EventBus) :
  CombatSystem.base_alert w target a cs bus = (cs', bus') ->
  death_ids bus' = death_ids bus.
Proof.
  unfold CombatSystem.base_alert.
  destruct (is_base target); [| intros [= <- <-]; reflexivity].
  destruct (Qleb _ _); intros [= <- <-]; [| reflexivity].
  rewrite death_ids_publish. apply app_nil_r.
Qed.

Lemma process_target_cases (eid tid : Z) (cs cs' : CombatSystem.t)
    (w w' : World.t) (bus bus' : EventBus) (dead dead' : list (Z * Z)) :
  CombatSystem.process_target sqrt eid tid (cs, w, bus, dead)
    = (cs', w', bus', dead') ->
  death_ids bus' = death_ids bus /\ strike_or_not eid w w' dead dead'.
Proof.
  unfold CombatSystem.process_target.
  assert (Hno : forall f, (forall e, unhurt e (f e)) ->
                  strike_or_not eid w (modify_entity eid f w) dead dead).
  { intros f Hf. left. split; [apply unhurt_all_modify, Hf | reflexivity]. }
  destruct (World.get_entity w eid) as [entity |] eqn:He;
    [| intros [= <- <- <- <-]; split;
       [reflexivity | left; split; [apply unhurt_all_refl | reflexivity]]].
  destruct (World.get_entity w tid) as [target |] eqn:Ht;
    [| intros [= <- <- <- <-]; split;
       [reflexivity | apply Hno; intros; apply unhurt_map_unit]].
  destruct (alive target) eqn:Hal; simpl;
    [| intros [= <- <- <- <-]; split;
       [reflexivity | apply Hno; intros; apply unhurt_map_unit]].
  destruct (soldier_data entity) as [sd |] eqn:Hsd;
    [| intros [= <- <- <- <-]; split;
       [reflexivity | left; split; [apply unhurt_all_refl | reflexivity]]].
  destruct (Qleb (sqrt _) (attack_range sd));
    [| intros [= <- <- <- <-]; split;
       [reflexivity | apply Hno; intros; apply unhurt_map_unit]].
  set (f1 := fun e => map_unit (u_set_path [])
                        (map_unit (u_set_destination None) e)).
  assert (Hf1 : forall e, unhurt e (f1 e)).
  { intros e. unfold f1.
    eapply unhurt_trans; apply unhurt_map_unit. }
  destruct (Qleb (cooldown_remaining sd) 0);
    [| intros [= <- <- <- <-]; split; [reflexivity | apply Hno, Hf1]].
  set (w1 := modify_entity eid f1 w).
  set (w2 := modify_entity tid (take_damage (damage sd)) w1).
  set (w3 := modify_entity eid _ w2).
  assert (H01 : unhurt_all w w1) by apply unhurt_all_modify, Hf1.
  assert (H23 : unhurt_all w2 w3)
    by (apply unhurt_all_modify; intros; apply unhurt_cooldown).
  destruct (related_get unhurt unhurt_id _ _ tid target H01 Ht)
    as (t & Ht1 & Htt).
  assert (Halt : alive t = true).
  { destruct Htt as (_&_&_&_&_&_&_&Ha). congruence. }
  assert (Ht2 : World.get_entity w2 tid = Some (take_damage (damage sd) t)).
  { apply get_modify_entity_eq; [exact Ht1 | apply id_take_damage]. }
  destruct (related_get unhurt unhurt_id _ _ tid _ H23 Ht2)
    as (t' & Ht3 & Htt').
  change (dict_get id tid (World.entities w3)) with
    (World.get_entity w3 tid) in Ht3.
  rewrite Ht3.
  destruct (CombatSystem.base_alert w3 t' eid cs _) as [cs1 bus2] eqn:Hba.
  intros [= <- <- <- <-]. split.
  - rewrite (base_alert_deaths _ _ _ _ _ _ _ Hba), death_ids_publish.
    apply app_nil_r.
  - right. exists w1, tid, t, (damage sd).
    split; [exact H01 |]. split; [exact Ht1 |]. split; [exact Halt |].
    split.
    { intros Hnn. apply (Hnn entity sd); [| exact Hsd].
      apply (dict_get_Some _ _ _ _ He). }
    split; [exact H23 |].
    destruct Htt' as (_&_&_&_&_&_&_&Ha). rewrite Ha.
    destruct (alive (take_damage (damage sd) t)); reflexivity.
Qed.

Lemma combat_visit_cases (dt : Q) (eid : Z) (cs cs' : CombatSystem.t)
    (w w' : World.t) (bus bus' : EventBus) (dead dead' : list (Z * Z)) :
  CombatSystem.update_entity sqrt dt eid (cs, w, bus, dead)
    = Some (cs', w', bus', dead') ->
  death_ids bus' = death_ids bus /\ strike_or_not eid w w' dead dead'.
Proof.
  unfold CombatSystem.update_entity.
  assert (Hnone : strike_or_not eid w w dead dead)
    by (left; split; [apply unhurt_all_refl | reflexivity]).
  destruct (World.get_entity w eid) as [entity |] eqn:He;
    [| intros [= <- <- <- <-]; split; [reflexivity | exact Hnone]].
  destruct (soldier_data entity) as [sd |] eqn:Hsd;
    [| intros [= <- <- <- <-]; split; [reflexivity | exact Hnone]].
  destruct (unit_data entity) as [u |];
    [| intros [= <- <- <- <-]; split; [reflexivity | exact Hnone]].
  destruct (alive entity);
    [| intros [= <- <- <- <-]; split; [reflexivity | exact Hnone]].
  match goal with
  | |- context [World.put_entity ?e w] =>
      set (e1 := e);
      assert (Hput : unhurt_all w (World.put_entity e1 w))
  end.
  { apply (put_entity_related unhurt unhurt_refl entity).
    - simpl. destruct (dict_get_Some _ _ _ _ He) as [_ ->]. exact He.
    - apply (unhurt_set_soldier _ sd); [exact Hsd |].
      destruct (Qltb 0 (cooldown_remaining sd)); reflexivity. }
  destruct (truthy_id _) as [tid |];
    [| intros [= <- <- <- <-]; split;
       [reflexivity | left; split; [exact Hput | reflexivity]]].
  destruct (CombatSystem.process_target sqrt eid tid
              (cs, World.put_entity e1 w, bus, dead))
    as [[[cs2 w2] bus2] dead2] eqn:Hpt.
  intros [= <- <- <- <-].
  destruct (process_target_cases _ _ _ _ _ _ _ _ _ _ Hpt) as [Hbus Hcase].
  split; [exact Hbus |].
  destruct Hcase as [[Hun ->] | (w1 & tid' & t & d & H1 & H2 & H3 & H4 & H5 & H6)].
  - left. split; [| reflexivity]. apply (unhurt_all_trans _ _ _ Hput Hun).
  - right. exists w1, tid', t, d.
    split; [apply (unhurt_all_trans _ _ _ Hput H1) |].
    split; [exact H2 |]. split; [exact H3 |]. split; [| auto].
    intros Hnn. apply H4.
    apply (damage_nonneg_kept unhurt w); [| exact Hput | exact Hnn].
    intros a b Hab. apply Hab.
Qed.

(** What the combat loop keeps, from one loop state to a later one. *)
Definition combat_harm (s s' : CombatSystem.LoopState) : Prop :=
  let '(_, w, bus, dead) := s in
  let '(_, w', bus', dead') := s' in
  Forall2 (wounded (damage_nonneg w)) (World.entities w) (World.entities w') /\
  death_ids bus' = death_ids bus /\
  exists new,
    dead' = dead ++ new /\ NoDup (List.map fst new) /\
    forall i, In i (List.map fst new) <-> killed w w' i.

Lemma wounded_all_of_unhurt (w w' : World.t) :
  unhurt_all w w' ->
  Forall2 (wounded (damage_nonneg w)) (World.entities w) (World.entities w').
Proof.
  intros Hun. apply (Forall2_impl _ _ _ _ Hun).
  intros a b. apply unhurt_wounded.
Qed.

Lemma not_killed_unhurt (w w' : World.t) (i : Z) :
  unhurt_all w w' -> ~ killed w w' i.
Proof.
  intros Hun (e & e' & He & He' & Ha & Ha').
  destruct (related_get unhurt unhurt_id _ _ i e Hun He) as (e2 & He2 & Hee).
  unfold World.get_entity in He'. rewrite He' in He2. injection He2 as <-.
  destruct Hee as (_&_&_&_&_&_&_&Hal). congruence.
Qed.

Lemma combat_harm_refl (s : CombatSystem.LoopState) : combat_harm s s.
Proof.
  destruct s as [[[cs w] bus] dead]. simpl.
  split; [apply Forall2_refl_list, wounded_refl |]. split; [reflexivity |].
  exists []. split; [symmetry; apply app_nil_r |]. split; [constructor |].
  intros i. split; [intros [] |].
  intros H. exfalso. apply (not_killed_unhurt w w i); [| exact H].
  apply unhurt_all_refl.
Qed.

Lemma combat_harm_trans (s1 s2 s3 : CombatSystem.LoopState) :
  combat_harm s1 s2 -> combat_harm s2 s3 -> combat_harm s1 s3.
Proof.
  destruct s1 as [[[cs1 w1] bus1] dead1], s2 as [[[cs2 w2] bus2] dead2],
    s3 as [[[cs3 w3] bus3] dead3]. simpl.
  intros (H12 & Hb12 & new12 & -> & Hnd12 & Hk12)
         (H23 & Hb23 & new23 & -> & Hnd23 & Hk23).
  assert (Hnn : damage_nonneg w1 -> damage_nonneg w2).
  { apply (damage_nonneg_kept (wounded (damage_nonneg w1))); [| exact H12].
    intros a b Hab. apply Hab. }
  assert (Hlife12 : forall i e1,
             World.get_entity w1 i = Some e1 ->
             exists e2, World.get_entity w2 i = Some e2 /\
                        wounded (damage_nonneg w1) e1 e2).
  { intros i e1. apply (related_get _ (wounded_id _)), H12. }
  assert (Hback12 : forall i e2,
             World.get_entity w2 i = Some e2 ->
             exists e1, World.get_entity w1 i = Some e1 /\
                        wounded (damage_nonneg w1) e1 e2).
  { intros i e2. apply (related_get_back _ (wounded_id _)), H12. }
  assert (Hlife23 : forall i e2,
             World.get_entity w2 i = Some e2 ->
             exists e3, World.get_entity w3 i = Some e3 /\
                        wounded (damage_nonneg w2) e2 e3).
  { intros i e2. apply (related_get _ (wounded_id _)), H23. }
  assert (Hback23 : forall i e3,
             World.get_entity w3 i = Some e3 ->
             exists e2, World.get_entity w2 i = Some e2 /\
                        wounded (damage_nonneg w2) e2 e3).
  { intros i e3. apply (related_get_back _ (wounded_id _)), H23. }
  split.
  { apply (Forall2_compose _ _ _ _ _ _
             (fun a b c => wounded_trans _ _ a b c Hnn) H12 H23). }
  split; [congruence |].
  exists (new12 ++ new23). split; [symmetry; apply app_assoc |].
  rewrite List.map_app. split.
  - apply NoDup_app. split; [exact Hnd12 |]. split; [| exact Hnd23].
    intros i Hi1 Hi2.
    apply list_elem_of_In, Hk12 in Hi1.
    apply list_elem_of_In, Hk23 in Hi2.
    destruct Hi1 as (a & b & _ & Hb & _ & Hbd).
    destruct Hi2 as (b' & c & Hb' & _ & Hba & _).
    rewrite Hb in Hb'. injection Hb' as <-. congruence.
  - intros i. rewrite in_app_iff, Hk12, Hk23. split.
    + intros [(a & b & Ha & Hb & Haa & Hbd) | (b & c & Hb & Hc & Hba & Hcd)].
      * destruct (Hlife23 _ _ Hb) as (c & Hc & Hbc).
        exists a, c. split; [exact Ha |]. split; [exact Hc |].
        split; [exact Haa |].
        destruct Hbc as (_&_&_&_&_&_&Hd&_). apply (Hd Hbd).
      * destruct (Hback12 _ _ Hb) as (a & Ha & Hab).
        exists a, c. split; [exact Ha |]. split; [exact Hc |].
        split; [| exact Hcd].
        destruct Hab as (_&_&_&_&_&_&Hd&_).
        destruct (alive a) eqn:Haa; [reflexivity |].
        destruct (Hd eq_refl) as [Hbd _]. congruence.
    + intros (a & c & Ha & Hc & Haa & Hcd).
      destruct (Hlife12 _ _ Ha) as (b & Hb & Hab).
      destruct (alive b) eqn:Hba.
      * right. exists b, c. auto.
      * left. exists a, b. auto.
Qed.

Lemma combat_visit_harm (dt : Q) (eid : Z) (s s' : CombatSystem.LoopState) :
  CombatSystem.update_entity sqrt dt eid s = Some s' -> combat_harm s s'.
Proof.
  destruct s as [[[cs w] bus] dead], s' as [[[cs' w'] bus'] dead'].
  intros Hvisit. apply combat_visit_cases in Hvisit.
  destruct Hvisit as [Hbus Hcase]. simpl.
  destruct Hcase as [[Hun ->] | (w1 & tid & t & d & H1 & H2 & H3 & H4 & H5 & ->)].
  - split; [apply wounded_all_of_unhurt, Hun |]. split; [exact Hbus |].
    exists []. split; [symmetry; apply app_nil_r |]. split; [constructor |].
    intros i. split; [intros [] |]. intros H. exfalso.
    apply (not_killed_unhurt w w' i Hun H).
  - set (w2 := modify_entity tid (take_damage d) w1) in *.
    assert (Ht2 : World.get_entity w2 tid = Some (take_damage d t)).
    { apply get_modify_entity_eq; [exact H2 | apply id_take_damage]. }
    assert (Hother : forall i, i <> tid ->
               World.get_entity w2 i = World.get_entity w1 i).
    { intros i Hi. apply get_modify_entity_ne; [exact Hi |].
      intros e. apply id_take_damage. }
    assert (Hkill : forall i,
               killed w w' i <->
               i = tid /\ alive (take_damage d t) = false).
    { intros i. split.
      - intros (e & e' & He & He' & Ha & Ha').
        destruct (related_get unhurt unhurt_id _ _ i e H1 He)
          as (e1 & He1 & Hee1).
        destruct (decide (i = tid)) as [-> | Hne].
        + split; [reflexivity |].
          destruct (related_get unhurt unhurt_id _ _ tid _ H5 Ht2)
            as (e2 & He2 & Hee2).
          unfold World.get_entity in He'. rewrite He' in He2.
          injection He2 as <-.
          destruct Hee2 as (_&_&_&_&_&_&_&Hal). congruence.
        + exfalso.
          assert (He2 : World.get_entity w2 i = Some e1)
            by (rewrite (Hother i Hne); exact He1).
          destruct (related_get unhurt unhurt_id _ _ i _ H5 He2)
            as (e3 & He3 & Hee3).
          unfold World.get_entity in He'. rewrite He' in He3.
          injection He3 as <-.
          destruct Hee1 as (_&_&_&_&_&_&_&Hal1).
          destruct Hee3 as (_&_&_&_&_&_&_&Hal3). congruence.
      - intros [-> Hd].
        destruct (related_get_back unhurt unhurt_id _ _ tid t H1 H2)
          as (e & He & Hee).
        destruct (related_get unhurt unhurt_id _ _ tid _ H5 Ht2)
          as (e' & He' & Hee').
        exists e, e'. split; [exact He |]. split; [exact He' |].
        destruct Hee as (_&_&_&_&_&_&_&Hal).
        destruct Hee' as (_&_&_&_&_&_&_&Hal').
        split; congruence. }
    split.
    { apply (Forall2_compose (wounded (damage_nonneg w))
               (wounded (damage_nonneg w)) _ _ (World.entities w2) _
               (fun a b c => wounded_trans _ _ a b c (fun H => H))).
      - apply (Forall2_compose (wounded (damage_nonneg w))
                 (wounded (damage_nonneg w)) _ _ (World.entities w1) _
                 (fun a b c => wounded_trans _ _ a b c (fun H => H))).
        + apply wounded_all_of_unhurt, H1.
        + apply modify_entity_related;
            [apply wounded_refl | apply wounded_id |].
          intros e He. rewrite H2 in He. injection He as <-.
          apply take_damage_wounded; assumption.
      - apply (Forall2_impl _ _ _ _ H5). intros a b. apply unhurt_wounded. }
    split; [exact Hbus |].
    destruct (alive (take_damage d t)) eqn:Hd.
    + exists []. split; [symmetry; apply app_nil_r |].
      split; [constructor |]. intros i. rewrite Hkill.
      split; [intros [] | intros [_ H]; discriminate].
    + exists [(tid, eid)]. split; [reflexivity |]. split.
      * simpl. apply NoDup_singleton.
      * intros i. rewrite Hkill. simpl. split.
        -- intros [<- | []]. auto.
        -- intros [-> _]. auto.
Qed.

Lemma combat_loop_harm (dt : Q) (ids : list Z)
    (s s' : CombatSystem.LoopState) :
  for_each_id (CombatSystem.update_entity sqrt dt) ids s = Some s' ->
  combat_harm s s'.
Proof.
  apply (for_each_id_preorder combat_harm).
  - apply combat_harm_refl.
  - apply combat_harm_trans.
  - intros i. apply combat_visit_harm.
Qed.

Lemma publish_deaths_ids (w : World.t) (dead : list (Z * Z))
    (bus : EventBus) :
  (forall i, In i (List.map fst dead) ->
             exists e, World.get_entity w i = Some e) ->
  death_ids (CombatSystem.publish_deaths w dead bus)
    = death_ids bus ++ List.map fst dead.
Proof.
  unfold CombatSystem.publish_deaths. revert bus.
  induction dead as [| [tid k] dead IH]; intros bus Hdead; simpl.
  - symmetry. apply app_nil_r.
  - destruct (Hdead tid) as [e He]; [left; reflexivity |].
    rewrite IH by (intros i Hi; apply Hdead; right; exact Hi).
    rewrite He, death_ids_publish. simpl.
    destruct (dict_get_Some _ _ _ _ He) as [_ ->].
    rewrite <- app_assoc. reflexivity.
Qed.

Lemma combat_update_harm (dt : Q) (cs cs' : CombatSystem.t) (w w' : World.t)
    (bus bus' : EventBus) :
  CombatSystem.update sqrt dt cs w bus = (cs', w', bus') ->
  Forall2 (wounded (damage_nonneg w)) (World.entities w) (World.entities w') /\
  exists ids,
    death_ids bus' = death_ids bus ++ ids /\ NoDup ids /\
    forall i, In i ids <-> killed w w' i.
Proof.
  unfold CombatSystem.update.
  destruct (for_each_id _ _ _) as [[[[cs1 w1] bus1] dead] |] eqn:Hloop.
  - intros [= <- <- <-]. apply combat_loop_harm in Hloop. simpl in Hloop.
    destruct Hloop as (Hw & Hbus & new & -> & Hnd & Hk).
    split; [exact Hw |]. exists (List.map fst new).
    split; [| split; assumption].
    rewrite publish_deaths_ids, Hbus; [reflexivity |].
    intros i Hi. simpl in Hi. apply Hk in Hi.
    destruct Hi as (e & e' & _ & He' & _). eauto.
  - intros [= <- <- <-]. split; [apply Forall2_refl_list, wounded_refl |].
    exists []. split; [symmetry; apply app_nil_r |]. split; [constructor |].
    intros i. split; [intros [] |]. intros H. exfalso.
    apply (not_killed_unhurt w w i (unhurt_all_refl w) H).
Qed.

End CombatWounds.

(** [CombatSystem.update] only wounds.  The entity table keeps its entries in
    their order, each the same object: same id, team, position, maximal hit
    points, class and damage.  A dead entity stays dead with the hit points
    it had, an entity that dies is left with 0 hit points, and, when no
    soldier has a negative damage, no entity that had hit points gains any
    or falls below 0. *)
Theorem combat_only_wounds
    (sqrt : Q -> Q) (dt : Q) (cs cs' : CombatSystem.t) (w w' : World.t)
    (bus bus' : EventBus) :
  CombatSystem.update sqrt dt cs w bus = (cs', w', bus') ->
  Forall2
    (fun e e' =>
       id e' = id e /\ team e' = team e /\ pos e' = pos e /\
       max_hp e' = max_hp e /\ kind e' = kind e /\
       strength e' = strength e /\
       (alive e = false -> alive e' = false /\ hp e' = hp e) /\
       (alive e = true -> alive e' = false -> hp e' = 0) /\
       (damage_nonneg w -> 0 <= hp e -> 0 <= hp e' <= hp e))
    (World.entities w) (World.entities w').
Proof.
  intros Hrun.
  destruct (combat_update_harm sqrt dt cs cs' w w' bus bus' Hrun) as [Hw _].
  exact Hw.
Qed.

(** [CombatSystem.update] announces every death once: the DeathEvents it
    publishes carry, without repetition, exactly the ids of the entities
    that were alive before the call and are dead after it. *)
Theorem combat_announces_each_death_once
    (sqrt : Q -> Q) (dt : Q) (cs cs' : CombatSystem.t) (w w' : World.t)
    (bus bus' : EventBus) :
  CombatSystem.update sqrt dt cs w bus = (cs', w', bus') ->
  exists ids,
    death_ids bus' = death_ids bus ++ ids /\ NoDup ids /\
    forall i,
      In i ids <->
      exists e e',
        World.get_entity w i = Some e /\ World.get_entity w' i = Some e' /\
        alive e = true /\ alive e' = false.
Proof.
  intros Hrun.
  destruct (combat_update_harm sqrt dt cs cs' w w' bus bus' Hrun) as [_ Hd].
  exact Hd.
Qed.

(** A wounded worker of team 1 (15 hit points left) with two soldiers of
    team 2 next to it. *)
Definition ambush_world : World.t :=
  example_world
    [take_damage 25 (example_worker 1 1 (5, 5)%Q idle None);
     example_soldier 2 2 (5, 6)%Q;
     example_soldier 3 2 (6, 5)%Q]
    [] None 50.

Lemma combat_only_wounds_witness :
  exists cs' w' bus',
    CombatSystem.update example_sqrt (1 # 30) CombatSystem.init
      ambush_world [] = (cs', w', bus') /\
    List.map hp (World.entities w') = [0; 80; 80] /\
    Forall2
      (fun e e' =>
         id e' = id e /\ team e' = team e /\ pos e' = pos e /\
         max_hp e' = max_hp e /\ kind e' = kind e /\
         strength e' = strength e /\
         (alive e = false -> alive e' = false /\ hp e' = hp e) /\
         (alive e = true -> alive e' = false -> hp e' = 0) /\
         (damage_nonneg ambush_world -> 0 <= hp e -> 0 <= hp e' <= hp e))
      (World.entities ambush_world) (World.entities w').
Proof.
  destruct (CombatSystem.update example_sqrt (1 # 30) CombatSystem.init
              ambush_world []) as [[cs' w'] bus'] eqn:Hrun.
  exists cs', w', bus'. split; [reflexivity |]. split.
  - pose proof Hrun as Hval. vm_compute in Hval.
    injection Hval as _ <- _. reflexivity.
  - exact (combat_only_wounds example_sqrt (1 # 30) CombatSystem.init cs'
             ambush_world w' [] bus' Hrun).
Defined.

Lemma combat_announces_each_death_once_witness :
  exists cs' w' bus',
    CombatSystem.update example_sqrt (1 # 30) CombatSystem.init
      ambush_world [] = (cs', w', bus') /\
    death_ids bus' = [1] /\
    exists ids,
      death_ids bus' = death_ids [] ++ ids /\ NoDup ids /\
      forall i,
        In i ids <->
        exists e e',
          World.get_entity ambush_world i = Some e /\
          World.get_entity w' i = Some e' /\
          alive e = true /\ alive e' = false.
Proof.
  destruct (CombatSystem.update example_sqrt (1 # 30) CombatSystem.init
              ambush_world []) as [[cs' w'] bus'] eqn:Hrun.
  exists cs', w', bus'. split; [reflexivity |]. split.
  - pose proof Hrun as Hval. vm_compute in Hval.
    injection Hval as _ _ <-. reflexivity.
  - exact (combat_announces_each_death_once example_sqrt (1 # 30)
             CombatSystem.init cs' ambush_world w' [] bus' Hrun).
Defined.

(** ** What a drag gesture selects (selection.py) *)

(** The test of [update_drag] on the pointer position [p] for a gesture
    that started at [p0]. *)
Definition pointer_far (sqrt : Q -> Q) (p0 p : Pos) : bool :=
  let dx := (fst p - fst p0)%Q in
  let dy := (snd p - snd p0)%Q in
  Qltb SelectionManager.DRAG_THRESHOLD (sqrt (dx * dx + dy * dy)%Q).

Lemma moves_dragging (sqrt : Q -> Q) (moves : list Pos) (p0 : Pos)
    (sm : SelectionManager.t) :
  SelectionManager.drag_start sm = Some p0 ->
  SelectionManager._is_dragging
    (fold_left
       (fun sm p => SelectionManager.update_drag sqrt (fst p) (snd p) sm)
       moves sm)
  = SelectionManager._is_dragging sm || existsb (pointer_far sqrt p0) moves.
Proof.
  revert sm. induction moves as [| p moves IH]; intros sm Hs; simpl.
  - symmetry. apply orb_false_r.
  - rewrite IH.
    + unfold SelectionManager.update_drag at 1. rewrite Hs.
      destruct p0 as [sx sy]. simpl. unfold pointer_far. simpl.
      destruct (Qltb SelectionManager.DRAG_THRESHOLD _);
        destruct (SelectionManager._is_dragging sm); reflexivity.
    + unfold SelectionManager.update_drag. rewrite Hs. destruct p0.
      reflexivity.
Qed.

Lemma selected_fold_grows (test : Entity -> bool) (es : list Entity)
    (acc : gset Z) (i : Z) :
  i ∈ acc ->
  i ∈ fold_left
        (fun (selected : gset Z) entity =>
           if test entity then {[ id entity ]} ∪ selected else selected)
        es acc.
Proof.
  revert acc. induction es as [| e es IH]; intros acc Hi; simpl.
  - exact Hi.
  - apply IH. destruct (test e); [| exact Hi].
    apply elem_of_union. right. exact Hi.
Qed.

Lemma selected_fold_complete (test : Entity -> bool) (es : list Entity)
    (acc : gset Z) (e : Entity) :
  e ∈ es -> test e = true ->
  id e ∈ fold_left
           (fun (selected : gset Z) entity =>
              if test entity then {[ id entity ]} ∪ selected else selected)
           es acc.
Proof.
  revert acc. induction es as [| a es IH]; intros acc Hin Ht; simpl.
  - inversion Hin.
  - apply elem_of_cons in Hin. destruct Hin as [<- | Hin].
    + apply selected_fold_grows. rewrite Ht.
      apply elem_of_union. left. apply elem_of_singleton. reflexivity.
    + apply IH; assumption.
Qed.

Lemma in_rect_complete (team_ : Z) (p0 p1 : Pos) (e : Entity) :
  alive e = true -> team e = team_ -> is_unit e = true ->
  in_rectangle p0 p1 e ->
  SelectionManager.in_rect team_
    (Qminimum (fst p0) (fst p1)) (Qmaximum (fst p0) (fst p1))
    (Qminimum (snd p0) (snd p1)) (Qmaximum (snd p0) (snd p1)) e = true.
Proof.
  intros Ha Ht Hu [Hx Hy]. unfold SelectionManager.in_rect.
  rewrite Ha, Hu. apply Z.eqb_eq in Ht. rewrite Ht. simpl.
  rewrite !andb_true_iff. split; [split; [split |] |].
  - apply Qminimum_le_iff. destruct Hx as [Hx | Hx]; [left | right]; apply Hx.
  - apply Qmaximum_ge_iff. destruct Hx as [Hx | Hx]; [right | left]; apply Hx.
  - apply Qminimum_le_iff. destruct Hy as [Hy | Hy]; [left | right]; apply Hy.
  - apply Qmaximum_ge_iff. destruct Hy as [Hy | Hy]; [right | left]; apply Hy.
Qed.

(** What a drag gesture selects.  A gesture (press at [p0], pointer moves
    [moves], release) in which the pointer never got farther than the
    threshold from the press point returns the empty set.  Otherwise it
    returns exactly the ids of the living units of the team whose position
    lies in the rectangle spanned by the press point and the release point.
    In both cases the drag state is cleared and the stored selection is left
    to the caller. *)
Theorem drag_selects_the_units_in_the_rectangle
    (sqrt : Q -> Q) (w : World.t) (team_ : Z) (p0 : Pos) (moves : list Pos)
    (sm : SelectionManager.t) :
  let result := SelectionManager.drag_gesture sqrt w team_ p0 moves sm in
  (if existsb (pointer_far sqrt p0) moves then
     forall i : Z,
       i ∈ snd result <->
       exists e : Entity,
         e ∈ World.entities w /\ id e = i /\ alive e = true /\
         team e = team_ /\ is_unit e = true /\
         in_rectangle p0 (List.last moves p0) e
   else snd result = ∅) /\
  SelectionManager.drag_start (fst result) = None /\
  SelectionManager.drag_current (fst result) = None /\
  SelectionManager._is_dragging (fst result) = false /\
  SelectionManager.selected_ids (fst result) = SelectionManager.selected_ids sm.
Proof.
  cbv zeta. unfold SelectionManager.drag_gesture.
  set (sm0 := SelectionManager.start_drag (fst p0) (snd p0) sm).
  pose proof (moves_drag_points sqrt moves p0 p0 sm0) as Hpts.
  cbv zeta in Hpts.
  destruct Hpts as (Hs & Hc & _); [destruct p0; reflexivity .. |].
  pose proof (moves_dragging sqrt moves p0 sm0) as Hdrag.
  rewrite orb_false_l in Hdrag by reflexivity.
  assert (Hsel : forall sm1 sm2,
             SelectionManager.selected_ids sm1
               = SelectionManager.selected_ids sm2 ->
             forall ms,
               SelectionManager.selected_ids
                 (fold_left
                    (fun sm p =>
                       SelectionManager.update_drag sqrt (fst p) (snd p) sm)
                    ms sm1)
               = SelectionManager.selected_ids sm2).
  { intros sm1 sm2 H12 ms. revert sm1 H12.
    induction ms as [| p ms IH]; intros sm1 H12; simpl; [exact H12 |].
    apply IH. unfold SelectionManager.update_drag.
    destruct (SelectionManager.drag_start sm1) as [[sx sy] |]; exact H12. }
  specialize (Hdrag ltac:(destruct p0; reflexivity)).
  specialize (Hsel sm0 sm eq_refl moves).
  set (sm1 := fold_left _ moves sm0) in *.
  unfold SelectionManager.end_drag. rewrite Hdrag, Hs, Hc.
  destruct (existsb (pointer_far sqrt p0) moves).
  - destruct p0 as [x1 y1].
    destruct (List.last moves (x1, y1)) as [x2 y2] eqn:Hlast. simpl.
    split; [| auto]. intros i. split.
    + intros Hi. apply selected_fold in Hi.
      destruct Hi as [Hi | (e & Hin & Hid & Ht)].
      { apply not_elem_of_empty in Hi. contradiction. }
      apply (in_rect_spec team_ (x1, y1) (x2, y2)) in Ht.
      destruct Ht as (Ha & Htm & Hu & _ & Hr).
      exists e. auto 10.
    + intros (e & Hin & <- & Ha & Htm & Hu & Hr).
      apply selected_fold_complete; [exact Hin |].
      apply (in_rect_complete team_ (x1, y1) (x2, y2)); assumption.
  - destruct p0 as [x1 y1]. simpl. auto.
Qed.

(** A press at the origin, a move to (3, 3) and a release, over one worker
    of the team at (1, 1), one outside the rectangle and an enemy inside. *)
Example drag_selects_the_units_in_the_rectangle_run :
  snd (SelectionManager.drag_gesture example_sqrt
         (example_world
            [example_worker 1 1 (1, 1)%Q idle None;
             example_worker 2 1 (4, 1)%Q idle None;
             example_worker 3 2 (2, 2)%Q idle None] [] None 50)
         1 (0, 0)%Q [(3, 3)%Q] SelectionManager.init) = {[ 1 ]}.
Proof. vm_compute. reflexivity. Qed.

(** ** Group destinations (selection.py) *)

(** The tile a position lies in. *)
Definition tile_of (d : Pos) : Tile := (Qfloor (fst d), Qfloor (snd d)).

(** [random.random()] returns a number of the unit interval. *)
Definition unit_interval_rng (r : Random.t) : Prop :=
  forall n, (0 <= Random.unit_interval r n <= 1)%Q.

(** The position [d] keeps a margin of 0.2 to the border of its tile. *)
Definition well_inside_tile (d : Pos) : Prop :=
  (inject_Z (Qfloor (fst d)) + 0.2 <= fst d
     <= inject_Z (Qfloor (fst d)) + 0.8)%Q /\
  (inject_Z (Qfloor (snd d)) + 0.2 <= snd d
     <= inject_Z (Qfloor (snd d)) + 0.8)%Q.

Definition walkable_on (game_map : option GameMap.t) (tl : Tile) : Prop :=
  match game_map with
  | Some gm => GameMap.is_walkable gm (fst tl) (snd tl) = true
  | None => True
  end.

Lemma Qfloor_between (q : Q) (z : Z) :
  (inject_Z z <= q)%Q -> (q < inject_Z z + 1)%Q -> Qfloor q = z.
Proof.
  intros Hlo Hhi.
  assert (H1 : z <= Qfloor q).
  { rewrite <- (Qfloor_Z z). apply Qfloor_resp_le, Hlo. }
  assert (H2 : Qfloor q < z + 1).
  { rewrite Zlt_Qlt. rewrite inject_Z_plus.
    pose proof (Qfloor_le q) as Hf.
    change (inject_Z 1) with 1%Q. lra. }
  lia.
Qed.

Lemma uniform_offset (r : Random.t) :
  unit_interval_rng r ->
  (-0.3 <= fst (Random.uniform (-0.3) 0.3 r) <= 0.3)%Q /\
  unit_interval_rng (snd (Random.uniform (-0.3) 0.3 r)).
Proof.
  intros Hr. unfold Random.uniform. simpl. split; [| exact Hr].
  specialize (Hr (Random.draws r)). lra.
Qed.

Lemma placed_in_tile (tx ty : Z) (ox oy : Q) :
  (-0.3 <= ox <= 0.3)%Q -> (-0.3 <= oy <= 0.3)%Q ->
  let d := ((inject_Z tx + 0.5 + ox)%Q, (inject_Z ty + 0.5 + oy)%Q) in
  tile_of d = (tx, ty) /\ well_inside_tile d.
Proof.
  intros Hx Hy d.
  assert (Hfx : Qfloor (inject_Z tx + 0.5 + ox) = tx)
    by (apply Qfloor_between; lra).
  assert (Hfy : Qfloor (inject_Z ty + 0.5 + oy) = ty)
    by (apply Qfloor_between; lra).
  unfold tile_of, well_inside_tile, d. cbn [fst snd]. rewrite Hfx, Hfy.
  split; [reflexivity | lra].
Qed.

Section GroupSpread.

Variable sqrt : Q -> Q.
Variable target_pos : Pos.
Variable game_map : option GameMap.t.

Lemma free_tile_spec (occupied_tiles : gset Tile) (offsets : list Tile)
    (tl : Tile) :
  free_tile game_map target_pos occupied_tiles offsets = Some tl ->
  (tl ∉ occupied_tiles) /\ walkable_on game_map tl.
Proof.
  unfold free_tile. intros H. apply find_some in H. destruct H as [_ H].
  apply andb_true_iff in H. destruct H as [Hocc Hwalk].
  apply negb_true_iff, bool_decide_eq_false in Hocc.
  split; [exact Hocc |]. unfold walkable_on.
  destruct game_map; [exact Hwalk | exact I].
Qed.

(** The state of the loop over the units: the destinations given so far,
    the tiles taken and the generator. *)
Definition spread (processed : list Entity)
    (acc : gmap Z Pos * gset Tile * Random.t) : Prop :=
  let '(destinations, occupied_tiles, r) := acc in
  unit_interval_rng r /\
  (forall i, is_Some (destinations !! i) <->
             (exists u, In u processed /\ id u = i)) /\
  (forall i d,
     destinations !! i = Some d ->
     d = target_pos \/
     (tile_of d ∈ occupied_tiles /\ walkable_on game_map (tile_of d) /\
      well_inside_tile d)) /\
  (forall i j d d',
     i <> j -> destinations !! i = Some d -> destinations !! j = Some d' ->
     tile_of d = tile_of d' -> d = target_pos \/ d' = target_pos).

Lemma spread_step (offsets : list Tile) (processed : list Entity)
    (unit_ : Entity) (acc : gmap Z Pos * gset Tile * Random.t) :
  spread processed acc ->
  spread (processed ++ [unit_])
    (let '(destinations, occupied_tiles, r) := acc in
     match free_tile game_map target_pos occupied_tiles offsets with
     | Some (tile_x, tile_y) =>
         let '(offset_x, r1) := Random.uniform (-0.3) 0.3 r in
         let '(offset_y, r2) := Random.uniform (-0.3) 0.3 r1 in
         (<[id unit_ :=
              ((inject_Z tile_x + 0.5 + offset_x)%Q,
               (inject_Z tile_y + 0.5 + offset_y)%Q)]> destinations,
          {[ (tile_x, tile_y) ]} ∪ occupied_tiles, r2)
     | None =>
         (<[id unit_ := target_pos]> destinations, occupied_tiles, r)
     end).
Proof.
  destruct acc as [[destinations occupied_tiles] r].
  intros (Hr & Hdom & Hplaced & Hapart).
  assert (Hdom' : forall d0 i,
             is_Some (<[id unit_ := d0]> destinations !! i) <->
             exists u, In u (processed ++ [unit_]) /\ id u = i).
  { intros d0 i. destruct (decide (i = id unit_)) as [-> | Hne].
    - rewrite lookup_insert_eq. split; [| eauto].
      intros _. exists unit_. split; [| reflexivity].
      apply in_or_app. right. left. reflexivity.
    - rewrite lookup_insert_ne by congruence. rewrite Hdom. split.
      + intros (u & Hu & Hid). exists u. split; [| exact Hid].
        apply in_or_app. left. exact Hu.
      + intros (u & Hu & Hid). apply in_app_or in Hu.
        destruct Hu as [Hu | [<- | []]]; [eauto | congruence]. }
  destruct (free_tile game_map target_pos occupied_tiles offsets)
    as [[tile_x tile_y] |] eqn:Hfree.
  - apply free_tile_spec in Hfree. destruct Hfree as [Hnew Hwalk].
    destruct (uniform_offset r Hr) as [Hox Hr1].
    destruct (Random.uniform (-0.3) 0.3 r) as [offset_x r1]. simpl in Hox, Hr1.
    destruct (uniform_offset r1 Hr1) as [Hoy Hr2].
    destruct (Random.uniform (-0.3) 0.3 r1) as [offset_y r2].
    simpl in Hoy, Hr2.
    destruct (placed_in_tile tile_x tile_y offset_x offset_y Hox Hoy)
      as [Htile Hinside].
    set (d0 := ((inject_Z tile_x + 0.5 + offset_x)%Q,
                (inject_Z tile_y + 0.5 + offset_y)%Q)) in *.
    split; [exact Hr2 |]. split; [apply Hdom' |]. split.
    + intros i d. destruct (decide (i = id unit_)) as [-> | Hne].
      * rewrite lookup_insert_eq. intros [= <-]. right.
        rewrite Htile. split; [| split; assumption].
        apply elem_of_union. left. apply elem_of_singleton. reflexivity.
      * rewrite lookup_insert_ne by congruence. intros Hd.
        destruct (Hplaced i d Hd) as [-> | (Hocc & Hw & Hin)]; [auto |].
        right. split; [| split; assumption].
        apply elem_of_union. right. exact Hocc.
    + assert (Hold : forall i d,
                 i <> id unit_ -> destinations !! i = Some d ->
                 tile_of d = tile_of d0 -> d = target_pos).
      { intros i d Hne Hd Heq.
        destruct (Hplaced i d Hd) as [-> | (Hocc & _)]; [reflexivity |].
        exfalso. apply Hnew. rewrite <- Htile, <- Heq. exact Hocc. }
      intros i j d d' Hij.
      destruct (decide (i = id unit_)) as [-> | Hi];
        destruct (decide (j = id unit_)) as [-> | Hj];
        rewrite ?lookup_insert_eq, ?lookup_insert_ne by congruence.
      * congruence.
      * intros [= <-] Hd' Heq. right. apply (Hold j d' Hj Hd'). congruence.
      * intros Hd [= <-] Heq. left. apply (Hold i d Hi Hd Heq).
      * apply Hapart, Hij.
  - split; [exact Hr |]. split; [apply Hdom' |]. split.
    + intros i d. destruct (decide (i = id unit_)) as [-> | Hne].
      * rewrite lookup_insert_eq. intros [= <-]. left. reflexivity.
      * rewrite lookup_insert_ne by congruence. apply Hplaced.
    + intros i j d d' Hij.
      destruct (decide (i = id unit_)) as [-> | Hi];
        destruct (decide (j = id unit_)) as [-> | Hj];
        rewrite ?lookup_insert_eq, ?lookup_insert_ne by congruence.
      * congruence.
      * intros [= <-] _ _. left. reflexivity.
      * intros _ [= <-] _. right. reflexivity.
      * apply Hapart, Hij.
Qed.

Lemma spread_loop (offsets : list Tile) (units processed : list Entity)
    (acc : gmap Z Pos * gset Tile * Random.t) :
  spread processed acc ->
  spread (processed ++ units)
    (fold_left
       (fun (acc : gmap Z Pos * gset Tile * Random.t) unit_ =>
          let '(destinations, occupied_tiles, r) := acc in
          match free_tile game_map target_pos occupied_tiles offsets with
          | Some (tile_x, tile_y) =>
              let '(offset_x, r1) := Random.uniform (-0.3) 0.3 r in
              let '(offset_y, r2) := Random.uniform (-0.3) 0.3 r1 in
              (<[id unit_ :=
                   ((inject_Z tile_x + 0.5 + offset_x)%Q,
                    (inject_Z tile_y + 0.5 + offset_y)%Q)]> destinations,
               {[ (tile_x, tile_y) ]} ∪ occupied_tiles, r2)
          | None =>
              (<[id unit_ := target_pos]> destinations, occupied_tiles, r)
          end)
       units acc).
Proof.
  revert processed acc.
  induction units as [| u units IH]; intros processed acc Hacc; simpl.
  - rewrite app_nil_r. exact Hacc.
  - replace (processed ++ u :: units) with ((processed ++ [u]) ++ units)
      by (rewrite <- app_assoc; reflexivity).
    apply IH. apply (spread_step offsets processed u acc Hacc).
Qed.

Lemma group_destinations_spread (units : list Entity) (r : Random.t) :
  unit_interval_rng r ->
  let destinations :=
    fst (calculate_group_destinations sqrt units target_pos game_map r) in
  (forall i, is_Some (destinations !! i) <->
             (exists u, In u units /\ id u = i)) /\
  (forall i d,
     destinations !! i = Some d ->
     d = target_pos \/
     (walkable_on game_map (tile_of d) /\ well_inside_tile d)) /\
  (forall i j d d',
     i <> j -> destinations !! i = Some d -> destinations !! j = Some d' ->
     tile_of d = tile_of d' -> d = target_pos \/ d' = target_pos).
Proof.
  intros Hr. cbv zeta. unfold calculate_group_destinations.
  destruct units as [| u0 units].
  - simpl. split; [| split].
    + intros i. rewrite lookup_empty. split.
      * intros [d Hd]. discriminate.
      * intros (u & [] & _).
    + intros i d. rewrite lookup_empty. discriminate.
    + intros i j d d' _. rewrite lookup_empty. discriminate.
  - set (units0 := u0 :: units).
    pose proof (spread_loop (_generate_spiral_offsets sqrt (length units0 + 10))
                  units0 [] (∅, ∅, r)) as Hloop.
    simpl app in Hloop.
    destruct (fold_left _ units0 (∅, ∅, r)) as [[destinations occ] r'].
    simpl. destruct Hloop as (_ & Hdom & Hplaced & Hapart).
    + split; [exact Hr |]. split; [| split].
      * intros i. rewrite lookup_empty. split.
        -- intros [d Hd]. discriminate.
        -- intros (u & [] & _).
      * intros i d. rewrite lookup_empty. discriminate.
      * intros i j d d' _. rewrite lookup_empty. discriminate.
    + split; [exact Hdom |]. split; [| exact Hapart].
      intros i d Hd. destruct (Hplaced i d Hd) as [-> | (_ & Hw & Hin)]; auto.
Qed.

End GroupSpread.

(** [calculate_group_destinations] spreads a group out.  With a map that
    is rectangular when there is one, and a generator whose [random()] lies
    in the unit interval, exactly the units of the
    list get a destination; a destination is the target position itself (no
    free tile was found) or lies, with a margin of 0.2, inside a tile that
    is walkable when a map is given; and two units with different ids are
    never sent into the same tile, unless one of them is sent to the target
    position itself. *)
Theorem group_destinations_are_spread_out
    (sqrt : Q -> Q) (units : list Entity) (target_pos : Pos)
    (game_map : option GameMap.t) (r : Random.t) :
  map_wf game_map ->
  unit_interval_rng r ->
  let destinations :=
    fst (calculate_group_destinations sqrt units target_pos game_map r) in
  (forall i, is_Some (destinations !! i) <->
             (exists u, In u units /\ id u = i)) /\
  (forall i d,
     destinations !! i = Some d ->
     d = target_pos \/
     (walkable_on game_map (tile_of d) /\ well_inside_tile d)) /\
  (forall i j d d',
     i <> j -> destinations !! i = Some d -> destinations !! j = Some d' ->
     tile_of d = tile_of d' -> d = target_pos \/ d' = target_pos).
Proof.
  intros _ Hr.
  pose proof (group_destinations_spread sqrt target_pos game_map units r Hr)
    as Hspread.
  exact Hspread.
Qed.

Lemma example_rng_unit_interval : unit_interval_rng example_rng.
Proof. intros n. simpl. lra. Qed.

Lemma group_destinations_are_spread_out_witness :
  map_wf (Some rock_block_map) /\
  unit_interval_rng example_rng /\
  (let destinations :=
     fst (calculate_group_destinations example_sqrt
            [example_soldier 2 1 (0, 0)%Q; example_soldier 3 1 (1, 0)%Q]
            (2.5, 2.5)%Q (Some rock_block_map) example_rng) in
   (tile_of <$> destinations !! 2, tile_of <$> destinations !! 3)
     = (Some (0, 0), Some (1, 0))) /\
  let destinations :=
    fst (calculate_group_destinations example_sqrt
           [example_soldier 2 1 (0, 0)%Q; example_soldier 3 1 (1, 0)%Q]
           (2.5, 2.5)%Q (Some rock_block_map) example_rng) in
  (forall i, is_Some (destinations !! i) <->
             (exists u,
                In u [example_soldier 2 1 (0, 0)%Q;
                      example_soldier 3 1 (1, 0)%Q] /\ id u = i)) /\
  (forall i d,
     destinations !! i = Some d ->
     d = (2.5, 2.5)%Q \/
     (walkable_on (Some rock_block_map) (tile_of d) /\ well_inside_tile d)) /\
  (forall i j d d',
     i <> j -> destinations !! i = Some d -> destinations !! j = Some d' ->
     tile_of d = tile_of d' -> d = (2.5, 2.5)%Q \/ d' = (2.5, 2.5)%Q).
Proof.
  split; [exact rock_block_map_wf |].
  split; [exact example_rng_unit_interval |].
  split; [vm_compute; reflexivity |].
  exact (group_destinations_are_spread_out example_sqrt
           [example_soldier 2 1 (0, 0)%Q; example_soldier 3 1 (1, 0)%Q]
           (2.5, 2.5)%Q (Some rock_block_map) example_rng rock_block_map_wf
           example_rng_unit_interval).
Defined.

(** ** Movement only moves (systems.py) *)

(** What the movement system reads of a unit without writing it. *)
Definition unit_constants (u : UnitData) : Q * Z * option Z :=
  (speed u, u_vision u, target u).

(** A living unit with a destination or a path. *)
Definition has_orders (e : Entity) : bool :=
  alive e &&
  match unit_data e with
  | Some u =>
      match destination u, path u with
      | None, [] => false
      | _, _ => true
      end
  | None => false
  end.

(** [e'] is [e] up to its position and the destination, path and angle of
    a unit. *)
Definition same_unit (e e' : Entity) : Prop :=
  id e' = id e /\ team e' = team e /\ hp e' = hp e /\ max_hp e' = max_hp e /\
  alive e' = alive e /\ kind e' = kind e /\
  worker_data e' = worker_data e /\ soldier_data e' = soldier_data e /\
  building_data e' = building_data e /\
  unit_constants <$> unit_data e' = unit_constants <$> unit_data e.

(** The same, and an entity without orders is left as it is. *)
Definition only_moved (e e' : Entity) : Prop :=
  same_unit e e' /\ (has_orders e = false -> e' = e).

(** The worlds differ in their entity tables only. *)
Definition only_entities_differ (w w' : World.t) : Prop :=
  w' = World.set_entities (World.entities w') w.

Lemma same_unit_refl (e : Entity) : same_unit e e.
Proof. unfold same_unit. tauto. Qed.

Lemma same_unit_trans (e1 e2 e3 : Entity) :
  same_unit e1 e2 -> same_unit e2 e3 -> same_unit e1 e3.
Proof.
  unfold same_unit.
  intros (Ha1&Ha2&Ha3&Ha4&Ha5&Ha6&Ha7&Ha8&Ha9&Ha10)
         (Hb1&Hb2&Hb3&Hb4&Hb5&Hb6&Hb7&Hb8&Hb9&Hb10).
  repeat split; congruence.
Qed.

Lemma same_unit_set_xy (nx ny : Q) (e : Entity) : same_unit e (set_xy nx ny e).
Proof.
  unfold same_unit, set_xy, kind, worker_data, soldier_data, building_data,
    unit_data. simpl. tauto.
Qed.

Lemma same_unit_map_unit (f : UnitData -> UnitData) (e : Entity) :
  (forall u, unit_constants (f u) = unit_constants u) ->
  same_unit e (map_unit f e).
Proof.
  intros Hf.
  unfold same_unit, map_unit, kind, worker_data, soldier_data, building_data,
    unit_data.
  destruct (body e) eqn:Hb; simpl; rewrite ?Hb, ?Hf; tauto.
Qed.

Lemma only_moved_refl (e : Entity) : only_moved e e.
Proof. split; [apply same_unit_refl | reflexivity]. Qed.

Lemma only_moved_trans (e1 e2 e3 : Entity) : only_moved e1 e2 -> only_moved e2 e3 -> only_moved e1 e3.
Proof.
  intros [H12 Hs12] [H23 Hs23]. split.
  - apply (same_unit_trans _ _ _ H12 H23).
  - intros Hno. specialize (Hs12 Hno). subst e2. apply Hs23, Hno.
Qed.

Lemma only_moved_id (e e' : Entity) : only_moved e e' -> id e' = id e.
Proof. intros [H _]. apply H. Qed.

Lemma only_entities_differ_refl (w : World.t) : only_entities_differ w w.
Proof. unfold only_entities_differ. destruct w. reflexivity. Qed.

Lemma only_entities_differ_trans (w1 w2 w3 : World.t) :
  only_entities_differ w1 w2 -> only_entities_differ w2 w3 ->
  only_entities_differ w1 w3.
Proof.
  unfold only_entities_differ. intros H12 H23.
  rewrite H23. rewrite H12. reflexivity.
Qed.

Lemma same_unit_unstick (w : World.t) (e : Entity) :
  same_unit e (MovementSystem._unstick_unit w e).
Proof.
  unfold MovementSystem._unstick_unit.
  destruct (World.game_map w) as [gm |]; [| apply same_unit_refl].
  destruct (List.find _ _) as [[nx ny] |]; [| apply same_unit_refl].
  eapply same_unit_trans; [apply same_unit_set_xy |].
  apply same_unit_map_unit. reflexivity.
Qed.

Section MovementFrame.

Variable sqrt : Q -> Q.
Variable atan2_degrees : Q -> Q -> Q.

Lemma stuck_detection_same (w : World.t) (dt : Q)
    (timers : gmap Z (Q * Q * Q)) (e : Entity) (u : UnitData) :
  unit_data e = Some u ->
  let e1 := snd (MovementSystem._update_stuck_detection sqrt w dt timers e u) in
  same_unit e e1 /\ (has_orders e = false -> alive e = true -> e1 = e).
Proof.
  intros Hu. cbv zeta. unfold MovementSystem._update_stuck_detection.
  assert (Hgo : forall tm : gmap Z (Q * Q * Q),
             same_unit e
               (snd (match tm !! id e with
                     | None => (<[id e := (0.0%Q, x e, y e)]> tm, e)
                     | Some (timer, last_x, last_y) =>
                         if Qltb MovementSystem.STUCK_MOVE_DISTANCE
                              (sqrt ((x e - last_x) * (x e - last_x) +
                                     (y e - last_y) * (y e - last_y))%Q)
                         then (<[id e := (0.0%Q, x e, y e)]> tm, e)
                         else
                           if Qleb MovementSystem.STUCK_THRESHOLD (timer + dt)
                           then (delete (id e)
                                   (<[id e := ((timer + dt)%Q, last_x, last_y)]> tm),
                                 MovementSystem._unstick_unit w e)
                           else (<[id e := ((timer + dt)%Q, last_x, last_y)]> tm,
                                 e)
                     end))).
  { intros tm. destruct (tm !! id e) as [[[timer lx] ly] |];
      [| apply same_unit_refl].
    destruct (Qltb _ _); [apply same_unit_refl |].
    destruct (Qleb _ _); [apply same_unit_unstick | apply same_unit_refl]. }
  destruct (destination u) as [d |] eqn:Hd.
  - split; [apply Hgo |]. intros Hno Hal.
    unfold has_orders in Hno. rewrite Hal, Hu, Hd in Hno. discriminate.
  - destruct (path u) as [| p ps] eqn:Hp.
    + simpl. split; [apply same_unit_refl | reflexivity].
    + split; [apply Hgo |]. intros Hno Hal.
      unfold has_orders in Hno. rewrite Hal, Hu, Hd, Hp in Hno. discriminate.
Qed.

Lemma move_unit_same (fuel : nat) (ms : MovementSystem.t) (w : World.t)
    (dt : Q) (e e' : Entity) (u : UnitData) :
  MovementSystem.move_unit sqrt atan2_degrees fuel ms w dt e u = Some e' ->
  same_unit e e' /\ (destination u = None -> path u = [] -> e' = e).
Proof.
  unfold MovementSystem.move_unit.
  assert (Hpath : forall p a, same_unit a (map_unit (u_set_path p) a))
    by (intros; apply same_unit_map_unit; reflexivity).
  assert (Hdest : forall d a, same_unit a (map_unit (u_set_destination d) a))
    by (intros; apply same_unit_map_unit; reflexivity).
  assert (Hangle : forall q a, same_unit a (map_unit (u_set_angle q) a))
    by (intros; apply same_unit_map_unit; reflexivity).
  destruct (path u) as [| next_waypoint rest] eqn:Hp.
  - destruct (destination u) as [dest |] eqn:Hd.
    + destruct (Qltb _ 0.5).
      * intros [= <-]. split; [apply Hdest | discriminate].
      * destruct (MovementSystem.pathfinder ms) as [pf |].
        -- destruct (PathFinder.find_path _ _ _ _) as [p |]; simpl;
             [| discriminate].
           destruct p as [| t p]; intros [= <-]; (split; [| discriminate]).
           ++ eapply same_unit_trans; [apply Hangle |].
              eapply same_unit_trans; [apply Hpath | apply Hdest].
           ++ eapply same_unit_trans; [apply Hangle | apply Hpath].
        -- intros [= <-]. split; [apply Hangle | discriminate].
    + intros [= <-]. split; [apply same_unit_refl | reflexivity].
  - destruct (Qltb _ 0.5).
    + intros [= <-]. split; [apply Hpath | discriminate].
    + destruct (Qltb 0 _).
      * destruct (MovementSystem._is_walkable _ _ _).
        -- intros [= <-]. split; [| discriminate].
           eapply same_unit_trans; [apply Hangle | apply same_unit_set_xy].
        -- destruct (destination u) as [dest |].
           ++ destruct (MovementSystem.pathfinder ms) as [pf |].
              ** destruct (PathFinder.find_path _ _ _ _) as [p |]; simpl;
                   [| discriminate].
                 intros [= <-]. split; [| discriminate].
                 eapply same_unit_trans; [apply Hangle |].
                 eapply same_unit_trans; [apply Hpath | apply Hpath].
              ** intros [= <-]. split; [| discriminate].
                 eapply same_unit_trans; [apply Hangle | apply Hpath].
           ++ intros [= <-]. split; [| discriminate].
              eapply same_unit_trans; [apply Hangle | apply Hpath].
      * intros [= <-]. split; [apply same_unit_refl | discriminate].
Qed.

(** What the movement loop keeps, from one loop state to a later one. *)
Definition movement_frame (s s' : MovementSystem.t * World.t) : Prop :=
  Forall2 only_moved (World.entities (snd s)) (World.entities (snd s')) /\
  only_entities_differ (snd s) (snd s').

Lemma movement_visit_frame (fuel : nat) (dt : Q) (eid : Z)
    (s s' : MovementSystem.t * World.t) :
  MovementSystem.update_entity sqrt atan2_degrees fuel dt eid s = Some s' ->
  movement_frame s s'.
Proof.
  destruct s as [ms w]. unfold MovementSystem.update_entity, movement_frame.
  assert (Hsame : Forall2 only_moved (World.entities w) (World.entities w) /\
                  only_entities_differ w w).
  { split; [apply Forall2_refl_list, only_moved_refl |].
    apply only_entities_differ_refl. }
  destruct (World.get_entity w eid) as [entity |] eqn:He;
    [| intros [= <-]; exact Hsame].
  destruct (unit_data entity) as [u |] eqn:Hu;
    [| intros [= <-]; exact Hsame].
  destruct (alive entity) eqn:Hal; [| intros [= <-]; exact Hsame].
  pose proof (stuck_detection_same w dt (MovementSystem._stuck_timers ms)
                entity u Hu) as Hst. cbv zeta in Hst.
  destruct (MovementSystem._update_stuck_detection sqrt w dt
              (MovementSystem._stuck_timers ms) entity u)
    as [timers entity1]. simpl in Hst. destruct Hst as [H01 Hs01].
  destruct (unit_data entity1) as [u1 |] eqn:Hu1; simpl; [| discriminate].
  destruct (MovementSystem.move_unit sqrt atan2_degrees fuel _ w dt entity1 u1)
    as [entity2 |] eqn:Hmove; simpl; [| discriminate].
  intros [= <-]. simpl.
  apply move_unit_same in Hmove. destruct Hmove as [H12 Hs12].
  split; [| reflexivity].
  apply (put_entity_related only_moved only_moved_refl entity).
  - destruct H01 as (Hi1 & _), H12 as (Hi2 & _).
    rewrite Hi2, Hi1. destruct (dict_get_Some _ _ _ _ He) as [_ ->]. exact He.
  - split; [apply (same_unit_trans _ _ _ H01 H12) |].
    intros Hno. rewrite (Hs01 Hno Hal) in *.
    rewrite Hu in Hu1. injection Hu1 as <-.
    unfold has_orders in Hno. rewrite Hal, Hu in Hno. simpl in Hno.
    destruct (destination u) eqn:Hd; [discriminate |].
    destruct (path u) eqn:Hp; [| discriminate].
    apply Hs12; reflexivity.
Qed.

Lemma movement_loop_frame (fuel : nat) (dt : Q) (ids : list Z)
    (s s' : MovementSystem.t * World.t) :
  for_each_id (MovementSystem.update_entity sqrt atan2_degrees fuel dt) ids s
    = Some s' ->
  movement_frame s s'.
Proof.
  apply (for_each_id_preorder movement_frame).
  - intros s0. split; [apply Forall2_refl_list, only_moved_refl |].
    apply only_entities_differ_refl.
  - intros s1 s2 s3 [H12 Hw12] [H23 Hw23]. split.
    + apply (Forall2_compose _ _ _ _ _ _ only_moved_trans H12 H23).
    + apply (only_entities_differ_trans _ _ _ Hw12 Hw23).
  - intros i. apply movement_visit_frame.
Qed.

End MovementFrame.

(** [MovementSystem.update] only moves.  The world changes in its entity
    table only, which keeps its entries in their order; each entry keeps its
    id, team, hit points, life, class, worker, soldier and building data,
    and the speed, vision and target of a unit; and an entity that is not a
    living unit with a destination or a path is left exactly as it is. *)
Theorem movement_only_moves
    (sqrt : Q -> Q) (atan2_degrees : Q -> Q -> Q) (fuel : nat) (dt : Q)
    (ms ms' : MovementSystem.t) (w w' : World.t) :
  MovementSystem.update sqrt atan2_degrees fuel dt ms w = Some (ms', w') ->
  w' = World.set_entities (World.entities w') w /\
  Forall2
    (fun e e' =>
       id e' = id e /\ team e' = team e /\ hp e' = hp e /\
       max_hp e' = max_hp e /\ alive e' = alive e /\ kind e' = kind e /\
       worker_data e' = worker_data e /\ soldier_data e' = soldier_data e /\
       building_data e' = building_data e /\
       unit_constants <$> unit_data e' = unit_constants <$> unit_data e /\
       (has_orders e = false -> e' = e))
    (World.entities w) (World.entities w').
Proof.
  unfold MovementSystem.update. intros Hrun.
  apply movement_loop_frame in Hrun. destruct Hrun as [Hall Hframe].
  split; [exact Hframe |].
  apply (Forall2_impl _ _ _ _ Hall).
  intros e e' [Hsame Hstay]. unfold same_unit in Hsame. tauto.
Qed.

Lemma movement_only_moves_witness :
  exists ms' w',
    MovementSystem.update example_sqrt example_atan2_degrees 0 (1 # 30)
      MovementSystem.init walking_world = Some (ms', w') /\
    w' = World.set_entities (World.entities w') walking_world /\
    Forall2
      (fun e e' =>
         id e' = id e /\ team e' = team e /\ hp e' = hp e /\
         max_hp e' = max_hp e /\ alive e' = alive e /\ kind e' = kind e /\
         worker_data e' = worker_data e /\ soldier_data e' = soldier_data e /\
         building_data e' = building_data e /\
         unit_constants <$> unit_data e' = unit_constants <$> unit_data e /\
         (has_orders e = false -> e' = e))
      (World.entities walking_world) (World.entities w').
Proof.
  destruct (MovementSystem.update example_sqrt example_atan2_degrees 0
              (1 # 30) MovementSystem.init walking_world)
    as [[ms' w'] |] eqn:Hrun; [| vm_compute in Hrun; discriminate].
  exists ms', w'. split; [reflexivity |].
  exact (movement_only_moves example_sqrt example_atan2_degrees 0 (1 # 30)
           MovementSystem.init ms' walking_world w' Hrun).
Defined.

(** ** Unsticking a unit (systems.py) *)

(** The tile [t] is free for the entity: walkable, and no other living
    entity stands less than 1 from the point [(tx, ty)]. *)
Definition free_for (w : World.t) (gm : GameMap.t) (entity : Entity)
    (t : Tile) : Prop :=
  GameMap.is_walkable gm (fst t) (snd t) = true /\
  forall other,
    In other (World.entities w) -> id other <> id entity ->
    alive other = true ->
    (1 <= dist_sq (x other) (y other) (inject_Z (fst t)) (inject_Z (snd t)))%Q.

Lemma free_for_test (w : World.t) (gm : GameMap.t) (entity : Entity)
    (t : Tile) :
  GameMap.is_walkable gm (fst t) (snd t) &&
  negb (MovementSystem.occupied w entity (fst t) (snd t)) = true <->
  free_for w gm entity t.
Proof.
  unfold free_for, MovementSystem.occupied.
  rewrite andb_true_iff, negb_true_iff. split.
  - intros [Hw Hocc]. split; [exact Hw |].
    intros other Hin Hid Hal.
    destruct (Qltb (dist_sq (x other) (y other) (inject_Z (fst t))
                      (inject_Z (snd t))) 1.0) eqn:Hlt;
      [| apply Qltb_ge in Hlt; lra].
    exfalso. apply not_true_iff_false in Hocc. apply Hocc.
    apply existsb_exists. exists other. split; [exact Hin |].
    rewrite Hal, Hlt. apply Z.eqb_neq in Hid. rewrite Hid. reflexivity.
  - intros [Hw Hfree]. split; [exact Hw |].
    apply not_true_iff_false. intros Hocc.
    apply existsb_exists in Hocc. destruct Hocc as (other & Hin & Ht).
    apply andb_true_iff in Ht. destruct Ht as [Ht Hlt].
    apply andb_true_iff in Ht. destruct Ht as [Hid Hal].
    apply negb_true_iff, Z.eqb_neq in Hid. apply Qltb_lt in Hlt.
    specialize (Hfree other Hin Hid Hal). lra.
Qed.

Lemma unstick_radii_ascending : ascending (py_range 1 5).
Proof.
  change (py_range 1 5) with [1; 2; 3; 4]. simpl.
  repeat split; repeat (constructor; [lia |]); constructor.
Qed.

(** [_unstick_unit] puts the unit on the nearest free tile.  Without a map
    the entity stays as it is.  With a map, which is taken to be
    rectangular so that no tile lookup raises, when some tile on the square
    rings of radius 1 to 4 around the tile of the entity is free, the
    entity is put at the centre of such a tile of the innermost ring that
    has one and its path is cleared; when there is none the entity stays as
    it is. *)
Theorem unstick_unit_moves_to_the_nearest_free_tile
    (w : World.t) (entity : Entity) :
  map_wf (World.game_map w) ->
  let current_tile := (py_int (x entity), py_int (y entity)) in
  let after := MovementSystem._unstick_unit w entity in
  match World.game_map w with
  | None => after = entity
  | Some gm =>
      (exists t,
         free_for w gm entity t /\
         1 <= chebyshev t current_tile <= 4 /\
         (forall t', 1 <= chebyshev t' current_tile < chebyshev t current_tile ->
                     ~ free_for w gm entity t') /\
         after = map_unit (u_set_path [])
                   (set_xy (py_float (fst t) + 0.5) (py_float (snd t) + 0.5)
                      entity) /\
         x after = (py_float (fst t) + 0.5)%Q /\
         y after = (py_float (snd t) + 0.5)%Q) \/
      ((forall t, 1 <= chebyshev t current_tile <= 4 ->
                  ~ free_for w gm entity t) /\
       after = entity)
  end.
Proof.
  intros _. cbv zeta. unfold MovementSystem._unstick_unit.
  destruct (World.game_map w) as [gm |]; [| reflexivity].
  set (cur := (py_int (x entity), py_int (y entity))).
  destruct (List.find _ _) as [[nx ny] |] eqn:Hfind.
  - left. exists (nx, ny).
    destruct (find_rings_first _ cur (nx, ny) _ unstick_radii_ascending Hfind)
      as (r & Hr & Hin & Hf & Hmin).
    apply py_range_In in Hr.
    apply (free_for_test w gm entity (nx, ny)) in Hf.
    pose proof (ring_In cur (nx, ny) r ltac:(lia) Hin) as Hd.
    split; [exact Hf |]. split; [lia |]. split.
    + intros t' Ht' Hfree'. apply free_for_test in Hfree'.
      rewrite (Hmin (chebyshev t' cur) t') in Hfree'; [discriminate | | |].
      * apply py_range_In. lia.
      * lia.
      * apply In_ring; [lia | reflexivity].
    + split; [reflexivity |].
      unfold map_unit, set_xy. destruct (body entity); split; reflexivity.
  - right. split; [| reflexivity].
    intros t Ht Hfree. apply free_for_test in Hfree.
    rewrite (find_none _ _ Hfind t) in Hfree; [discriminate |].
    apply in_flat_map. exists (chebyshev t cur).
    split; [apply py_range_In; lia |].
    apply In_ring; [lia | reflexivity].
Qed.

(** A worker caught in the middle of the rock block of [walking_world],
    whose corner tile (0, 0) is taken by the worker standing there. *)
Definition caught_worker : Entity := example_worker 7 1 (2.5, 2.5)%Q idle None.

Lemma unstick_unit_moves_to_the_nearest_free_tile_witness :
  map_wf (World.game_map walking_world) /\
  pos (MovementSystem._unstick_unit walking_world caught_worker)
    = (0.5, 1.5)%Q /\
  let current_tile := (2, 2) in
  let after := MovementSystem._unstick_unit walking_world caught_worker in
  (exists t,
     free_for walking_world rock_block_map caught_worker t /\
     1 <= chebyshev t current_tile <= 4 /\
     (forall t', 1 <= chebyshev t' current_tile < chebyshev t current_tile ->
                 ~ free_for walking_world rock_block_map caught_worker t') /\
     after = map_unit (u_set_path [])
               (set_xy (py_float (fst t) + 0.5) (py_float (snd t) + 0.5)
                  caught_worker) /\
     x after = (py_float (fst t) + 0.5)%Q /\
     y after = (py_float (snd t) + 0.5)%Q) \/
  ((forall t, 1 <= chebyshev t current_tile <= 4 ->
              ~ free_for walking_world rock_block_map caught_worker t) /\
   after = caught_worker).
Proof.
  split; [exact rock_block_map_wf |].
  split; [vm_compute; reflexivity |].
  exact (unstick_unit_moves_to_the_nearest_free_tile walking_world
           caught_worker rock_block_map_wf).
Defined.

(** ** Completed production (systems.py) *)

Lemma minerals_modify_entity (k : Z) (f : Entity -> Entity) (w : World.t) :
  World.minerals (modify_entity k f w) = World.minerals w.
Proof. unfold modify_entity. destruct (World.get_entity w k); reflexivity. Qed.

Lemma team_minerals_modify_entity (k : Z) (f : Entity -> Entity)
    (w : World.t) :
  World.team_minerals (modify_entity k f w) = World.team_minerals w.
Proof. unfold modify_entity. destruct (World.get_entity w k); reflexivity. Qed.

Lemma get_nearest_mineral_minerals (w w' : World.t) (px py : Q) :
  World.minerals w' = World.minerals w ->
  World.get_nearest_mineral w' px py = World.get_nearest_mineral w px py.
Proof. unfold World.get_nearest_mineral. intros ->. reflexivity. Qed.

Lemma choice_returns {A : Type} (l : list A) (r : Random.t) :
  l <> [] -> exists a, Random.choice l r = Some (a, Random.next r).
Proof.
  intros Hl. unfold Random.choice.
  destruct (nth_error l (Random.index r (Random.draws r) mod length l)%nat)
    as [a |] eqn:Ha.
  - exists a. reflexivity.
  - exfalso. apply nth_error_None in Ha.
    assert (length l <> 0%nat) by (destruct l; simpl; congruence).
    pose proof (Nat.mod_upper_bound (Random.index r (Random.draws r))
                  (length l)). lia.
Qed.

(** The orders a freshly produced unit gets: a worker is sent to the
    mineral patch [mineral], any unit without a patch to the rally point. *)
Definition sent_off (rally : option Pos) (mineral : option MineralPatch)
    (new_unit : Entity) : Entity :=
  let unit1 :=
    match rally with
    | Some rp => map_unit (u_set_destination (Some rp)) new_unit
    | None => new_unit
    end in
  match mineral with
  | Some m =>
      map_unit (u_set_destination (Some (m_pos m)))
        (map_worker (w_set_state moving_to_mineral)
           (map_worker (w_set_gather_target (Some (m_id m))) unit1))
  | None => unit1
  end.

Lemma sent_off_fields (rally : option Pos) (mineral : option MineralPatch)
    (e : Entity) :
  id (sent_off rally mineral e) = id e /\
  team (sent_off rally mineral e) = team e /\
  pos (sent_off rally mineral e) = pos e /\
  alive (sent_off rally mineral e) = alive e /\
  hp (sent_off rally mineral e) = hp e /\
  max_hp (sent_off rally mineral e) = max_hp e /\
  kind (sent_off rally mineral e) = kind e /\
  (is_unit e = true ->
   destination <$> unit_data (sent_off rally mineral e)
     = Some (match mineral with
             | Some m => Some (m_pos m)
             | None =>
                 match rally with
                 | Some rp => Some rp
                 | None => unit_data e ≫= destination
                 end
             end)).
Proof.
  unfold sent_off, map_unit, map_worker, kind, pos, is_unit, unit_data.
  destruct e as [i tm ex ey h mh al bd].
  destruct bd, rally, mineral; simpl; repeat split; discriminate.
Qed.

Section Completion.

Variable UNIT_STATS : gmap string UnitStat.
Variable BUILDING_STATS : gmap string BuildingStat.

Lemma create_unit_returns (unit_type : string) (stat : UnitStat)
    (eid team_ : Z) (p : Pos) :
  unit_type = "Worker"%string \/ unit_type = "Soldier"%string ->
  UNIT_STATS !! unit_type = Some stat ->
  exists e,
    create_entity UNIT_STATS BUILDING_STATS unit_type eid team_ p = Some e /\
    is_unit e = true /\ is_worker e = bool_decide (unit_type = "Worker"%string) /\
    hp e = us_hp stat /\ unit_data e ≫= destination = None.
Proof.
  unfold create_entity, new_Worker, new_Soldier.
  intros [-> | ->] Hstat; rewrite ?decide_True by reflexivity;
    rewrite ?decide_False by discriminate;
    rewrite ?decide_True by reflexivity; rewrite Hstat; simpl;
    eexists; (split; [reflexivity |]); repeat split.
Qed.

(** A building whose item in production is completed by this step: the
    state after [update_building]. *)
Lemma completion_step (dt : Q) (entity : Entity) (b : BuildingData)
    (s : ProductionSystem.LoopState) (unit_type : string)
    (rest : list string) (stat : UnitStat) :
  ids_below_next (ProductionSystem.world s) ->
  unit_interval_rng (ProductionSystem.rng s) ->
  World.get_entity (ProductionSystem.world s) (id entity) = Some entity ->
  production_queue b = unit_type :: rest ->
  unit_type = "Worker"%string \/ unit_type = "Soldier"%string ->
  UNIT_STATS !! unit_type = Some stat ->
  Qeqb (production_progress b) 0 = false ->
  Qeqb (build_time b) 0 = false ->
  (1 <= production_progress b + dt / build_time b)%Q ->
  let w := ProductionSystem.world s in
  let new_id := World.next_id w in
  exists s' new_unit name rank,
    ProductionSystem.update_building UNIT_STATS BUILDING_STATS dt entity b s
      = Some s' /\
    let w' := ProductionSystem.world s' in
    World.get_entity w' new_id = Some new_unit /\
    id new_unit = new_id /\ kind new_unit = unit_type /\
    team new_unit = team entity /\ alive new_unit = true /\
    hp new_unit = us_hp stat /\ max_hp new_unit = us_hp stat /\
    (x entity - 1 <= x new_unit <= x entity + 1)%Q /\
    y new_unit = (y entity + 2)%Q /\
    destination <$> unit_data new_unit
      = Some (match
                (if bool_decide (unit_type = "Worker"%string)
                 then World.get_nearest_mineral w (x new_unit) (y new_unit)
                 else None)
              with
              | Some m => Some (m_pos m)
              | None => rally_point b
              end) /\
    World.get_entity w' (id entity)
      = Some (map_building
                (fun _ =>
                   b_set_progress 0
                     (b_set_queue rest
                        (b_set_progress
                           (production_progress b + dt / build_time b)%Q
                           (b_set_waiting false b))))
                entity) /\
    (forall i, i <> id entity -> i <> new_id ->
               World.get_entity w' i = World.get_entity w i) /\
    World.next_id w' = new_id + 1 /\
    World.team_minerals w' = World.team_minerals w /\
    World.minerals w' = World.minerals w /\
    ProductionSystem.bus s'
      = ProductionSystem.bus s ++
        [SpawnEvent unit_type new_id (team entity) (pos new_unit);
         ProductionCompletedEvent (id entity) unit_type new_id (team entity)
           (pos new_unit);
         UnitReadyEvent new_id unit_type (team entity) name rank].
Proof.
  intros Hbelow Hrng Hget Hqueue Htype Hstat Hprog Hbt Hdone. cbv zeta.
  unfold ProductionSystem.update_building, Building.current_production.
  rewrite Hqueue. cbn [head]. rewrite Hstat. cbn [mbind option_bind].
  rewrite Hprog. unfold ProductionSystem.progress.
  cbn [build_time b_set_waiting]. rewrite Hbt.
  set (b1 := b_set_progress _ (b_set_waiting false b)).
  assert (Hfull : Qleb 1.0 (production_progress b1) = true).
  { apply Qleb_le. unfold b1. simpl. lra. }
  rewrite Hfull. unfold ProductionSystem.complete, Building.complete_production.
  assert (Hq1 : production_queue b1 = unit_type :: rest) by exact Hqueue.
  rewrite Hq1. cbn [mbind option_bind].
  set (b2 := b_set_progress 0 (b_set_queue rest b1)).
  set (entity1 := map_building (fun _ => b2) entity).
  set (w := ProductionSystem.world s) in *.
  set (w1 := World.put_entity entity1 w).
  destruct (Random.uniform (-1) 1 (ProductionSystem.rng s)) as [r rng1] eqn:Hr.
  assert (Hrb : (-1 <= r <= 1)%Q /\ rng1 = Random.next (ProductionSystem.rng s)).
  { unfold Random.uniform in Hr. injection Hr as <- <-.
    split; [| reflexivity]. specialize (Hrng (Random.draws (ProductionSystem.rng s))).
    lra. }
  destruct Hrb as [Hrb Hrng1].
  destruct (create_unit_returns unit_type stat (World.next_id w1) (team entity)
              ((x entity + r)%Q, (y entity + 2)%Q) Htype Hstat)
    as (new_unit & Hcreate & Hunit & Hworker & Hhp & Hnodest).
  pose proof (create_entity_fields _ _ _ _ _ _ _ Hcreate)
    as (Hid & Hteam & Hpos & Halive & Hmax & Hkind).
  unfold World.spawn_entity. rewrite Hcreate. cbn [mbind option_bind].
  destruct (choice_returns WORKER_NAMES rng1 ltac:(discriminate))
    as [unit_name Hname].
  rewrite Hname. cbn [mbind option_bind].
  assert (Hnext1 : World.next_id w1 = World.next_id w) by reflexivity.
  assert (Hne : id entity <> World.next_id w).
  { destruct (dict_get_Some _ _ _ _ Hget) as [Hin _].
    specialize (Hbelow entity Hin). fold w in Hbelow. lia. }
  set (w2 := World.set_next_id (World.next_id w1 + 1)
               (World.put_entity new_unit w1)).
  assert (Hnew2 : World.get_entity w2 (id new_unit) = Some new_unit)
    by apply get_put_entity_eq.
  assert (Hold2 : forall i, i <> id new_unit -> i <> id entity ->
                            World.get_entity w2 i = World.get_entity w i).
  { intros i Hi1 Hi2.
    change (World.get_entity (World.put_entity new_unit w1) i
            = World.get_entity w i).
    rewrite get_put_entity_ne by exact Hi1.
    apply get_put_entity_ne. unfold entity1. rewrite id_map_building.
    exact Hi2. }
  assert (Hbase2 : World.get_entity w2 (id entity) = Some entity1).
  { change (World.get_entity (World.put_entity new_unit w1) (id entity)
            = Some entity1).
    rewrite get_put_entity_ne by (rewrite Hid, Hnext1; exact Hne).
    replace (id entity) with (id entity1)
      by (unfold entity1; apply id_map_building).
    apply get_put_entity_eq. }
  (* the orders of the new unit *)
  set (mineral :=
         if bool_decide (unit_type = "Worker"%string)
         then World.get_nearest_mineral w (x new_unit) (y new_unit)
         else None).
  set (final := sent_off (rally_point b) mineral new_unit).
  match goal with
  | |- exists s' nu name rank, mbind _ ?o = Some s' /\ _ =>
      assert (Hev : exists rank rng3,
                 o = Some (publish
                             (UnitReadyEvent (id new_unit) unit_type
                                (team entity) unit_name rank)
                             (publish
                                (ProductionCompletedEvent (id entity)
                                   unit_type (id new_unit) (team entity)
                                   (pos new_unit))
                                (publish
                                   (SpawnEvent unit_type (id new_unit)
                                      (team entity)
                                      ((x entity + r)%Q, (y entity + 2)%Q))
                                   (ProductionSystem.bus s))), rng3))
  end.
  { destruct Htype as [-> | ->].
    - rewrite decide_True by reflexivity. eauto.
    - rewrite decide_False by discriminate.
      rewrite decide_True by reflexivity.
      destruct (choice_returns SOLDIER_RANKS (Random.next rng1)
                  ltac:(discriminate)) as [unit_rank Hrank].
      rewrite Hrank. cbn [mbind option_bind]. eauto. }
  destruct Hev as (rank & rng3 & Hev). rewrite Hev. cbn [mbind option_bind].
  eexists. exists final, unit_name, rank. split; [reflexivity |].
  cbn [ProductionSystem.world ProductionSystem.bus].
  (* the world after the orders *)
  set (w3 := match rally_point b2 with
             | Some rp =>
                 modify_entity (id new_unit)
                   (map_unit (u_set_destination (Some rp))) w2
             | None => w2
             end).
  assert (Hrally : rally_point b2 = rally_point b) by reflexivity.
  set (unit1 := match rally_point b with
                | Some rp => map_unit (u_set_destination (Some rp)) new_unit
                | None => new_unit
                end).
  assert (H3 : World.get_entity w3 (id new_unit) = Some unit1 /\
               (forall i, i <> id new_unit ->
                          World.get_entity w3 i = World.get_entity w2 i) /\
               World.next_id w3 = World.next_id w2 /\
               World.minerals w3 = World.minerals w /\
               World.team_minerals w3 = World.team_minerals w).
  { unfold w3, unit1. rewrite Hrally. destruct (rally_point b) as [rp |].
    - split; [apply get_modify_entity_eq;
              [exact Hnew2 | apply id_map_unit] |].
      split; [intros i Hi; apply get_modify_entity_ne;
              [exact Hi | intros; apply id_map_unit] |].
      split; [apply next_id_modify |].
      split; [rewrite minerals_modify_entity; reflexivity |
              rewrite team_minerals_modify_entity; reflexivity].
    - repeat split; try reflexivity. exact Hnew2. }
  destruct H3 as (Hnew3 & Hold3 & Hnext3 & Hmin3 & Htm3).
  assert (Hid1 : id unit1 = id new_unit)
    by (unfold unit1; destruct (rally_point b);
        [apply id_map_unit | reflexivity]).
  assert (Hxy : x new_unit = (x entity + r)%Q /\ y new_unit = (y entity + 2)%Q).
  { unfold pos in Hpos. injection Hpos as Hx Hy. auto. }
  match goal with
  | |- World.get_entity ?wfinal _ = _ /\ _ => set (w4 := wfinal)
  end.
  assert (H4 : World.get_entity w4 (id new_unit) = Some final /\
               (forall i, i <> id new_unit ->
                          World.get_entity w4 i = World.get_entity w3 i) /\
               World.next_id w4 = World.next_id w3 /\
               World.minerals w4 = World.minerals w /\
               World.team_minerals w4 = World.team_minerals w).
  { unfold w4, final, sent_off, mineral. fold unit1.
    rewrite Hworker.
    destruct (bool_decide (unit_type = "Worker"%string));
      [| repeat split; assumption].
    rewrite (get_nearest_mineral_minerals w w3) by exact Hmin3.
    destruct (World.get_nearest_mineral w (x new_unit) (y new_unit))
      as [m |]; [| repeat split; assumption].
    split.
    { rewrite (get_modify_entity_eq (id new_unit) _ w3 unit1 Hnew3);
        [reflexivity |].
      cbv beta. rewrite id_map_unit, !id_map_worker. reflexivity. }
    split.
    { intros i Hi. apply get_modify_entity_ne; [exact Hi |].
      intros e. rewrite id_map_unit, !id_map_worker. reflexivity. }
    split; [apply next_id_modify |].
    split; [rewrite minerals_modify_entity; exact Hmin3 |
            rewrite team_minerals_modify_entity; exact Htm3]. }
  destruct H4 as (Hnew4 & Hold4 & Hnext4 & Hmin4 & Htm4).
  destruct (sent_off_fields (rally_point b) mineral new_unit)
    as (Hf1 & Hf2 & Hf3 & Hf4 & Hf5 & Hf6 & Hf7 & Hf8).
  fold final in Hf1, Hf2, Hf3, Hf4, Hf5, Hf6, Hf7, Hf8.
  assert (Hfxy : x final = x new_unit /\ y final = y new_unit).
  { unfold pos in Hf3. injection Hf3 as Hx Hy. auto. }
  destruct Hfxy as [Hfx Hfy]. destruct Hxy as [Hx Hy].
  rewrite <- Hnext1, <- Hid.
  split; [exact Hnew4 |]. split; [exact Hf1 |].
  split; [congruence |]. split; [congruence |]. split; [congruence |].
  split; [congruence |]. split; [congruence |].
  split; [rewrite Hfx, Hx; lra |].
  split; [congruence |].
  split.
  { rewrite (Hf8 Hunit), Hnodest, Hfx, Hfy. fold mineral.
    destruct mineral; [reflexivity |].
    destruct (rally_point b); reflexivity. }
  split.
  { rewrite Hold4, Hold3 by (rewrite Hid, Hnext1; exact Hne). exact Hbase2. }
  split.
  { intros i Hi1 Hi2. rewrite Hold4, Hold3 by exact Hi2.
    apply Hold2; assumption. }
  split; [rewrite Hnext4, Hnext3, Hid; reflexivity |].
  split; [exact Htm4 |]. split; [exact Hmin4 |].
  unfold publish. rewrite <- !app_assoc. simpl.
  rewrite Hf3. unfold pos. rewrite Hx, Hy. reflexivity.
Qed.

(** A building completes its item in production.  Let the living building
    [entity] of a world whose ids are below [next_id] have [unit_type]
    (Worker or Soldier, with an entry in UNIT_STATS) at the head of its
    queue, production under way (progress not 0), and let this step bring
    the progress to 1 or more.  Then the loop body of
    [ProductionSystem.update] returns, and afterwards: a new living entity
    of that type and of the building's team, with full hit points, is in
    the table under the id [next_id], at most 1 to the left or right of
    the building and 2 below it; it is sent to the nearest mineral patch if
    it is a worker and there is one, and to the rally point of the building
    otherwise; the building has the rest of the queue and progress 0; no
    other entity, no patch and no team total has changed; and the events
    Spawn, ProductionCompleted and UnitReady were published in this
    order. *)
Theorem completed_production_spawns_the_queued_unit
    (dt : Q) (entity : Entity) (b : BuildingData)
    (s : ProductionSystem.LoopState) (unit_type : string)
    (rest : list string) (stat : UnitStat) :
  ids_below_next (ProductionSystem.world s) ->
  unit_interval_rng (ProductionSystem.rng s) ->
  World.get_entity (ProductionSystem.world s) (id entity) = Some entity ->
  alive entity = true ->
  building_data entity = Some b ->
  production_queue b = unit_type :: rest ->
  unit_type = "Worker"%string \/ unit_type = "Soldier"%string ->
  UNIT_STATS !! unit_type = Some stat ->
  Qeqb (production_progress b) 0 = false ->
  Qeqb (build_time b) 0 = false ->
  (1 <= production_progress b + dt / build_time b)%Q ->
  let w := ProductionSystem.world s in
  let new_id := World.next_id w in
  exists s' new_unit name rank,
    ProductionSystem.update_entity UNIT_STATS BUILDING_STATS dt (id entity) s
      = Some s' /\
    let w' := ProductionSystem.world s' in
    World.get_entity w' new_id = Some new_unit /\
    id new_unit = new_id /\ kind new_unit = unit_type /\
    team new_unit = team entity /\ alive new_unit = true /\
    hp new_unit = us_hp stat /\ max_hp new_unit = us_hp stat /\
    (x entity - 1 <= x new_unit <= x entity + 1)%Q /\
    y new_unit = (y entity + 2)%Q /\
    destination <$> unit_data new_unit
      = Some (match
                (if bool_decide (unit_type = "Worker"%string)
                 then World.get_nearest_mineral w (x new_unit) (y new_unit)
                 else None)
              with
              | Some m => Some (m_pos m)
              | None => rally_point b
              end) /\
    World.get_entity w' (id entity)
      = Some (map_building
                (fun _ =>
                   b_set_progress 0
                     (b_set_queue rest
                        (b_set_progress
                           (production_progress b + dt / build_time b)%Q
                           (b_set_waiting false b))))
                entity) /\
    (forall i, i <> id entity -> i <> new_id ->
               World.get_entity w' i = World.get_entity w i) /\
    World.next_id w' = new_id + 1 /\
    World.team_minerals w' = World.team_minerals w /\
    World.minerals w' = World.minerals w /\
    ProductionSystem.bus s'
      = ProductionSystem.bus s ++
        [SpawnEvent unit_type new_id (team entity) (pos new_unit);
         ProductionCompletedEvent (id entity) unit_type new_id (team entity)
           (pos new_unit);
         UnitReadyEvent new_id unit_type (team entity) name rank].
Proof.
  intros Hbelow Hrng Hget Halive Hb Hqueue Htype Hstat Hprog Hbt Hdone.
  unfold ProductionSystem.update_entity. rewrite Hget, Hb, Halive.
  apply completion_step; assumption.
Qed.

End Completion.

(** A base of team 1 whose worker in production is nearly finished, next
    to the patch at the origin. *)
Definition busy_base_data : BuildingData :=
  {| b_vision := 8; production_queue := ["Worker"%string];
     production_progress := 0.9; rally_point := None;
     b_waiting_for_minerals := false; build_time := 8 |}.

Definition busy_base : Entity :=
  new_entity 1 1 (5, 5)%Q 1000 (IsBase busy_base_data).

Definition busy_state : ProductionSystem.LoopState :=
  {| ProductionSystem.world :=
       example_world [busy_base] [example_patch] None 50;
     ProductionSystem.bus := [];
     ProductionSystem.rng := example_rng |}.

Lemma completed_production_spawns_the_queued_unit_witness :
  exists s' new_unit,
    ProductionSystem.update_entity example_unit_stats example_building_stats
      1 1 busy_state = Some s' /\
    World.get_entity (ProductionSystem.world s') 100 = Some new_unit /\
    kind new_unit = "Worker"%string /\ team new_unit = 1 /\
    y new_unit = (5 + 2)%Q /\
    (production_queue <$>
       (World.get_entity (ProductionSystem.world s') 1 ≫= building_data))
      = Some [] /\
    World.next_id (ProductionSystem.world s') = 101.
Proof.
  assert (Hbelow : ids_below_next (ProductionSystem.world busy_state)).
  { intros e [<- | []]. simpl. lia. }
  destruct (completed_production_spawns_the_queued_unit example_unit_stats
              example_building_stats 1 busy_base busy_base_data busy_state
              "Worker" [] example_worker_stat Hbelow
              example_rng_unit_interval eq_refl eq_refl eq_refl eq_refl
              (or_introl eq_refl) eq_refl eq_refl eq_refl
              ltac:(vm_compute; discriminate))
    as (s' & new_unit & name & rank & Hrun & Hnew & _ & Hkind & Hteam & _ & _
        & _ & _ & Hy & _ & Hbase & _ & Hnext & _).
  exists s', new_unit. split; [exact Hrun |]. split; [exact Hnew |].
  split; [exact Hkind |]. split; [exact Hteam |]. split; [exact Hy |].
  split; [| exact Hnext].
  change (id busy_base) with 1 in Hbase. rewrite Hbase. reflexivity.
Defined.

(** ** Placing a building (systems.py) *)

(** The ids of the buildings announced by BuildingPlacedEvents, in order. *)
Definition placed_ids (bus : EventBus) : list Z :=
  omap (fun ev => match ev with
                  | BuildingPlacedEvent i _ _ _ _ => Some i
                  | _ => None
                  end) bus.

Lemma placed_ids_publish (ev : Event) (bus : EventBus) :
  placed_ids (publish ev bus) = placed_ids bus ++ placed_ids [ev].
Proof. unfold placed_ids, publish. apply omap_app. Qed.

Lemma is_buildable_square (gm : GameMap.t) (tx ty dx dy : Z) :
  GameMap.is_buildable gm tx ty 2 = true ->
  0 <= dx < 2 -> 0 <= dy < 2 ->
  GameMap.is_walkable gm (tx + dx) (ty + dy) = true.
Proof.
  unfold GameMap.is_buildable. intros Hb Hdx Hdy.
  rewrite forallb_forall in Hb.
  specialize (Hb dy (proj2 (py_range_In 0 2 dy) Hdy)).
  rewrite forallb_forall in Hb.
  apply (Hb dx (proj2 (py_range_In 0 2 dx) Hdx)).
Qed.

Lemma site_free (w : World.t) (entity : Entity) (bx by_ : Q) :
  BuildingPlacementSystem.occupied w entity bx by_ = false ->
  forall other,
    In other (World.entities w) -> alive other = true ->
    id other <> id entity ->
    (2 <= dist_sq (x other) (y other) bx by_)%Q.
Proof.
  unfold BuildingPlacementSystem.occupied. intros Hocc other Hin Hal Hid.
  destruct (Qltb (dist_sq (x other) (y other) bx by_) 2.0) eqn:Hlt;
    [| apply Qltb_ge in Hlt; lra].
  exfalso. apply not_true_iff_false in Hocc. apply Hocc.
  apply existsb_exists. exists other. split; [exact Hin |].
  rewrite Hal, Hlt. apply Z.eqb_neq in Hid. rewrite Hid. reflexivity.
Qed.

Section Placement.

Variable UNIT_STATS : gmap string UnitStat.
Variable BUILDING_STATS : gmap string BuildingStat.
Variable sqrt : Q -> Q.

(** The step placed nothing and charged nothing. *)
Definition nothing_placed (w w' : World.t) (bus bus' : EventBus) : Prop :=
  World.team_minerals w' = World.team_minerals w /\
  World.next_id w' = World.next_id w /\
  placed_ids bus' = placed_ids bus.

(** The step placed the building [new_building] of type [building_type] at
    [(bx, by_)] for the worker [worker] and charged its cost. *)
Definition building_placed (w w' : World.t) (bus bus' : EventBus)
    (worker : Entity) (building_type : string) (bx by_ : Q)
    (new_building : Entity) : Prop :=
  exists gm stat total,
    World.game_map w = Some gm /\
    (forall dx dy, 0 <= dx < 2 -> 0 <= dy < 2 ->
       GameMap.is_walkable gm (py_int bx + dx) (py_int by_ + dy) = true) /\
    (forall other,
       In other (World.entities w) -> alive other = true ->
       id other <> id worker ->
       (2 <= dist_sq (x other) (y other) bx by_)%Q) /\
    BUILDING_STATS !! building_type = Some stat /\
    World.team_minerals w !! team worker = Some total /\
    bs_cost stat <= total /\
    World.team_minerals w'
      = <[team worker := total - bs_cost stat]> (World.team_minerals w) /\
    World.next_id w' = World.next_id w + 1 /\
    World.get_entity w' (World.next_id w) = Some new_building /\
    kind new_building = building_type /\
    team new_building = team worker /\
    pos new_building = (bx, by_) /\
    alive new_building = true /\
    placed_ids bus' = placed_ids bus ++ [World.next_id w] /\
    (World.get_entity w' (id worker) ≫= worker_data) ≫= build_target = None.

Lemma construct_pays (dt : Q) (entity : Entity) (wd : WorkerData)
    (building_type : string) (bx by_ : Q) (gm : GameMap.t)
    (bp bp' : BuildingPlacementSystem.t) (w w' : World.t)
    (bus bus' : EventBus) :
  ids_below_next w ->
  World.get_entity w (id entity) = Some entity ->
  worker_data entity = Some wd ->
  World.game_map w = Some gm ->
  GameMap.is_buildable gm (py_int bx) (py_int by_) 2 = true ->
  BuildingPlacementSystem.construct UNIT_STATS BUILDING_STATS dt
    (map_unit (u_set_destination None) entity) building_type bx by_
    (bp, w, bus) = Some (bp', w', bus') ->
  nothing_placed w w' bus bus' \/
  exists new_building,
    building_placed w w' bus bus' entity building_type bx by_ new_building.
Proof.
  intros Hbelow Hget Hwd Hgm Hbuildable.
  unfold BuildingPlacementSystem.construct.
  set (entity0 := map_unit (u_set_destination None) entity).
  assert (Hid0 : id entity0 = id entity) by apply id_map_unit.
  assert (Hteam0 : team entity0 = team entity)
    by (unfold entity0, map_unit; destruct (body entity); reflexivity).
  destruct (BUILDING_STATS !! building_type) as [stat |] eqn:Hstat; simpl;
    [| discriminate].
  destruct (World.team_minerals w !! team entity0) as [total |] eqn:Htotal;
    simpl; [| discriminate].
  destruct (total <? bs_cost stat) eqn:Hcost.
  { destruct (_ && _); intros [= <- <- <-]; left; repeat split;
      rewrite ?placed_ids_publish; simpl; rewrite ?app_nil_r; reflexivity. }
  apply Z.ltb_ge in Hcost.
  set (bus1 := match BuildingPlacementSystem._build_timers bp !! id entity0 with
               | None => _
               | Some _ => bus
               end).
  assert (Hbus1 : placed_ids bus1 = placed_ids bus).
  { unfold bus1. destruct (_ !! id entity0); [reflexivity |].
    rewrite placed_ids_publish. apply app_nil_r. }
  destruct (BuildingPlacementSystem.occupied w entity0 bx by_) eqn:Hocc.
  { intros [= <- <- <-]. left. repeat split. exact Hbus1. }
  destruct (Qleb (bs_build_time stat) _);
    [| intros [= <- <- <-]; left; repeat split; exact Hbus1].
  cbn [mbind option_bind].
  set (entity1 := map_worker (w_set_waiting false) entity0).
  set (w1 := World.set_team_minerals _ (World.put_entity entity1 w)).
  destruct (World.spawn_entity UNIT_STATS BUILDING_STATS building_type
              (team entity0) (bx, by_) w1 bus1)
    as [[[w2 bus2] new_building] |] eqn:Hspawn; simpl; [| discriminate].
  intros [= <- <- <-]. right. exists new_building.
  unfold World.spawn_entity in Hspawn.
  destruct (create_entity UNIT_STATS BUILDING_STATS building_type
              (World.next_id w1) (team entity0) (bx, by_))
    as [created |] eqn:Hcreate; simpl in Hspawn; [| discriminate].
  injection Hspawn as <- <- <-.
  pose proof (create_entity_fields _ _ _ _ _ _ _ Hcreate)
    as (Hid & Hteam & Hpos & Halive & _ & Hkind).
  assert (Hnext1 : World.next_id w1 = World.next_id w) by reflexivity.
  assert (Hne : id entity <> World.next_id w).
  { destruct (dict_get_Some _ _ _ _ Hget) as [Hin _].
    specialize (Hbelow entity Hin). lia. }
  assert (Hid1 : id entity1 = id entity)
    by (unfold entity1; rewrite id_map_worker; exact Hid0).
  set (w2 := World.set_next_id (World.next_id w1 + 1)
               (World.put_entity created w1)).
  assert (Hworker2 : World.get_entity w2 (id entity0) = Some entity1).
  { change (World.get_entity (World.put_entity created w1) (id entity0)
            = Some entity1).
    rewrite get_put_entity_ne by (rewrite Hid, Hnext1, Hid0; exact Hne).
    change (World.get_entity (World.put_entity entity1 w) (id entity0)
            = Some entity1).
    rewrite Hid0, <- Hid1. apply get_put_entity_eq. }
  exists gm, stat, total.
  split; [exact Hgm |].
  split; [intros dx dy; apply is_buildable_square; exact Hbuildable |].
  split.
  { intros other Hin Hal Hother.
    apply (site_free w entity0); try assumption. congruence. }
  split; [exact Hstat |]. split; [rewrite <- Hteam0; exact Htotal |].
  split; [exact Hcost |]. split.
  { rewrite team_minerals_modify_entity. simpl.
    rewrite Hteam0. reflexivity. }
  split; [rewrite next_id_modify; reflexivity |].
  split.
  { rewrite get_modify_entity_ne.
    - rewrite <- Hnext1, <- Hid. apply get_put_entity_eq.
    - rewrite Hid0. congruence.
    - intros e. apply id_map_worker. }
  split; [exact Hkind |]. split; [congruence |]. split; [exact Hpos |].
  split; [exact Halive |]. split.
  { rewrite !placed_ids_publish, Hbus1. simpl. rewrite app_nil_r.
    rewrite Hid, Hnext1. reflexivity. }
  rewrite <- Hid0.
  rewrite (get_modify_entity_eq (id entity0) _ w2 entity1 Hworker2)
    by apply id_map_worker.
  simpl. unfold entity1, entity0, map_worker, map_unit, worker_data in *.
  destruct (body entity); try discriminate. reflexivity.
Qed.

End Placement.

(** [BuildingPlacementSystem.update] pays when it places, and places on
    buildable ground only.  In a world whose ids are below [next_id], the
    loop body for an entity either leaves the team totals and [next_id] as
    they are and publishes no BuildingPlaced event, or it places one
    building for a living worker with a build order: the 2 x 2 tiles at
    the site are walkable, no other living entity stands nearer than
    [sqrt 2] to the site, the team could afford the cost and is charged
    exactly the cost, the new building has the id [next_id], the ordered
    type, the worker's team and the ordered position, one BuildingPlaced
    event announces it, and the build order of the worker is cleared. *)
Theorem placement_pays_when_it_places
    (UNIT_STATS : gmap string UnitStat)
    (BUILDING_STATS : gmap string BuildingStat) (sqrt : Q -> Q) (dt : Q)
    (eid : Z) (bp bp' : BuildingPlacementSystem.t) (w w' : World.t)
    (bus bus' : EventBus) :
  ids_below_next w ->
  BuildingPlacementSystem.update_entity UNIT_STATS BUILDING_STATS sqrt dt eid
    (bp, w, bus) = Some (bp', w', bus') ->
  nothing_placed w w' bus bus' \/
  exists worker wd building_type bx by_ new_building,
    World.get_entity w eid = Some worker /\ alive worker = true /\
    worker_data worker = Some wd /\
    build_target wd = Some (building_type, bx, by_) /\
    building_placed BUILDING_STATS w w' bus bus' worker building_type bx by_
      new_building.
Proof.
  intros Hbelow. unfold BuildingPlacementSystem.update_entity.
  assert (Hquiet : nothing_placed w w bus bus) by (repeat split).
  destruct (World.get_entity w eid) as [entity |] eqn:Hget;
    [| intros [= <- <- <-]; left; exact Hquiet].
  destruct (worker_data entity) as [wd |] eqn:Hwd;
    [| intros [= <- <- <-]; left; exact Hquiet].
  destruct (alive entity) eqn:Halive;
    [| intros [= <- <- <-]; left; exact Hquiet].
  unfold BuildingPlacementSystem.update_worker.
  destruct (build_target wd) as [[[building_type bx] by_] |] eqn:Htarget;
    [| intros [= <- <- <-]; left; repeat split].
  destruct (World.game_map w) as [gm |] eqn:Hgm;
    [| intros [= <- <- <-]; left; repeat split].
  destruct (negb (_ && _ && _ && _));
    [intros [= <- <- <-]; left; repeat split |].
  destruct (GameMap.is_buildable gm (py_int bx) (py_int by_) 2) eqn:Hbuild;
    simpl; [| intros [= <- <- <-]; left; repeat split].
  destruct (Qltb 2.0 _); [intros [= <- <- <-]; left; repeat split |].
  intros Hconstruct.
  assert (Hid : id entity = eid) by apply (dict_get_Some _ _ _ _ Hget).
  rewrite <- Hid in Hget.
  destruct (construct_pays UNIT_STATS BUILDING_STATS dt entity wd
              building_type bx by_ gm bp bp' w w' bus bus' Hbelow Hget Hwd Hgm
              Hbuild Hconstruct) as [Hnone | [new_building Hplaced]].
  - left. exact Hnone.
  - right. exists entity, wd, building_type, bx, by_, new_building.
    rewrite Hid in Hget. auto.
Qed.

(** A 4 x 4 map of open ground, and on it a worker of team 1 (200
    minerals) ordered to build a Barracks (cost 150) next to it. *)
Definition meadow_map : GameMap.t :=
  {| GameMap.width := 4; GameMap.height := 4;
     GameMap.tiles :=
       [ [0; 0; 0; 0]; [0; 0; 0; 0]; [0; 0; 0; 0]; [0; 0; 0; 0] ];
     GameMap.mineral_positions := [] |}.

Definition builder_world : World.t :=
  example_world
    [map_worker (w_set_build_target (Some ("Barracks"%string, 2%Q, 2%Q)))
       (example_worker 1 1 (1, 1)%Q idle None)]
    [] (Some meadow_map) 200.

Lemma placement_pays_when_it_places_witness :
  ids_below_next builder_world /\
  exists bp' w' bus',
    BuildingPlacementSystem.update_entity example_unit_stats
      example_building_stats example_sqrt 20 1
      (BuildingPlacementSystem.init, builder_world, []) = Some (bp', w', bus') /\
    placed_ids bus' = [100] /\
    World.team_minerals w' !! 1 = Some 50 /\
    (nothing_placed builder_world w' [] bus' \/
     exists worker wd building_type bx by_ new_building,
       World.get_entity builder_world 1 = Some worker /\
       alive worker = true /\ worker_data worker = Some wd /\
       build_target wd = Some (building_type, bx, by_) /\
       building_placed example_building_stats builder_world w' [] bus' worker
         building_type bx by_ new_building).
Proof.
  assert (Hbelow : ids_below_next builder_world).
  { intros e [<- | []]. simpl. lia. }
  split; [exact Hbelow |].
  destruct (BuildingPlacementSystem.update_entity example_unit_stats
              example_building_stats example_sqrt 20 1
              (BuildingPlacementSystem.init, builder_world, []))
    as [[[bp' w'] bus'] |] eqn:Hrun; [| vm_compute in Hrun; discriminate].
  exists bp', w', bus'. split; [reflexivity |].
  pose proof Hrun as Hval. vm_compute in Hval. injection Hval as _ Hw Hbus.
  split; [rewrite <- Hbus; reflexivity |].
  split; [rewrite <- Hw; reflexivity |].
  exact (placement_pays_when_it_places example_unit_stats
           example_building_stats example_sqrt 20 1
           BuildingPlacementSystem.init bp' builder_world w' [] bus'
           Hbelow Hrun).
Defined.

(** ** Damage adds up (entities.py) *)

(** The entity after the hits [ds], in order. *)
Definition take_damages (ds : list Z) (e : Entity) : Entity :=
  fold_left (fun e d => take_damage d e) ds e.

Definition total_damage (ds : list Z) : Z := fold_right Z.add 0 ds.

Lemma take_damages_dead (ds : list Z) (e : Entity) :
  Forall (Z.le 0) ds -> alive e = false -> hp e = 0 ->
  alive (take_damages ds e) = false /\ hp (take_damages ds e) = 0.
Proof.
  intros Hds. revert e. induction Hds as [| d ds Hd _ IH]; intros e Ha Hh.
  - split; assumption.
  - apply IH; unfold take_damage; rewrite Hh;
      destruct (Z.leb_spec (0 - d) 0); simpl; try reflexivity; lia || assumption.
Qed.

Lemma take_damages_frame (ds : list Z) (e : Entity) :
  id (take_damages ds e) = id e /\ team (take_damages ds e) = team e /\
  pos (take_damages ds e) = pos e /\ max_hp (take_damages ds e) = max_hp e /\
  body (take_damages ds e) = body e.
Proof.
  revert e. induction ds as [| d ds IH]; intros e; [repeat split |].
  destruct (IH (take_damage d e)) as (H1 & H2 & H3 & H4 & H5).
  unfold take_damages in *. simpl.
  rewrite H1, H2, H3, H4, H5.
  unfold take_damage, pos. destruct (_ <=? 0); repeat split.
Qed.

(** Hits add up.  A living entity with hit points that takes hits of
    non-negative damage stays alive, with the hits deducted, as long as
    their sum stays below its hit points; it is dead with 0 hit points as
    soon as the sum reaches them, and stays so whatever hits follow.  The
    hits change nothing else. *)
Theorem damage_adds_up (ds : list Z) (e : Entity) :
  Forall (Z.le 0) ds -> alive e = true -> 0 < hp e ->
  let e' := take_damages ds e in
  (total_damage ds < hp e ->
   alive e' = true /\ hp e' = hp e - total_damage ds) /\
  (hp e <= total_damage ds -> alive e' = false /\ hp e' = 0) /\
  id e' = id e /\ team e' = team e /\ pos e' = pos e /\
  max_hp e' = max_hp e /\ body e' = body e.
Proof.
  intros Hds Ha Hh. cbv zeta.
  split; [| split; [| apply take_damages_frame]].
  - revert e Ha Hh. induction Hds as [| d ds Hd Hds IH]; intros e Ha Hh Hsum.
    + simpl in *. split; [exact Ha | lia].
    + simpl in Hsum.
      assert (Hnn : 0 <= total_damage ds).
      { clear -Hds. induction Hds; simpl; lia. }
      assert (Hstep : alive (take_damage d e) = true /\
                      hp (take_damage d e) = hp e - d).
      { unfold take_damage. destruct (Z.leb_spec (hp e - d) 0); [lia |].
        simpl. auto. }
      destruct Hstep as [Ha1 Hh1].
      destruct (IH (take_damage d e) Ha1 ltac:(lia) ltac:(lia)) as [Ha' Hh'].
      unfold take_damages in *. simpl. split; [exact Ha' |].
      rewrite Hh', Hh1. lia.
  - revert e Ha Hh. induction Hds as [| d ds Hd Hds IH]; intros e Ha Hh Hsum.
    + simpl in Hsum. lia.
    + simpl in Hsum. unfold take_damages. simpl.
      destruct (Z.leb_spec (hp e - d) 0) as [Hle | Hgt].
      * apply (take_damages_dead ds); [exact Hds | |];
          unfold take_damage; (destruct (Z.leb_spec (hp e - d) 0); [| lia]);
          reflexivity.
      * apply IH.
        -- unfold take_damage. destruct (Z.leb_spec (hp e - d) 0); [lia |].
           exact Ha.
        -- unfold take_damage. destruct (Z.leb_spec (hp e - d) 0); [lia |].
           simpl. lia.
        -- unfold take_damage. destruct (Z.leb_spec (hp e - d) 0); [lia |].
           simpl. lia.
Qed.

Lemma damage_adds_up_witness :
  Forall (Z.le 0) [10; 0; 25; 5; 30] /\
  alive (example_soldier 2 2 (5, 6)%Q) = true /\
  (let e' := take_damages [10; 0; 25] (example_soldier 2 2 (5, 6)%Q) in
   alive e' = true /\ hp e' = 45) /\
  (let e' := take_damages [10; 0; 25; 5; 30; 30]
               (example_soldier 2 2 (5, 6)%Q) in
   alive e' = false /\ hp e' = 0).
Proof.
  assert (H5 : Forall (Z.le 0) [10; 0; 25; 5; 30])
    by (repeat constructor; lia).
  assert (H3 : Forall (Z.le 0) [10; 0; 25]) by (repeat constructor; lia).
  assert (H6 : Forall (Z.le 0) [10; 0; 25; 5; 30; 30])
    by (repeat constructor; lia).
  split; [exact H5 |]. split; [reflexivity |]. split.
  - apply (proj1 (damage_adds_up [10; 0; 25] (example_soldier 2 2 (5, 6)%Q)
                    H3 eq_refl ltac:(simpl; lia))).
    simpl. lia.
  - apply (proj1 (proj2 (damage_adds_up [10; 0; 25; 5; 30; 30]
                           (example_soldier 2 2 (5, 6)%Q)
                           H6 eq_refl ltac:(simpl; lia)))).
    simpl. lia.
Defined.

(** ** The production queue is first in, first out (entities.py) *)

(** [queue_production] for each of [ts] in order: the building after the
    calls and the returned booleans. *)
Fixpoint queue_all (ts : list string) (b : BuildingData)
  : BuildingData * list bool :=
  match ts with
  | [] => (b, [])
  | t :: ts' =>
      let '(b1, ok) := Building.queue_production t b in
      let '(b2, oks) := queue_all ts' b1 in
      (b2, ok :: oks)
  end.

(** [n] calls of [complete_production]: the building after the calls and
    the returned values. *)
Fixpoint complete_n (n : nat) (b : BuildingData)
  : BuildingData * list (option string) :=
  match n with
  | O => (b, [])
  | S n' =>
      let '(b1, r) := Building.complete_production b in
      let '(b2, rs) := complete_n n' b1 in
      (b2, r :: rs)
  end.

Lemma queue_all_accepts (ts : list string) (b : BuildingData) :
  (length (production_queue b) + length ts <= Building.MAX_QUEUE_SIZE)%nat ->
  production_queue (fst (queue_all ts b)) = production_queue b ++ ts /\
  snd (queue_all ts b) = List.map (fun _ => true) ts /\
  production_progress (fst (queue_all ts b)) = production_progress b.
Proof.
  revert b. induction ts as [| t ts IH]; intros b Hlen; simpl.
  - rewrite app_nil_r. auto.
  - unfold Building.queue_production.
    destruct (Nat.ltb_spec (length (production_queue b))
                Building.MAX_QUEUE_SIZE) as [Hlt | Hge];
      [| simpl in Hlen; lia].
    specialize (IH (b_set_queue (production_queue b ++ [t]) b)).
    destruct (queue_all ts (b_set_queue (production_queue b ++ [t]) b))
      as [b2 oks]. simpl in *.
    destruct IH as (Hq & Hoks & Hp);
      [rewrite length_app; simpl; lia |].
    rewrite Hq, Hoks, Hp, <- app_assoc. auto.
Qed.

Lemma complete_n_drains (q : list string) (b : BuildingData) (extra : nat) :
  production_queue b = q ->
  production_queue (fst (complete_n (length q + extra) b)) = [] /\
  snd (complete_n (length q + extra) b)
    = List.map Some q ++ List.repeat None extra.
Proof.
  revert b. induction q as [| t q IH]; intros b Hq.
  - simpl. induction extra as [| n IHn]; simpl; [auto |].
    unfold Building.complete_production. rewrite Hq.
    destruct (complete_n n b) as [b2 rs]. simpl in *.
    destruct IHn as [Hq2 Hrs]. rewrite Hrs. auto.
  - simpl. unfold Building.complete_production. rewrite Hq.
    specialize (IH (b_set_progress 0 (b_set_queue q b)) eq_refl).
    destruct (complete_n (length q + extra)
                (b_set_progress 0 (b_set_queue q b))) as [b2 rs].
    simpl in *. destruct IH as [Hq2 Hrs]. rewrite Hrs. auto.
Qed.

(** The production queue is first in, first out.  When the items [ts] are
    queued on a building and the queue does not grow beyond
    MAX_QUEUE_SIZE, every call of [queue_production] returns True and the
    items are appended in order; the calls of [complete_production] then
    return the old items and the new ones in the order in which they were
    queued, and None once the queue is empty. *)
Theorem production_queue_is_first_in_first_out
    (ts : list string) (b : BuildingData) (extra : nat) :
  (length (production_queue b) + length ts <= Building.MAX_QUEUE_SIZE)%nat ->
  let queued := queue_all ts b in
  let drained :=
    complete_n (length (production_queue b ++ ts) + extra) (fst queued) in
  snd queued = List.map (fun _ => true) ts /\
  production_queue (fst queued) = production_queue b ++ ts /\
  snd drained
    = List.map Some (production_queue b ++ ts) ++ List.repeat None extra /\
  production_queue (fst drained) = [].
Proof.
  intros Hlen. cbv zeta.
  destruct (queue_all_accepts ts b Hlen) as (Hq & Hoks & _).
  destruct (complete_n_drains (production_queue b ++ ts)
              (fst (queue_all ts b)) extra Hq) as [Hempty Hrs].
  split; [exact Hoks |]. split; [exact Hq |]. split; [exact Hrs |].
  exact Hempty.
Qed.

Lemma production_queue_is_first_in_first_out_witness :
  snd (complete_n 4
         (fst (queue_all ["Soldier"%string; "Worker"%string]
                 busy_base_data)))
  = [Some "Worker"%string; Some "Soldier"%string; Some "Worker"%string; None].
Proof.
  assert (Hlen : (length (production_queue busy_base_data)
                  + length ["Soldier"%string; "Worker"%string]
                  <= Building.MAX_QUEUE_SIZE)%nat)
    by (vm_compute; lia).
  destruct (production_queue_is_first_in_first_out
              ["Soldier"%string; "Worker"%string] busy_base_data 1 Hlen)
    as (_ & _ & Hrs & _).
  exact Hrs.
Defined.
